(** * Graph materialization and bounded traversal (backend/db/crud.py)

    A shallow embedding of the graph side of [crud.py]: the RACI role
    helpers, node-id formatting and parsing, the full materializer
    [get_graph_network] and the n-hop traversal [get_entity_subgraph],
    followed by the properties stated for them.

    Conventions of the embedding.
    - Python [int] is [Z]; Python [str] is [string] (a byte string).  Case
      mapping and whitespace follow Python on the ASCII range; other bytes
      are left unchanged.
    - Python [set] is [gset]; a [dict] that is only read with [.get] is a
      [gmap]; a [dict] that is iterated keeps its insertion order and is an
      association list.
    - The store is a snapshot of its tables; a query is a filter over the
      table, in table order. *)

From stdpp Require Import gmap sets list strings pretty sorting.
From Stdlib Require Import Ascii.

Local Open Scope Z_scope.

(* ===================================================================== *)
(** ** Python string primitives *)
(* ===================================================================== *)

Module Py.

Definition code (c : ascii) : N := N_of_ascii c.

Definition is_upper (c : ascii) : bool :=
  ((65 <=? code c) && (code c <=? 90))%N.
Definition is_lower (c : ascii) : bool :=
  ((97 <=? code c) && (code c <=? 122))%N.
Definition is_digit (c : ascii) : bool :=
  ((48 <=? code c) && (code c <=? 57))%N.
(** [str.isspace] on the ASCII range: TAB..CR, FS..US and the blank. *)
Definition is_space (c : ascii) : bool :=
  (((9 <=? code c) && (code c <=? 13))
   || ((28 <=? code c) && (code c <=? 32)))%N.

Definition upper_char (c : ascii) : ascii :=
  if is_lower c then ascii_of_N (code c - 32) else c.
Definition lower_char (c : ascii) : ascii :=
  if is_upper c then ascii_of_N (code c + 32) else c.

Fixpoint map_chars (f : ascii → ascii) (s : string) : string :=
  match s with
  | EmptyString => EmptyString
  | String c s' => String (f c) (map_chars f s')
  end.

(** [s.upper()] and [s.lower()] *)
Definition upper : string → string := map_chars upper_char.
Definition lower : string → string := map_chars lower_char.

(** [s.capitalize()]: first character upper case, the rest lower case *)
Definition capitalize (s : string) : string :=
  match s with
  | EmptyString => EmptyString
  | String c s' => String (upper_char c) (lower s')
  end.

(** [s[:1]] *)
Definition take1 (s : string) : string :=
  match s with
  | EmptyString => EmptyString
  | String c _ => String c EmptyString
  end.

Definition is_empty (s : string) : bool :=
  match s with EmptyString => true | _ => false end.

Fixpoint lstrip (s : string) : string :=
  match s with
  | EmptyString => EmptyString
  | String c s' => if is_space c then lstrip s' else s
  end.

Fixpoint rstrip (s : string) : string :=
  match s with
  | EmptyString => EmptyString
  | String c s' =>
      let r := rstrip s' in
      if is_space c && is_empty r then EmptyString else String c r
  end.

(** [s.strip()] *)
Definition strip (s : string) : string := rstrip (lstrip s).

(** [s.rstrip(ch)] for a single character [ch] *)
Fixpoint rstrip_char (ch : ascii) (s : string) : string :=
  match s with
  | EmptyString => EmptyString
  | String c s' =>
      let r := rstrip_char ch s' in
      if bool_decide (c = ch) && is_empty r then EmptyString else String c r
  end.

(** [s.startswith(p)] *)
Fixpoint startswith (p s : string) : bool :=
  match p, s with
  | EmptyString, _ => true
  | String a p', String b s' => bool_decide (a = b) && startswith p' s'
  | String _ _, EmptyString => false
  end.

(** [s.split(ch, 1)[1]]; [None] stands for the [IndexError] raised when
    [ch] does not occur in [s]. *)
Fixpoint after_first (ch : ascii) (s : string) : option string :=
  match s with
  | EmptyString => None
  | String c s' => if bool_decide (c = ch) then Some s' else after_first ch s'
  end.

Definition digit_val (c : ascii) : Z := Z.of_N (code c - 48).

Fixpoint all_digits (s : string) : bool :=
  match s with
  | EmptyString => true
  | String c s' => is_digit c && all_digits s'
  end.

Fixpoint digits_acc (acc : Z) (s : string) : Z :=
  match s with
  | EmptyString => acc
  | String c s' => digits_acc (10 * acc + digit_val c) s'
  end.

(** One or more decimal digits, read as a number *)
Definition digits (ds : string) : option Z :=
  if negb (is_empty ds) && all_digits ds
  then Some (digits_acc 0 ds) else None.

(** [int(s)] on the strings that reach it here: an optional sign followed
    by one or more decimal digits.  [None] stands for [ValueError]. *)
Definition int (s : string) : option Z :=
  match s with
  | EmptyString => None
  | String c ds =>
      if bool_decide (c = "-"%char) then Z.opp <$> digits ds
      else if bool_decide (c = "+"%char) then digits ds
      else digits s
  end.

(** [s[i:j]] for [0 <= i <= j] *)
Definition slice (i j : nat) (s : string) : string :=
  String.substring i (j - i) s.

(** [s.isascii()]: every character is below 128.  On these strings the
    primitives above are Python's; a property that depends on case
    mapping, trimming or the digits of other characters is stated for
    ASCII strings. *)
Fixpoint is_ascii (s : string) : bool :=
  match s with
  | EmptyString => true
  | String c s' => (code c <? 128)%N && is_ascii s'
  end.

End Py.

(* ===================================================================== *)
(** ** RACI role helpers *)
(* ===================================================================== *)

Definition _RACI_NAME : gmap string string :=
  {[ "R" := "Responsible"; "A" := "Accountable";
     "C" := "Consulted";   "I" := "Informed" ]}.

Definition _RACI_INITIAL : gmap string string :=
  {[ "Responsible" := "R"; "Accountable" := "A";
     "Consulted" := "C";   "Informed" := "I" ]}.

(** [not role]: [None] or the empty string *)
Definition falsy (role : option string) : bool :=
  match role with
  | None => true
  | Some s => Py.is_empty s
  end.

(** [x or d] on an optional string *)
Definition str_or (x : option string) (d : string) : string :=
  match x with
  | Some s => if Py.is_empty s then d else s
  | None => d
  end.

Definition _normalize_raci (role : option string) : string :=
  if falsy role then "Informed"
  else
    let r := Py.strip (default "" role) in
    let up := Py.upper r in
    match _RACI_NAME !! up with
    | Some name => name
    | None =>
        (* allow full words in any case *)
        let title := Py.capitalize r in
        default title (_RACI_NAME !! Py.upper (Py.take1 title))
    end.

(** [_RACI_INITIAL.get(role, (role or 'R')[:1]).upper()], the expression
    every Person->Project and Person->Task emission site uses.  A lookup
    with the key [None] misses. *)
Definition raci_suffix (role : option string) : string :=
  Py.upper (default (Py.take1 (str_or role "R"))
                    (role ≫= λ r, _RACI_INITIAL !! r)).

(** [f"RACI:{...}"] and [f"ASSIGNEE:{...}"] *)
Definition raci_etype (role : option string) : string :=
  "RACI:" +:+ raci_suffix role.
Definition assignee_etype (role : option string) : string :=
  "ASSIGNEE:" +:+ raci_suffix role.

(** The role column written by [add_people_to_project_with_role] and
    [add_people_to_task_with_role]: [role_name = _normalize_raci(role)]. *)
Definition stored_role (role : option string) : option string :=
  Some (_normalize_raci role).

(* ===================================================================== *)
(** ** Node ids *)
(* ===================================================================== *)

Inductive exn := ValueError | KeyError.

(** [f"{kind}_{int(_id)}"] *)
Definition _nid (kind : string) (_id : Z) : string :=
  kind +:+ "_" +:+ pretty _id.

(** The alternatives of [_NODE_RE], in the order the pattern lists them. *)
Definition _NODE_RE_kinds : list string :=
  ["person"; "people"; "project"; "projects";
   "task"; "tasks"; "group"; "groups"].

(** [^(k1|k2|...)_(\d+)$] with [re.I]: the first alternative [k] such that
    the subject is [k], whatever the case, then an underscore, then one or
    more digits up to the end.  The result is (group 1, group 2).  The
    subject is stripped before it is matched, so [$] is the end of it.
    This is the match of the pattern on a subject of ASCII characters
    ([Py.is_ascii]); on other subjects [\d] and [re.I] of Python reach
    further characters (the decimal digits of other scripts, the long s,
    the Kelvin sign), which the embedding does not read. *)
Fixpoint re_alternatives (alts : list string) (s : string)
  : option (string * string) :=
  match alts with
  | [] => None
  | k :: alts' =>
      let n := String.length k in
      let g1 := Py.slice 0 n s in
      let sep := Py.slice n (S n) s in
      let ds := Py.slice (S n) (String.length s) s in
      if bool_decide (Py.lower g1 = k) && bool_decide (sep = "_")
         && negb (Py.is_empty ds) && Py.all_digits ds
      then Some (g1, ds)
      else re_alternatives alts' s
  end.

Definition _NODE_RE_match : string → option (string * string) :=
  re_alternatives _NODE_RE_kinds.

Definition singular : gmap string string :=
  {[ "people" := "person"; "projects" := "project";
     "tasks" := "task";    "groups" := "group" ]}.

Definition _parse_node_id (nid : string) : exn + (string * Z) :=
  match _NODE_RE_match (Py.strip nid) with
  | None => inl ValueError
  | Some (g1, g2) =>
      let kind := Py.lower g1 in
      let kind := default (Py.rstrip_char "s" kind) (singular !! kind) in
      match Py.int g2 with
      | Some n => inr (kind, n)
      | None => inl ValueError
      end
  end.

(* ===================================================================== *)
(** ** Graph output *)
(* ===================================================================== *)

(** Values stored under the optional keys of a node's [data] dict. *)
Inductive Val :=
  | VNone
  | VStr (s : string)
  | VDetail (description : option string).  (* {"description": ..} *)

Definition vopt (o : option string) : Val :=
  match o with Some s => VStr s | None => VNone end.

(** [{"data": {"id": .., "type": .., <other keys>}}] *)
Record Node := mkNode {
  n_id : string;
  n_type : string;
  n_attrs : list (string * Val);
}.

(** [{"data": {"source": .., "target": .., "type": ..}}].  No call site
    passes keyword metadata to [add_edge], so the payload has these three
    keys only. *)
Record Edge := mkEdge {
  e_source : string;
  e_target : string;
  e_type : string;
}.

Definition edge_key (e : Edge) : string * string * string :=
  (e_source e, e_target e, e_type e).

Record Graph := mkGraph {
  graph_nodes : list Node;
  graph_edges : list Edge;
}.

Record EdgeDef := mkEdgeDef {
  ed_type : string;
  ed_from : string;
  ed_to : string;
}.

Record Schema := mkSchema {
  schema_nodes : list string;
  schema_edges : list EdgeDef;
}.

Definition GRAPH_SCHEMA : Schema :=
  {| schema_nodes := ["person"; "project"; "task"; "group"];
     schema_edges :=
       [ mkEdgeDef "MANAGES" "person" "person";
         mkEdgeDef "MENTOR" "person" "person";
         mkEdgeDef "PEER" "person" "person";
         mkEdgeDef "CO_LOCATED" "person" "person";
         mkEdgeDef "RACI:R" "person" "project";
         mkEdgeDef "RACI:A" "person" "project";
         mkEdgeDef "RACI:C" "person" "project";
         mkEdgeDef "RACI:I" "person" "project";
         mkEdgeDef "PART_OF" "task" "project";
         mkEdgeDef "ASSIGNEE:R" "person" "task";
         mkEdgeDef "ASSIGNEE:A" "person" "task";
         mkEdgeDef "ASSIGNEE:C" "person" "task";
         mkEdgeDef "ASSIGNEE:I" "person" "task";
         mkEdgeDef "MEMBER_OF" "person" "group";
         mkEdgeDef "IN_GROUP" "project" "group";
         mkEdgeDef "COLLAB:TASK" "person" "person";
         mkEdgeDef "COLLAB:PROJECT" "person" "person" ] |}.

(** [{"schema": .., "graph": {"nodes": .., "edges": ..}}] *)
Record Response := mkResponse {
  schema : Schema;
  graph : Graph;
}.

(* ===================================================================== *)
(** ** The entity store (db/models.py) *)
(* ===================================================================== *)

Record Person := mkPerson {
  p_id : Z;
  p_name : string;
  p_email : option string;
}.

Record Project := mkProject {
  pr_id : Z;
  pr_name : string;
  pr_status : option string;
  pr_description : option string;
}.

Record Task := mkTask {
  t_id : Z;
  t_name : string;
  t_status : option string;
  t_description : option string;
  t_project_id : option Z;
}.

Record Group := mkGroup {
  g_id : Z;
  g_name : string;
}.

Record PersonRelation := mkPersonRelation {
  r_from_person_id : Z;
  r_to_person_id : Z;
  r_type : option string;
}.

Record ProjectLead := mkProjectLead {
  pl_project_id : Z;
  pl_person_id : Z;
  pl_role : option string;
}.

Record TaskAssignee := mkTaskAssignee {
  ta_task_id : Z;
  ta_person_id : Z;
  ta_role : option string;
}.

Record DB := mkDB {
  db_people : list Person;
  db_projects : list Project;
  db_tasks : list Task;
  db_groups : list Group;
  db_person_relations : list PersonRelation;
  db_project_leads : list ProjectLead;
  db_task_assignees : list TaskAssignee;
  (** [person_group_table]: rows (person_id, group_id) as selected *)
  db_person_group : list (Z * Z);
  (** [project_group]: rows (project_id, group_id) as selected *)
  db_project_group : list (Z * Z);
}.

(** [column.in_(ids)] *)
Definition in_ (x : Z) (ids : gset Z) : bool := bool_decide (x ∈ ids).

(** [column.in_(ids)] on a nullable column: NULL is in no set *)
Definition in_opt (x : option Z) (ids : gset Z) : bool :=
  match x with Some v => in_ v ids | None => false end.

(** Truth value of an optional integer: [None] and [0] are false. *)
Definition truthy (x : option Z) : option Z :=
  match x with
  | Some v => if bool_decide (v = 0) then None else Some v
  | None => None
  end.

(** The relationship [Task.task_assignees] *)
Definition task_assignees (db : DB) (t : Task) : list TaskAssignee :=
  filter (λ ta, ta_task_id ta = t_id t) (db_task_assignees db).

(** [{row.id: row for row in rows}]: a later row replaces an earlier one *)
Definition by_id {A} (key : A → Z) (rows : list A) : gmap Z A :=
  foldl (λ m row, <[key row := row]> m) ∅ rows.

(** [sorted(s)] of a set of integers, of a set of strings *)
Definition sorted_ints (s : gset Z) : list Z :=
  merge_sort Z.le (elements s).
Definition sorted_strs (s : gset string) : list string :=
  merge_sort String.le (elements s).

(** The pairs [(l[i], l[j])] visited by
    [for i in range(len(l)): for j in range(i + 1, len(l))], in loop order *)
Fixpoint pairs {A} (l : list A) : list (A * A) :=
  match l with
  | [] => []
  | a :: l' => ((λ b, (a, b)) <$> l') ++ pairs l'
  end.

(** A [defaultdict] that is filled and then iterated: an association list
    in insertion order.  [dd_update k f d] is [d[k] = f(d[k])], with
    [d[k]] created from [dflt] at the end when [k] is new. *)
Fixpoint dd_update `{EqDecision K} {V} (dflt : V) (k : K) (f : V → V)
    (d : list (K * V)) : list (K * V) :=
  match d with
  | [] => [(k, f dflt)]
  | (k', v) :: d' =>
      if bool_decide (k' = k) then (k', f v) :: d'
      else (k', v) :: dd_update dflt k f d'
  end.

(* ===================================================================== *)
(** ** Builder state shared by the two graph functions *)
(* ===================================================================== *)

(** The five local collections both functions close over. *)
Record State := mkState {
  nodes : list Node;
  edges : list Edge;
  seen_nodes : gset (string * Z);            (* (kind, id) *)
  node_ids : gset string;                    (* "person_1", ... *)
  seen_edges : gset (string * string * string);  (* (src, dst, type) *)
}.

Definition init : State := mkState [] [] ∅ ∅ ∅.

(** [safe_result()], and the [return] of the full materializer: the
    response with the schema descriptor; the [SCHEMA] literal of the
    traversal repeats [GRAPH_SCHEMA] entry for entry. *)
Definition safe_result (st : State) : Response :=
  {| schema := GRAPH_SCHEMA;
     graph := {| graph_nodes := nodes st; graph_edges := edges st |} |}.

(* ===================================================================== *)
(** ** get_graph_network *)
(* ===================================================================== *)

Module Network.

(** The attributes [add_node] reads from a row, whatever its table. *)
Record Row := mkRow {
  row_id : Z;
  row_name : string;
  row_email : option string;
  row_status : option string;
  row_description : option string;
}.

Definition person_row (p : Person) : Row :=
  mkRow (p_id p) (p_name p) (p_email p) None None.
Definition project_row (pr : Project) : Row :=
  mkRow (pr_id pr) (pr_name pr) None (pr_status pr) (pr_description pr).
Definition task_row (t : Task) : Row :=
  mkRow (t_id t) (t_name t) None (t_status t) (t_description t).
Definition group_row (g : Group) : Row :=
  mkRow (g_id g) (g_name g) None None None.

Definition add_node (st : State) (kind : string) (row : Row) : State :=
  let key := (kind, row_id row) in
  if bool_decide (key ∈ seen_nodes st) then st
  else
    let nid_str := _nid kind (row_id row) in
    let appended :=
      if bool_decide (kind = "person") then
        [mkNode nid_str "person"
           [("label", VStr (row_name row)); ("email", vopt (row_email row))]]
      else if bool_decide (kind = "project") then
        [mkNode nid_str "project"
           [("label", VStr (row_name row)); ("status", vopt (row_status row));
            ("detail", VDetail (row_description row))]]
      else if bool_decide (kind = "task") then
        [mkNode nid_str "task"
           [("label", VStr (row_name row)); ("status", vopt (row_status row));
            ("detail", VDetail (row_description row))]]
      else if bool_decide (kind = "group") then
        [mkNode nid_str "group" [("label", VStr (row_name row))]]
      else
        (* ignore unknown kinds for now *)
        [] in
    {| nodes := nodes st ++ appended;
       edges := edges st;
       seen_nodes := {[key]} ∪ seen_nodes st;
       node_ids := {[nid_str]} ∪ node_ids st;
       seen_edges := seen_edges st |}.

Definition add_edge (st : State) (src dst etype : string) : State :=
  (* Only emit edges whose endpoints exist *)
  if negb (bool_decide (src ∈ node_ids st))
     || negb (bool_decide (dst ∈ node_ids st)) then st
  else
    let k := (src, dst, etype) in
    if bool_decide (k ∈ seen_edges st) then st
    else
      {| nodes := nodes st;
         edges := edges st ++ [mkEdge src dst etype];
         seen_nodes := seen_nodes st;
         node_ids := node_ids st;
         seen_edges := {[k]} ∪ seen_edges st |}.

(** Both directions of every pair of [uniq], under the type [etype] *)
Definition collab_pairs (etype : string) (st : State) (uniq : list Z) : State :=
  foldl (λ st '(a, b),
           let st := add_edge st (_nid "person" a) (_nid "person" b) etype in
           add_edge st (_nid "person" b) (_nid "person" a) etype)
        st (pairs uniq).

Definition collab (etype : string) (st : State)
    (groups : list (Z * list Z)) : State :=
  foldl (λ st '(_, pid_list),
           collab_pairs etype st (sorted_ints (list_to_set pid_list)))
        st groups.

Section with_db.
Variable db : DB.

(* -------- Load core entities ---------------------------------------- *)
Definition people := db_people db.
Definition projects := db_projects db.
Definition tasks := db_tasks db.
Definition groups := db_groups db.

(* Existence sets for defensive checks *)
Definition have_person : gset Z := list_to_set (p_id <$> people).
Definition have_project : gset Z := list_to_set (pr_id <$> projects).
Definition have_task : gset Z := list_to_set (t_id <$> tasks).
Definition have_group : gset Z := list_to_set (g_id <$> groups).

(* Emit nodes first (so edges can safely attach) *)
Definition emit_nodes (st : State) : State :=
  let st := foldl (λ st p, add_node st "person" (person_row p)) st people in
  let st := foldl (λ st pr, add_node st "project" (project_row pr)) st projects in
  let st := foldl (λ st t, add_node st "task" (task_row t)) st tasks in
  foldl (λ st g, add_node st "group" (group_row g)) st groups.

(* -------- Relations: Person <-> Person (explicit) ------------------- *)
Definition rels := db_person_relations db.
Definition emit_relations (st : State) : State :=
  foldl (λ st r,
           if in_ (r_from_person_id r) have_person
              && in_ (r_to_person_id r) have_person
           then add_edge st (_nid "person" (r_from_person_id r))
                            (_nid "person" (r_to_person_id r))
                            (Py.upper (str_or (r_type r) "REL"))
           else st)
        st rels.

(* -------- Project leads: Person -> Project (RACI) ------------------- *)
Definition leads := db_project_leads db.
Definition emit_leads (st : State) : State :=
  foldl (λ st pl,
           if in_ (pl_person_id pl) have_person
              && in_ (pl_project_id pl) have_project
           then add_edge st (_nid "person" (pl_person_id pl))
                            (_nid "project" (pl_project_id pl))
                            (raci_etype (pl_role pl))
           else st)
        st leads.

(* -------- Tasks: Task -> Project (PART_OF) + Person -> Task --------- *)
Definition emit_assignees (t : Task) (st : State) : State :=
  foldl (λ st ta,
           if in_ (ta_person_id ta) have_person
           then add_edge st (_nid "person" (ta_person_id ta))
                            (_nid "task" (t_id t))
                            (assignee_etype (ta_role ta))
           else st)
        st (task_assignees db t).

Definition emit_part_of (st : State) (t : Task) : State :=
  match truthy (t_project_id t) with
  | Some project_id =>
      if in_ project_id have_project
      then add_edge st (_nid "task" (t_id t))
                       (_nid "project" project_id) "PART_OF"
      else st
  | None => st
  end.

Definition emit_tasks (st : State) : State :=
  foldl (λ st t, emit_assignees t (emit_part_of st t)) st tasks.

(* -------- Memberships: Person -> Group (MEMBER_OF) ------------------ *)
Definition emit_memberships (st : State) : State :=
  foldl (λ st '(pid, gid),
           if in_ pid have_person && in_ gid have_group
           then add_edge st (_nid "person" pid) (_nid "group" gid) "MEMBER_OF"
           else st)
        st (db_person_group db).

(* -------- Project grouping: Project -> Group (IN_GROUP) ------------- *)
Definition emit_project_groups (st : State) : State :=
  foldl (λ st '(prid, gid),
           if in_ prid have_project && in_ gid have_group
           then add_edge st (_nid "project" prid) (_nid "group" gid) "IN_GROUP"
           else st)
        st (db_project_group db).

(* -------- Derived collaboration edges ------------------------------- *)
(* Task-based: co-assignees on same task *)
Definition task_to_people : list (Z * list Z) :=
  foldl (λ d t,
           foldl (λ d ta,
                    if in_ (ta_person_id ta) have_person
                    then dd_update [] (t_id t) (λ l, l ++ [ta_person_id ta]) d
                    else d)
                 d (task_assignees db t))
        [] tasks.

(* Project-based: co-leads on same project *)
Definition proj_to_leads : list (Z * list Z) :=
  foldl (λ d pl,
           if in_ (pl_person_id pl) have_person
              && in_ (pl_project_id pl) have_project
           then dd_update [] (pl_project_id pl) (λ l, l ++ [pl_person_id pl]) d
           else d)
        [] leads.

Definition build : State :=
  let st := emit_nodes init in
  let st := emit_relations st in
  let st := emit_leads st in
  let st := emit_tasks st in
  let st := emit_memberships st in
  let st := emit_project_groups st in
  let st := collab "COLLAB:TASK" st task_to_people in
  collab "COLLAB:PROJECT" st proj_to_leads.

Definition get_graph_network : Response := safe_result build.
End with_db.

End Network.

(* ===================================================================== *)
(** ** get_entity_subgraph *)
(* ===================================================================== *)

Module Subgraph.

(** [{"project": set(), "task": set(), "person": set(), "group": set()}] *)
Record Frontier := mkFrontier {
  f_project : gset Z;
  f_task : gset Z;
  f_person : gset Z;
  f_group : gset Z;
}.

Definition empty_frontier : Frontier := mkFrontier ∅ ∅ ∅ ∅.

Definition add_project (i : Z) (f : Frontier) : Frontier :=
  mkFrontier ({[i]} ∪ f_project f) (f_task f) (f_person f) (f_group f).
Definition add_task (i : Z) (f : Frontier) : Frontier :=
  mkFrontier (f_project f) ({[i]} ∪ f_task f) (f_person f) (f_group f).
Definition add_person (i : Z) (f : Frontier) : Frontier :=
  mkFrontier (f_project f) (f_task f) ({[i]} ∪ f_person f) (f_group f).
Definition add_group (i : Z) (f : Frontier) : Frontier :=
  mkFrontier (f_project f) (f_task f) (f_person f) ({[i]} ∪ f_group f).

(** [frontier[kind].add(i)]; a key that is not one of the four raises *)
Definition frontier_add (f : Frontier) (kind : string) (i : Z)
  : exn + Frontier :=
  if bool_decide (kind = "project") then inr (add_project i f)
  else if bool_decide (kind = "task") then inr (add_task i f)
  else if bool_decide (kind = "person") then inr (add_person i f)
  else if bool_decide (kind = "group") then inr (add_group i f)
  else inl KeyError.

(** Truth value of a set: non-empty *)
Definition nonempty `{Countable A} (s : gset A) : bool :=
  negb (bool_decide (s = ∅)).

(** [any(frontier.values())] *)
Definition any_frontier (f : Frontier) : bool :=
  nonempty (f_project f) || nonempty (f_task f)
  || nonempty (f_person f) || nonempty (f_group f).

(** Seed the frontier from the centers; a token that fails to parse (or
    to index the frontier) is skipped by the [except Exception] clause. *)
Definition seed (centers : list string) : Frontier :=
  foldl (λ frontier token,
           match _parse_node_id token with
           | inr (kind, _id) =>
               match frontier_add frontier kind _id with
               | inr frontier' => frontier'
               | inl _ => frontier
               end
           | inl _ => frontier
           end)
        empty_frontier centers.

(** The keys [add_node] sets only when the argument is not [None] *)
Definition opt_item (k : string) (v : option string) : list (string * Val) :=
  match v with
  | Some s => [(k, VStr s)]
  | None => []
  end.

(** The state threaded through one hop: the builder and [next_frontier] *)
Record Hop := mkHop {
  builder : State;
  next_frontier : Frontier;
}.

(** [ids] of the present nodes of one kind:
    [[int(i.split("_", 1)[1]) for i in present if i.startswith(prefix)]].
    Every id in [present] was built by [_nid], so neither the index nor
    [int] can raise there (see [ids_of_kind_total]). *)
Definition ids_of_kind (prefix : string) (present : gset string) : list Z :=
  omap (λ i, if Py.startswith prefix i
             then Py.after_first "_" i ≫= Py.int else None)
       (elements present).

Section with_budget.
Variables (max_nodes max_edges : Z).

Definition add_node (st : State) (kind : string) (obj_id : Z)
    (label status email : option string) : State :=
  if bool_decide (max_nodes ≤ Z.of_nat (size (seen_nodes st))) then st
  else
    let key := (kind, obj_id) in
    if bool_decide (key ∈ seen_nodes st) then st
    else
      let nid_ := _nid kind obj_id in
      let data :=
        opt_item "label" label ++ opt_item "status" status
        ++ opt_item "email" email in
      {| nodes := nodes st ++ [mkNode nid_ kind data];
         edges := edges st;
         seen_nodes := {[key]} ∪ seen_nodes st;
         node_ids := {[nid_]} ∪ node_ids st;
         seen_edges := seen_edges st |}.

Definition add_edge (st : State) (src dst etype : string) : State :=
  if bool_decide (max_edges ≤ Z.of_nat (size (seen_edges st))) then st
  else if negb (bool_decide (src ∈ node_ids st))
          || negb (bool_decide (dst ∈ node_ids st)) then st
  else
    let key := (src, dst, etype) in
    if bool_decide (key ∈ seen_edges st) then st
    else
      {| nodes := nodes st;
         edges := edges st ++ [mkEdge src dst etype];
         seen_nodes := seen_nodes st;
         node_ids := node_ids st;
         seen_edges := {[key]} ∪ seen_edges st |}.

(** Both directions of every pair of [ppl], under the type [etype] *)
Definition collab_pairs (etype : string) (st : State)
    (ppl : list string) : State :=
  foldl (λ st '(a, b),
           let st := add_edge st a b etype in
           add_edge st b a etype)
        st (pairs ppl).

Definition collab (etype : string) (st : State)
    (groups : list (string * gset string)) : State :=
  foldl (λ st '(_, people), collab_pairs etype st (sorted_strs people))
        st groups.

Section with_db.
Variable db : DB.

(* Materialize all center nodes first (so edges can attach) *)
Definition materialize (frontier : Frontier) (st : State) : State :=
  let st :=
    if nonempty (f_project frontier) then
      foldl (λ st pr, add_node st "project" (pr_id pr)
                        (Some (pr_name pr)) (pr_status pr) None)
            st (filter (λ pr, pr_id pr ∈ f_project frontier)
                       (db_projects db))
    else st in
  let st :=
    if nonempty (f_task frontier) then
      foldl (λ st t, add_node st "task" (t_id t)
                       (Some (t_name t)) (t_status t) None)
            st (filter (λ t, t_id t ∈ f_task frontier) (db_tasks db))
    else st in
  let st :=
    if nonempty (f_person frontier) then
      foldl (λ st p, add_node st "person" (p_id p)
                       (Some (p_name p)) None (p_email p))
            st (filter (λ p, p_id p ∈ f_person frontier) (db_people db))
    else st in
  if nonempty (f_group frontier) then
    foldl (λ st g, add_node st "group" (g_id g) (Some (g_name g)) None None)
          st (filter (λ g, g_id g ∈ f_group frontier) (db_groups db))
  else st.

(** [{p.id: p for p in db.query(Person).filter(Person.id.in_(ids))}]
    and its siblings.  The source skips the query when [ids] is
    empty; the filter then selects nothing. *)
Definition people_map (ids : gset Z) : gmap Z Person :=
  by_id p_id (filter (λ p, p_id p ∈ ids) (db_people db)).
Definition projects_map (ids : gset Z) : gmap Z Project :=
  by_id pr_id (filter (λ pr, pr_id pr ∈ ids) (db_projects db)).
Definition tasks_map (ids : gset Z) : gmap Z Task :=
  by_id t_id (filter (λ t, t_id t ∈ ids) (db_tasks db)).
Definition groups_map (ids : gset Z) : gmap Z Group :=
  by_id g_id (filter (λ g, g_id g ∈ ids) (db_groups db)).

(** Person -> Project edges for the lead rows [pls] *)
Definition lead_people (pls : list ProjectLead) (h : Hop) : Hop :=
  let pids : gset Z := list_to_set (pl_person_id <$> pls) in
  let people_map := people_map pids in
  foldl (λ h pl,
           match people_map !! pl_person_id pl with
           | None => h
           | Some p =>
               let st := add_node (builder h) "person" (p_id p)
                           (Some (p_name p)) None (p_email p) in
               let st := add_edge st (_nid "person" (p_id p))
                           (_nid "project" (pl_project_id pl))
                           (raci_etype (pl_role pl)) in
               mkHop st (add_person (p_id p) (next_frontier h))
           end)
        h pls.

(* PROJECT frontier *)
Definition expand_projects (proj_ids : gset Z) (h : Hop) : Hop :=
  (* tasks -> project *)
  let h :=
    foldl (λ h t,
             let st := add_node (builder h) "task" (t_id t)
                         (Some (t_name t)) (t_status t) None in
             let st :=
               match t_project_id t with
               | Some project_id =>
                   add_edge st (_nid "task" (t_id t))
                            (_nid "project" project_id) "PART_OF"
               | None => st  (* no such row: the filter wants a project *)
               end in
             mkHop st (add_task (t_id t) (next_frontier h)))
          h (filter (λ t, in_opt (t_project_id t) proj_ids) (db_tasks db)) in
  (* project leads person -> project *)
  let pls := filter (λ pl, pl_project_id pl ∈ proj_ids)
                    (db_project_leads db) in
  let h := lead_people pls h in
  (* project -> group *)
  let rows := filter (λ row, row.1 ∈ proj_ids) (db_project_group db) in
  let g_ids : gset Z := list_to_set (snd <$> rows) in
  let groups_map := groups_map g_ids in
  foldl (λ h '(pr_id, gid),
           match groups_map !! gid with
           | None => h
           | Some g =>
               let st := add_node (builder h) "group" (g_id g)
                           (Some (g_name g)) None None in
               let st := add_edge st (_nid "project" pr_id)
                           (_nid "group" (g_id g)) "IN_GROUP" in
               mkHop st (add_group (g_id g) (next_frontier h))
           end)
        h rows.

(* TASK frontier *)
Definition expand_tasks (task_ids : gset Z) (h : Hop) : Hop :=
  let t_rows := filter (λ t, t_id t ∈ task_ids) (db_tasks db) in
  let proj_for_task : list (Z * Z) :=
    foldl (λ d t,
             match truthy (t_project_id t) with
             | Some project_id =>
                 dd_update project_id (t_id t) (λ _, project_id) d
             | None => d
             end)
          [] t_rows in
  let proj_ids2 : gset Z :=
    list_to_set (filter (λ pid, pid ≠ 0) (snd <$> proj_for_task)) in
  let h :=
    if nonempty proj_ids2 then
      let projs_map := projects_map proj_ids2 in
      let h :=
        foldl (λ h '(tid, pid),
                 match projs_map !! pid with
                 | None => h
                 | Some pr =>
                     let st := add_node (builder h) "project" (pr_id pr)
                                 (Some (pr_name pr)) (pr_status pr) None in
                     let st := add_edge st (_nid "task" tid)
                                 (_nid "project" (pr_id pr)) "PART_OF" in
                     mkHop st (add_project (pr_id pr) (next_frontier h))
                 end)
              h proj_for_task in
      (* leads of those projects *)
      let pls2 := filter (λ pl, pl_project_id pl ∈ proj_ids2)
                         (db_project_leads db) in
      lead_people pls2 h
    else h in
  (* assignees person -> task *)
  let tas := filter (λ a, ta_task_id a ∈ task_ids) (db_task_assignees db) in
  let pids3 : gset Z := list_to_set (ta_person_id <$> tas) in
  let people_map3 := people_map pids3 in
  foldl (λ h a,
           match people_map3 !! ta_person_id a with
           | None => h
           | Some p =>
               let st := add_node (builder h) "person" (p_id p)
                           (Some (p_name p)) None (p_email p) in
               let st := add_edge st (_nid "person" (ta_person_id a))
                           (_nid "task" (ta_task_id a))
                           (assignee_etype (ta_role a)) in
               mkHop st (add_person (p_id p) (next_frontier h))
           end)
        h tas.

(* PERSON frontier *)
Definition expand_people (person_ids : gset Z) (h : Hop) : Hop :=
  (* relations (directed) *)
  let rels_out := filter (λ r, r_from_person_id r ∈ person_ids)
                         (db_person_relations db) in
  let rels_in := filter (λ r, r_to_person_id r ∈ person_ids)
                        (db_person_relations db) in
  let rel_ids : gset Z :=
    list_to_set (r_from_person_id <$> rels_out)
    ∪ list_to_set (r_to_person_id <$> rels_out)
    ∪ list_to_set (r_from_person_id <$> rels_in)
    ∪ list_to_set (r_to_person_id <$> rels_in) in
  let rel_people := people_map rel_ids in
  let relation (other : PersonRelation → Z) (h : Hop) r :=
    match rel_people !! other r with
    | None => h
    | Some q =>
        let st := add_node (builder h) "person" (p_id q)
                    (Some (p_name q)) None (p_email q) in
        let st := add_edge st (_nid "person" (r_from_person_id r))
                    (_nid "person" (r_to_person_id r))
                    (Py.upper (str_or (r_type r) "REL")) in
        mkHop st (add_person (p_id q) (next_frontier h))
    end in
  let h := foldl (relation r_to_person_id) h rels_out in
  let h := foldl (relation r_from_person_id) h rels_in in
  (* memberships (person -> group) *)
  let rows := filter (λ row, row.1 ∈ person_ids) (db_person_group db) in
  let g_ids2 : gset Z := list_to_set (snd <$> rows) in
  let groups_map2 := groups_map g_ids2 in
  let h :=
    foldl (λ h '(pid, gid),
             match groups_map2 !! gid with
             | None => h
             | Some g =>
                 let st := add_node (builder h) "group" (g_id g)
                             (Some (g_name g)) None None in
                 let st := add_edge st (_nid "person" pid)
                             (_nid "group" (g_id g)) "MEMBER_OF" in
                 mkHop st (add_group (g_id g) (next_frontier h))
             end)
          h rows in
  (* projects of these people (person -> project) *)
  let pls3 := filter (λ pl, pl_person_id pl ∈ person_ids)
                     (db_project_leads db) in
  let proj_ids3 : gset Z := list_to_set (pl_project_id <$> pls3) in
  let projs_map3 := projects_map proj_ids3 in
  let h :=
    foldl (λ h pl,
             match projs_map3 !! pl_project_id pl with
             | None => h
             | Some pr =>
                 let st := add_node (builder h) "project" (pr_id pr)
                             (Some (pr_name pr)) (pr_status pr) None in
                 let st := add_edge st (_nid "person" (pl_person_id pl))
                             (_nid "project" (pr_id pr))
                             (raci_etype (pl_role pl)) in
                 mkHop st (add_project (pr_id pr) (next_frontier h))
             end)
          h pls3 in
  (* tasks of these people (person -> task) *)
  let tas2 := filter (λ a, ta_person_id a ∈ person_ids)
                     (db_task_assignees db) in
  let task_ids2 : gset Z := list_to_set (ta_task_id <$> tas2) in
  let tasks_map2 := tasks_map task_ids2 in
  foldl (λ h a,
           match tasks_map2 !! ta_task_id a with
           | None => h
           | Some t =>
               let st := add_node (builder h) "task" (t_id t)
                           (Some (t_name t)) (t_status t) None in
               let st := add_edge st (_nid "person" (ta_person_id a))
                           (_nid "task" (t_id t))
                           (assignee_etype (ta_role a)) in
               mkHop st (add_task (t_id t) (next_frontier h))
           end)
        h tas2.

(* GROUP frontier *)
Definition expand_groups (group_ids : gset Z) (h : Hop) : Hop :=
  (* members (person -> group) *)
  let rows := filter (λ row, row.2 ∈ group_ids) (db_person_group db) in
  let pids4 : gset Z := list_to_set (fst <$> rows) in
  let people_map4 := people_map pids4 in
  let h :=
    foldl (λ h '(pid, gid),
             match people_map4 !! pid with
             | None => h
             | Some p =>
                 let st := add_node (builder h) "person" (p_id p)
                             (Some (p_name p)) None (p_email p) in
                 let st := add_edge st (_nid "person" (p_id p))
                             (_nid "group" gid) "MEMBER_OF" in
                 mkHop st (add_person (p_id p) (next_frontier h))
             end)
          h rows in
  (* projects in group (project -> group) *)
  let rows2 := filter (λ row, row.2 ∈ group_ids) (db_project_group db) in
  let proj_ids4 : gset Z := list_to_set (fst <$> rows2) in
  let projs_map4 := projects_map proj_ids4 in
  foldl (λ h '(pr_id', gid),
           match projs_map4 !! pr_id' with
           | None => h
           | Some pr =>
               let st := add_node (builder h) "project" (pr_id pr)
                           (Some (pr_name pr)) (pr_status pr) None in
               let st := add_edge st (_nid "project" (pr_id pr))
                           (_nid "group" gid) "IN_GROUP" in
               mkHop st (add_project (pr_id pr) (next_frontier h))
           end)
        h rows2.

(** The body of one hop, after the two [break] tests *)
Definition hop (frontier : Frontier) (st : State) : Hop :=
  let h := mkHop st empty_frontier in
  let h := if nonempty (f_project frontier)
           then expand_projects (f_project frontier) h else h in
  let h := if nonempty (f_task frontier)
           then expand_tasks (f_task frontier) h else h in
  let h := if nonempty (f_person frontier)
           then expand_people (f_person frontier) h else h in
  if nonempty (f_group frontier)
  then expand_groups (f_group frontier) h else h.

(** [for _hop in range(1, max(0, degrees) + 1)], [n] hops left *)
Fixpoint hops (n : nat) (frontier : Frontier) (st : State) : State :=
  match n with
  | O => st
  | S n' =>
      if negb (any_frontier frontier) then st
      else if bool_decide (max_nodes ≤ Z.of_nat (size (seen_nodes st)))
              || bool_decide (max_edges ≤ Z.of_nat (size (seen_edges st)))
      then st
      else
        let h := hop frontier st in
        hops n' (next_frontier h) (builder h)
  end.

(* task-based collaboration *)
Definition task_people (present : gset string)
  : list (string * gset string) :=
  let t_ids : gset Z := list_to_set (ids_of_kind "task_" present) in
  let tas := filter (λ a, ta_task_id a ∈ t_ids) (db_task_assignees db) in
  foldl (λ d a,
           let pid := _nid "person" (ta_person_id a) in
           let tid := _nid "task" (ta_task_id a) in
           if bool_decide (pid ∈ present) && bool_decide (tid ∈ present)
           then dd_update ∅ tid (λ s, {[pid]} ∪ s) d
           else d)
        [] tas.

(* project-lead collaboration *)
Definition proj_leads (present : gset string)
  : list (string * gset string) :=
  let pr_ids : gset Z := list_to_set (ids_of_kind "project_" present) in
  let pls := filter (λ pl, pl_project_id pl ∈ pr_ids)
                    (db_project_leads db) in
  foldl (λ d pl,
           let pid := _nid "person" (pl_person_id pl) in
           let prid := _nid "project" (pl_project_id pl) in
           if bool_decide (pid ∈ present) && bool_decide (prid ∈ present)
           then dd_update ∅ prid (λ s, {[pid]} ∪ s) d
           else d)
        [] pls.

(* Optional collaboration edges (endpoints present only) *)
Definition post_pass (st : State) : State :=
  let present := node_ids st in
  let st := collab "COLLAB:TASK" st (task_people present) in
  collab "COLLAB:PROJECT" st (proj_leads present).

Definition traverse (centers : list string) (degrees : Z)
    (include_collab : bool) : State :=
  let frontier := seed centers in
  (* If no valid centers, return an empty-but-valid shape *)
  if negb (any_frontier frontier) then init
  else
    let st := materialize frontier init in
    let st := hops (Z.to_nat (Z.max 0 degrees)) frontier st in
    if include_collab && nonempty (node_ids st)
    then post_pass st else st.
End with_db.
End with_budget.

(** [centers] is the list the caller passes ([None] is the empty list). *)
Definition get_entity_subgraph (db : DB) (centers : list string)
    (degrees max_nodes max_edges : Z) (include_collab : bool) : Response :=
  safe_result (traverse max_nodes max_edges db centers degrees include_collab).

End Subgraph.

(** The four node kinds of the schema *)
Definition known_kind (k : string) : Prop := k ∈ schema_nodes GRAPH_SCHEMA.

(* ===================================================================== *)
(** ** Specification vocabulary *)
(* ===================================================================== *)

(** The (kind, id) key rendered the way a node entry shows it *)
Definition rendered (key : string * Z) : string * string :=
  (key.1, _nid key.1 key.2).

(** Consistency of the five collections of a builder state. *)
Record wf (st : State) : Prop := mkWf {
  (** the node array lists the seen (kind, id) keys, once each, in order *)
  wf_keys : ∃ keys : list (string * Z),
      NoDup keys ∧ Forall (λ key, known_kind key.1) keys
      ∧ seen_nodes st = list_to_set keys
      ∧ (λ n, (n_type n, n_id n)) <$> nodes st = rendered <$> keys;
  (** [node_ids] is the set of ids of the node array *)
  wf_node_ids : node_ids st = list_to_set (n_id <$> nodes st);
  (** the edge array lists the seen edge keys, once each *)
  wf_edge_keys : NoDup (edge_key <$> edges st);
  wf_seen_edges : seen_edges st = list_to_set (edge_key <$> edges st);
  (** both ends of every edge are recorded node ids *)
  wf_endpoints : ∀ e, e ∈ edges st →
      e_source e ∈ node_ids st ∧ e_target e ∈ node_ids st;
}.

(** The two counters are within the budgets. *)
Definition within_budget (max_nodes max_edges : Z) (st : State) : Prop :=
  Z.of_nat (size (seen_nodes st)) ≤ Z.max 0 max_nodes
  ∧ Z.of_nat (size (seen_edges st)) ≤ Z.max 0 max_edges.

(** Referential closure of a produced graph *)
Definition referentially_closed (g : Graph) : Prop :=
  ∀ e, e ∈ graph_edges g →
    e_source e ∈ (n_id <$> graph_nodes g)
    ∧ e_target e ∈ (n_id <$> graph_nodes g).

(** Dedup closure of a produced graph: the node entries are the rendering
    of pairwise distinct (kind, numericId) keys, so that their ids are
    pairwise distinct too, and the (source, target, type) keys of the edge
    entries are pairwise distinct. *)
Definition deduplicated (g : Graph) : Prop :=
  (∃ keys : list (string * Z),
      NoDup keys
      ∧ (λ n, (n_type n, n_id n)) <$> graph_nodes g = rendered <$> keys)
  ∧ NoDup (n_id <$> graph_nodes g)
  ∧ NoDup (edge_key <$> graph_edges g).

(** The edge [(src, dst, etype)] is in the graph *)
Definition has_edge (g : Graph) (src dst etype : string) : Prop :=
  (src, dst, etype) ∈ (edge_key <$> graph_edges g).

(** A node with the id [i] is in the graph *)
Definition has_node (g : Graph) (i : string) : Prop :=
  i ∈ (n_id <$> graph_nodes g).

(** The store holds an entity of the kind [kind] under the id [i]. *)
Definition has_entity (db : DB) (kind : string) (i : Z) : Prop :=
  (kind = "person" ∧ i ∈ p_id <$> db_people db)
  ∨ (kind = "project" ∧ i ∈ pr_id <$> db_projects db)
  ∨ (kind = "task" ∧ i ∈ t_id <$> db_tasks db)
  ∨ (kind = "group" ∧ i ∈ g_id <$> db_groups db).

Global Instance has_entity_dec db kind i : Decision (has_entity db kind i).
Proof. unfold has_entity. apply _. Defined.


(** The source of an edge is the node of a person or of a project. *)
Definition person_or_project (src : string) : Prop :=
  ∃ i, src = _nid "person" i ∨ src = _nid "project" i.

(** The rows of the store whose two ends are loaded, with the edge the
    full materializer emits for each. *)
Inductive valid_row (db : DB) : string → string → string → Prop :=
  | valid_relation r :
      r ∈ db_person_relations db →
      r_from_person_id r ∈ Network.have_person db →
      r_to_person_id r ∈ Network.have_person db →
      valid_row db (_nid "person" (r_from_person_id r))
                (_nid "person" (r_to_person_id r))
                (Py.upper (str_or (r_type r) "REL"))
  | valid_lead pl :
      pl ∈ db_project_leads db →
      pl_person_id pl ∈ Network.have_person db →
      pl_project_id pl ∈ Network.have_project db →
      valid_row db (_nid "person" (pl_person_id pl))
                (_nid "project" (pl_project_id pl)) (raci_etype (pl_role pl))
  | valid_part_of t p :
      t ∈ db_tasks db → truthy (t_project_id t) = Some p →
      p ∈ Network.have_project db →
      valid_row db (_nid "task" (t_id t)) (_nid "project" p) "PART_OF"
  | valid_assignee t ta :
      t ∈ db_tasks db → ta ∈ task_assignees db t →
      ta_person_id ta ∈ Network.have_person db →
      valid_row db (_nid "person" (ta_person_id ta)) (_nid "task" (t_id t))
                (assignee_etype (ta_role ta))
  | valid_membership pid gid :
      (pid, gid) ∈ db_person_group db →
      pid ∈ Network.have_person db → gid ∈ Network.have_group db →
      valid_row db (_nid "person" pid) (_nid "group" gid) "MEMBER_OF"
  | valid_project_group prid gid :
      (prid, gid) ∈ db_project_group db →
      prid ∈ Network.have_project db → gid ∈ Network.have_group db →
      valid_row db (_nid "project" prid) (_nid "group" gid) "IN_GROUP".

(** Every seen (kind, id) key has its id among the recorded node ids. *)
Definition ids_cover (st : State) : Prop :=
  ∀ kind i, (kind, i) ∈ seen_nodes st → _nid kind i ∈ node_ids st.

(** The nodes of all loaded entities are recorded. *)
Definition loaded_present (db : DB) (st : State) : Prop :=
  ∀ kind i, has_entity db kind i → _nid kind i ∈ node_ids st.

(** Both directions of a collaboration edge between two persons are seen *)
Definition both_seen (a b : Z) (etype : string) (st : State) : Prop :=
  (_nid "person" a, _nid "person" b, etype) ∈ seen_edges st
  ∧ (_nid "person" b, _nid "person" a, etype) ∈ seen_edges st.

(** The nodes of two persons are recorded *)
Definition both_present (a b : Z) (st : State) : Prop :=
  _nid "person" a ∈ node_ids st ∧ _nid "person" b ∈ node_ids st.

(** The dictionary lists [a] under the key [k] *)
Definition listed (k a : Z) (d : list (Z * list Z)) : Prop :=
  ∃ l, (k, l) ∈ d ∧ a ∈ l.

(** The edge counter has reached the edge budget. *)
Definition full (max_edges : Z) (st : State) : Prop :=
  max_edges ≤ Z.of_nat (size (seen_edges st)).

(** Both directions between the nodes [x] and [y] are seen, unless the
    edge budget ran out. *)
Definition linked (max_edges : Z) (x y etype : string) (st : State) : Prop :=
  full max_edges st
  ∨ ((x, y, etype) ∈ seen_edges st ∧ (y, x, etype) ∈ seen_edges st).

(** The dictionary holds [x] in the set under the key [k] *)
Definition grouped (k x : string) (d : list (string * gset string)) : Prop :=
  ∃ s, (k, s) ∈ d ∧ x ∈ s.

(** Two assignee rows of the task [tid], for the persons [a] and [b] *)
Definition co_assignees (db : DB) (tid a b : Z) : Prop :=
  ∃ ta tb, ta ∈ db_task_assignees db ∧ tb ∈ db_task_assignees db
           ∧ ta_task_id ta = tid ∧ ta_task_id tb = tid
           ∧ ta_person_id ta = a ∧ ta_person_id tb = b.

(** Two lead rows of the project [prid], for the persons [a] and [b] *)
Definition co_leads (db : DB) (prid a b : Z) : Prop :=
  ∃ pla plb, pla ∈ db_project_leads db ∧ plb ∈ db_project_leads db
             ∧ pl_project_id pla = prid ∧ pl_project_id plb = prid
             ∧ pl_person_id pla = a ∧ pl_person_id plb = b.

(** The graph holds both directed edges of type [etype] between the
    nodes of the persons [a] and [b]. *)
Definition collab_both (g : Graph) (a b : Z) (etype : string) : Prop :=
  has_edge g (_nid "person" a) (_nid "person" b) etype
  ∧ has_edge g (_nid "person" b) (_nid "person" a) etype.


(** ** Sample stores *)

Module Samples.

(** Two people who lead project 1 and are assigned to task 1; task 2
    points at project 7, which the store does not hold. *)
Definition team : DB :=
  {| db_people := [mkPerson 1 "Ann" (Some "ann@example.org");
                   mkPerson 2 "Bob" None];
     db_projects := [mkProject 1 "Apollo" (Some "Planned") None];
     db_tasks := [mkTask 1 "Design" (Some "started") None (Some 1);
                  mkTask 2 "Orphan" None None (Some 7)];
     db_groups := [mkGroup 1 "Core"];
     db_person_relations := [mkPersonRelation 1 2 (Some "manages")];
     db_project_leads := [mkProjectLead 1 1 (Some "Responsible");
                          mkProjectLead 1 2 (Some "Accountable")];
     db_task_assignees := [mkTaskAssignee 1 1 (Some "Responsible");
                           mkTaskAssignee 1 2 (Some "Consulted")];
     db_person_group := [(1, 1)];
     db_project_group := [(1, 1)] |}.


(** Project 1 with its two leads, 7 (Responsible) and 8 (Accountable) *)
Definition two_leads : DB :=
  {| db_people := [mkPerson 7 "Lea" None; mkPerson 8 "Max" None];
     db_projects := [mkProject 1 "Apollo" (Some "Planned") None];
     db_tasks := [];
     db_groups := [];
     db_person_relations := [];
     db_project_leads := [mkProjectLead 1 7 (Some "Responsible");
                          mkProjectLead 1 8 (Some "Accountable")];
     db_task_assignees := [];
     db_person_group := [];
     db_project_group := [] |}.

End Samples.

(* ===================================================================== *)
(** ** What the store accounts for *)
(* ===================================================================== *)

(** The edges the full materializer owes to the store: one per row with
    both ends loaded, and both directions between two distinct loaded
    persons assigned to one loaded task, or leading one loaded project. *)
Inductive network_edge (db : DB) : string → string → string → Prop :=
  | edge_of_row src dst etype :
      valid_row db src dst etype → network_edge db src dst etype
  | edge_of_co_assignees t ta tb :
      t ∈ db_tasks db →
      ta ∈ task_assignees db t → tb ∈ task_assignees db t →
      ta_person_id ta ∈ Network.have_person db →
      ta_person_id tb ∈ Network.have_person db →
      ta_person_id ta ≠ ta_person_id tb →
      network_edge db (_nid "person" (ta_person_id ta))
                   (_nid "person" (ta_person_id tb)) "COLLAB:TASK"
  | edge_of_co_leads pla plb :
      pla ∈ db_project_leads db → plb ∈ db_project_leads db →
      pl_project_id pla = pl_project_id plb →
      pl_project_id pla ∈ Network.have_project db →
      pl_person_id pla ∈ Network.have_person db →
      pl_person_id plb ∈ Network.have_person db →
      pl_person_id pla ≠ pl_person_id plb →
      network_edge db (_nid "person" (pl_person_id pla))
                   (_nid "person" (pl_person_id plb)) "COLLAB:PROJECT".

(** Every edge of the builder is one the store accounts for. *)
Definition edges_sound (db : DB) (st : State) : Prop :=
  ∀ e, e ∈ edges st → network_edge db (e_source e) (e_target e) (e_type e).

(** Every recorded node id is the id of a loaded entity. *)
Definition nodes_sound (db : DB) (st : State) : Prop :=
  ∀ x, x ∈ node_ids st → ∃ kind i, x = _nid kind i ∧ has_entity db kind i.

(** The builder holds nothing but what the store accounts for. *)
Definition graph_sound (db : DB) (st : State) : Prop :=
  nodes_sound db st ∧ edges_sound db st.

(** The persons listed under a task id are assigned to that task and
    loaded. *)
Definition assigned_entries (db : DB) (d : list (Z * list Z)) : Prop :=
  ∀ k l a, (k, l) ∈ d → a ∈ l →
    ∃ t ta, t ∈ db_tasks db ∧ t_id t = k ∧ ta ∈ task_assignees db t
            ∧ ta_person_id ta = a ∧ a ∈ Network.have_person db.

(** The persons listed under a project id lead that project; both are
    loaded. *)
Definition leading_entries (db : DB) (d : list (Z * list Z)) : Prop :=
  ∀ k l a, (k, l) ∈ d → a ∈ l →
    ∃ pl, pl ∈ db_project_leads db ∧ pl_project_id pl = k
          ∧ pl_person_id pl = a ∧ a ∈ Network.have_person db
          ∧ k ∈ Network.have_project db.

(* ===================================================================== *)
(** ** Field normalizers (backend/db/crud.py) *)
(* ===================================================================== *)

(** Further string primitives the normalizers use. *)
Module Str.

(** [s.split()]: the maximal runs of non-blank characters, in order.
    [w] is the run being read. *)
Fixpoint split_acc (w : string) (s : string) : list string :=
  match s with
  | EmptyString => if Py.is_empty w then [] else [w]
  | String c s' =>
      if Py.is_space c
      then (if Py.is_empty w then split_acc "" s' else w :: split_acc "" s')
      else split_acc (w +:+ String c "") s'
  end.

Definition split (s : string) : list string := split_acc "" s.

(** No character of [s] is a blank. *)
Fixpoint blank_free (s : string) : bool :=
  match s with
  | EmptyString => true
  | String c s' => negb (Py.is_space c) && blank_free s'
  end.

(** [sep.join(words)] *)
Fixpoint join (sep : string) (words : list string) : string :=
  match words with
  | [] => ""
  | [w] => w
  | w :: ws => w +:+ sep +:+ join sep ws
  end.

End Str.

Definition VALID_STATUS : gset string :=
  {[ "not started"; "started"; "blocked"; "complete" ]}.

Definition ALLOWED_REL_TYPES : gset string :=
  {[ "manages"; "mentor"; "peer"; "co_located" ]}.

Definition _sanitize_status (s : option string) : string :=
  let s := Py.lower (Py.strip (str_or s "")) in
  if bool_decide (s ∈ VALID_STATUS) then s else "not started".

Definition _norm_priority (p : option string) : string :=
  let v := Py.lower (Py.strip (str_or p "medium")) in
  if bool_decide (v ∈ ({[ "low"; "medium"; "high" ]} : gset string))
  then v else "medium".

Definition _norm_status_mapping : gmap string string :=
  {[ "not started" := "not started";
     "in progress" := "in progress";
     "blocked" := "blocked";
     "complete" := "complete";
     "completed" := "complete";
     "canceled" := "canceled";
     "cancelled" := "canceled" ]}.

Definition _norm_status (s : option string) : string :=
  let v := Py.lower (Py.strip (str_or s "not started")) in
  default v (_norm_status_mapping !! v).

Definition _norm_unit (u : option string) : option string :=
  if falsy u then None
  else
    let v := Py.lower (Py.strip (default "" u)) in
    if Py.startswith "day" v then Some "day"
    else if Py.startswith "week" v then Some "week"
    else if Py.startswith "month" v then Some "month"
    else if Py.startswith "year" v then Some "year"
    else None.

Definition _norm_role_short : gmap string string :=
  {[ "r" := "Responsible"; "a" := "Accountable";
     "c" := "Consulted";   "i" := "Informed" ]}.

Definition _norm_role (role : option string) : string :=
  let r := Py.strip (str_or role "") in
  if Py.is_empty r then "Responsible"
  else
    let rl := Py.lower r in
    default r (_norm_role_short !! rl).

(** Normalize and capitalize a tag name consistently. *)
Definition normalize_tag_name (name : string) : string :=
  let name := Py.lower (Py.strip name) in
  (* Capitalize first letter of each word *)
  Str.join " " (Py.capitalize <$> Str.split name).

(** The canonical spelling of a center token: the id [_nid] renders for
    the (kind, id) the token parses to.  A token that does not parse is
    left as it is. *)
Definition canonical_center (token : string) : string :=
  match _parse_node_id token with
  | inr (kind, i) => _nid kind i
  | inl _ => token
  end.

(* ===================================================================== *)
(** ** Entity references of the e-mail composer
       (backend/services/ai_client.py) *)
(* ===================================================================== *)

Module AiClient.

(** The argument of [_parse_entity]: a string, a dict read through its
    keys ["type"] (a string, when present) and ["id"] (an integer), or
    a value of another type. *)
Inductive Entity :=
  | EStr (s : string)
  | EDict (type_ : option string) (id_ : Z)
  | EOther.

(** [ID_RE] lists the alternatives of [_NODE_RE], with [re.I] too. *)
Definition ID_RE_kinds : list string :=
  ["person"; "people"; "project"; "projects";
   "task"; "tasks"; "group"; "groups"].

Definition ID_RE_match : string → option (string * string) :=
  re_alternatives ID_RE_kinds.

(** Accept 'project_1' or {'type':'project','id':1}. *)
Definition _parse_entity (e : Entity) : exn + (string * Z) :=
  match e with
  | EStr e =>
      match ID_RE_match (Py.strip e) with
      | None => inl ValueError
      | Some (g1, g2) =>
          let k := Py.rstrip_char "s" (Py.lower g1) in
          let k := default k (({[ "people" := "person" ]} : gmap string string) !! k) in
          match Py.int g2 with
          | Some n => inr (k, n)
          | None => inl ValueError
          end
      end
  | EDict type_ id_ =>
      let k := Py.lower (Py.strip (str_or type_ "")) in
      let k := if bool_decide (k ∈ ["projects"; "tasks"; "groups"; "people"])
               then Py.rstrip_char "s" k else k in
      if bool_decide (k ∈ ["project"; "task"; "group"; "person"])
      then inr (k, id_)
      else inl ValueError
  | EOther => inl ValueError
  end.

(** The strings of the argument are ASCII. *)
Definition entity_ascii (e : Entity) : bool :=
  match e with
  | EStr s => Py.is_ascii s
  | EDict type_ _ => Py.is_ascii (default "" type_)
  | EOther => true
  end.

(** The [centers] argument [compose_email_from_graph] passes to the
    traversal: [[f"{etype}_{eid}"]]. *)
Definition center_of (etype : string) (eid : Z) : list string :=
  [etype +:+ "_" +:+ pretty eid].

(** [l[:n]] *)
Definition slice_to {A} (n : Z) (l : list A) : list A :=
  if decide (0 ≤ n) then take (Z.to_nat n) l
  else take (length l - Z.to_nat (- n)) l.

(** [data.get(k)] on a node *)
Definition node_get (n : Node) (k : string) : Val :=
  default VNone (snd <$> head (filter (λ kv, kv.1 = k) (n_attrs n))).

(** The set [neighbors] of [build_ego_graph] after its loop over the
    edges *)
Definition ego_neighbors (edges : list Edge) (center_id : string)
  : gset string :=
  foldl (λ neighbors e,
           let s := e_source e in
           let t := e_target e in
           if Py.is_empty s || Py.is_empty t then neighbors
           else
             let neighbors :=
               if bool_decide (s = center_id ∧ t ≠ center_id)
               then neighbors ∪ {[t]} else neighbors in
             if bool_decide (t = center_id ∧ s ≠ center_id)
             then neighbors ∪ {[s]} else neighbors)
        ∅ edges.

(** [nid_to_node.get(nid)]: the entry of the last node with the id *)
Definition nid_to_node (nodes : list Node) (nid : string) : option Node :=
  (λ n, mkNode (n_id n) (n_type n)
          [("label", node_get n "label"); ("detail", node_get n "detail")])
    <$> last (filter (λ n, n_id n = nid ∧ nid ≠ "") nodes).

(** [set_iter] is the order in which [list(neighbors)] lists the set. *)
Definition build_ego_graph (set_iter : gset string → list string)
    (graph : Graph) (center_id : string) (max_neighbors : Z) : Graph :=
  let nodes := graph_nodes graph in
  let edges := graph_edges graph in
  let neighbors :=
    slice_to max_neighbors (set_iter (ego_neighbors edges center_id)) in
  let result_nodes :=
    option_list (nid_to_node nodes center_id)
    ++ omap (nid_to_node nodes) neighbors in
  let allowed : gset string := {[center_id]} ∪ list_to_set neighbors in
  let result_edges :=
    filter (λ e, e_source e ∈ allowed ∧ e_target e ∈ allowed) edges in
  mkGraph result_nodes result_edges.

(** An edge with two non-empty ends joins [x] and the center. *)
Definition ego_adjacent (graph : Graph) (center_id x : string) : Prop :=
  x ≠ center_id
  ∧ ∃ e, e ∈ graph_edges graph ∧ e_source e ≠ "" ∧ e_target e ≠ ""
         ∧ ((e_source e = center_id ∧ e_target e = x)
            ∨ (e_target e = center_id ∧ e_source e = x)).

End AiClient.

(* ===================================================================== *)
(** ** Writes to the store (backend/db/crud.py)

    The store is the snapshot the graph functions read: a write is a
    function from snapshot to snapshot.  A new row goes to the end of its
    table; [UPDATE] and [DELETE] act on every row their [WHERE] clause
    selects.  Columns the graph never reads (notes, dates, tags) are not
    part of the snapshot.  SQLite does not enforce the foreign keys
    here; the primary keys and unique constraints are enforced, and a
    violated one is the [IntegrityError] branch of the source. *)
(* ===================================================================== *)

(** [HTTPException(status_code=...)] *)
Inductive HTTPException := mkHTTPException (status_code : Z).

Definition with_people (db : DB) (rows : list Person) : DB :=
  mkDB rows (db_projects db) (db_tasks db) (db_groups db)
       (db_person_relations db) (db_project_leads db) (db_task_assignees db)
       (db_person_group db) (db_project_group db).

Definition with_tasks (db : DB) (rows : list Task) : DB :=
  mkDB (db_people db) (db_projects db) rows (db_groups db)
       (db_person_relations db) (db_project_leads db) (db_task_assignees db)
       (db_person_group db) (db_project_group db).

Definition with_person_relations (db : DB) (rows : list PersonRelation) : DB :=
  mkDB (db_people db) (db_projects db) (db_tasks db) (db_groups db)
       rows (db_project_leads db) (db_task_assignees db)
       (db_person_group db) (db_project_group db).

Definition with_project_leads (db : DB) (rows : list ProjectLead) : DB :=
  mkDB (db_people db) (db_projects db) (db_tasks db) (db_groups db)
       (db_person_relations db) rows (db_task_assignees db)
       (db_person_group db) (db_project_group db).

Definition with_task_assignees (db : DB) (rows : list TaskAssignee) : DB :=
  mkDB (db_people db) (db_projects db) (db_tasks db) (db_groups db)
       (db_person_relations db) (db_project_leads db) rows
       (db_person_group db) (db_project_group db).

Definition with_person_group (db : DB) (rows : list (Z * Z)) : DB :=
  mkDB (db_people db) (db_projects db) (db_tasks db) (db_groups db)
       (db_person_relations db) (db_project_leads db) (db_task_assignees db)
       rows (db_project_group db).

(** [db.get(Person, id)], [db.query(Group).get(id)]: the row of that
    primary key, if any *)
Definition get_person (db : DB) (person_id : Z) : option Person :=
  head (filter (λ p, p_id p = person_id) (db_people db)).
Definition get_group (db : DB) (group_id : Z) : option Group :=
  head (filter (λ g, g_id g = group_id) (db_groups db)).

(* --- Person Relation CRUD --- *)

(** [schemas.PersonRelationCreate] without its note *)
Record PersonRelationCreate := mkPersonRelationCreate {
  prc_to_person_id : Z;
  prc_type : string;
}.

Definition create_person_relation (db : DB) (from_person_id : Z)
    (payload : PersonRelationCreate)
  : HTTPException + (DB * PersonRelation) :=
  let rtype := Py.lower (Py.strip (str_or (Some (prc_type payload)) "")) in
  if negb (bool_decide (rtype ∈ ALLOWED_REL_TYPES))
  then inl (mkHTTPException 400)
  else if bool_decide (from_person_id = prc_to_person_id payload)
  then inl (mkHTTPException 400)
  else if negb (bool_decide (is_Some (get_person db from_person_id)))
  then inl (mkHTTPException 404)
  else if negb (bool_decide (is_Some (get_person db (prc_to_person_id payload))))
  then inl (mkHTTPException 404)
  else
    let rel := mkPersonRelation from_person_id (prc_to_person_id payload)
                                (Some rtype) in
    (* uq_person_relation_edge: the commit fails on a second row with the
       same ends and type, and the first such row is handed back *)
    match head (filter (λ r, r_from_person_id r = from_person_id
                             ∧ r_to_person_id r = prc_to_person_id payload
                             ∧ r_type r = Some rtype)
                       (db_person_relations db)) with
    | Some existing => inr (db, existing)
    | None =>
        inr (with_person_relations db (db_person_relations db ++ [rel]), rel)
    end.

(* --- Group membership --- *)

Definition add_person_to_group (db : DB) (group_id person_id : Z)
  : DB * option Group :=
  let group := get_group db group_id in
  let person := get_person db person_id in
  if bool_decide (is_Some group) && bool_decide (is_Some person)
     && negb (bool_decide ((person_id, group_id) ∈ db_person_group db))
  then (with_person_group db (db_person_group db ++ [(person_id, group_id)]),
        group)
  else (db, group).

Definition remove_person_from_group (db : DB) (group_id person_id : Z)
  : DB * option Group :=
  let group := get_group db group_id in
  let person := get_person db person_id in
  if bool_decide (is_Some group) && bool_decide (is_Some person)
     && bool_decide ((person_id, group_id) ∈ db_person_group db)
  then (with_person_group db
          (filter (λ row, row ≠ (person_id, group_id)) (db_person_group db)),
        group)
  else (db, group).

(* --- Person and task deletion --- *)

Definition delete_person (db : DB) (person_id : Z) : DB :=
  (* Proactively delete associations that might dangle *)
  {| db_person_relations :=
       filter (λ r, ¬ (r_from_person_id r = person_id
                       ∨ r_to_person_id r = person_id))
              (db_person_relations db);
     db_task_assignees :=
       filter (λ ta, ta_person_id ta ≠ person_id) (db_task_assignees db);
     db_project_leads :=
       filter (λ pl, pl_person_id pl ≠ person_id) (db_project_leads db);
     db_person_group :=
       filter (λ row, row.1 ≠ person_id) (db_person_group db);
     (* Finally remove the person *)
     db_people := filter (λ p, p_id p ≠ person_id) (db_people db);
     db_projects := db_projects db;
     db_tasks := db_tasks db;
     db_groups := db_groups db;
     db_project_group := db_project_group db |}.

(** Returns the store and whether a task row was deleted. *)
Definition delete_task (db : DB) (task_id : Z) : DB * bool :=
  let assignees := filter (λ ta, ta_task_id ta ≠ task_id)
                          (db_task_assignees db) in
  let deleted := length (filter (λ t, t_id t = task_id) (db_tasks db)) in
  (with_tasks (with_task_assignees db assignees)
              (filter (λ t, t_id t ≠ task_id) (db_tasks db)),
   bool_decide (0 < deleted)%nat).

(** Every row of [db] is a row of [db']. *)
Definition store_within (db db' : DB) : Prop :=
  db_people db ⊆ db_people db' ∧ db_projects db ⊆ db_projects db'
  ∧ db_tasks db ⊆ db_tasks db' ∧ db_groups db ⊆ db_groups db'
  ∧ db_person_relations db ⊆ db_person_relations db'
  ∧ db_project_leads db ⊆ db_project_leads db'
  ∧ db_task_assignees db ⊆ db_task_assignees db'
  ∧ db_person_group db ⊆ db_person_group db'
  ∧ db_project_group db ⊆ db_project_group db'.

(** ** Bulk role assignment (backend/db/crud.py, backend/main.py)

    Both functions loop over the Python set [kept_ids]; [set_iter] is the
    order in which the interpreter yields the members of a set.  An
    assignment [row.role = role_name] is flushed as an UPDATE on the
    primary key of the row. *)

(** [db.get(Project, project_id)] *)
Definition get_project (db : DB) (project_id : Z) : option Project :=
  head (filter (λ p, pr_id p = project_id) (db_projects db)).

(** [db.get(Task, task_id)] *)
Definition get_task (db : DB) (task_id : Z) : option Task :=
  head (filter (λ t, t_id t = task_id) (db_tasks db)).

Definition update_lead (row : ProjectLead) (rows : list ProjectLead)
  : list ProjectLead :=
  (λ pl, if decide (pl_project_id pl = pl_project_id row
                    ∧ pl_person_id pl = pl_person_id row)
         then row else pl) <$> rows.

Definition update_assignee (row : TaskAssignee) (rows : list TaskAssignee)
  : list TaskAssignee :=
  (λ ta, if decide (ta_task_id ta = ta_task_id row
                    ∧ ta_person_id ta = ta_person_id row)
         then row else ta) <$> rows.

Definition add_people_to_project_with_role (set_iter : gset Z → list Z)
    (db : DB) (project_id : Z) (person_ids : list Z) (role : option string)
  : DB * list ProjectLead :=
  let role_name := _normalize_raci role in
  if bool_decide (person_ids = []) then (db, [])
  else
    (* fetch existing rows for this project/person set *)
    let existing :=
      filter (λ pl, pl_project_id pl = project_id
                    ∧ pl_person_id pl ∈ person_ids)
             (db_project_leads db) in
    let by_person (pid : Z) :=
      last (filter (λ pl, pl_person_id pl = pid) existing) in
    (* ensure persons exist (skip missing) *)
    let people := filter (λ p, p_id p ∈ person_ids) (db_people db) in
    let kept_ids : gset Z := list_to_set (p_id <$> people) in
    let result :=
      foldl (λ acc pid,
               match by_person pid with
               | Some row =>
                   (* update role if changed *)
                   if bool_decide (Py.strip (default "" (pl_role row))
                                   ≠ role_name)
                   then
                     let row' := mkProjectLead (pl_project_id row)
                                   (pl_person_id row) (Some role_name) in
                     (update_lead row' acc.1, acc.2 ++ [row'])
                   else (acc.1, acc.2 ++ [row])
               | None =>
                   let pl := mkProjectLead project_id pid (Some role_name) in
                   (acc.1 ++ [pl], acc.2 ++ [pl])
               end)
            (db_project_leads db, []) (set_iter kept_ids) in
    (with_project_leads db result.1, result.2).

Definition add_people_to_task_with_role (set_iter : gset Z → list Z)
    (db : DB) (task_id : Z) (person_ids : list Z) (role : option string)
  : DB * list TaskAssignee :=
  let role_name := _normalize_raci role in
  if bool_decide (person_ids = []) then (db, [])
  else
    let existing :=
      filter (λ ta, ta_task_id ta = task_id ∧ ta_person_id ta ∈ person_ids)
             (db_task_assignees db) in
    let by_person (pid : Z) :=
      last (filter (λ ta, ta_person_id ta = pid) existing) in
    let people := filter (λ p, p_id p ∈ person_ids) (db_people db) in
    let kept_ids : gset Z := list_to_set (p_id <$> people) in
    let result :=
      foldl (λ acc pid,
               match by_person pid with
               | Some row =>
                   if bool_decide (Py.strip (default "" (ta_role row))
                                   ≠ role_name)
                   then
                     let row' := mkTaskAssignee (ta_task_id row)
                                   (ta_person_id row) (Some role_name) in
                     (update_assignee row' acc.1, acc.2 ++ [row'])
                   else (acc.1, acc.2 ++ [row])
               | None =>
                   let ta := mkTaskAssignee task_id pid (Some role_name) in
                   (acc.1 ++ [ta], acc.2 ++ [ta])
               end)
            (db_task_assignees db, []) (set_iter kept_ids) in
    (with_task_assignees db result.1, result.2).

(** [POST /api/projects/{project_id}/assign]: the store and the [count]
    of the answer, or the error raised. *)
Definition assign_people_to_project (set_iter : gset Z → list Z)
    (db : DB) (project_id : Z) (person_ids : list Z) (role : option string)
  : HTTPException + (DB * nat) :=
  match get_project db project_id with
  | None => inl (mkHTTPException 404)
  | Some proj =>
      let rows := add_people_to_project_with_role
                    set_iter db project_id person_ids role in
      inr (rows.1, length rows.2)
  end.

(** [POST /api/tasks/{task_id}/assign] *)
Definition assign_people_to_task (set_iter : gset Z → list Z)
    (db : DB) (task_id : Z) (person_ids : list Z) (role : option string)
  : HTTPException + (DB * nat) :=
  match get_task db task_id with
  | None => inl (mkHTTPException 404)
  | Some task =>
      let rows := add_people_to_task_with_role
                    set_iter db task_id person_ids role in
      inr (rows.1, length rows.2)
  end.

(** The upsert loop of the two functions, over any table of role rows
    keyed by an owner (a project or a task) and a person. *)
Class RoleRow (Row : Type) := {
  row_owner : Row → Z;
  row_person : Row → Z;
  row_role : Row → option string;
  row_make : Z → Z → option string → Row;
  row_make_owner : ∀ o p r, row_owner (row_make o p r) = o;
  row_make_person : ∀ o p r, row_person (row_make o p r) = p;
  row_make_role : ∀ o p r, row_role (row_make o p r) = r;
}.

Global Instance ProjectLead_row : RoleRow ProjectLead :=
  {| row_owner := pl_project_id; row_person := pl_person_id;
     row_role := pl_role; row_make := mkProjectLead;
     row_make_owner := λ _ _ _, eq_refl;
     row_make_person := λ _ _ _, eq_refl;
     row_make_role := λ _ _ _, eq_refl |}.

Global Instance TaskAssignee_row : RoleRow TaskAssignee :=
  {| row_owner := ta_task_id; row_person := ta_person_id;
     row_role := ta_role; row_make := mkTaskAssignee;
     row_make_owner := λ _ _ _, eq_refl;
     row_make_person := λ _ _ _, eq_refl;
     row_make_role := λ _ _ _, eq_refl |}.

Section role_rows.
Context `{RoleRow Row}.
Variables (owner_id : Z) (person_ids : list Z) (role_name : string).
Variable rows0 : list Row.

Definition role_existing : list Row :=
  filter (λ r, row_owner r = owner_id ∧ row_person r ∈ person_ids) rows0.

Definition role_by_person (pid : Z) : option Row :=
  last (filter (λ r, row_person r = pid) role_existing).

Definition role_update (row : Row) (rows : list Row) : list Row :=
  (λ r, if decide (row_owner r = row_owner row
                   ∧ row_person r = row_person row)
        then row else r) <$> rows.

Definition role_step (acc : list Row * list Row) (pid : Z)
  : list Row * list Row :=
  match role_by_person pid with
  | Some row =>
      if bool_decide (Py.strip (default "" (row_role row)) ≠ role_name)
      then
        let row' := row_make (row_owner row) (row_person row)
                             (Some role_name) in
        (role_update row' acc.1, acc.2 ++ [row'])
      else (acc.1, acc.2 ++ [row])
  | None =>
      let r := row_make owner_id pid (Some role_name) in
      (acc.1 ++ [r], acc.2 ++ [r])
  end.

Definition role_loop (ids : list Z) : list Row * list Row :=
  foldl role_step (rows0, []) ids.

(** The person has a row whose trimmed role differs from [role_name]. *)
Definition role_stale (pid : Z) : bool :=
  match role_by_person pid with
  | Some row =>
      bool_decide (Py.strip (default "" (row_role row)) ≠ role_name)
  | None => false
  end.

(** What the loop over [ids] makes of a row of the table *)
Definition role_settle (ids : list Z) (r : Row) : Row :=
  if decide (row_owner r = owner_id ∧ row_person r ∈ ids
             ∧ role_stale (row_person r) = true)
  then row_make owner_id (row_person r) (Some role_name) else r.

(** The rows the loop over [ids] inserts *)
Definition role_fresh (ids : list Z) : list Row :=
  (λ pid, row_make owner_id pid (Some role_name))
    <$> filter (λ pid, role_by_person pid = None) ids.
End role_rows.

(** ** Replacing the assignees of a task and the leads of a project
    (backend/db/crud.py)

    The payloads are read as the functions read them: an entry without a
    person id is skipped, an absent or empty role is [Responsible].  The
    tags and the checklist the two functions also write are no tables of
    this store. *)

(** An entry of [task.task_assignees] or of [project.project_leads] *)
Record RoleIn := mkRoleIn {
  ri_person_id : option Z;
  ri_role : option string;
}.

(** [schemas.TaskCreate] *)
Record TaskCreate := mkTaskCreate {
  tc_name : string;
  tc_description : option string;
  tc_status : option string;
  tc_project_id : Z;
  tc_task_assignees : option (list RoleIn);
}.

(** [schemas.ProjectCreate] *)
Record ProjectCreate := mkProjectCreate {
  pc_name : string;
  pc_description : option string;
  pc_status : option string;
  pc_project_leads : option (list RoleIn);
}.

(** [sqlalchemy.exc.IntegrityError], raised by [db.commit()] *)
Inductive StoreError := IntegrityError.

(** The dict [desired] of [update_task], in insertion order *)
Definition desired_roles (assignees : list RoleIn) : list (Z * string) :=
  foldl (λ desired ap,
           match ri_person_id ap with
           | None => desired
           | Some pid =>
               let role := str_or (ri_role ap) "Responsible" in
               dd_update "" pid (λ _, role) desired
           end) [] assignees.

(** Returns the store and the task handed back. *)
Definition update_task (db : DB) (task_id : Z) (task : TaskCreate)
  : DB * option Task :=
  match head (filter (λ t, t_id t = task_id) (db_tasks db)) with
  | None => (db, None)
  | Some db_task =>
      (* scalars ... (unchanged) *)
      let db1 :=
        match tc_task_assignees task with
        | Some assignees =>
            let rows := filter (λ ta, ta_task_id ta ≠ t_id db_task)
                               (db_task_assignees db) in
            let desired := desired_roles assignees in
            with_task_assignees db
              (rows ++ ((λ e, mkTaskAssignee (t_id db_task) e.1 (Some e.2))
                          <$> desired))
        | None => db
        end in
      (db1, head (filter (λ t, t_id t = t_id db_task) (db_tasks db1)))
  end.

Definition with_projects (db : DB) (rows : list Project) : DB :=
  mkDB (db_people db) rows (db_tasks db) (db_groups db)
       (db_person_relations db) (db_project_leads db) (db_task_assignees db)
       (db_person_group db) (db_project_group db).

(** The columns of [_project_scalars_from_schema] this store holds *)
Definition _project_scalars_from_schema (p : ProjectCreate) (row : Project)
  : Project :=
  mkProject (pr_id row) (pc_name p) (Some (str_or (pc_status p) "Planned"))
            (pc_description p).

(** The lead rows [update_project] adds, one per entry with a person id
    other than 0 *)
Definition lead_rows (project_id : Z) (leads : list RoleIn)
  : list ProjectLead :=
  omap (λ lead,
          match truthy (ri_person_id lead) with
          | Some pid =>
              Some (mkProjectLead project_id pid
                      (Some (str_or (ri_role lead) "Responsible")))
          | None => None
          end) leads.

(** Returns the store and the project handed back; the commit fails on
    two new rows of one primary key (project_id, person_id). *)
Definition update_project (db : DB) (project_id : Z) (project : ProjectCreate)
  : StoreError + (DB * option Project) :=
  match head (filter (λ p, pr_id p = project_id) (db_projects db)) with
  | None => inr (db, None)
  | Some db_project =>
      (* 1) update scalar columns only *)
      let projects :=
        (λ p, if decide (pr_id p = pr_id db_project)
              then _project_scalars_from_schema project p else p)
          <$> db_projects db in
      (* 2) reset and re-attach leads (association objects) *)
      let rows := filter (λ pl, pl_project_id pl ≠ project_id)
                         (db_project_leads db) in
      let leads := default [] (pc_project_leads project) in
      let added := lead_rows project_id leads in
      if bool_decide (NoDup (pl_person_id <$> added))
      then
        let db1 := with_project_leads (with_projects db projects)
                                      (rows ++ added) in
        inr (db1, head (filter (λ p, pr_id p = pr_id db_project)
                               (db_projects db1)))
      else inl IntegrityError
  end.

(** ** Further sample stores *)

Module MoreSamples.

(** A project stored under the id 0, and its one task *)
Definition project_zero : DB :=
  {| db_people := [];
     db_projects := [mkProject 0 "Zero" (Some "Planned") None];
     db_tasks := [mkTask 1 "T" None None (Some 0)];
     db_groups := [];
     db_person_relations := [];
     db_project_leads := [];
     db_task_assignees := [];
     db_person_group := [];
     db_project_group := [] |}.

End MoreSamples.

(* ===================================================================== *)
(** * Properties *)
(* ===================================================================== *)

(** ** Strings *)

Section strings.

Lemma upper_char_idem c : Py.upper_char (Py.upper_char c) = Py.upper_char c.
Proof. by destruct c as [[] [] [] [] [] [] [] []]. Qed.

Lemma upper_take1 s : Py.upper (Py.take1 s) = Py.take1 (Py.upper s).
Proof. by destruct s. Qed.

Lemma upper_take1_capitalize s :
  Py.upper (Py.take1 (Py.capitalize s)) = Py.upper (Py.take1 s).
Proof. destruct s as [|c s]; [done|]. cbn. by rewrite upper_char_idem. Qed.

Lemma is_empty_true s : Py.is_empty s = true ↔ s = "".
Proof. by destruct s. Qed.

Lemma is_empty_false s : Py.is_empty s = false ↔ s ≠ "".
Proof. by destruct s. Qed.

End strings.

(** ** RACI roles *)

Lemma raci_name_lookup (k : string) :
  _RACI_NAME !! k =
    if decide (k = "R") then Some "Responsible"
    else if decide (k = "A") then Some "Accountable"
    else if decide (k = "C") then Some "Consulted"
    else if decide (k = "I") then Some "Informed"
    else None.
Proof.
  unfold _RACI_NAME.
  repeat (rewrite lookup_insert; case_decide; [by simplify_eq; repeat case_decide|]).
  rewrite lookup_singleton. by repeat case_decide; simplify_eq.
Qed.

Lemma raci_initial_lookup (k : string) :
  _RACI_INITIAL !! k =
    if decide (k = "Responsible") then Some "R"
    else if decide (k = "Accountable") then Some "A"
    else if decide (k = "Consulted") then Some "C"
    else if decide (k = "Informed") then Some "I"
    else None.
Proof.
  unfold _RACI_INITIAL.
  repeat (rewrite lookup_insert; case_decide; [by simplify_eq; repeat case_decide|]).
  rewrite lookup_singleton. by repeat case_decide; simplify_eq.
Qed.

(** The suffix of a non-empty stored role is its first character, upper
    case: the four table entries are the initials of their keys. *)
Lemma raci_suffix_first_char (r : string) :
  r ≠ "" → raci_suffix (Some r) = Py.upper (Py.take1 r).
Proof.
  intros Hr. unfold raci_suffix, str_or. cbn [mbind option_bind].
  apply is_empty_false in Hr as ->.
  rewrite raci_initial_lookup. by repeat case_decide; simplify_eq.
Qed.

Lemma normalize_raci_responsible (r : string) :
  r ≠ "" →
  _normalize_raci (Some r) = "Responsible"
  ↔ Py.upper (Py.take1 (Py.strip r)) = "R".
Proof.
  intros Hr. unfold _normalize_raci, falsy.
  apply is_empty_false in Hr as ->.
  change (default "" (Some r)) with r. cbv zeta.
  generalize (Py.strip r) as s. intros s.
  rewrite raci_name_lookup.
  destruct (decide (Py.upper s = "R")) as [HR|HR];
    [by rewrite upper_take1, HR|].
  destruct (decide (Py.upper s = "A")) as [HA|HA];
    [by rewrite upper_take1, HA|].
  destruct (decide (Py.upper s = "C")) as [HC|HC];
    [by rewrite upper_take1, HC|].
  destruct (decide (Py.upper s = "I")) as [HI|HI];
    [by rewrite upper_take1, HI|].
  rewrite raci_name_lookup, upper_take1_capitalize.
  repeat case_decide; simpl; try (split; congruence).
  split; [|done]. intros Ht.
  assert (Py.upper (Py.take1 (Py.capitalize s)) = "R") as Hk by (by rewrite Ht).
  by rewrite upper_take1_capitalize in Hk.
Qed.

Lemma normalize_raci_other (r : string) :
  r ≠ "" →
  Py.upper (Py.take1 (Py.strip r)) ∉ ["R"; "A"; "C"; "I"] →
  _normalize_raci (Some r) = Py.capitalize (Py.strip r).
Proof.
  intros Hr. unfold _normalize_raci, falsy.
  apply is_empty_false in Hr as ->.
  change (default "" (Some r)) with r. cbv zeta.
  generalize (Py.strip r) as s. intros s Hnot.
  rewrite !elem_of_cons, elem_of_nil in Hnot.
  rewrite raci_name_lookup.
  destruct (decide (Py.upper s = "R")) as [HR|HR];
    [destruct Hnot; by rewrite upper_take1, HR; left|].
  destruct (decide (Py.upper s = "A")) as [HA|HA];
    [destruct Hnot; by rewrite upper_take1, HA; right; left|].
  destruct (decide (Py.upper s = "C")) as [HC|HC];
    [destruct Hnot; by rewrite upper_take1, HC; right; right; left|].
  destruct (decide (Py.upper s = "I")) as [HI|HI];
    [destruct Hnot; by rewrite upper_take1, HI; do 3 right; left|].
  rewrite raci_name_lookup, upper_take1_capitalize.
  repeat case_decide; simpl; try done; destruct Hnot; auto 6.
Qed.

(** C9.  The four spellings ["r"], ["R"], ["Responsible"] and
    [" responsible "] of the role are all normalized to [Responsible] by
    [_normalize_raci], and the edge-type computation of the materializers
    turns the role so stored into the suffix [R], that is, into the edge
    types [RACI:R] and [ASSIGNEE:R].  The three spellings without blanks
    give the suffix [R] also when they are stored as they are. *)
Theorem raci_recognized_forms_suffix_R :
  Forall (λ r,
            _normalize_raci (Some r) = "Responsible"
            ∧ raci_suffix (stored_role (Some r)) = "R"
            ∧ raci_etype (stored_role (Some r)) = "RACI:R"
            ∧ assignee_etype (stored_role (Some r)) = "ASSIGNEE:R")
         ["r"; "R"; "Responsible"; " responsible "]
  ∧ Forall (λ r, raci_suffix (Some r) = "R") ["r"; "R"; "Responsible"].
Proof. split; repeat constructor; by vm_compute. Qed.

(** C5, as stated, fails: ["xyz"] is no RACI code and no RACI word, yet
    it is neither normalized to [Responsible] nor given the suffix [R]. *)
Lemma raci_unrecognized_counterexample :
  ¬ (_normalize_raci (Some "xyz") = "Responsible"
     ∨ raci_suffix (Some "xyz") = "R"
     ∨ raci_etype (Some "xyz") = "RACI:R"
     ∨ assignee_etype (Some "xyz") = "ASSIGNEE:R").
Proof. vm_compute. intros [?|[?|[?|?]]]; discriminate. Qed.

(** C5, amended.  An empty or absent stored role gives the suffix [R].
    A non-empty role has no default: its suffix is its first character in
    upper case; [_normalize_raci] answers [Responsible] exactly when the
    first character of the trimmed role is an [r] or an [R], and, for a
    role of ASCII characters, hands back the capitalized trimmed role
    when that character is none of R, A, C, I. *)
Theorem raci_unrecognized_amended (r : string) :
  r ≠ "" →
  raci_suffix None = "R" ∧ raci_suffix (Some "") = "R"
  ∧ raci_suffix (Some r) = Py.upper (Py.take1 r)
  ∧ raci_etype (Some r) = "RACI:" +:+ Py.upper (Py.take1 r)
  ∧ assignee_etype (Some r) = "ASSIGNEE:" +:+ Py.upper (Py.take1 r)
  ∧ (_normalize_raci (Some r) = "Responsible"
     ↔ Py.upper (Py.take1 (Py.strip r)) = "R")
  ∧ (Py.is_ascii r = true →
     Py.upper (Py.take1 (Py.strip r)) ∉ ["R"; "A"; "C"; "I"] →
     _normalize_raci (Some r) = Py.capitalize (Py.strip r)).
Proof.
  intros Hr. unfold raci_etype, assignee_etype.
  rewrite (raci_suffix_first_char r Hr).
  split_and!; try done; [by apply normalize_raci_responsible..|].
  intros _. by apply normalize_raci_other.
Qed.

Lemma raci_unrecognized_amended_witness :
  raci_suffix (Some "xyz") = "X"
  ∧ _normalize_raci (Some "xyz") = "Xyz".
Proof.
  destruct (raci_unrecognized_amended "xyz") as (_ & _ & Hs & _ & _ & _ & Hn);
    [discriminate|].
  split; [exact Hs|]. apply Hn; [reflexivity|].
  rewrite !elem_of_cons, elem_of_nil. intros [?|[?|[?|[?|[]]]]]; discriminate.
Defined.

(** ** Node ids *)

Lemma known_kind_cases k :
  known_kind k ↔ k = "person" ∨ k = "project" ∨ k = "task" ∨ k = "group".
Proof.
  unfold known_kind. cbn. rewrite !elem_of_cons, elem_of_nil. tauto.
Qed.

Ltac known_cases H :=
  apply known_kind_cases in H as [->|[->|[->| ->]]].

(** Distinct (kind, id) keys have distinct canonical ids. *)
Lemma nid_inj k1 i1 k2 i2 :
  known_kind k1 → known_kind k2 → _nid k1 i1 = _nid k2 i2 → k1 = k2 ∧ i1 = i2.
Proof.
  intros H1 H2 Heq. known_cases H1; known_cases H2;
    unfold _nid in Heq; cbn in Heq; try discriminate Heq;
    (split; [done|]); simplify_eq; by eapply (inj pretty).
Qed.

Lemma digit_val_pretty_char d :
  (d < 10)%N →
  Py.is_digit (pretty_N_char d) = true
  ∧ Py.digit_val (pretty_N_char d) = Z.of_N d.
Proof.
  intros Hd.
  assert (d = 0 ∨ d = 1 ∨ d = 2 ∨ d = 3 ∨ d = 4 ∨ d = 5 ∨ d = 6 ∨ d = 7
          ∨ d = 8 ∨ d = 9)%N as Hc by lia.
  by repeat (destruct Hc as [->|Hc]; [done|]); subst.
Qed.

(** Reading back the digits that [pretty] writes in front of [s] *)
Lemma digits_acc_pretty_go (x : N) (s : string) :
  Py.digits_acc 0 (pretty_N_go x s) = Py.digits_acc (Z.of_N x) s.
Proof.
  revert s. induction (N.lt_wf_0 x) as [x _ IH]; intros s.
  destruct (decide (x = 0)%N) as [->|Hx]; [done|].
  rewrite pretty_N_go_step by lia.
  rewrite IH by (apply N.div_lt; lia). cbn [Py.digits_acc].
  destruct (digit_val_pretty_char (x `mod` 10)) as [_ ->];
    [by apply N.mod_lt|].
  f_equal. rewrite N2Z.inj_div, N2Z.inj_mod. change (Z.of_N 10) with 10.
  pose proof (Z.div_mod (Z.of_N x) 10). lia.
Qed.

Lemma all_digits_pretty_go (x : N) (s : string) :
  Py.all_digits s = true → Py.all_digits (pretty_N_go x s) = true.
Proof.
  revert s. induction (N.lt_wf_0 x) as [x _ IH]; intros s Hs.
  destruct (decide (x = 0)%N) as [->|Hx]; [done|].
  rewrite pretty_N_go_step by lia.
  apply IH; [apply N.div_lt; lia|]. cbn [Py.all_digits].
  destruct (digit_val_pretty_char (x `mod` 10)) as [-> _];
    [by apply N.mod_lt|done].
Qed.

Lemma nonempty_pretty_go (x : N) (s : string) :
  s ≠ "" → pretty_N_go x s ≠ "".
Proof.
  revert s. induction (N.lt_wf_0 x) as [x _ IH]; intros s Hs.
  destruct (decide (x = 0)%N) as [->|Hx]; [done|].
  rewrite pretty_N_go_step by lia. by apply IH; [apply N.div_lt; lia|].
Qed.

Lemma int_digits (ds : string) :
  ds ≠ "" → Py.all_digits ds = true → Py.int ds = Some (Py.digits_acc 0 ds).
Proof.
  destruct ds as [|c ds]; [done|]. intros _ Hd. unfold Py.int.
  assert (Py.is_digit c = true) as Hc.
  { cbn in Hd. by apply andb_true_iff in Hd as [? _]. }
  rewrite !bool_decide_eq_false_2 by (by intros ->).
  unfold Py.digits. by rewrite Hd.
Qed.

Lemma pretty_N_digits (x : N) :
  pretty x ≠ "" ∧ Py.all_digits (pretty x) = true
  ∧ Py.digits_acc 0 (pretty x) = Z.of_N x.
Proof.
  unfold pretty, pretty_N. case_decide as Hx; [by subst|].
  rewrite (pretty_N_go_step x "") by lia. split_and!.
  - by apply nonempty_pretty_go.
  - apply all_digits_pretty_go. cbn.
    by destruct (digit_val_pretty_char (x `mod` 10)) as [-> _];
      [apply N.mod_lt|].
  - by rewrite <-pretty_N_go_step, digits_acc_pretty_go by lia.
Qed.

(** [int(f"{i}")] is [i]. *)
Lemma int_pretty (i : Z) : Py.int (pretty i) = Some i.
Proof.
  destruct i as [|p|p]; [done|..];
    destruct (pretty_N_digits (N.pos p)) as (Hne & Hd & Hv).
  - change (pretty (Z.pos p)) with (pretty (N.pos p)).
    rewrite int_digits by done. by rewrite Hv.
  - change (pretty (Z.neg p)) with (String "-" (pretty (N.pos p))).
    unfold Py.int. rewrite bool_decide_eq_true_2 by done.
    unfold Py.digits. apply is_empty_false in Hne.
    by rewrite Hne, Hd, Hv.
Qed.

Lemma after_first_nid k i :
  known_kind k → Py.after_first "_" (_nid k i) = Some (pretty i).
Proof. intros H. by known_cases H. Qed.

Lemma startswith_nid (k' k : string) i :
  known_kind k' → known_kind k →
  Py.startswith (k' +:+ "_") (_nid k i) = bool_decide (k = k').
Proof.
  intros H' H. known_cases H'; known_cases H; try done;
    unfold _nid; cbn; by rewrite ?bool_decide_eq_true_2.
Qed.

(** The ids of one kind read back from canonical node ids: the index and
    [int] succeed on every id the builder stores. *)
Lemma ids_of_kind_nid (k' k : string) (i : Z) :
  known_kind k' → known_kind k →
  (if Py.startswith (k' +:+ "_") (_nid k i)
   then Py.after_first "_" (_nid k i) ≫= Py.int else None)
  = if bool_decide (k = k') then Some i else None.
Proof.
  intros H' H. rewrite startswith_nid by done. case_bool_decide; [|done].
  rewrite after_first_nid by done. cbn. apply int_pretty.
Qed.

(** ** Loops *)

(** A property kept by every iteration is kept by the loop. *)
Lemma foldl_keeps {A S} (P : S → Prop) (f : S → A → S) (l : list A) (s : S) :
  P s → (∀ s x, x ∈ l → P s → P (f s x)) → P (foldl f s l).
Proof.
  revert s. induction l as [|x l IH]; intros s Hs Hf; [done|]. cbn.
  apply IH.
  - apply Hf; [by left|done].
  - intros s' y Hy. apply Hf. by right.
Qed.

Lemma foldl_same {A S} (f g : S → A → S) (l : list A) (s : S) :
  (∀ s x, f s x = g s x) → foldl f s l = foldl g s l.
Proof.
  intros Hfg. revert s. induction l as [|x l IH]; intros s; [done|].
  cbn. by rewrite Hfg, IH.
Qed.


(** What one iteration establishes, and the later ones keep, holds after
    the loop. *)
Lemma foldl_reaches {A S} (Pre Post : S → Prop) (f : S → A → S)
    (l : list A) (x : A) (s : S) :
  x ∈ l → Pre s →
  (∀ s y, Pre s → Pre (f s y)) →
  (∀ s, Pre s → Post (f s x)) →
  (∀ s y, Post s → Post (f s y)) →
  Post (foldl f s l).
Proof.
  intros Hx Hs HPre Hhit HPost. revert s Hs.
  induction l as [|y l IH]; intros s Hs; [by apply elem_of_nil in Hx|].
  cbn. apply elem_of_cons in Hx as [<-|Hx].
  - apply (foldl_keeps Post); [by apply Hhit|]. intros ????. by apply HPost.
  - apply IH; [done|]. by apply HPre.
Qed.

Lemma pairs_distinct {A} (l : list A) a b :
  NoDup l → (a, b) ∈ pairs l → a ≠ b ∧ a ∈ l ∧ b ∈ l.
Proof.
  induction l as [|x l IH]; intros Hnd Hin; [by apply elem_of_nil in Hin|].
  apply NoDup_cons in Hnd as [Hx Hnd]. cbn in Hin.
  apply elem_of_app in Hin as [Hin|Hin].
  - apply list_elem_of_fmap in Hin as (y & [= -> ->] & Hy).
    split_and!; [by intros -> | by left | by right].
  - destruct (IH Hnd Hin) as (? & ? & ?). split_and!; [done|by right..].
Qed.

Lemma pairs_complete {A} (l : list A) a b :
  a ∈ l → b ∈ l → a ≠ b → (a, b) ∈ pairs l ∨ (b, a) ∈ pairs l.
Proof.
  induction l as [|x l IH]; intros Ha Hb Hne; [by apply elem_of_nil in Ha|].
  cbn. rewrite !elem_of_app, !list_elem_of_fmap.
  apply elem_of_cons in Ha as [->|Ha]; apply elem_of_cons in Hb as [->|Hb].
  - done.
  - left. left. by exists b.
  - right. left. by exists a.
  - destruct (IH Ha Hb Hne); [left|right]; by right.
Qed.

Lemma sorted_strs_elem (s : gset string) x : x ∈ sorted_strs s ↔ x ∈ s.
Proof.
  unfold sorted_strs. by rewrite merge_sort_Permutation, elem_of_elements.
Qed.

Lemma sorted_strs_NoDup (s : gset string) : NoDup (sorted_strs s).
Proof.
  unfold sorted_strs. rewrite merge_sort_Permutation. apply NoDup_elements.
Qed.

Lemma sorted_ints_elem (s : gset Z) x : x ∈ sorted_ints s ↔ x ∈ s.
Proof.
  unfold sorted_ints. by rewrite merge_sort_Permutation, elem_of_elements.
Qed.

Lemma sorted_ints_NoDup (s : gset Z) : NoDup (sorted_ints s).
Proof.
  unfold sorted_ints. rewrite merge_sort_Permutation. apply NoDup_elements.
Qed.

(** ** The traversal keeps what its two helpers keep *)

Module SubgraphFacts.
Import Subgraph.

Section kept.
Variables (max_nodes max_edges : Z) (db : DB).
Variable P : State → Prop.

(** [P] survives every [add_node] of a known kind and every
    [add_edge]. *)
Hypothesis P_node : ∀ st kind obj_id label status email,
  known_kind kind → P st →
  P (add_node max_nodes st kind obj_id label status email).
Hypothesis P_edge : ∀ st src dst etype,
  P st → P (add_edge max_edges st src dst etype).

Local Ltac known :=
  apply known_kind_cases; auto.

Local Ltac kept :=
  repeat first
    [ assumption
    | progress cbn [builder next_frontier]
    | apply P_edge
    | apply P_node; [known|]
    | match goal with
      | |- P (builder (foldl _ _ _)) =>
          apply (foldl_keeps (λ h, P (builder h))); [|intros ? ? _ ?]
      | |- P (foldl _ _ _) =>
          apply (foldl_keeps P); [|intros ? ? _ ?]
      | |- context [let '(_, _) := ?x in _] => destruct x
      | |- context [match ?x with _ => _ end] => destruct x eqn:?
      end ].

Lemma materialize_keeps frontier st :
  P st → P (materialize max_nodes db frontier st).
Proof. intros. unfold materialize. kept. Qed.

Lemma lead_people_keeps pls h :
  P (builder h) → P (builder (lead_people max_nodes max_edges db pls h)).
Proof. intros. unfold lead_people. kept. Qed.

Lemma expand_projects_keeps ids h :
  P (builder h) →
  P (builder (expand_projects max_nodes max_edges db ids h)).
Proof.
  intros. unfold expand_projects. kept. apply lead_people_keeps. kept.
Qed.

Lemma expand_tasks_keeps ids h :
  P (builder h) → P (builder (expand_tasks max_nodes max_edges db ids h)).
Proof.
  intros. unfold expand_tasks. kept. apply lead_people_keeps. kept.
Qed.

Lemma expand_people_keeps ids h :
  P (builder h) → P (builder (expand_people max_nodes max_edges db ids h)).
Proof. intros. unfold expand_people. kept. Qed.

Lemma expand_groups_keeps ids h :
  P (builder h) → P (builder (expand_groups max_nodes max_edges db ids h)).
Proof. intros. unfold expand_groups. kept. Qed.

Lemma hop_keeps frontier st :
  P st → P (builder (hop max_nodes max_edges db frontier st)).
Proof.
  intros. unfold hop.
  repeat first
    [ assumption
    | apply expand_projects_keeps | apply expand_tasks_keeps
    | apply expand_people_keeps | apply expand_groups_keeps
    | case_match ].
Qed.

Lemma hops_keeps n frontier st :
  P st → P (hops max_nodes max_edges db n frontier st).
Proof.
  revert frontier st. induction n as [|n IH]; intros frontier st HP; [done|].
  cbn. repeat case_match; try done. by apply IH, hop_keeps.
Qed.

Lemma sub_collab_pairs_keeps etype st ppl :
  P st → P (collab_pairs max_edges etype st ppl).
Proof. intros. unfold collab_pairs. kept. Qed.

Lemma sub_collab_keeps etype st groups :
  P st → P (collab max_edges etype st groups).
Proof.
  intros. unfold collab.
  apply (foldl_keeps P); [done|]. intros ? [? ?] _ ?.
  by apply sub_collab_pairs_keeps.
Qed.

Lemma post_pass_keeps st : P st → P (post_pass max_edges db st).
Proof. intros. unfold post_pass. by do 2 apply sub_collab_keeps. Qed.

Lemma traverse_keeps centers degrees include_collab :
  P init →
  P (traverse max_nodes max_edges db centers degrees include_collab).
Proof.
  intros. unfold traverse. repeat case_match; try done.
  - by apply post_pass_keeps, hops_keeps, materialize_keeps.
  - by apply hops_keeps, materialize_keeps.
Qed.
End kept.
End SubgraphFacts.

(** ** Well-formed builder states *)

Lemma wf_init : wf init.
Proof.
  split; cbn; try done.
  - exists []. split_and!; [constructor|constructor|done|done].
  - constructor.
  - intros e He. by apply elem_of_nil in He.
Qed.

Lemma list_to_set_push `{Countable A} (l : list A) (x : A) :
  {[x]} ∪ list_to_set l =@{gset A} list_to_set (l ++ [x]).
Proof.
  apply set_eq. intros y.
  rewrite elem_of_union, !elem_of_list_to_set, elem_of_app.
  rewrite elem_of_singleton, list_elem_of_singleton. tauto.
Qed.

Lemma rendered_inj k1 k2 :
  known_kind k1.1 → known_kind k2.1 → rendered k1 = rendered k2 → k1 = k2.
Proof.
  destruct k1 as [a i], k2 as [b j]. unfold rendered. cbn.
  intros Ha Hb [= -> Hid]. by destruct (nid_inj b i b j Ha Hb Hid) as [_ ->].
Qed.

(** Appending a node under a fresh key of a known kind *)
Lemma wf_push_node st kind obj_id attrs :
  known_kind kind → (kind, obj_id) ∉ seen_nodes st → wf st →
  wf {| nodes := nodes st ++ [mkNode (_nid kind obj_id) kind attrs];
        edges := edges st;
        seen_nodes := {[(kind, obj_id)]} ∪ seen_nodes st;
        node_ids := {[_nid kind obj_id]} ∪ node_ids st;
        seen_edges := seen_edges st |}.
Proof.
  intros Hk Hfresh [(keys & Hnd & Hkn & Hseen & Hren) Hids Hek Hse Hend].
  split; cbn; try done.
  - exists (keys ++ [(kind, obj_id)]). split_and!.
    + apply NoDup_app. split_and!; [done| |apply NoDup_singleton].
      intros x Hx ->%list_elem_of_singleton. apply Hfresh.
      rewrite Hseen. by apply elem_of_list_to_set.
    + apply Forall_app. split; [done|]. by constructor.
    + rewrite Hseen. apply list_to_set_push.
    + by rewrite !fmap_app, Hren.
  - rewrite fmap_app, Hids. apply list_to_set_push.
  - intros e He. destruct (Hend e He).
    split; apply elem_of_union; by right.
Qed.

(** Appending an edge under a fresh key between recorded nodes *)
Lemma wf_push_edge st src dst etype :
  src ∈ node_ids st → dst ∈ node_ids st → (src, dst, etype) ∉ seen_edges st →
  wf st →
  wf {| nodes := nodes st;
        edges := edges st ++ [mkEdge src dst etype];
        seen_nodes := seen_nodes st;
        node_ids := node_ids st;
        seen_edges := {[(src, dst, etype)]} ∪ seen_edges st |}.
Proof.
  intros Hs Hd Hfresh [Hkeys Hids Hek Hse Hend].
  split; cbn; try done.
  - rewrite fmap_app. apply NoDup_app. split_and!; [done| |apply NoDup_singleton].
    intros x Hx ->%list_elem_of_singleton. apply Hfresh.
    rewrite Hse. by apply elem_of_list_to_set.
  - rewrite fmap_app, Hse. apply list_to_set_push.
  - intros e [He| ->%list_elem_of_singleton]%elem_of_app; [by apply Hend|done].
Qed.

Lemma wf_length_nodes st : wf st → length (nodes st) = size (seen_nodes st).
Proof.
  intros [(keys & Hnd & _ & -> & Hren) _ _ _ _].
  rewrite size_list_to_set by done.
  by rewrite <-(length_fmap (λ n, (n_type n, n_id n))), Hren, length_fmap.
Qed.

Lemma wf_length_edges st : wf st → length (edges st) = size (seen_edges st).
Proof.
  intros [_ _ Hnd -> _]. rewrite size_list_to_set by done.
  by rewrite length_fmap.
Qed.

Lemma wf_NoDup_ids st : wf st → NoDup (n_id <$> nodes st).
Proof.
  intros [(keys & Hnd & Hkn & _ & Hren) _ _ _ _].
  assert (n_id <$> nodes st = (snd ∘ rendered) <$> keys) as ->.
  { rewrite (list_fmap_compose rendered snd), <-Hren, <-list_fmap_compose.
    done. }
  apply NoDup_fmap_2_strong; [|done].
  intros k1 k2 H1 H2 Heq. rewrite Forall_forall in Hkn.
  destruct k1 as [a i], k2 as [b j]. cbn in Heq.
  by destruct (nid_inj a i b j (Hkn _ H1) (Hkn _ H2) Heq) as [-> ->].
Qed.

Lemma wf_referentially_closed st :
  wf st → referentially_closed (graph (safe_result st)).
Proof.
  intros [_ Hids _ _ Hend] e He. cbn in *.
  destruct (Hend e He) as [Hs Hd]. rewrite Hids in Hs, Hd.
  by rewrite !elem_of_list_to_set in Hs, Hd.
Qed.

Lemma wf_deduplicated st : wf st → deduplicated (graph (safe_result st)).
Proof.
  intros Hwf. split_and!; cbn.
  - destruct (wf_keys _ Hwf) as (keys & ? & _ & _ & ?). by exists keys.
  - by apply wf_NoDup_ids.
  - by apply wf_edge_keys.
Qed.

Lemma wf_has_node st i :
  wf st → has_node (graph (safe_result st)) i ↔ i ∈ node_ids st.
Proof.
  intros Hwf. unfold has_node. cbn.
  by rewrite (wf_node_ids _ Hwf), elem_of_list_to_set.
Qed.

Lemma wf_has_edge st src dst etype :
  wf st →
  has_edge (graph (safe_result st)) src dst etype ↔ (src, dst, etype) ∈ seen_edges st.
Proof.
  intros Hwf. unfold has_edge. cbn.
  by rewrite (wf_seen_edges _ Hwf), elem_of_list_to_set.
Qed.

(** Every recorded node id is the canonical id of a key of a known
    kind. *)
Lemma wf_node_id_shape st i :
  wf st → i ∈ node_ids st → ∃ kind j, known_kind kind ∧ i = _nid kind j.
Proof.
  intros [(keys & _ & Hkn & _ & Hren) Hids _ _ _] Hi.
  rewrite Hids in Hi. apply elem_of_list_to_set in Hi.
  apply list_elem_of_fmap in Hi as (n & -> & Hn).
  assert ((n_type n, n_id n) ∈ rendered <$> keys) as Hr.
  { rewrite <-Hren. by apply (list_elem_of_fmap_2 (λ n, (n_type n, n_id n))). }
  apply list_elem_of_fmap in Hr as ([kind j] & [= _ ->] & Hkey).
  rewrite Forall_forall in Hkn. exists kind, j. split; [|done].
  by apply (Hkn (kind, j)).
Qed.

(** The post-pass of the traversal reads the numeric id back from every
    recorded node id; neither the index nor [int] raises. *)
Lemma ids_of_kind_total st i :
  wf st → i ∈ node_ids st → is_Some (Py.after_first "_" i ≫= Py.int).
Proof.
  intros Hwf Hi.
  destruct (wf_node_id_shape st i Hwf Hi) as (kind & j & Hk & ->).
  rewrite after_first_nid by done. cbn. rewrite int_pretty. by eexists.
Qed.

(** ** The helpers of the traversal *)

Module SubgraphHelpers.
Import Subgraph.

Section helpers.
Variables (max_nodes max_edges : Z).

Lemma add_node_full st kind obj_id label status email :
  max_nodes ≤ Z.of_nat (size (seen_nodes st)) →
  add_node max_nodes st kind obj_id label status email = st.
Proof. intros. unfold add_node. by rewrite bool_decide_eq_true_2. Qed.

Lemma sub_add_node_seen st kind obj_id label status email :
  (kind, obj_id) ∈ seen_nodes st →
  add_node max_nodes st kind obj_id label status email = st.
Proof.
  intros. unfold add_node. case_bool_decide; [done|].
  by rewrite bool_decide_eq_true_2.
Qed.

Lemma add_edge_full st src dst etype :
  max_edges ≤ Z.of_nat (size (seen_edges st)) →
  add_edge max_edges st src dst etype = st.
Proof. intros. unfold add_edge. by rewrite bool_decide_eq_true_2. Qed.

Lemma sub_add_edge_seen st src dst etype :
  (src, dst, etype) ∈ seen_edges st →
  add_edge max_edges st src dst etype = st.
Proof.
  intros. unfold add_edge. case_bool_decide; [done|].
  destruct (_ || _); [done|]. by rewrite bool_decide_eq_true_2.
Qed.

Lemma sub_add_edge_dangling st src dst etype :
  src ∉ node_ids st ∨ dst ∉ node_ids st →
  add_edge max_edges st src dst etype = st.
Proof.
  intros Hd. unfold add_edge. case_bool_decide; [done|].
  destruct Hd; repeat case_bool_decide; done.
Qed.

Lemma sub_add_node_wf st kind obj_id label status email :
  known_kind kind → wf st →
  wf (add_node max_nodes st kind obj_id label status email).
Proof.
  intros Hk Hwf. unfold add_node. repeat case_bool_decide; try done.
  by apply wf_push_node.
Qed.

Lemma sub_add_edge_wf st src dst etype :
  wf st → wf (add_edge max_edges st src dst etype).
Proof.
  intros Hwf. unfold add_edge.
  repeat (case_bool_decide; cbn [negb orb]); try done.
  by apply wf_push_edge.
Qed.

Lemma add_node_budget st kind obj_id label status email :
  within_budget max_nodes max_edges st →
  within_budget max_nodes max_edges
    (add_node max_nodes st kind obj_id label status email).
Proof.
  intros [Hn He]. unfold add_node. repeat case_bool_decide; try done.
  split; [|done]. cbn.
  rewrite size_union by (by apply disjoint_singleton_l).
  rewrite size_singleton. lia.
Qed.

Lemma add_edge_budget st src dst etype :
  within_budget max_nodes max_edges st →
  within_budget max_nodes max_edges (add_edge max_edges st src dst etype).
Proof.
  intros [Hn He]. unfold add_edge.
  repeat (case_bool_decide; cbn [negb orb]); try done.
  split; [done|]. cbn.
  rewrite size_union by (by apply disjoint_singleton_l).
  rewrite size_singleton. lia.
Qed.

(** The edge array only changes through [add_edge], never through
    [add_node]; the node array the other way round. *)
Lemma sub_add_node_edges st kind obj_id label status email :
  edges (add_node max_nodes st kind obj_id label status email) = edges st
  ∧ seen_edges (add_node max_nodes st kind obj_id label status email)
    = seen_edges st.
Proof. unfold add_node. by repeat case_bool_decide. Qed.

Lemma sub_add_edge_nodes st src dst etype :
  nodes (add_edge max_edges st src dst etype) = nodes st
  ∧ node_ids (add_edge max_edges st src dst etype) = node_ids st
  ∧ seen_nodes (add_edge max_edges st src dst etype) = seen_nodes st.
Proof.
  unfold add_edge. by repeat (case_bool_decide; cbn [negb orb]).
Qed.
End helpers.
End SubgraphHelpers.

Lemma has_entity_known db kind i : has_entity db kind i → known_kind kind.
Proof.
  intros H. apply known_kind_cases.
  destruct H as [[-> _]|[[-> _]|[[-> _]|[-> _]]]]; auto.
Qed.

Lemma in_true x (ids : gset Z) : in_ x ids = true ↔ x ∈ ids.
Proof. unfold in_. apply bool_decide_eq_true. Qed.

(** ** The helpers of the full materializer *)

Module NetworkFacts.
Import Network.

Lemma net_add_node_seen st kind row :
  (kind, row_id row) ∈ seen_nodes st → add_node st kind row = st.
Proof. intros. unfold add_node. by rewrite bool_decide_eq_true_2. Qed.

Lemma net_add_edge_seen st src dst etype :
  (src, dst, etype) ∈ seen_edges st → add_edge st src dst etype = st.
Proof.
  intros. unfold add_edge. destruct (_ || _); [done|].
  by rewrite bool_decide_eq_true_2.
Qed.

Lemma net_add_edge_dangling st src dst etype :
  src ∉ node_ids st ∨ dst ∉ node_ids st → add_edge st src dst etype = st.
Proof.
  intros Hd. unfold add_edge. destruct Hd; repeat case_bool_decide; done.
Qed.

Lemma net_add_node_wf st kind row :
  known_kind kind → wf st → wf (add_node st kind row).
Proof.
  intros Hk Hwf. unfold add_node. case_bool_decide; [done|].
  pose proof Hk as Hk'. known_cases Hk; cbn; by apply wf_push_node.
Qed.

Lemma net_add_edge_wf st src dst etype : wf st → wf (add_edge st src dst etype).
Proof.
  intros Hwf. unfold add_edge.
  repeat (case_bool_decide; cbn [negb orb]); try done.
  by apply wf_push_edge.
Qed.

Lemma net_add_node_edges st kind row :
  edges (add_node st kind row) = edges st
  ∧ seen_edges (add_node st kind row) = seen_edges st.
Proof. unfold add_node. by case_bool_decide. Qed.

Lemma net_add_edge_nodes st src dst etype :
  nodes (add_edge st src dst etype) = nodes st
  ∧ node_ids (add_edge st src dst etype) = node_ids st
  ∧ seen_nodes (add_edge st src dst etype) = seen_nodes st.
Proof. unfold add_edge. by repeat (case_bool_decide; cbn [negb orb]). Qed.

Lemma add_node_enters st kind row :
  _nid kind (row_id row) ∈ node_ids st ∨ (kind, row_id row) ∉ seen_nodes st →
  _nid kind (row_id row) ∈ node_ids (add_node st kind row).
Proof.
  intros H. unfold add_node. case_bool_decide; [by destruct H|].
  cbn. apply elem_of_union. left. by apply elem_of_singleton.
Qed.

Lemma add_node_ids_mono st kind row i :
  i ∈ node_ids st → i ∈ node_ids (add_node st kind row).
Proof.
  intros H. unfold add_node. case_bool_decide; [done|].
  cbn. apply elem_of_union. by right.
Qed.

Lemma net_add_edge_seen_mono st src dst etype k :
  k ∈ seen_edges st → k ∈ seen_edges (add_edge st src dst etype).
Proof.
  intros H. unfold add_edge.
  repeat (case_bool_decide; cbn [negb orb]); try done.
  cbn. apply elem_of_union. by right.
Qed.

Lemma net_add_edge_emits st src dst etype :
  src ∈ node_ids st → dst ∈ node_ids st →
  (src, dst, etype) ∈ seen_edges (add_edge st src dst etype).
Proof.
  intros Hs Hd. unfold add_edge.
  repeat (case_bool_decide; cbn [negb orb]); try done.
  cbn. apply elem_of_union. left. by apply elem_of_singleton.
Qed.

(** *** The materializer keeps what its two helpers keep *)
Section kept.
Variable db : DB.
Variable P : State → Prop.

Hypothesis P_node : ∀ st kind row,
  has_entity db kind (row_id row) → P st → P (add_node st kind row).
(** the [PART_OF] emission of a task whose project is loaded *)
Hypothesis P_part_of : ∀ st t p,
  t ∈ db_tasks db → truthy (t_project_id t) = Some p →
  p ∈ have_project db → P st →
  P (add_edge st (_nid "task" (t_id t)) (_nid "project" p) "PART_OF").
(** every other emission starts at a person or at a project *)
Hypothesis P_edge : ∀ st src dst etype,
  person_or_project src → P st → P (add_edge st src dst etype).

Local Ltac src :=
  eexists; first [left; reflexivity | right; reflexivity].

Local Ltac kept :=
  repeat first
    [ assumption
    | apply P_edge; [src|]
    | match goal with
      | |- P (foldl _ _ _) => apply (foldl_keeps P); [|intros ? ? ? ?]
      | |- context [let '(_, _) := ?x in _] => destruct x
      | |- context [match ?x with _ => _ end] => destruct x eqn:?
      end ].

Lemma emit_nodes_keeps st : P st → P (emit_nodes db st).
Proof.
  intros. unfold emit_nodes.
  apply (foldl_keeps P);
    [apply (foldl_keeps P);
       [apply (foldl_keeps P); [apply (foldl_keeps P); [done|] |] |] |];
    intros ? ? ? ?; (apply P_node; [|done]); cbn.
  - left. split; [done|]. by apply list_elem_of_fmap_2.
  - right. left. split; [done|]. by apply list_elem_of_fmap_2.
  - do 2 right. left. split; [done|]. by apply list_elem_of_fmap_2.
  - do 3 right. split; [done|]. by apply list_elem_of_fmap_2.
Qed.

Lemma emit_relations_keeps st : P st → P (emit_relations db st).
Proof. intros. unfold emit_relations. kept. Qed.

Lemma emit_leads_keeps st : P st → P (emit_leads db st).
Proof. intros. unfold emit_leads. kept. Qed.

Lemma emit_assignees_keeps t st : P st → P (emit_assignees db t st).
Proof. intros. unfold emit_assignees. kept. Qed.

Lemma emit_tasks_keeps st : P st → P (emit_tasks db st).
Proof.
  intros. unfold emit_tasks.
  apply (foldl_keeps P); [done|]. intros st' t Ht HP.
  apply emit_assignees_keeps. unfold emit_part_of.
  destruct (truthy (t_project_id t)) as [p|] eqn:Hp; [|done].
  destruct (in_ p (have_project db)) eqn:Hin; [|done].
  apply P_part_of; [done..| |done]. by apply in_true.
Qed.

Lemma emit_memberships_keeps st : P st → P (emit_memberships db st).
Proof. intros. unfold emit_memberships. kept. Qed.

Lemma emit_project_groups_keeps st : P st → P (emit_project_groups db st).
Proof. intros. unfold emit_project_groups. kept. Qed.

Lemma net_collab_pairs_keeps etype st uniq :
  P st → P (collab_pairs etype st uniq).
Proof. intros. unfold collab_pairs. kept. Qed.

Lemma net_collab_keeps etype st groups : P st → P (collab etype st groups).
Proof.
  intros. unfold collab.
  apply (foldl_keeps P); [done|]. intros ? [? ?] _ ?.
  by apply net_collab_pairs_keeps.
Qed.

Lemma build_keeps : P init → P (build db).
Proof.
  intros. unfold build.
  by apply net_collab_keeps, net_collab_keeps, emit_project_groups_keeps,
    emit_memberships_keeps, emit_tasks_keeps, emit_leads_keeps,
    emit_relations_keeps, emit_nodes_keeps.
Qed.
End kept.

Lemma build_wf db : wf (build db).
Proof.
  apply (build_keeps db wf); [| | |apply wf_init].
  - intros ??? Hk ?. apply net_add_node_wf; [|done]. by eapply has_entity_known.
  - intros. by apply net_add_edge_wf.
  - intros. by apply net_add_edge_wf.
Qed.
End NetworkFacts.

Module SubgraphWf.
Import Subgraph SubgraphFacts SubgraphHelpers.

Lemma traverse_wf max_nodes max_edges db centers degrees include_collab :
  wf (traverse max_nodes max_edges db centers degrees include_collab).
Proof.
  apply traverse_keeps; [| |apply wf_init].
  - intros. by apply sub_add_node_wf.
  - intros. by apply sub_add_edge_wf.
Qed.

Lemma traverse_budget max_nodes max_edges db centers degrees include_collab :
  within_budget max_nodes max_edges
    (traverse max_nodes max_edges db centers degrees include_collab).
Proof.
  apply traverse_keeps.
  - intros. by apply add_node_budget.
  - intros. by apply add_edge_budget.
  - split; cbn; rewrite size_empty; lia.
Qed.
End SubgraphWf.

(** ** Produced graphs *)

(** C1.  Referential closure: in the graph of [get_graph_network] and in
    the graph of [get_entity_subgraph], whatever the store and the
    arguments, the source and the target of every edge of the edge array
    are ids of nodes of the node array. *)
Theorem referential_closure db centers degrees max_nodes max_edges include_collab :
  referentially_closed (graph (Network.get_graph_network db))
  ∧ referentially_closed
      (graph (Subgraph.get_entity_subgraph db centers degrees
                max_nodes max_edges include_collab)).
Proof.
  split.
  - apply wf_referentially_closed, NetworkFacts.build_wf.
  - apply wf_referentially_closed, SubgraphWf.traverse_wf.
Qed.

(** C2.  Dedup closure: in both produced graphs no two node entries share
    a (kind, numericId) key and no two edge entries share a
    (source, target, type) key; an add under a key that was seen before
    leaves the builder, and so the first entry with its attributes, as it
    is. *)
Theorem dedup_closure db centers degrees max_nodes max_edges include_collab :
  deduplicated (graph (Network.get_graph_network db))
  ∧ deduplicated
      (graph (Subgraph.get_entity_subgraph db centers degrees
                max_nodes max_edges include_collab))
  ∧ (∀ st kind row,
       (kind, Network.row_id row) ∈ seen_nodes st →
       Network.add_node st kind row = st)
  ∧ (∀ st src dst etype,
       (src, dst, etype) ∈ seen_edges st →
       Network.add_edge st src dst etype = st)
  ∧ (∀ st kind obj_id label status email,
       (kind, obj_id) ∈ seen_nodes st →
       Subgraph.add_node max_nodes st kind obj_id label status email = st)
  ∧ (∀ st src dst etype,
       (src, dst, etype) ∈ seen_edges st →
       Subgraph.add_edge max_edges st src dst etype = st).
Proof.
  split_and!.
  - apply wf_deduplicated, NetworkFacts.build_wf.
  - apply wf_deduplicated, SubgraphWf.traverse_wf.
  - apply NetworkFacts.net_add_node_seen.
  - apply NetworkFacts.net_add_edge_seen.
  - apply SubgraphHelpers.sub_add_node_seen.
  - apply SubgraphHelpers.sub_add_edge_seen.
Qed.

(** A second row under the id of a node that is already there changes
    nothing: the label stays the one of the first row. *)
Lemma dedup_closure_witness :
  let st := Network.add_node init "person"
              (Network.person_row (mkPerson 1 "Ann" None)) in
  Network.add_node st "person" (Network.person_row (mkPerson 1 "Bob" None)) = st.
Proof.
  intros st.
  apply (dedup_closure Samples.team [] 0 0 0 false).
  by vm_compute.
Defined.

(** C3.  Budget respect: with budgets [0 <= max_nodes] and
    [0 <= max_edges] the graph of [get_entity_subgraph] has at most
    [max_nodes] nodes and at most [max_edges] edges.  Once a counter has
    reached its cap the matching add returns the builder unchanged, and
    no add ever lowers a counter, so the cap stays reached. *)
Theorem budget_respect db centers degrees max_nodes max_edges include_collab :
  0 ≤ max_nodes → 0 ≤ max_edges →
  let g := graph (Subgraph.get_entity_subgraph db centers degrees
                    max_nodes max_edges include_collab) in
  Z.of_nat (length (graph_nodes g)) ≤ max_nodes
  ∧ Z.of_nat (length (graph_edges g)) ≤ max_edges
  ∧ (∀ st kind obj_id label status email,
       max_nodes ≤ Z.of_nat (size (seen_nodes st)) →
       Subgraph.add_node max_nodes st kind obj_id label status email = st)
  ∧ (∀ st src dst etype,
       max_edges ≤ Z.of_nat (size (seen_edges st)) →
       Subgraph.add_edge max_edges st src dst etype = st)
  ∧ (∀ st kind obj_id label status email,
       seen_edges (Subgraph.add_node max_nodes st kind obj_id label status email)
       = seen_edges st)
  ∧ (∀ st src dst etype,
       seen_nodes (Subgraph.add_edge max_edges st src dst etype)
       = seen_nodes st).
Proof.
  intros Hn He g. subst g. unfold Subgraph.get_entity_subgraph.
  cbn [graph safe_result graph_nodes graph_edges].
  pose proof (SubgraphWf.traverse_wf max_nodes max_edges db centers degrees
                include_collab) as Hwf.
  destruct (SubgraphWf.traverse_budget max_nodes max_edges db centers degrees
              include_collab) as [Bn Be].
  split_and!.
  - rewrite (wf_length_nodes _ Hwf). lia.
  - rewrite (wf_length_edges _ Hwf). lia.
  - apply SubgraphHelpers.add_node_full.
  - apply SubgraphHelpers.add_edge_full.
  - intros. apply SubgraphHelpers.sub_add_node_edges.
  - intros. apply SubgraphHelpers.sub_add_edge_nodes.
Qed.

(** Two hops around task 1 would reach five nodes and more edges; with
    the budgets 2 and 1 the result stops at two nodes and one edge. *)
Lemma budget_respect_witness :
  let g := graph (Subgraph.get_entity_subgraph Samples.team ["task_1"] 2 2 1 true) in
  Z.of_nat (length (graph_nodes g)) ≤ 2 ∧ Z.of_nat (length (graph_edges g)) ≤ 1.
Proof.
  intros g.
  destruct (budget_respect Samples.team ["task_1"] 2 2 1 true) as (Hn & He & _);
    [lia|lia|]. by split.
Defined.

(** ** Centers *)





(** C10.  Negative degrees are clamped: for [degrees < 0] the response of
    [get_entity_subgraph] is the response for [degrees = 0]; the function
    is total over all integers. *)
Theorem negative_degrees_clamped db centers degrees max_nodes max_edges include_collab :
  degrees < 0 →
  Subgraph.get_entity_subgraph db centers degrees max_nodes max_edges
    include_collab
  = Subgraph.get_entity_subgraph db centers 0 max_nodes max_edges
      include_collab.
Proof.
  intros Hneg. unfold Subgraph.get_entity_subgraph, Subgraph.traverse.
  by replace (Z.max 0 degrees) with (Z.max 0 0) by lia.
Qed.

Lemma negative_degrees_clamped_witness :
  Subgraph.get_entity_subgraph Samples.team ["project_1"] (-3) 2000 4000 true
  = Subgraph.get_entity_subgraph Samples.team ["project_1"] 0 2000 4000 true.
Proof.
  apply (negative_degrees_clamped Samples.team ["project_1"] (-3)). lia.
Defined.

(** ** What the full materializer emits *)

Module NetworkEmits.
Import Network NetworkFacts.

Lemma add_node_ids_cover st kind row :
  ids_cover st → ids_cover (add_node st kind row).
Proof.
  intros Hc. unfold add_node. case_bool_decide; [done|].
  intros k i. cbn. rewrite !elem_of_union, !elem_of_singleton.
  intros [[= -> ->]|Hin]; [by left|]. right. by apply Hc.
Qed.

Lemma add_node_covered st kind row :
  ids_cover st → _nid kind (row_id row) ∈ node_ids (add_node st kind row).
Proof.
  intros Hc. apply add_node_enters.
  destruct (decide ((kind, row_id row) ∈ seen_nodes st)); [left|by right].
  by apply Hc.
Qed.

Section emits.
Variable db : DB.

(** Each of the four node loops records the node of each of its rows. *)
Lemma node_loop_enters {A} (kind : string) (view : A → Row)
    (rows : list A) (row : A) st :
  row ∈ rows → ids_cover st →
  let st' := foldl (λ st r, add_node st kind (view r)) st rows in
  ids_cover st' ∧ _nid kind (row_id (view row)) ∈ node_ids st'.
Proof.
  intros Hin Hc st'. split.
  - apply (foldl_keeps ids_cover); [done|].
    intros. by apply add_node_ids_cover.
  - apply (foldl_reaches ids_cover
             (λ st, _nid kind (row_id (view row)) ∈ node_ids st)
             _ rows row); try done.
    + intros. by apply add_node_ids_cover.
    + intros. by apply add_node_covered.
    + intros. by apply add_node_ids_mono.
Qed.

Lemma node_loop_cover {A} (kind : string) (view : A → Row)
    (rows : list A) st :
  ids_cover st → ids_cover (foldl (λ st r, add_node st kind (view r)) st rows).
Proof.
  intros. apply (foldl_keeps ids_cover); [done|].
  intros. by apply add_node_ids_cover.
Qed.

Lemma node_loop_mono {A} (kind : string) (view : A → Row)
    (rows : list A) st i :
  i ∈ node_ids st →
  i ∈ node_ids (foldl (λ st r, add_node st kind (view r)) st rows).
Proof.
  intros. apply (foldl_keeps (λ st, i ∈ node_ids st)); [done|].
  intros. by apply add_node_ids_mono.
Qed.

Lemma emit_nodes_covers : loaded_present db (emit_nodes db init).
Proof.
  assert (ids_cover init) as H0.
  { intros ?? Hin. by apply not_elem_of_empty in Hin. }
  intros kind i Hent. unfold emit_nodes.
  destruct Hent as [[-> Hi]|[[-> Hi]|[[-> Hi]|[-> Hi]]]];
    apply list_elem_of_fmap in Hi as (row & -> & Hrow).
  - do 3 apply node_loop_mono.
    by apply (node_loop_enters "person" person_row _ row).
  - do 2 apply node_loop_mono.
    apply (node_loop_enters "project" project_row _ row); [done|].
    by apply node_loop_cover.
  - apply node_loop_mono.
    apply (node_loop_enters "task" task_row _ row); [done|].
    by do 2 apply node_loop_cover.
  - apply (node_loop_enters "group" group_row _ row); [done|].
    by do 3 apply node_loop_cover.
Qed.

(** *** Edge phases

    A property that every [add_edge] keeps is kept by each phase
    that follows the node loops. *)
Section stable.
Variable P : State → Prop.
Hypothesis P_stable : ∀ st src dst etype, P st → P (add_edge st src dst etype).

Lemma emit_relations_stable st : P st → P (emit_relations db st).
Proof. apply emit_relations_keeps. intros. by apply P_stable. Qed.
Lemma emit_leads_stable st : P st → P (emit_leads db st).
Proof. apply emit_leads_keeps. intros. by apply P_stable. Qed.
Lemma emit_assignees_stable t st : P st → P (emit_assignees db t st).
Proof. apply emit_assignees_keeps. intros. by apply P_stable. Qed.
Lemma emit_tasks_stable st : P st → P (emit_tasks db st).
Proof. apply emit_tasks_keeps; intros; by apply P_stable. Qed.
Lemma emit_memberships_stable st : P st → P (emit_memberships db st).
Proof. apply emit_memberships_keeps. intros. by apply P_stable. Qed.
Lemma emit_project_groups_stable st : P st → P (emit_project_groups db st).
Proof. apply emit_project_groups_keeps. intros. by apply P_stable. Qed.
Lemma collab_pairs_stable etype st uniq : P st → P (collab_pairs etype st uniq).
Proof. apply net_collab_pairs_keeps. intros. by apply P_stable. Qed.
Lemma net_collab_stable etype st groups : P st → P (collab etype st groups).
Proof. apply net_collab_keeps. intros. by apply P_stable. Qed.
End stable.

Lemma net_present_stable st src dst etype :
  loaded_present db st → loaded_present db (add_edge st src dst etype).
Proof.
  intros Hl kind i Hent.
  destruct (net_add_edge_nodes st src dst etype) as (_ & -> & _). by apply Hl.
Qed.

Lemma present_person st i :
  loaded_present db st → i ∈ have_person db → _nid "person" i ∈ node_ids st.
Proof.
  intros Hl Hi. apply Hl. left. split; [done|].
  by apply elem_of_list_to_set in Hi.
Qed.
Lemma present_project st i :
  loaded_present db st → i ∈ have_project db → _nid "project" i ∈ node_ids st.
Proof.
  intros Hl Hi. apply Hl. right. left. split; [done|].
  by apply elem_of_list_to_set in Hi.
Qed.
Lemma present_task st t :
  loaded_present db st → t ∈ db_tasks db → _nid "task" (t_id t) ∈ node_ids st.
Proof.
  intros Hl Hi. apply Hl. do 2 right. left. split; [done|].
  by apply list_elem_of_fmap_2.
Qed.
Lemma present_group st i :
  loaded_present db st → i ∈ have_group db → _nid "group" i ∈ node_ids st.
Proof.
  intros Hl Hi. apply Hl. do 3 right. split; [done|].
  by apply elem_of_list_to_set in Hi.
Qed.

(** A loop whose body is a guarded [add_edge] emits the edge of each
    row that passes the guard. *)
Lemma guarded_loop_emits {A} (guard : A → bool)
    (src dst etype : A → string) (rows : list A) (row : A) st :
  row ∈ rows → guard row = true →
  (∀ st, loaded_present db st →
         src row ∈ node_ids st ∧ dst row ∈ node_ids st) →
  loaded_present db st →
  (src row, dst row, etype row)
    ∈ seen_edges (foldl (λ st r, if guard r
                                 then add_edge st (src r) (dst r) (etype r)
                                 else st) st rows).
Proof.
  intros Hin Hg Hends Hl.
  apply (foldl_reaches (loaded_present db)
           (λ st, (src row, dst row, etype row) ∈ seen_edges st)
           _ rows row); try done.
  - intros st' r ?. destruct (guard r); [|done]. by apply net_present_stable.
  - intros st' Hl'. rewrite Hg. destruct (Hends st' Hl').
    by apply net_add_edge_emits.
  - intros st' r ?. destruct (guard r); [|done]. by apply net_add_edge_seen_mono.
Qed.

Lemma emit_relations_emits r st :
  r ∈ db_person_relations db →
  r_from_person_id r ∈ have_person db → r_to_person_id r ∈ have_person db →
  loaded_present db st →
  (_nid "person" (r_from_person_id r), _nid "person" (r_to_person_id r),
   Py.upper (str_or (r_type r) "REL")) ∈ seen_edges (emit_relations db st).
Proof.
  intros Hr Hf Ht Hl. unfold emit_relations.
  apply (guarded_loop_emits
           (λ r, in_ (r_from_person_id r) (have_person db)
                 && in_ (r_to_person_id r) (have_person db))
           (λ r, _nid "person" (r_from_person_id r))
           (λ r, _nid "person" (r_to_person_id r))
           (λ r, Py.upper (str_or (r_type r) "REL"))); try done.
  - apply andb_true_iff. by rewrite !in_true.
  - intros. split; by apply present_person.
Qed.

Lemma emit_leads_emits pl st :
  pl ∈ db_project_leads db →
  pl_person_id pl ∈ have_person db → pl_project_id pl ∈ have_project db →
  loaded_present db st →
  (_nid "person" (pl_person_id pl), _nid "project" (pl_project_id pl),
   raci_etype (pl_role pl)) ∈ seen_edges (emit_leads db st).
Proof.
  intros Hr Hf Ht Hl. unfold emit_leads.
  apply (guarded_loop_emits
           (λ pl, in_ (pl_person_id pl) (have_person db)
                  && in_ (pl_project_id pl) (have_project db))
           (λ pl, _nid "person" (pl_person_id pl))
           (λ pl, _nid "project" (pl_project_id pl))
           (λ pl, raci_etype (pl_role pl))); try done.
  - apply andb_true_iff. by rewrite !in_true.
  - intros. split; [by apply present_person|by apply present_project].
Qed.

Lemma emit_assignees_emits t ta st :
  t ∈ db_tasks db → ta ∈ task_assignees db t →
  ta_person_id ta ∈ have_person db →
  loaded_present db st →
  (_nid "person" (ta_person_id ta), _nid "task" (t_id t),
   assignee_etype (ta_role ta)) ∈ seen_edges (emit_assignees db t st).
Proof.
  intros Ht Hta Hp Hl. unfold emit_assignees.
  apply (guarded_loop_emits
           (λ ta, in_ (ta_person_id ta) (have_person db))
           (λ ta, _nid "person" (ta_person_id ta))
           (λ _, _nid "task" (t_id t))
           (λ ta, assignee_etype (ta_role ta))); try done.
  - by apply in_true.
  - intros. split; [by apply present_person|by apply present_task].
Qed.

Lemma emit_part_of_stable (P : State → Prop) st t :
  (∀ st src dst etype, P st → P (add_edge st src dst etype)) →
  P st → P (emit_part_of db st t).
Proof. intros HP ?. unfold emit_part_of. repeat case_match; auto. Qed.

Lemma emit_tasks_emits_assignee t ta st :
  t ∈ db_tasks db → ta ∈ task_assignees db t →
  ta_person_id ta ∈ have_person db →
  loaded_present db st →
  (_nid "person" (ta_person_id ta), _nid "task" (t_id t),
   assignee_etype (ta_role ta)) ∈ seen_edges (emit_tasks db st).
Proof.
  intros Ht Hta Hp Hl. unfold emit_tasks.
  apply (foldl_reaches (loaded_present db) (λ st, _ ∈ seen_edges st)
           _ _ t); try done.
  - intros st' t' ?. apply emit_assignees_stable; [apply net_present_stable|].
    by apply emit_part_of_stable; [apply net_present_stable|].
  - intros st' ?. apply emit_assignees_emits; try done.
    by apply emit_part_of_stable; [apply net_present_stable|].
  - intros st' t' ?.
    apply emit_assignees_stable; [intros; by apply net_add_edge_seen_mono|].
    by apply emit_part_of_stable; [intros; by apply net_add_edge_seen_mono|].
Qed.

Lemma emit_tasks_emits_part_of t p st :
  t ∈ db_tasks db → truthy (t_project_id t) = Some p →
  p ∈ have_project db →
  loaded_present db st →
  (_nid "task" (t_id t), _nid "project" p, "PART_OF")
    ∈ seen_edges (emit_tasks db st).
Proof.
  intros Ht Hp Hin Hl. unfold emit_tasks.
  apply (foldl_reaches (loaded_present db) (λ st, _ ∈ seen_edges st)
           _ _ t); try done.
  - intros st' t' ?. apply emit_assignees_stable; [apply net_present_stable|].
    by apply emit_part_of_stable; [apply net_present_stable|].
  - intros st' ?.
    apply emit_assignees_stable; [intros; by apply net_add_edge_seen_mono|].
    unfold emit_part_of. rewrite Hp, (proj2 (in_true _ _) Hin).
    apply net_add_edge_emits; [by apply present_task|by apply present_project].
  - intros st' t' ?.
    apply emit_assignees_stable; [intros; by apply net_add_edge_seen_mono|].
    by apply emit_part_of_stable; [intros; by apply net_add_edge_seen_mono|].
Qed.

Lemma emit_memberships_emits pid gid st :
  (pid, gid) ∈ db_person_group db →
  pid ∈ have_person db → gid ∈ have_group db →
  loaded_present db st →
  (_nid "person" pid, _nid "group" gid, "MEMBER_OF")
    ∈ seen_edges (emit_memberships db st).
Proof.
  intros Hr Hf Ht Hl. unfold emit_memberships.
  pose proof (guarded_loop_emits
           (λ row, in_ row.1 (have_person db) && in_ row.2 (have_group db))
           (λ row, _nid "person" row.1) (λ row, _nid "group" row.2)
           (λ _, "MEMBER_OF") (db_person_group db) (pid, gid) st) as H.
  cbn in H. erewrite foldl_same; [apply H|]; try done.
  - apply andb_true_iff. by rewrite !in_true.
  - intros. split; [by apply present_person|by apply present_group].
  - intros ? [? ?]. done.
Qed.

Lemma emit_project_groups_emits prid gid st :
  (prid, gid) ∈ db_project_group db →
  prid ∈ have_project db → gid ∈ have_group db →
  loaded_present db st →
  (_nid "project" prid, _nid "group" gid, "IN_GROUP")
    ∈ seen_edges (emit_project_groups db st).
Proof.
  intros Hr Hf Ht Hl. unfold emit_project_groups.
  pose proof (guarded_loop_emits
           (λ row, in_ row.1 (have_project db) && in_ row.2 (have_group db))
           (λ row, _nid "project" row.1) (λ row, _nid "group" row.2)
           (λ _, "IN_GROUP") (db_project_group db) (prid, gid) st) as H.
  cbn in H. erewrite foldl_same; [apply H|]; try done.
  - apply andb_true_iff. by rewrite !in_true.
  - intros. split; [by apply present_project|by apply present_group].
  - by intros ? [? ?].
Qed.
End emits.
End NetworkEmits.

Module NetworkGraph.
Import Network NetworkFacts NetworkEmits.

Lemma net_add_edge_edges st src dst etype e :
  e ∈ edges (add_edge st src dst etype) →
  e ∈ edges st ∨ e = mkEdge src dst etype.
Proof.
  unfold add_edge. repeat (case_bool_decide; cbn [negb orb]); auto.
  cbn. intros [?| ->%list_elem_of_singleton]%elem_of_app; auto.
Qed.

Section graph.
Variable db : DB.

Local Ltac seen_mono := intros; by apply net_add_edge_seen_mono.

(** The edge phases record no node and drop none. *)
Lemma build_present : loaded_present db (build db).
Proof.
  unfold build.
  apply net_collab_stable; [apply net_present_stable|].
  apply net_collab_stable; [apply net_present_stable|].
  apply emit_project_groups_stable; [apply net_present_stable|].
  apply emit_memberships_stable; [apply net_present_stable|].
  apply emit_tasks_stable; [apply net_present_stable|].
  apply emit_leads_stable; [apply net_present_stable|].
  apply emit_relations_stable; [apply net_present_stable|].
  apply emit_nodes_covers.
Qed.

(** Every row with both ends loaded has its edge in the result. *)
Lemma build_emits src dst etype :
  valid_row db src dst etype → (src, dst, etype) ∈ seen_edges (build db).
Proof.
  pose proof (emit_nodes_covers db) as H0.
  assert (loaded_present db (emit_relations db (emit_nodes db init))) as H1.
  { by apply emit_relations_stable; [apply net_present_stable|]. }
  assert (loaded_present db
            (emit_leads db (emit_relations db (emit_nodes db init)))) as H2.
  { by apply emit_leads_stable; [apply net_present_stable|]. }
  assert (loaded_present db
            (emit_tasks db
               (emit_leads db (emit_relations db (emit_nodes db init)))))
    as H3.
  { by apply emit_tasks_stable; [apply net_present_stable|]. }
  assert (loaded_present db
            (emit_memberships db
               (emit_tasks db
                  (emit_leads db (emit_relations db (emit_nodes db init))))))
    as H4.
  { by apply emit_memberships_stable; [apply net_present_stable|]. }
  intros Hrow. unfold build.
  do 2 (apply net_collab_stable; [seen_mono|]).
  destruct Hrow.
  - apply emit_project_groups_stable; [seen_mono|].
    apply emit_memberships_stable; [seen_mono|].
    apply emit_tasks_stable; [seen_mono|].
    apply emit_leads_stable; [seen_mono|].
    by apply emit_relations_emits.
  - apply emit_project_groups_stable; [seen_mono|].
    apply emit_memberships_stable; [seen_mono|].
    apply emit_tasks_stable; [seen_mono|].
    by apply emit_leads_emits.
  - apply emit_project_groups_stable; [seen_mono|].
    apply emit_memberships_stable; [seen_mono|].
    by apply emit_tasks_emits_part_of.
  - apply emit_project_groups_stable; [seen_mono|].
    apply emit_memberships_stable; [seen_mono|].
    by apply emit_tasks_emits_assignee.
  - apply emit_project_groups_stable; [seen_mono|].
    by apply emit_memberships_emits.
  - by apply emit_project_groups_emits.
Qed.

(** No node is recorded for an id the store does not hold. *)
Lemma build_not_present kind i :
  known_kind kind → ¬ has_entity db kind i → _nid kind i ∉ node_ids (build db).
Proof.
  intros Hk Hno.
  apply (build_keeps db (λ st, _nid kind i ∉ node_ids st)).
  - intros st k row Hent Hst. unfold add_node. case_bool_decide; [done|].
    cbn. rewrite elem_of_union, elem_of_singleton. intros [Heq|?]; [|done].
    apply nid_inj in Heq as [-> ->]; [done|done|].
    by eapply has_entity_known.
  - intros. by destruct (net_add_edge_nodes st (_nid "task" (t_id t))
                           (_nid "project" p) "PART_OF") as (_ & -> & _).
  - intros. by destruct (net_add_edge_nodes st src dst etype) as (_ & -> & _).
  - apply not_elem_of_empty.
Qed.

End graph.
End NetworkGraph.

Lemma NoDup_fmap_same {A B} (f : A → B) (l : list A) x y :
  NoDup (f <$> l) → x ∈ l → y ∈ l → f x = f y → x = y.
Proof.
  induction l as [|a l IH]; intros Hnd Hx Hy Heq; [by apply elem_of_nil in Hx|].
  rewrite fmap_cons in Hnd. apply NoDup_cons in Hnd as [Ha Hnd].
  apply elem_of_cons in Hx as [->|Hx]; apply elem_of_cons in Hy as [->|Hy].
  - done.
  - destruct Ha. rewrite Heq. by apply list_elem_of_fmap_2.
  - destruct Ha. rewrite <-Heq. by apply list_elem_of_fmap_2.
  - by apply IH.
Qed.



(** ** Insertion-ordered dictionaries *)

Section dd.
Context `{EqDecision K} {V : Type}.
Implicit Types (d : list (K * V)) (k : K) (f : V → V).

Lemma dd_update_keys dflt k f d :
  (dd_update dflt k f d).*1 = if decide (k ∈ d.*1) then d.*1 else d.*1 ++ [k].
Proof.
  induction d as [|[k' v] d IH]; cbn.
  - by rewrite decide_False by apply not_elem_of_nil.
  - case_bool_decide as Hk; cbn.
    + subst. by rewrite decide_True by left.
    + rewrite IH. destruct (decide (k ∈ d.*1)).
      * by rewrite decide_True by (by right).
      * rewrite decide_False; [done|].
        intros [?|?]%elem_of_cons; congruence.
Qed.

Lemma dd_update_NoDup dflt k f d :
  NoDup d.*1 → NoDup (dd_update dflt k f d).*1.
Proof.
  intros Hnd. rewrite dd_update_keys. case_decide; [done|].
  apply NoDup_app. split_and!; [done| |apply NoDup_singleton].
  by intros x Hx ->%list_elem_of_singleton.
Qed.

(** After [d[k] = f(d[k])] the entry of [k] is an image of [f]. *)
Lemma dd_update_hit (mem : V → Prop) dflt k f d :
  (∀ v, mem (f v)) → ∃ v, (k, v) ∈ dd_update dflt k f d ∧ mem v.
Proof.
  intros Hf. induction d as [|[k' v] d (w & Hw & Hm)]; cbn.
  - exists (f dflt). split; [by left|done].
  - case_bool_decide; subst.
    + exists (f v). split; [by left|done].
    + exists w. split; [by right|done].
Qed.

(** What [f] keeps stays true of the entries. *)
Lemma dd_update_keep (mem : V → Prop) dflt k f d k0 :
  (∀ v, mem v → mem (f v)) →
  (∃ v, (k0, v) ∈ d ∧ mem v) →
  ∃ v, (k0, v) ∈ dd_update dflt k f d ∧ mem v.
Proof.
  intros Hf (v & Hin & Hm). induction d as [|[k' w] d IH]; cbn.
  - by apply elem_of_nil in Hin.
  - apply elem_of_cons in Hin as [[= <- <-]|Hin].
    + case_bool_decide; subst.
      * exists (f v). split; [by left|by apply Hf].
      * exists v. split; [by left|done].
    + destruct (IH Hin) as (u & Hu & Hmu).
      case_bool_decide; subst.
      * exists v. split; [by right|done].
      * exists u. split; [by right|done].
Qed.

Lemma dd_entry_unique d k v1 v2 :
  NoDup d.*1 → (k, v1) ∈ d → (k, v2) ∈ d → v1 = v2.
Proof.
  intros Hnd H1 H2.
  assert ((k, v1) = (k, v2)) as [=]; [|done].
  by apply (NoDup_fmap_same fst d).
Qed.
End dd.

(** ** Derived edges of the full materializer *)

Module NetworkCollab.
Import Network NetworkFacts NetworkEmits NetworkGraph.

Lemma both_seen_sym a b etype st : both_seen a b etype st → both_seen b a etype st.
Proof. by intros [??]. Qed.

Lemma both_seen_stable a b etype st src dst ty :
  both_seen a b etype st → both_seen a b etype (add_edge st src dst ty).
Proof. intros [??]. split; by apply net_add_edge_seen_mono. Qed.

Lemma both_present_stable a b st src dst ty :
  both_present a b st → both_present a b (add_edge st src dst ty).
Proof.
  intros [??]. destruct (net_add_edge_nodes st src dst ty) as (_ & Hids & _).
  split; by rewrite Hids.
Qed.

Lemma net_pair_emits a b etype st :
  both_present a b st →
  both_seen a b etype
    (add_edge (add_edge st (_nid "person" a) (_nid "person" b) etype)
              (_nid "person" b) (_nid "person" a) etype).
Proof.
  intros [Ha Hb]. split.
  - by apply net_add_edge_seen_mono, net_add_edge_emits.
  - destruct (both_present_stable a b st (_nid "person" a)
                (_nid "person" b) etype) as [??]; [done|].
    by apply net_add_edge_emits.
Qed.

Lemma net_collab_pairs_emits a b etype st uniq :
  a ∈ uniq → b ∈ uniq → a ≠ b → both_present a b st →
  both_seen a b etype (collab_pairs etype st uniq).
Proof.
  intros Ha Hb Hne Hadm. unfold collab_pairs.
  destruct (pairs_complete uniq a b Ha Hb Hne) as [Hp|Hp].
  - apply (foldl_reaches (both_present a b) (both_seen a b etype)
             _ _ (a, b)); try done.
    + intros ? [? ?] ?. by do 2 apply both_present_stable.
    + intros. by apply net_pair_emits.
    + intros ? [? ?] ?. by do 2 apply both_seen_stable.
  - apply (foldl_reaches (both_present a b) (both_seen a b etype)
             _ _ (b, a)); try done.
    + intros ? [? ?] ?. by do 2 apply both_present_stable.
    + intros ? [??]. by apply both_seen_sym, net_pair_emits.
    + intros ? [? ?] ?. by do 2 apply both_seen_stable.
Qed.

Lemma net_collab_emits a b etype st (groups : list (Z * list Z)) k pid_list :
  (k, pid_list) ∈ groups → a ∈ pid_list → b ∈ pid_list → a ≠ b →
  both_present a b st →
  both_seen a b etype (collab etype st groups).
Proof.
  intros Hg Ha Hb Hne Hadm. unfold collab.
  apply (foldl_reaches (both_present a b) (both_seen a b etype)
           _ _ (k, pid_list)); try done.
  - intros ? [? ?] ?.
    apply collab_pairs_stable; [|done]. intros. by apply both_present_stable.
  - intros. apply net_collab_pairs_emits; try done;
      by apply sorted_ints_elem, elem_of_list_to_set.
  - intros ? [? ?] ?.
    apply collab_pairs_stable; [|done]. intros. by apply both_seen_stable.
Qed.

Section entries.
Variable db : DB.

Lemma listed_keep k a k' a' d :
  listed k a d → listed k a (dd_update [] k' (λ l, l ++ [a']) d).
Proof.
  apply (dd_update_keep (λ l, a ∈ l)). intros l ?.
  apply elem_of_app. by left.
Qed.

Lemma listed_hit k a d : listed k a (dd_update [] k (λ l, l ++ [a]) d).
Proof.
  apply (dd_update_hit (λ l, a ∈ l)). intros l.
  apply elem_of_app. right. by left.
Qed.

Lemma task_to_people_NoDup : NoDup (task_to_people db).*1.
Proof.
  unfold task_to_people.
  apply (foldl_keeps (λ d, NoDup d.*1)); [constructor|]. intros d t _ Hd.
  apply (foldl_keeps (λ d, NoDup d.*1)); [done|]. intros d' ta _ Hd'.
  case_match; [|done]. by apply dd_update_NoDup.
Qed.

Lemma task_to_people_listed t ta :
  t ∈ db_tasks db → ta ∈ task_assignees db t →
  ta_person_id ta ∈ have_person db →
  listed (t_id t) (ta_person_id ta) (task_to_people db).
Proof.
  intros Ht Hta Hp. unfold task_to_people.
  assert (∀ t' d, listed (t_id t) (ta_person_id ta) d →
            listed (t_id t) (ta_person_id ta)
              (foldl (λ d ta', if in_ (ta_person_id ta') (have_person db)
                               then dd_update [] (t_id t')
                                      (λ l, l ++ [ta_person_id ta']) d
                               else d)
                     d (task_assignees db t'))) as Hkeep.
  { intros t' d Hd. apply (foldl_keeps (listed _ _)); [done|].
    intros ????. case_match; [|done]. by apply listed_keep. }
  apply (foldl_reaches (λ _, True) (listed (t_id t) (ta_person_id ta))
           _ _ t); try done.
  - intros d _.
    apply (foldl_reaches (λ _, True) (listed (t_id t) (ta_person_id ta))
             _ _ ta); try done.
    + intros d' _. rewrite (proj2 (in_true _ _) Hp). apply listed_hit.
    + intros ???. case_match; [|done]. by apply listed_keep.
  - intros d t' Hd. by apply Hkeep.
Qed.

Lemma proj_to_leads_NoDup : NoDup (proj_to_leads db).*1.
Proof.
  unfold proj_to_leads.
  apply (foldl_keeps (λ d, NoDup d.*1)); [constructor|]. intros d t _ Hd.
  case_match; [|done]. by apply dd_update_NoDup.
Qed.

Lemma proj_to_leads_listed pl :
  pl ∈ db_project_leads db →
  pl_person_id pl ∈ have_person db → pl_project_id pl ∈ have_project db →
  listed (pl_project_id pl) (pl_person_id pl) (proj_to_leads db).
Proof.
  intros Hpl Hp Hpr. unfold proj_to_leads.
  apply (foldl_reaches (λ _, True)
           (listed (pl_project_id pl) (pl_person_id pl)) _ _ pl); try done.
  - intros d _. rewrite (proj2 (in_true _ _) Hp), (proj2 (in_true _ _) Hpr).
    apply listed_hit.
  - intros ???. case_match; [|done]. by apply listed_keep.
Qed.

(** Co-assignees of a loaded task, both loaded, are linked both ways. *)
Lemma build_collab_task t ta tb :
  t ∈ db_tasks db →
  ta ∈ task_assignees db t → tb ∈ task_assignees db t →
  ta_person_id ta ∈ have_person db → ta_person_id tb ∈ have_person db →
  ta_person_id ta ≠ ta_person_id tb →
  both_seen (ta_person_id ta) (ta_person_id tb) "COLLAB:TASK" (build db).
Proof.
  intros Ht Hta Htb Ha Hb Hne.
  destruct (task_to_people_listed t ta) as (l & Hl & Hal); try done.
  destruct (task_to_people_listed t tb) as (l' & Hl' & Hbl); try done.
  assert (l' = l) as ->
    by (by eapply dd_entry_unique; [apply task_to_people_NoDup|..]).
  pose proof (build_present db) as Hadm. unfold build in *.
  apply net_collab_stable; [intros; by apply both_seen_stable|].
  eapply net_collab_emits; try done.
  assert (loaded_present db
            (emit_project_groups db (emit_memberships db (emit_tasks db
               (emit_leads db (emit_relations db (emit_nodes db init)))))))
    as Hadm'.
  { apply emit_project_groups_stable; [apply net_present_stable|].
    apply emit_memberships_stable; [apply net_present_stable|].
    apply emit_tasks_stable; [apply net_present_stable|].
    apply emit_leads_stable; [apply net_present_stable|].
    apply emit_relations_stable; [apply net_present_stable|].
    apply emit_nodes_covers. }
  split; by apply (present_person db).
Qed.

(** Co-leads of a loaded project, both loaded, are linked both ways. *)
Lemma build_collab_project pla plb :
  pla ∈ db_project_leads db → plb ∈ db_project_leads db →
  pl_project_id pla = pl_project_id plb →
  pl_project_id pla ∈ have_project db →
  pl_person_id pla ∈ have_person db → pl_person_id plb ∈ have_person db →
  pl_person_id pla ≠ pl_person_id plb →
  both_seen (pl_person_id pla) (pl_person_id plb) "COLLAB:PROJECT" (build db).
Proof.
  intros Hpla Hplb Hsame Hpr Ha Hb Hne.
  destruct (proj_to_leads_listed pla) as (l & Hl & Hal); try done.
  destruct (proj_to_leads_listed plb) as (l' & Hl' & Hbl);
    try done; [by rewrite <-Hsame|].
  rewrite <-Hsame in Hl'.
  assert (l' = l) as ->
    by (by eapply dd_entry_unique; [apply proj_to_leads_NoDup|..]).
  unfold build. eapply net_collab_emits; try done.
  assert (loaded_present db
            (collab "COLLAB:TASK"
               (emit_project_groups db (emit_memberships db (emit_tasks db
                  (emit_leads db (emit_relations db (emit_nodes db init))))))
               (task_to_people db))) as Hadm'.
  { apply net_collab_stable; [apply net_present_stable|].
    apply emit_project_groups_stable; [apply net_present_stable|].
    apply emit_memberships_stable; [apply net_present_stable|].
    apply emit_tasks_stable; [apply net_present_stable|].
    apply emit_leads_stable; [apply net_present_stable|].
    apply emit_relations_stable; [apply net_present_stable|].
    apply emit_nodes_covers. }
  split; by apply (present_person db).
Qed.
End entries.
End NetworkCollab.

(** ** Derived edges of the traversal *)

Module SubgraphCollab.
Import Subgraph SubgraphFacts SubgraphHelpers.

Lemma ids_of_kind_elem kind i (present : gset string) :
  known_kind kind → _nid kind i ∈ present →
  i ∈ ids_of_kind (kind +:+ "_") present.
Proof.
  intros Hk Hin. unfold ids_of_kind. apply list_elem_of_omap.
  exists (_nid kind i). split; [by apply elem_of_elements|].
  rewrite ids_of_kind_nid by done. by rewrite bool_decide_eq_true_2.
Qed.

Section collab.
Variable max_edges : Z.

Lemma sub_add_edge_seen_mono st src dst etype k :
  k ∈ seen_edges st → k ∈ seen_edges (add_edge max_edges st src dst etype).
Proof.
  intros H. unfold add_edge.
  repeat (case_bool_decide; cbn [negb orb]); try done.
  cbn. apply elem_of_union. by right.
Qed.

Lemma add_edge_full_stable st src dst etype :
  full max_edges st → full max_edges (add_edge max_edges st src dst etype).
Proof. intros Hf. by rewrite add_edge_full. Qed.

Lemma sub_add_edge_emits st src dst etype :
  src ∈ node_ids st → dst ∈ node_ids st →
  full max_edges st
  ∨ (src, dst, etype) ∈ seen_edges (add_edge max_edges st src dst etype).
Proof.
  intros Hs Hd. unfold add_edge, full.
  case_bool_decide; [by left|]. right.
  rewrite !bool_decide_eq_true_2 by done. cbn [negb orb].
  case_bool_decide; [done|].
  cbn. apply elem_of_union. left. by apply elem_of_singleton.
Qed.

Lemma linked_stable x y etype st src dst ty :
  linked max_edges x y etype st →
  linked max_edges x y etype (add_edge max_edges st src dst ty).
Proof.
  intros [Hf|[??]]; [left; by apply add_edge_full_stable|].
  right. split; by apply sub_add_edge_seen_mono.
Qed.

Lemma linked_sym x y etype st :
  linked max_edges x y etype st → linked max_edges y x etype st.
Proof. intros [?|[??]]; [by left|by right]. Qed.

Lemma sub_present_stable (x : string) st src dst ty :
  x ∈ node_ids st → x ∈ node_ids (add_edge max_edges st src dst ty).
Proof.
  intros. by destruct (sub_add_edge_nodes max_edges st src dst ty) as (_ & -> & _).
Qed.

Lemma sub_pair_emits x y etype st :
  x ∈ node_ids st → y ∈ node_ids st →
  linked max_edges x y etype
    (add_edge max_edges (add_edge max_edges st x y etype) y x etype).
Proof.
  intros Hx Hy.
  destruct (sub_add_edge_emits st x y etype Hx Hy) as [Hf|H1].
  { left. by do 2 apply add_edge_full_stable. }
  destruct (sub_add_edge_emits (add_edge max_edges st x y etype) y x etype)
    as [Hf|H2]; [by apply sub_present_stable..| |].
  { left. by apply add_edge_full_stable. }
  right. split; [by apply sub_add_edge_seen_mono|done].
Qed.

Lemma sub_collab_pairs_emits x y etype st ppl :
  x ∈ ppl → y ∈ ppl → x ≠ y → x ∈ node_ids st → y ∈ node_ids st →
  linked max_edges x y etype (collab_pairs max_edges etype st ppl).
Proof.
  intros Hx Hy Hne Hax Hay. unfold collab_pairs.
  set (Pre := λ st : State, x ∈ node_ids st ∧ y ∈ node_ids st).
  destruct (pairs_complete ppl x y Hx Hy Hne) as [Hp|Hp].
  - apply (foldl_reaches Pre (linked max_edges x y etype) _ _ (x, y));
      try done.
    + intros ? [? ?] [??]. split; by do 2 apply sub_present_stable.
    + intros ? [??]. by apply sub_pair_emits.
    + intros ? [? ?] ?. by do 2 apply linked_stable.
  - apply (foldl_reaches Pre (linked max_edges x y etype) _ _ (y, x));
      try done.
    + intros ? [? ?] [??]. split; by do 2 apply sub_present_stable.
    + intros ? [??]. by apply linked_sym, sub_pair_emits.
    + intros ? [? ?] ?. by do 2 apply linked_stable.
Qed.

Lemma sub_collab_stable (P : State → Prop) etype st groups :
  (∀ st src dst ty, P st → P (add_edge max_edges st src dst ty)) →
  P st → P (collab max_edges etype st groups).
Proof. intros HP. by apply sub_collab_keeps. Qed.

Lemma sub_collab_emits x y etype st (groups : list (string * gset string)) k people :
  (k, people) ∈ groups → x ∈ people → y ∈ people → x ≠ y →
  x ∈ node_ids st → y ∈ node_ids st →
  linked max_edges x y etype (collab max_edges etype st groups).
Proof.
  intros Hg Hx Hy Hne Hax Hay. unfold collab.
  set (Pre := λ st : State, x ∈ node_ids st ∧ y ∈ node_ids st).
  apply (foldl_reaches Pre (linked max_edges x y etype) _ _ (k, people));
    try done.
  - intros st' [? ppl] HPre.
    apply (sub_collab_pairs_keeps max_edges Pre); [|done].
    intros ???? [??]. split; by apply sub_present_stable.
  - intros st' [??].
    apply sub_collab_pairs_emits; try done; by apply sorted_strs_elem.
  - intros st' [? ppl] Hl.
    apply (sub_collab_pairs_keeps max_edges (linked max_edges x y etype));
      [|done].
    intros. by apply linked_stable.
Qed.
End collab.

Section entries.
Variable db : DB.
Variable present : gset string.

Lemma grouped_keep k x k' x' d :
  grouped k x d → grouped k x (dd_update ∅ k' (λ s, {[x']} ∪ s) d).
Proof.
  apply (dd_update_keep (λ s : gset string, x ∈ s)). intros s ?.
  apply elem_of_union. by right.
Qed.

Lemma grouped_hit k x d : grouped k x (dd_update ∅ k (λ s, {[x]} ∪ s) d).
Proof.
  apply (dd_update_hit (λ s : gset string, x ∈ s)). intros s.
  apply elem_of_union. left. by apply elem_of_singleton.
Qed.

Lemma task_people_NoDup : NoDup (task_people db present).*1.
Proof.
  unfold task_people.
  apply (foldl_keeps (λ d, NoDup d.*1)); [constructor|]. intros d t _ Hd.
  case_match; [|done]. by apply dd_update_NoDup.
Qed.

Lemma task_people_grouped ta :
  ta ∈ db_task_assignees db →
  _nid "task" (ta_task_id ta) ∈ present →
  _nid "person" (ta_person_id ta) ∈ present →
  grouped (_nid "task" (ta_task_id ta)) (_nid "person" (ta_person_id ta))
          (task_people db present).
Proof.
  intros Hta Ht Hp. unfold task_people.
  apply (foldl_reaches (λ _, True) (grouped _ _) _ _ ta); try done.
  - apply list_elem_of_filter. split; [|done].
    apply elem_of_list_to_set.
    apply (ids_of_kind_elem "task"); [apply known_kind_cases; auto|done].
  - intros d _. rewrite !bool_decide_eq_true_2 by done. apply grouped_hit.
  - intros ???. case_match; [|done]. by apply grouped_keep.
Qed.

Lemma proj_leads_NoDup : NoDup (proj_leads db present).*1.
Proof.
  unfold proj_leads.
  apply (foldl_keeps (λ d, NoDup d.*1)); [constructor|]. intros d t _ Hd.
  case_match; [|done]. by apply dd_update_NoDup.
Qed.

Lemma proj_leads_grouped pl :
  pl ∈ db_project_leads db →
  _nid "project" (pl_project_id pl) ∈ present →
  _nid "person" (pl_person_id pl) ∈ present →
  grouped (_nid "project" (pl_project_id pl))
          (_nid "person" (pl_person_id pl)) (proj_leads db present).
Proof.
  intros Hpl Ht Hp. unfold proj_leads.
  apply (foldl_reaches (λ _, True) (grouped _ _) _ _ pl); try done.
  - apply list_elem_of_filter. split; [|done].
    apply elem_of_list_to_set.
    apply (ids_of_kind_elem "project"); [apply known_kind_cases; auto|done].
  - intros d _. rewrite !bool_decide_eq_true_2 by done. apply grouped_hit.
  - intros ???. case_match; [|done]. by apply grouped_keep.
Qed.
End entries.

Section post_pass.
Variables (max_edges : Z) (db : DB).

Lemma person_ids_distinct a b : a ≠ b → _nid "person" a ≠ _nid "person" b.
Proof.
  intros Hne Heq.
  apply nid_inj in Heq as [_ ?]; [done|by apply known_kind_cases; auto..].
Qed.

Lemma post_pass_node_ids st :
  node_ids (post_pass max_edges db st) = node_ids st
  ∧ nodes (post_pass max_edges db st) = nodes st.
Proof.
  apply (post_pass_keeps max_edges db
           (λ st', node_ids st' = node_ids st ∧ nodes st' = nodes st));
    [|done].
  intros st' ??? [<- <-].
  by destruct (sub_add_edge_nodes max_edges st' src dst etype) as (-> & -> & _).
Qed.

Lemma post_pass_task st tid a b :
  co_assignees db tid a b → a ≠ b →
  _nid "task" tid ∈ node_ids st →
  _nid "person" a ∈ node_ids st → _nid "person" b ∈ node_ids st →
  linked max_edges (_nid "person" a) (_nid "person" b) "COLLAB:TASK"
         (post_pass max_edges db st).
Proof.
  intros (ta & tb & Hta & Htb & <- & Hsame & <- & <-) Hne Ht Ha Hb.
  destruct (task_people_grouped db (node_ids st) ta) as (s & Hs & Has);
    try done.
  destruct (task_people_grouped db (node_ids st) tb) as (s' & Hs' & Hbs);
    try done; [by rewrite Hsame|].
  rewrite Hsame in Hs'.
  assert (s' = s) as ->
    by (by eapply dd_entry_unique; [apply task_people_NoDup|..]).
  unfold post_pass.
  apply sub_collab_stable; [intros; by apply linked_stable|].
  eapply sub_collab_emits; try done. by apply person_ids_distinct.
Qed.

Lemma post_pass_project st prid a b :
  co_leads db prid a b → a ≠ b →
  _nid "project" prid ∈ node_ids st →
  _nid "person" a ∈ node_ids st → _nid "person" b ∈ node_ids st →
  linked max_edges (_nid "person" a) (_nid "person" b) "COLLAB:PROJECT"
         (post_pass max_edges db st).
Proof.
  intros (pla & plb & Hpla & Hplb & <- & Hsame & <- & <-) Hne Ht Ha Hb.
  destruct (proj_leads_grouped db (node_ids st) pla) as (s & Hs & Has);
    try done.
  destruct (proj_leads_grouped db (node_ids st) plb) as (s' & Hs' & Hbs);
    try done; [by rewrite Hsame|].
  rewrite Hsame in Hs'.
  assert (s' = s) as ->
    by (by eapply dd_entry_unique; [apply proj_leads_NoDup|..]).
  unfold post_pass.
  eapply sub_collab_emits; try done; [by apply person_ids_distinct|..];
    (apply sub_collab_stable; [intros; by apply sub_present_stable|done]).
Qed.
End post_pass.
End SubgraphCollab.

(** ** Collaboration edges in the produced graphs *)

(** A node of the full graph stands for a loaded entity. *)
Lemma network_node_loaded db kind i :
  known_kind kind →
  has_node (graph (Network.get_graph_network db)) (_nid kind i) →
  has_entity db kind i.
Proof.
  intros Hk Hn. apply wf_has_node in Hn; [|apply NetworkFacts.build_wf].
  destruct (decide (has_entity db kind i)) as [|Hno]; [done|].
  by destruct (NetworkGraph.build_not_present db kind i Hk Hno).
Qed.

Lemma network_person_loaded db a :
  has_node (graph (Network.get_graph_network db)) (_nid "person" a) →
  a ∈ Network.have_person db.
Proof.
  intros Hn. apply network_node_loaded in Hn; [|apply known_kind_cases; auto].
  destruct Hn as [[_ ?]|[[[=] _]|[[[=] _]|[[=] _]]]].
  by apply elem_of_list_to_set.
Qed.

Lemma both_seen_collab_both st a b etype :
  wf st → both_seen a b etype st → collab_both (graph (safe_result st)) a b etype.
Proof. intros Hwf [??]. split; by apply wf_has_edge. Qed.

Lemma network_collab_task db tid a b :
  a ≠ b → co_assignees db tid a b →
  let g := graph (Network.get_graph_network db) in
  has_node g (_nid "task" tid) →
  has_node g (_nid "person" a) → has_node g (_nid "person" b) →
  collab_both g a b "COLLAB:TASK".
Proof.
  intros Hne (ta & tb & Hta & Htb & <- & Hsame & <- & <-) g Ht Ha Hb.
  apply network_node_loaded in Ht; [|apply known_kind_cases; auto].
  destruct Ht as [[[=] _]|[[[=] _]|[[_ Ht]|[[=] _]]]].
  apply list_elem_of_fmap in Ht as (t & Hid & Ht).
  apply network_person_loaded in Ha, Hb.
  apply both_seen_collab_both; [apply NetworkFacts.build_wf|].
  apply (NetworkCollab.build_collab_task db t ta tb); try done.
  - apply list_elem_of_filter. by split.
  - apply list_elem_of_filter. split; [congruence|done].
Qed.

Lemma network_collab_project db prid a b :
  a ≠ b → co_leads db prid a b →
  let g := graph (Network.get_graph_network db) in
  has_node g (_nid "project" prid) →
  has_node g (_nid "person" a) → has_node g (_nid "person" b) →
  collab_both g a b "COLLAB:PROJECT".
Proof.
  intros Hne (pla & plb & Hpla & Hplb & <- & Hsame & <- & <-) g Ht Ha Hb.
  apply network_node_loaded in Ht; [|apply known_kind_cases; auto].
  destruct Ht as [[[=] _]|[[_ Ht]|[[[=] _]|[[=] _]]]].
  apply network_person_loaded in Ha, Hb.
  apply both_seen_collab_both; [apply NetworkFacts.build_wf|].
  apply (NetworkCollab.build_collab_project db pla plb); try done.
  by apply elem_of_list_to_set.
Qed.

(** With [include_collab] the traversal ends in the post-pass, unless it
    recorded no node at all. *)
Lemma traverse_collab_cases max_nodes max_edges db centers degrees :
  let st := Subgraph.traverse max_nodes max_edges db centers degrees true in
  node_ids st = ∅ ∨ ∃ st', st = Subgraph.post_pass max_edges db st'.
Proof.
  unfold Subgraph.traverse. destruct (negb _); [by left|]. cbn [andb].
  unfold Subgraph.nonempty. case_bool_decide; [by left|]. right. by eexists.
Qed.

Lemma subgraph_linked max_nodes max_edges db centers degrees a b etype :
  let st := Subgraph.traverse max_nodes max_edges db centers degrees true in
  linked max_edges (_nid "person" a) (_nid "person" b) etype st →
  Z.of_nat (length (graph_edges (graph (safe_result st)))) < max_edges →
  collab_both (graph (safe_result st)) a b etype.
Proof.
  intros st Hl Hlen.
  pose proof (SubgraphWf.traverse_wf max_nodes max_edges db centers degrees true)
    as Hwf.
  fold st in Hwf. cbn in Hlen. rewrite (wf_length_edges st Hwf) in Hlen.
  destruct Hl as [Hf|[??]]; [unfold full in Hf; lia|].
  split; by apply wf_has_edge.
Qed.

Lemma subgraph_collab_task db centers degrees max_nodes max_edges tid a b :
  a ≠ b → co_assignees db tid a b →
  let g := graph (Subgraph.get_entity_subgraph db centers degrees
                    max_nodes max_edges true) in
  has_node g (_nid "task" tid) →
  has_node g (_nid "person" a) → has_node g (_nid "person" b) →
  Z.of_nat (length (graph_edges g)) < max_edges →
  collab_both g a b "COLLAB:TASK".
Proof.
  intros Hne Hco g Ht Ha Hb Hlen. subst g.
  unfold Subgraph.get_entity_subgraph in *.
  pose proof (SubgraphWf.traverse_wf max_nodes max_edges db centers degrees true)
    as Hwf.
  apply wf_has_node in Ht, Ha, Hb; try done.
  apply subgraph_linked; [|done].
  destruct (traverse_collab_cases max_nodes max_edges db centers degrees)
    as [Hempty|[st' Hst']].
  { rewrite Hempty in Ht. by apply not_elem_of_empty in Ht. }
  rewrite Hst' in *.
  destruct (SubgraphCollab.post_pass_node_ids max_edges db st') as [Hids _].
  rewrite Hids in Ht, Ha, Hb.
  by apply (SubgraphCollab.post_pass_task max_edges db st' tid).
Qed.

Lemma subgraph_collab_project db centers degrees max_nodes max_edges prid a b :
  a ≠ b → co_leads db prid a b →
  let g := graph (Subgraph.get_entity_subgraph db centers degrees
                    max_nodes max_edges true) in
  has_node g (_nid "project" prid) →
  has_node g (_nid "person" a) → has_node g (_nid "person" b) →
  Z.of_nat (length (graph_edges g)) < max_edges →
  collab_both g a b "COLLAB:PROJECT".
Proof.
  intros Hne Hco g Ht Ha Hb Hlen. subst g.
  unfold Subgraph.get_entity_subgraph in *.
  pose proof (SubgraphWf.traverse_wf max_nodes max_edges db centers degrees true)
    as Hwf.
  apply wf_has_node in Ht, Ha, Hb; try done.
  apply subgraph_linked; [|done].
  destruct (traverse_collab_cases max_nodes max_edges db centers degrees)
    as [Hempty|[st' Hst']].
  { rewrite Hempty in Ht. by apply not_elem_of_empty in Ht. }
  rewrite Hst' in *.
  destruct (SubgraphCollab.post_pass_node_ids max_edges db st') as [Hids _].
  rewrite Hids in Ht, Ha, Hb.
  by apply (SubgraphCollab.post_pass_project max_edges db st' prid).
Qed.

(** C6, as stated, fails for the traversal: centered on the two persons
    with no hop, their nodes are in the graph and task 1 has both as
    assignees, yet the node of the task is not there and no
    [COLLAB:TASK] edge is emitted. *)
Lemma collab_symmetry_counterexample :
  ¬ (let g := graph (Subgraph.get_entity_subgraph Samples.team
                       ["person_1"; "person_2"] 0 2000 4000 true) in
     co_assignees Samples.team 1 1 2 →
     has_node g (_nid "person" 1) → has_node g (_nid "person" 2) →
     collab_both g 1 2 "COLLAB:TASK").
Proof.
  intros H. destruct H as [H _].
  - exists (mkTaskAssignee 1 1 (Some "Responsible")),
           (mkTaskAssignee 1 2 (Some "Consulted")).
    split_and!; try done; [by left|by right; left].
  - unfold has_node. vm_compute. by left.
  - unfold has_node. vm_compute. by right; left.
  - unfold has_edge in H. vm_compute in H. by apply elem_of_nil in H.
Qed.

(** C6, amended.  For two distinct persons [a] and [b]:
    in the full graph, co-assignees of a task (co-leads of a project) whose
    three nodes are in the graph are linked by [COLLAB:TASK]
    ([COLLAB:PROJECT]) edges in both directions; in the traversal with
    [include_collab] the same holds when the node of the task (project)
    itself is in the produced graph next to the two person nodes and the
    edge budget was not used up. *)
Theorem collab_symmetry_amended db centers degrees max_nodes max_edges tid prid a b :
  a ≠ b →
  let gn := graph (Network.get_graph_network db) in
  let gs := graph (Subgraph.get_entity_subgraph db centers degrees
                     max_nodes max_edges true) in
  (co_assignees db tid a b →
   has_node gn (_nid "task" tid) →
   has_node gn (_nid "person" a) → has_node gn (_nid "person" b) →
   collab_both gn a b "COLLAB:TASK")
  ∧ (co_leads db prid a b →
     has_node gn (_nid "project" prid) →
     has_node gn (_nid "person" a) → has_node gn (_nid "person" b) →
     collab_both gn a b "COLLAB:PROJECT")
  ∧ (co_assignees db tid a b →
     has_node gs (_nid "task" tid) →
     has_node gs (_nid "person" a) → has_node gs (_nid "person" b) →
     Z.of_nat (length (graph_edges gs)) < max_edges →
     collab_both gs a b "COLLAB:TASK")
  ∧ (co_leads db prid a b →
     has_node gs (_nid "project" prid) →
     has_node gs (_nid "person" a) → has_node gs (_nid "person" b) →
     Z.of_nat (length (graph_edges gs)) < max_edges →
     collab_both gs a b "COLLAB:PROJECT").
Proof.
  intros Hne gn gs. split_and!; intros Hco.
  - by apply network_collab_task.
  - by apply network_collab_project.
  - by apply subgraph_collab_task.
  - by apply subgraph_collab_project.
Qed.

(** One hop around task 1 reaches both assignees; the post-pass links
    them both ways. *)
Lemma collab_symmetry_amended_witness :
  collab_both
    (graph (Subgraph.get_entity_subgraph Samples.team ["task_1"] 1 2000 4000 true))
    1 2 "COLLAB:TASK".
Proof.
  destruct (collab_symmetry_amended Samples.team ["task_1"] 1 2000 4000 1 1 1 2)
    as (_ & _ & H & _); [done|].
  apply H.
  - exists (mkTaskAssignee 1 1 (Some "Responsible")),
           (mkTaskAssignee 1 2 (Some "Consulted")).
    split_and!; try done; [by left|by right; left].
  - unfold has_node. vm_compute. by left.
  - unfold has_node. vm_compute. do 2 right. by left.
  - unfold has_node. vm_compute. do 3 right. by left.
  - by vm_compute.
Defined.

(** ** Traversal without hops *)

Lemma re_alternatives_kind alts s g1 g2 :
  re_alternatives alts s = Some (g1, g2) → Py.lower g1 ∈ alts.
Proof.
  induction alts as [|k alts IH]; [done|]. cbn.
  destruct (_ && _ && _ && _) eqn:Hm; [|intros ?; right; by apply IH].
  intros [= <- <-]. apply elem_of_cons. left.
  repeat apply andb_true_iff in Hm as [Hm _].
  by apply bool_decide_eq_true in Hm.
Qed.

Lemma singular_known k :
  k ∈ _NODE_RE_kinds →
  known_kind (default (Py.rstrip_char "s" k) (singular !! k)).
Proof.
  unfold _NODE_RE_kinds. rewrite !elem_of_cons, elem_of_nil.
  intros [->|[->|[->|[->|[->|[->|[->|[->|[]]]]]]]]];
    apply known_kind_cases; vm_compute; auto.
Qed.

(** A center that parses names one of the four kinds. *)
Lemma parse_node_id_known token kind i :
  _parse_node_id token = inr (kind, i) → known_kind kind.
Proof.
  unfold _parse_node_id, _NODE_RE_match.
  pose proof (re_alternatives_kind _NODE_RE_kinds (Py.strip token)) as Hk.
  destruct (re_alternatives _NODE_RE_kinds (Py.strip token)) as [[g1 g2]|];
    [|done].
  specialize (Hk g1 g2 eq_refl). destruct (Py.int g2); [|done].
  intros [= <- _]. by apply singular_known.
Qed.

Module SubgraphZero.
Import Subgraph SubgraphFacts SubgraphHelpers.

Lemma nonempty_empty `{Countable A} : nonempty (∅ : gset A) = false.
Proof. unfold nonempty. by rewrite bool_decide_eq_true_2. Qed.

Lemma nonempty_singleton (i : Z) : nonempty ({[i]} ∪ ∅ : gset Z) = true.
Proof.
  unfold nonempty. rewrite bool_decide_eq_false_2; [done|].
  intros Heq. apply (not_elem_of_empty (C:=gset Z) i). rewrite <-Heq.
  apply elem_of_union. left. by apply elem_of_singleton.
Qed.

Lemma frontier_add_known f i :
  frontier_add f "project" i = inr (add_project i f)
  ∧ frontier_add f "task" i = inr (add_task i f)
  ∧ frontier_add f "person" i = inr (add_person i f)
  ∧ frontier_add f "group" i = inr (add_group i f).
Proof. done. Qed.

Section zero.
Variables (max_nodes max_edges : Z) (db : DB).

Lemma materialize_nothing frontier st :
  any_frontier frontier = false → materialize max_nodes db frontier st = st.
Proof.
  unfold any_frontier, materialize. intros H.
  repeat (apply orb_false_iff in H as [H ?]).
  by repeat match goal with H : nonempty _ = false |- _ => rewrite H; clear H end.
Qed.

Lemma materialize_no_edges frontier :
  edges (materialize max_nodes db frontier init) = [].
Proof.
  apply (materialize_keeps max_nodes db (λ st, edges st = [])); [|done].
  intros st ????? _ <-. apply sub_add_node_edges.
Qed.

Lemma sub_add_edge_edges st src dst etype e :
  e ∈ edges (add_edge max_edges st src dst etype) →
  e ∈ edges st ∨ e = mkEdge src dst etype.
Proof.
  unfold add_edge. repeat (case_bool_decide; cbn [negb orb]); auto.
  cbn. intros [?| ->%list_elem_of_singleton]%elem_of_app; auto.
Qed.

Lemma collab_typed (Q : string → Prop) etype st groups :
  Q etype → (∀ e, e ∈ edges st → Q (e_type e)) →
  ∀ e, e ∈ edges (collab max_edges etype st groups) → Q (e_type e).
Proof.
  intros HQ Hst. unfold collab.
  apply (foldl_keeps (λ st, ∀ e, e ∈ edges st → Q (e_type e))); [done|].
  intros st' [? people] _ Hst'. unfold collab_pairs.
  apply (foldl_keeps (λ st, ∀ e, e ∈ edges st → Q (e_type e))); [done|].
  intros st'' [a b] _ Hst'' e [[?| ->]%sub_add_edge_edges| ->]%sub_add_edge_edges;
    auto.
Qed.

Lemma post_pass_typed st :
  (∀ e, e ∈ edges st →
        e_type e = "COLLAB:TASK" ∨ e_type e = "COLLAB:PROJECT") →
  ∀ e, e ∈ edges (post_pass max_edges db st) →
       e_type e = "COLLAB:TASK" ∨ e_type e = "COLLAB:PROJECT".
Proof.
  intros Hst. unfold post_pass.
  apply (collab_typed
           (λ ty, ty = "COLLAB:TASK" ∨ ty = "COLLAB:PROJECT")); [by right|].
  apply (collab_typed
           (λ ty, ty = "COLLAB:TASK" ∨ ty = "COLLAB:PROJECT")); [by left|].
  done.
Qed.

(** With a single recorded node the post-pass finds no pair. *)
Lemma collab_single etype st groups x :
  node_ids st = {[x]} → collab max_edges etype st groups = st.
Proof.
  intros Hids. unfold collab.
  apply (foldl_keeps (λ st', st' = st)); [done|].
  intros ? [? people] _ ->. unfold collab_pairs.
  apply (foldl_keeps (λ st', st' = st)); [done|].
  intros ? [a b] Hin ->.
  apply pairs_distinct in Hin as (Hne & _ & _); [|apply sorted_strs_NoDup].
  assert (a ∉ node_ids st ∨ b ∉ node_ids st) as Hd.
  { rewrite Hids, !elem_of_singleton.
    destruct (decide (a = x)) as [->|]; [right|left]; congruence. }
  rewrite (sub_add_edge_dangling max_edges st a b) by done.
  rewrite (sub_add_edge_dangling max_edges st b a); [done|].
  destruct Hd; [by right|by left].
Qed.

Lemma post_pass_single st x :
  node_ids st = {[x]} → post_pass max_edges db st = st.
Proof.
  intros Hids. unfold post_pass.
  rewrite (collab_single "COLLAB:TASK" st _ x Hids).
  by rewrite (collab_single "COLLAB:PROJECT" st _ x Hids).
Qed.

(** A loop that adds rows of one id to the fresh builder records one
    node. *)
Lemma single_loop {A} (kind : string) (i : Z) (key : A → Z)
    (label status email : A → option string) (rows : list A) :
  1 ≤ max_nodes → rows ≠ [] → Forall (λ r, key r = i) rows →
  let st := foldl (λ st r, add_node max_nodes st kind (key r)
                             (label r) (status r) (email r)) init rows in
  (∃ n, nodes st = [n] ∧ n_id n = _nid kind i ∧ n_type n = kind)
  ∧ edges st = [] ∧ node_ids st = {[_nid kind i]}.
Proof.
  intros Hmax Hne Hall st. subst st. destruct rows as [|r rows]; [done|].
  apply Forall_cons in Hall as [<- Hall]. cbn [foldl].
  set (st1 := add_node max_nodes init kind (key r) (label r) (status r)
                (email r)).
  assert (st1 = {| nodes := [mkNode (_nid kind (key r)) kind
                               (opt_item "label" (label r)
                                ++ opt_item "status" (status r)
                                ++ opt_item "email" (email r))];
                   edges := [];
                   seen_nodes := {[(kind, key r)]} ∪ ∅;
                   node_ids := {[_nid kind (key r)]} ∪ ∅;
                   seen_edges := ∅ |}) as Hst1.
  { unfold st1, add_node. cbn [seen_nodes init].
    rewrite size_empty, bool_decide_eq_false_2 by lia.
    rewrite bool_decide_eq_false_2 by apply not_elem_of_empty. done. }
  fold st1.
  assert (foldl (λ st r, add_node max_nodes st kind (key r)
                           (label r) (status r) (email r)) st1 rows = st1)
    as ->.
  { apply (foldl_keeps (λ st', st' = st1)); [done|].
    intros ? r' Hr' ->. rewrite Forall_forall in Hall.
    apply sub_add_node_seen. rewrite (Hall r' Hr'), Hst1. cbn.
    apply elem_of_union. left. by apply elem_of_singleton. }
  rewrite Hst1. cbn. split_and!; [by eexists|done|].
  apply union_empty_r_L.
Qed.

Lemma filter_rows {A} (key : A → Z) (i : Z) (table : list A) :
  i ∈ key <$> table →
  filter (λ r, key r ∈ ({[i]} ∪ ∅ : gset Z)) table ≠ []
  ∧ Forall (λ r, key r = i) (filter (λ r, key r ∈ ({[i]} ∪ ∅ : gset Z)) table).
Proof.
  intros (r & -> & Hr)%list_elem_of_fmap. split.
  - intros Heq. apply (not_elem_of_nil r). rewrite <-Heq.
    apply list_elem_of_filter. split; [|done].
    apply elem_of_union. left. by apply elem_of_singleton.
  - apply Forall_forall. intros r' [Hk _]%list_elem_of_filter.
    apply elem_of_union in Hk as [Hk|Hk]; [by apply elem_of_singleton in Hk|].
    by apply not_elem_of_empty in Hk.
Qed.

(** One valid center whose entity the store holds: one node. *)
Lemma materialize_single token kind i :
  _parse_node_id token = inr (kind, i) → has_entity db kind i →
  1 ≤ max_nodes →
  any_frontier (seed [token]) = true
  ∧ let st := materialize max_nodes db (seed [token]) init in
    (∃ n, nodes st = [n] ∧ n_id n = _nid kind i ∧ n_type n = kind)
    ∧ edges st = [] ∧ node_ids st = {[_nid kind i]}.
Proof.
  intros Hparse Hent Hmax. unfold seed. cbn [foldl]. rewrite Hparse.
  destruct Hent as [[-> Hi]|[[-> Hi]|[[-> Hi]|[-> Hi]]]];
    [destruct (frontier_add_known empty_frontier i) as (_ & _ & -> & _)
    |destruct (frontier_add_known empty_frontier i) as (-> & _)
    |destruct (frontier_add_known empty_frontier i) as (_ & -> & _)
    |destruct (frontier_add_known empty_frontier i) as (_ & _ & _ & ->)];
    unfold materialize, any_frontier;
    cbn [f_project f_task f_person f_group add_project add_task
           add_person add_group empty_frontier];
    rewrite ?nonempty_empty, ?nonempty_singleton; cbn [orb];
    (split; [done|]);
    destruct (filter_rows _ i _ Hi) as [Hne Hall].
  - by apply (single_loop "person" i p_id (λ p, Some (p_name p))
                (λ _, None) p_email).
  - by apply (single_loop "project" i pr_id (λ pr, Some (pr_name pr))
                pr_status (λ _, None)).
  - by apply (single_loop "task" i t_id (λ t, Some (t_name t))
                t_status (λ _, None)).
  - by apply (single_loop "group" i g_id (λ g, Some (g_name g))
                (λ _, None) (λ _, None)).
Qed.
End zero.
End SubgraphZero.

Lemma traverse_zero max_nodes max_edges db centers include_collab :
  let st0 := Subgraph.materialize max_nodes db (Subgraph.seed centers) init in
  let st := Subgraph.traverse max_nodes max_edges db centers 0 include_collab in
  st = st0 ∨ (include_collab = true ∧ st = Subgraph.post_pass max_edges db st0).
Proof.
  intros st0 st. subst st st0. unfold Subgraph.traverse.
  destruct (negb _) eqn:Hany.
  - left. apply negb_true_iff in Hany.
    by rewrite SubgraphZero.materialize_nothing.
  - cbn [Z.max Z.to_nat Subgraph.hops].
    destruct include_collab; [|by left]. cbn [andb].
    destruct (Subgraph.nonempty _); [by right|by left].
Qed.

(** C4, as stated, fails: with no hop, centers on task 1 and on its two
    assignees and [include_collab], the post-pass still links the two
    persons, so the edge array is not empty. *)
Lemma degrees_zero_counterexample :
  graph_edges
    (graph (Subgraph.get_entity_subgraph Samples.team
              ["task_1"; "person_1"; "person_2"] 0 2000 4000 true))
  ≠ [].
Proof. by vm_compute. Qed.

(** C4, amended.  With [degrees = 0] the node array is exactly the
    array of the materialized centers.  The edge array is empty when
    [include_collab] is off, and also when the centers are a single valid
    token whose entity the store holds (with room for one node): the
    result is then that one node and no edge.  Otherwise the edge array
    holds derived [COLLAB:TASK] and [COLLAB:PROJECT] edges only. *)
Theorem degrees_zero_amended db centers max_nodes max_edges include_collab :
  let st0 := Subgraph.materialize max_nodes db (Subgraph.seed centers) init in
  let g := graph (Subgraph.get_entity_subgraph db centers 0 max_nodes
                    max_edges include_collab) in
  graph_nodes g = nodes st0
  ∧ (include_collab = false → graph_edges g = [])
  ∧ (∀ e, e ∈ graph_edges g →
          e_type e = "COLLAB:TASK" ∨ e_type e = "COLLAB:PROJECT")
  ∧ (∀ token kind i,
       centers = [token] → _parse_node_id token = inr (kind, i) →
       has_entity db kind i → 1 ≤ max_nodes →
       (∃ n, graph_nodes g = [n] ∧ n_id n = _nid kind i ∧ n_type n = kind)
       ∧ graph_edges g = []).
Proof.
  intros st0 g. subst g. unfold Subgraph.get_entity_subgraph.
  cbn [graph safe_result graph_nodes graph_edges].
  pose proof (SubgraphZero.materialize_no_edges max_nodes db
                (Subgraph.seed centers)) as Hno. fold st0 in Hno.
  destruct (traverse_zero max_nodes max_edges db centers include_collab)
    as [->|[-> ->]]; fold st0.
  - split_and!; [done|done|rewrite Hno; by intros ? ?%elem_of_nil|].
    intros token kind i -> Hparse Hent Hmax.
    destruct (SubgraphZero.materialize_single max_nodes db token kind i)
      as (_ & Hn & He & _); done.
  - split_and!.
    + by destruct (SubgraphCollab.post_pass_node_ids max_edges db st0).
    + done.
    + apply SubgraphZero.post_pass_typed. rewrite Hno.
      by intros ? ?%elem_of_nil.
    + intros token kind i -> Hparse Hent Hmax.
      destruct (SubgraphZero.materialize_single max_nodes db token kind i)
        as (_ & Hn & He & Hids); try done.
      subst st0.
      by rewrite (SubgraphZero.post_pass_single max_edges db _ _ Hids).
Qed.

(** The degrees-0 identity of the spec: one valid center, one node, no
    edge. *)
Lemma degrees_zero_amended_witness :
  let g := graph (Subgraph.get_entity_subgraph Samples.team ["project_1"] 0
                    2000 4000 true) in
  (∃ n, graph_nodes g = [n] ∧ n_id n = "project_1" ∧ n_type n = "project")
  ∧ graph_edges g = [].
Proof.
  intros g.
  destruct (degrees_zero_amended Samples.team ["project_1"] 2000 4000 true)
    as (_ & _ & _ & H).
  apply (H "project_1" "project" 1); [done|done| |lia].
  right. left. split; [done|]. by left.
Defined.

(** ** Worked examples *)

Example normalize_raci_examples :
  _normalize_raci (Some "a") = "Accountable"
  ∧ _normalize_raci (Some "CONSULTED") = "Consulted"
  ∧ _normalize_raci (Some "apple") = "Accountable"
  ∧ _normalize_raci (Some "  ") = ""
  ∧ _normalize_raci None = "Informed".
Proof. by vm_compute. Qed.

Example raci_suffix_examples :
  raci_suffix (Some "Accountable") = "A"
  ∧ raci_suffix (Some "informed") = "I"
  ∧ raci_suffix (Some " responsible ") = " "
  ∧ raci_suffix None = "R".
Proof. by vm_compute. Qed.

Example parse_node_id_examples :
  _parse_node_id "project_12" = inr ("project", 12)
  ∧ _parse_node_id " People_007 " = inr ("person", 7)
  ∧ _parse_node_id "tasks_5" = inr ("task", 5)
  ∧ _parse_node_id "task_-5" = inl ValueError
  ∧ _parse_node_id "task5" = inl ValueError
  ∧ _parse_node_id "person_1x" = inl ValueError.
Proof. by vm_compute. Qed.

Example nid_examples : _nid "person" 10 = "person_10" ∧ _nid "task" (-3) = "task_-3".
Proof. by vm_compute. Qed.

(** Strings sort by character code: ["person_10"] precedes ["person_2"]. *)
Example sorted_strs_example :
  sorted_strs {[ "person_2"; "person_10"; "person_1" ]}
  = ["person_1"; "person_10"; "person_2"].
Proof. by vm_compute. Qed.

(** The traversal scenario of the spec: one hop around a project with two
    leads. *)
Example subgraph_two_leads :
  let g := graph (Subgraph.get_entity_subgraph Samples.two_leads
                    ["project_1"] 1 2000 4000 true) in
  n_id <$> graph_nodes g = ["project_1"; "person_7"; "person_8"]
  ∧ edge_key <$> graph_edges g
    = [("person_7", "project_1", "RACI:R");
       ("person_8", "project_1", "RACI:A");
       ("person_7", "person_8", "COLLAB:PROJECT");
       ("person_8", "person_7", "COLLAB:PROJECT")].
Proof. by vm_compute. Qed.

(** The full graph of the sample team: six nodes, the dangling
    [PART_OF] of task 2 dropped. *)
Example network_team :
  let g := graph (Network.get_graph_network Samples.team) in
  n_id <$> graph_nodes g
  = ["person_1"; "person_2"; "project_1"; "task_1"; "task_2"; "group_1"]
  ∧ edge_key <$> graph_edges g
    = [("person_1", "person_2", "MANAGES");
       ("person_1", "project_1", "RACI:R");
       ("person_2", "project_1", "RACI:A");
       ("task_1", "project_1", "PART_OF");
       ("person_1", "task_1", "ASSIGNEE:R");
       ("person_2", "task_1", "ASSIGNEE:C");
       ("person_1", "group_1", "MEMBER_OF");
       ("project_1", "group_1", "IN_GROUP");
       ("person_1", "person_2", "COLLAB:TASK");
       ("person_2", "person_1", "COLLAB:TASK");
       ("person_1", "person_2", "COLLAB:PROJECT");
       ("person_2", "person_1", "COLLAB:PROJECT")].
Proof. by vm_compute. Qed.

(* ===================================================================== *)
(** * Further properties *)
(* ===================================================================== *)

(** ** Trimming and case mapping *)

Section trimming.

Lemma lower_char_idem c : Py.lower_char (Py.lower_char c) = Py.lower_char c.
Proof. by destruct c as [[] [] [] [] [] [] [] []]. Qed.

Lemma lower_upper_char c : Py.lower_char (Py.upper_char c) = Py.lower_char c.
Proof. by destruct c as [[] [] [] [] [] [] [] []]. Qed.

Lemma upper_lower_char c : Py.upper_char (Py.lower_char c) = Py.upper_char c.
Proof. by destruct c as [[] [] [] [] [] [] [] []]. Qed.

Lemma is_space_lower_char c : Py.is_space (Py.lower_char c) = Py.is_space c.
Proof. by destruct c as [[] [] [] [] [] [] [] []]. Qed.

Lemma is_space_upper_char c : Py.is_space (Py.upper_char c) = Py.is_space c.
Proof. by destruct c as [[] [] [] [] [] [] [] []]. Qed.

Lemma map_chars_compose f g s :
  Py.map_chars f (Py.map_chars g s) = Py.map_chars (λ c, f (g c)) s.
Proof. induction s as [|c s IH]; [done|]. cbn. by rewrite IH. Qed.

Lemma map_chars_same f g s :
  (∀ c, f c = g c) → Py.map_chars f s = Py.map_chars g s.
Proof. intros Hfg. induction s as [|c s IH]; [done|]. cbn. by rewrite Hfg, IH. Qed.

Lemma lower_idem s : Py.lower (Py.lower s) = Py.lower s.
Proof.
  unfold Py.lower. rewrite map_chars_compose.
  apply map_chars_same, lower_char_idem.
Qed.

Lemma lower_upper s : Py.lower (Py.upper s) = Py.lower s.
Proof.
  unfold Py.lower, Py.upper. rewrite map_chars_compose.
  apply map_chars_same, lower_upper_char.
Qed.

Lemma upper_lower s : Py.upper (Py.lower s) = Py.upper s.
Proof.
  unfold Py.lower, Py.upper. rewrite map_chars_compose.
  apply map_chars_same, upper_lower_char.
Qed.

Lemma lower_capitalize s : Py.lower (Py.capitalize s) = Py.lower s.
Proof.
  destruct s as [|c s]; [done|]. cbn.
  rewrite lower_upper_char. f_equal. apply lower_idem.
Qed.

Lemma upper_capitalize s : Py.upper (Py.capitalize s) = Py.upper s.
Proof.
  destruct s as [|c s]; [done|]. cbn.
  rewrite upper_char_idem. f_equal. apply upper_lower.
Qed.

Lemma capitalize_lower s : Py.capitalize (Py.lower s) = Py.capitalize s.
Proof.
  destruct s as [|c s]; [done|]. cbn.
  rewrite upper_lower_char. f_equal. apply lower_idem.
Qed.

Lemma capitalize_idem s : Py.capitalize (Py.capitalize s) = Py.capitalize s.
Proof.
  destruct s as [|c s]; [done|]. cbn.
  rewrite upper_char_idem. f_equal. apply lower_idem.
Qed.

Lemma map_chars_is_empty f s : Py.is_empty (Py.map_chars f s) = Py.is_empty s.
Proof. by destruct s. Qed.

(** A character map that keeps blanks blank commutes with trimming. *)
Section blank_preserving.
Variable f : ascii → ascii.
Hypothesis f_space : ∀ c, Py.is_space (f c) = Py.is_space c.

Lemma lstrip_map_chars s :
  Py.lstrip (Py.map_chars f s) = Py.map_chars f (Py.lstrip s).
Proof.
  induction s as [|c s IH]; [done|]. cbn. rewrite f_space.
  by destruct (Py.is_space c).
Qed.

Lemma rstrip_map_chars s :
  Py.rstrip (Py.map_chars f s) = Py.map_chars f (Py.rstrip s).
Proof.
  induction s as [|c s IH]; [done|]. cbn. rewrite f_space, IH.
  rewrite map_chars_is_empty.
  by destruct (Py.is_space c && Py.is_empty (Py.rstrip s)).
Qed.

Lemma strip_map_chars s :
  Py.strip (Py.map_chars f s) = Py.map_chars f (Py.strip s).
Proof. unfold Py.strip. by rewrite lstrip_map_chars, rstrip_map_chars. Qed.
End blank_preserving.

Lemma strip_lower s : Py.strip (Py.lower s) = Py.lower (Py.strip s).
Proof. apply strip_map_chars, is_space_lower_char. Qed.

Lemma strip_upper s : Py.strip (Py.upper s) = Py.upper (Py.strip s).
Proof. apply strip_map_chars, is_space_upper_char. Qed.

Lemma rstrip_idem s : Py.rstrip (Py.rstrip s) = Py.rstrip s.
Proof.
  induction s as [|c s IH]; [done|]. cbn.
  destruct (Py.is_space c && Py.is_empty (Py.rstrip s)) eqn:Hc; [done|].
  cbn. by rewrite IH, Hc.
Qed.

(** The head of a left-trimmed string is no blank. *)
Lemma lstrip_head s :
  match Py.lstrip s with
  | EmptyString => True
  | String c _ => Py.is_space c = false
  end.
Proof.
  induction s as [|c s IH]; [done|]. cbn.
  by destruct (Py.is_space c) eqn:Hc; [|cbn].
Qed.

Lemma strip_head s :
  match Py.strip s with
  | EmptyString => True
  | String c _ => Py.is_space c = false
  end.
Proof.
  unfold Py.strip. pose proof (lstrip_head s) as Hh.
  destruct (Py.lstrip s) as [|c t]; [done|]. cbn. by rewrite Hh.
Qed.

Lemma lstrip_strip s : Py.lstrip (Py.strip s) = Py.strip s.
Proof.
  pose proof (strip_head s) as Hh.
  destruct (Py.strip s) as [|c t]; [done|]. cbn. by rewrite Hh.
Qed.

(** Trimming twice is trimming once. *)
Lemma strip_idem s : Py.strip (Py.strip s) = Py.strip s.
Proof.
  unfold Py.strip at 1. rewrite lstrip_strip.
  unfold Py.strip. apply rstrip_idem.
Qed.

Lemma rstrip_strip s : Py.rstrip (Py.strip s) = Py.strip s.
Proof. unfold Py.strip. apply rstrip_idem. Qed.

(** Capitalizing a trimmed string leaves it trimmed. *)
Lemma strip_capitalize_strip s :
  Py.strip (Py.capitalize (Py.strip s)) = Py.capitalize (Py.strip s).
Proof.
  pose proof (strip_head s) as Hh. pose proof (rstrip_strip s) as Hr.
  destruct (Py.strip s) as [|c t]; [done|].
  cbn in Hr. rewrite Hh in Hr. cbn in Hr. injection Hr as Hr.
  unfold Py.strip. cbn. rewrite is_space_upper_char, Hh. cbn.
  rewrite is_space_upper_char, Hh. cbn. f_equal.
  change (Py.lower t) with (Py.map_chars Py.lower_char t).
  by rewrite (rstrip_map_chars _ is_space_lower_char), Hr.
Qed.

End trimming.

(** ** ASCII strings

    The trimming and case functions keep a string of ASCII characters
    one. *)

Section ascii.

Lemma upper_char_ascii c :
  (Py.code c <? 128)%N = true → (Py.code (Py.upper_char c) <? 128)%N = true.
Proof. by destruct c as [[] [] [] [] [] [] [] []]. Qed.

Lemma lower_char_ascii c :
  (Py.code c <? 128)%N = true → (Py.code (Py.lower_char c) <? 128)%N = true.
Proof. by destruct c as [[] [] [] [] [] [] [] []]. Qed.

Lemma is_ascii_map_chars f s :
  (∀ c, (Py.code c <? 128)%N = true → (Py.code (f c) <? 128)%N = true) →
  Py.is_ascii s = true → Py.is_ascii (Py.map_chars f s) = true.
Proof.
  intros Hf. induction s as [|c s IH]; [done|]. cbn.
  intros [Hc Hs]%andb_true_iff. by rewrite Hf, IH.
Qed.

Lemma is_ascii_lower s :
  Py.is_ascii s = true → Py.is_ascii (Py.lower s) = true.
Proof. apply is_ascii_map_chars, lower_char_ascii. Qed.

Lemma is_ascii_upper s :
  Py.is_ascii s = true → Py.is_ascii (Py.upper s) = true.
Proof. apply is_ascii_map_chars, upper_char_ascii. Qed.

Lemma is_ascii_capitalize s :
  Py.is_ascii s = true → Py.is_ascii (Py.capitalize s) = true.
Proof.
  destruct s as [|c s]; [done|]. cbn.
  intros [Hc Hs]%andb_true_iff.
  by rewrite upper_char_ascii, (is_ascii_lower s).
Qed.

Lemma is_ascii_lstrip s :
  Py.is_ascii s = true → Py.is_ascii (Py.lstrip s) = true.
Proof.
  induction s as [|c s IH]; [done|]. cbn.
  intros Hs. destruct (Py.is_space c); [|done].
  apply andb_true_iff in Hs as [_ Hs]. by apply IH.
Qed.

Lemma is_ascii_rstrip s :
  Py.is_ascii s = true → Py.is_ascii (Py.rstrip s) = true.
Proof.
  induction s as [|c s IH]; [done|]. cbn.
  intros [Hc Hs]%andb_true_iff.
  destruct (Py.is_space c && Py.is_empty (Py.rstrip s)); [done|].
  cbn. by rewrite Hc, IH.
Qed.

Lemma is_ascii_strip s :
  Py.is_ascii s = true → Py.is_ascii (Py.strip s) = true.
Proof. intros Hs. by apply is_ascii_rstrip, is_ascii_lstrip. Qed.

Lemma is_ascii_app (s t : string) :
  Py.is_ascii (s +:+ t) = Py.is_ascii s && Py.is_ascii t.
Proof.
  induction s as [|c s IH]; [done|].
  change (String c s +:+ t) with (String c (s +:+ t)). cbn.
  by rewrite IH, andb_assoc.
Qed.

End ascii.

(** ** Field normalizers *)

Lemma str_or_some (s d : string) : s ≠ "" → str_or (Some s) d = s.
Proof. by destruct s. Qed.

Lemma str_or_blank (s : string) : str_or (Some s) "" = s.
Proof. by destruct s. Qed.

(** The trimmed lower-case form is reached in one step. *)
Lemma lower_strip_idem s :
  Py.lower (Py.strip (Py.lower (Py.strip s))) = Py.lower (Py.strip s).
Proof. by rewrite strip_lower, strip_idem, lower_idem. Qed.

Lemma valid_status_cases (v : string) :
  v ∈ VALID_STATUS
  ↔ v = "not started" ∨ v = "started" ∨ v = "blocked" ∨ v = "complete".
Proof.
  unfold VALID_STATUS. rewrite !elem_of_union, !elem_of_singleton. tauto.
Qed.

(** X1.  [_sanitize_status] always answers one of the four checklist
    statuses, whatever it is given: an absent, empty or unknown status
    becomes [not started].  It keeps a status it has produced. *)
Theorem sanitize_status_valid (s : option string) :
  _sanitize_status s ∈ VALID_STATUS
  ∧ _sanitize_status (Some (_sanitize_status s)) = _sanitize_status s
  ∧ _sanitize_status None = "not started"
  ∧ _sanitize_status (Some "") = "not started"
  ∧ _sanitize_status (Some "in progress") = "not started"
  ∧ _sanitize_status (Some " Blocked ") = "blocked".
Proof.
  assert (_sanitize_status s ∈ VALID_STATUS) as Hvalid.
  { unfold _sanitize_status. case_bool_decide; [done|].
    apply valid_status_cases. by left. }
  split_and!; try done.
  apply valid_status_cases in Hvalid.
  by destruct Hvalid as [->|[->|[->| ->]]].
Qed.

Lemma norm_priority_cases (v : string) :
  v ∈ ({[ "low"; "medium"; "high" ]} : gset string)
  ↔ v = "low" ∨ v = "medium" ∨ v = "high".
Proof. rewrite !elem_of_union, !elem_of_singleton. tauto. Qed.

(** X2.  [_norm_priority] always answers [low], [medium] or [high]; an
    absent, empty or unknown priority becomes [medium], and a priority it
    has produced is kept. *)
Theorem norm_priority_valid (p : option string) :
  _norm_priority p ∈ ["low"; "medium"; "high"]
  ∧ _norm_priority (Some (_norm_priority p)) = _norm_priority p
  ∧ _norm_priority None = "medium" ∧ _norm_priority (Some "") = "medium"
  ∧ (Py.lower (Py.strip (str_or p "medium")) ∉ ["low"; "medium"; "high"]
     ↔ _norm_priority p = "medium"
       ∧ Py.lower (Py.strip (str_or p "medium")) ≠ "medium").
Proof.
  assert (_norm_priority p = "low" ∨ _norm_priority p = "medium"
          ∨ _norm_priority p = "high") as Hc.
  { unfold _norm_priority. case_bool_decide as Hv; [|auto].
    by apply norm_priority_cases in Hv. }
  split_and!; try done.
  - rewrite !elem_of_cons. tauto.
  - by destruct Hc as [->|[->| ->]].
  - unfold _norm_priority. rewrite !elem_of_cons, elem_of_nil.
    case_bool_decide as Hv; rewrite norm_priority_cases in Hv.
    + split; [tauto|]. intros [-> Hne]. tauto.
    + split; [|tauto]. intros _. split; [done|]. tauto.
Qed.

Lemma norm_status_lookup (k : string) :
  _norm_status_mapping !! k =
    if decide (k = "not started") then Some "not started"
    else if decide (k = "in progress") then Some "in progress"
    else if decide (k = "blocked") then Some "blocked"
    else if decide (k = "complete") then Some "complete"
    else if decide (k = "completed") then Some "complete"
    else if decide (k = "canceled") then Some "canceled"
    else if decide (k = "cancelled") then Some "canceled"
    else None.
Proof.
  unfold _norm_status_mapping.
  repeat (rewrite lookup_insert; case_decide; [by simplify_eq; repeat case_decide|]).
  rewrite lookup_singleton. by repeat case_decide; simplify_eq.
Qed.

(** X3.  [_norm_status] folds the two spellings of [complete] and of
    [canceled] together and hands any other status back trimmed and in
    lower case.  Normalizing again changes nothing unless the first
    result is the empty string, which an all-blank status gives: the
    empty string is then read as absent and becomes [not started]. *)
Theorem norm_status_idempotent (s : option string) :
  (_norm_status s ≠ "" →
   _norm_status (Some (_norm_status s)) = _norm_status s)
  ∧ _norm_status (Some "  ") = ""
  ∧ _norm_status (Some (_norm_status (Some "  "))) = "not started"
  ∧ _norm_status (Some " Completed") = "complete"
  ∧ _norm_status (Some "CANCELLED ") = "canceled".
Proof.
  split; [|by vm_compute].
  unfold _norm_status.
  generalize (str_or s "not started") as x. intros x.
  set (v := Py.lower (Py.strip x)).
  rewrite (norm_status_lookup v).
  repeat (case_decide; [intros _; cbn [default]; by vm_compute|]).
  cbn [default]. intros Hne. rewrite str_or_some by done.
  subst v. rewrite !lower_strip_idem.
  rewrite norm_status_lookup. by repeat (case_decide; [done|]).
Qed.

Lemma norm_status_idempotent_witness :
  _norm_status (Some (_norm_status (Some " In Progress ")))
  = _norm_status (Some " In Progress ").
Proof.
  apply (proj1 (norm_status_idempotent (Some " In Progress "))).
  vm_compute. discriminate.
Defined.

(** X4.  [_norm_unit] answers no unit or one of [day], [week], [month],
    [year]; the unit it answers is a prefix of the trimmed lower-case
    argument, so plural and adjective forms are accepted, and a unit it
    has produced is kept. *)
Theorem norm_unit_valid (u : option string) :
  (_norm_unit u = None
   ∨ ∃ x, _norm_unit u = Some x ∧ x ∈ ["day"; "week"; "month"; "year"]
          ∧ Py.startswith x (Py.lower (Py.strip (default "" u))) = true)
  ∧ _norm_unit (_norm_unit u) = _norm_unit u
  ∧ _norm_unit None = None ∧ _norm_unit (Some "") = None
  ∧ _norm_unit (Some " Weekly") = Some "week"
  ∧ _norm_unit (Some "fortnight") = None.
Proof.
  split_and!; [| |reflexivity..].
  - unfold _norm_unit. destruct (falsy u); [by left|]. cbv zeta.
    generalize (Py.lower (Py.strip (default "" u))) as v. intros v.
    destruct (Py.startswith "day" v) eqn:Hd.
    { right. exists "day". split_and!; [reflexivity| |exact Hd].
      apply list_elem_of_here. }
    destruct (Py.startswith "week" v) eqn:Hw.
    { right. exists "week". split_and!; [reflexivity| |exact Hw].
      apply list_elem_of_further, list_elem_of_here. }
    destruct (Py.startswith "month" v) eqn:Hm.
    { right. exists "month". split_and!; [reflexivity| |exact Hm].
      do 2 apply list_elem_of_further. apply list_elem_of_here. }
    destruct (Py.startswith "year" v) eqn:Hy.
    { right. exists "year". split_and!; [reflexivity| |exact Hy].
      do 3 apply list_elem_of_further. apply list_elem_of_here. }
    by left.
  - unfold _norm_unit at 2 3. destruct (falsy u); [reflexivity|]. cbv zeta.
    generalize (Py.lower (Py.strip (default "" u))) as v. intros v.
    destruct (Py.startswith "day" v); [reflexivity|].
    destruct (Py.startswith "week" v); [reflexivity|].
    destruct (Py.startswith "month" v); [reflexivity|].
    destruct (Py.startswith "year" v); reflexivity.
Qed.

Lemma norm_role_lookup (k : string) :
  _norm_role_short !! k =
    if decide (k = "r") then Some "Responsible"
    else if decide (k = "a") then Some "Accountable"
    else if decide (k = "c") then Some "Consulted"
    else if decide (k = "i") then Some "Informed"
    else None.
Proof.
  unfold _norm_role_short.
  repeat (rewrite lookup_insert; case_decide; [by simplify_eq; repeat case_decide|]).
  rewrite lookup_singleton. by repeat case_decide; simplify_eq.
Qed.

(** The strings whose lower-case form is one given letter *)
Lemma lower_single (s : string) (c : ascii) :
  Py.lower s = String c "" → ∃ d, s = String d "" ∧ Py.lower_char d = c.
Proof.
  destruct s as [|d [|? ?]]; [done| |done]. cbn. intros [= <-]. by eexists.
Qed.

Lemma upper_of_lower_single (s : string) (c : ascii) :
  Py.lower s = String c "" → Py.upper s = String (Py.upper_char c) "".
Proof.
  intros (d & -> & <-)%lower_single. cbn. by rewrite upper_lower_char.
Qed.

(** X5.  [_norm_role] never answers an empty role and keeps a role it has
    produced.  On the one-letter codes, in either case and with blanks
    around them, it agrees with [_normalize_raci]; the two differ on an
    absent role, which [_norm_role] makes [Responsible] and
    [_normalize_raci] makes [Informed], and on full words, which
    [_norm_role] leaves as they are spelled. *)
Theorem norm_role_properties (role : option string) (r : string) :
  _norm_role role ≠ ""
  ∧ _norm_role (Some (_norm_role role)) = _norm_role role
  ∧ (Py.lower (Py.strip r) ∈ ["r"; "a"; "c"; "i"] →
     _norm_role (Some r) = _normalize_raci (Some r))
  ∧ _norm_role None = "Responsible" ∧ _normalize_raci None = "Informed"
  ∧ _norm_role (Some "accountable") = "accountable"
  ∧ _normalize_raci (Some "accountable") = "Accountable".
Proof.
  split_and!; try done.
  - unfold _norm_role.
    generalize (str_or role "") as x. intros x.
    destruct (Py.is_empty (Py.strip x)) eqn:He; [done|].
    apply is_empty_false in He.
    rewrite norm_role_lookup. by repeat case_decide.
  - unfold _norm_role at 2 3.
    generalize (str_or role "") as x. intros x.
    destruct (Py.is_empty (Py.strip x)) eqn:He; [done|].
    rewrite norm_role_lookup.
    repeat (case_decide; [done|]). cbn [default].
    unfold _norm_role. rewrite str_or_blank, strip_idem, He.
    rewrite norm_role_lookup. by repeat (case_decide; [done|]).
  - rewrite !elem_of_cons, elem_of_nil. intros Hl.
    assert (r ≠ "") as Hr.
    { intros ->. destruct Hl as [?|[?|[?|[?|[]]]]]; discriminate. }
    unfold _norm_role, _normalize_raci, falsy.
    rewrite str_or_blank. change (default "" (Some r)) with r.
    apply is_empty_false in Hr as ->.
    cbv zeta. revert Hl. generalize (Py.strip r) as x. intros x Hl.
    assert (Py.is_empty x = false) as ->.
    { destruct x; [|done]. destruct Hl as [?|[?|[?|[?|[]]]]]; discriminate. }
    rewrite norm_role_lookup, raci_name_lookup.
    destruct Hl as [Hl|[Hl|[Hl|[Hl|[]]]]];
      rewrite Hl, (upper_of_lower_single _ _ Hl); done.
Qed.

Lemma norm_role_properties_witness :
  _norm_role (Some " A ") = _normalize_raci (Some " A ").
Proof.
  refine (proj1 (proj2 (proj2 (norm_role_properties None " A "))) _).
  apply list_elem_of_further, list_elem_of_here.
Defined.

(** The two ways [_normalize_raci] answers: a RACI name, or the
    capitalized trimmed role when neither the role nor its first letter
    is a RACI code. *)
Lemma normalize_raci_cases (role : option string) :
  _normalize_raci role
    ∈ ["Responsible"; "Accountable"; "Consulted"; "Informed"]
  ∨ ∃ x, role = Some x ∧ x ≠ ""
         ∧ _normalize_raci role = Py.capitalize (Py.strip x)
         ∧ _RACI_NAME !! Py.upper (Py.strip x) = None
         ∧ _RACI_NAME !! Py.upper (Py.take1 (Py.strip x)) = None.
Proof.
  assert (∀ k v, _RACI_NAME !! k = Some v →
                 v ∈ ["Responsible"; "Accountable"; "Consulted"; "Informed"])
    as Hname.
  { intros k v. rewrite raci_name_lookup, !elem_of_cons.
    repeat case_decide; intros [= <-]; tauto. }
  unfold _normalize_raci. destruct (falsy role) eqn:Hf.
  { left. do 3 apply list_elem_of_further. apply list_elem_of_here. }
  destruct role as [x|]; [|done]. cbn in Hf. apply is_empty_false in Hf.
  change (default "" (Some x)) with x. cbv zeta.
  destruct (_RACI_NAME !! Py.upper (Py.strip x)) as [v|] eqn:Hup.
  { left. by eapply Hname. }
  rewrite upper_take1_capitalize.
  destruct (_RACI_NAME !! Py.upper (Py.take1 (Py.strip x))) as [v|] eqn:Hin.
  { left. by eapply Hname. }
  right. by exists x.
Qed.

(** The role [_normalize_raci] answers for a role of ASCII characters
    is one of ASCII characters. *)
Lemma normalize_raci_ascii (role : option string) :
  Py.is_ascii (default "" role) = true →
  Py.is_ascii (_normalize_raci role) = true.
Proof.
  intros Hrole.
  destruct (normalize_raci_cases role)
    as [Hn|(x & -> & Hx & -> & Hup & Hin)].
  - rewrite !elem_of_cons, elem_of_nil in Hn.
    by destruct Hn as [->|[->|[->|[->|[]]]]].
  - by apply is_ascii_capitalize, is_ascii_strip.
Qed.

(** X6.  On a role of ASCII characters, where the case mapping and the
    trimming of the embedding are Python's, [_normalize_raci] answers a
    role of ASCII characters and keeps a role it has produced, unless
    that role is the empty string: an all-blank role is normalized to
    the empty string, and the empty string is then read as absent and
    becomes [Informed]. *)
Theorem normalize_raci_idempotent (role : option string) :
  Py.is_ascii (default "" role) = true →
  Py.is_ascii (_normalize_raci role) = true
  ∧ (_normalize_raci role ≠ "" →
     _normalize_raci (Some (_normalize_raci role)) = _normalize_raci role)
  ∧ _normalize_raci (Some "  ") = ""
  ∧ _normalize_raci (Some (_normalize_raci (Some "  "))) = "Informed".
Proof.
  intros Hrole.
  split; [by apply normalize_raci_ascii|].
  split; [|by vm_compute].
  destruct (normalize_raci_cases role)
    as [Hn|(x & -> & Hx & -> & Hup & Hin)].
  { rewrite !elem_of_cons, elem_of_nil in Hn.
    by destruct Hn as [->|[->|[->|[->|[]]]]]. }
  intros Hne. unfold _normalize_raci, falsy.
  apply is_empty_false in Hne as ->.
  change (default "" (Some ?s)) with s. cbv zeta.
  rewrite strip_capitalize_strip, upper_capitalize, Hup.
  by rewrite capitalize_idem, upper_take1_capitalize, Hin.
Qed.

Lemma normalize_raci_idempotent_witness :
  _normalize_raci (Some (_normalize_raci (Some " lead dev ")))
  = _normalize_raci (Some " lead dev ").
Proof.
  refine (proj1 (proj2 (normalize_raci_idempotent (Some " lead dev ") _)) _).
  - reflexivity.
  - vm_compute. discriminate.
Defined.

(** X7.  The role [_normalize_raci] stores for a role whose first
    non-blank character is one of r, a, c, i, in either case, gives the
    edge-type suffix of that letter: the edge is [RACI:x] or
    [ASSIGNEE:x] for the upper-case letter [x], one of the schema's
    types. *)
Theorem stored_role_suffix (r x : string) :
  r ≠ "" → x ∈ ["R"; "A"; "C"; "I"] →
  Py.upper (Py.take1 (Py.strip r)) = x →
  raci_suffix (stored_role (Some r)) = x
  ∧ raci_etype (stored_role (Some r)) = "RACI:" +:+ x
  ∧ assignee_etype (stored_role (Some r)) = "ASSIGNEE:" +:+ x
  ∧ ed_type <$> filter (λ d, ed_type d = raci_etype (stored_role (Some r)))
                       (schema_edges GRAPH_SCHEMA)
    = ["RACI:" +:+ x]
  ∧ ed_type <$> filter (λ d, ed_type d = assignee_etype (stored_role (Some r)))
                       (schema_edges GRAPH_SCHEMA)
    = ["ASSIGNEE:" +:+ x].
Proof.
  intros Hr Hx Hup.
  rewrite !elem_of_cons, elem_of_nil in Hx.
  assert (raci_suffix (stored_role (Some r)) = x) as Hs.
  { unfold stored_role, _normalize_raci, falsy.
    apply is_empty_false in Hr as ->.
    change (default "" (Some r)) with r. cbv zeta.
    revert Hup. generalize (Py.strip r) as t. intros t Hup.
    rewrite upper_take1 in Hup.
    rewrite raci_name_lookup.
    destruct (decide (Py.upper t = "R")) as [HR|HR];
      [rewrite HR in Hup; by subst x|].
    destruct (decide (Py.upper t = "A")) as [HA|HA];
      [rewrite HA in Hup; by subst x|].
    destruct (decide (Py.upper t = "C")) as [HC|HC];
      [rewrite HC in Hup; by subst x|].
    destruct (decide (Py.upper t = "I")) as [HI|HI];
      [rewrite HI in Hup; by subst x|].
    rewrite upper_take1_capitalize, upper_take1, Hup.
    by destruct Hx as [->|[->|[->|[->|[]]]]]; vm_compute. }
  unfold raci_etype, assignee_etype. rewrite Hs.
  by destruct Hx as [->|[->|[->|[->|[]]]]]; vm_compute.
Qed.

Lemma stored_role_suffix_witness :
  raci_etype (stored_role (Some "  consulting partner")) = "RACI:C".
Proof.
  apply (stored_role_suffix "  consulting partner" "C"); [done| |done].
  rewrite !elem_of_cons. tauto.
Defined.

(** ** Tag names *)

Section words.
Import Str.

Lemma app_cons c (s t : string) : String c s +:+ t = String c (s +:+ t).
Proof. reflexivity. Qed.

Lemma app_nil (t : string) : "" +:+ t = t.
Proof. reflexivity. Qed.

Lemma app_empty_r (s : string) : s +:+ "" = s.
Proof. induction s as [|c s IH]; [done|]. by rewrite app_cons, IH. Qed.

Lemma app_assoc_str (a b c : string) : (a +:+ b) +:+ c = a +:+ (b +:+ c).
Proof. induction a as [|x a IH]; [done|]. by rewrite !app_cons, IH. Qed.

Lemma map_chars_app f (a b : string) :
  Py.map_chars f (a +:+ b) = Py.map_chars f a +:+ Py.map_chars f b.
Proof.
  induction a as [|x a IH]; [done|]. rewrite app_cons. cbn [Py.map_chars].
  by rewrite app_cons, IH.
Qed.

Lemma blank_free_app (a b : string) :
  blank_free (a +:+ b) = blank_free a && blank_free b.
Proof.
  induction a as [|x a IH]; [done|]. rewrite app_cons. cbn [blank_free].
  rewrite IH. by destruct (Py.is_space x).
Qed.

(** Splitting commutes with a character map that keeps blanks blank. *)
Lemma split_acc_map_chars f w s :
  (∀ c, Py.is_space (f c) = Py.is_space c) →
  split_acc (Py.map_chars f w) (Py.map_chars f s)
  = Py.map_chars f <$> split_acc w s.
Proof.
  intros Hf. revert w. induction s as [|c s IH]; intros w.
  - cbn. rewrite map_chars_is_empty. by destruct (Py.is_empty w).
  - cbn. rewrite Hf, map_chars_is_empty.
    destruct (Py.is_space c).
    + change "" with (Py.map_chars f ""). rewrite IH.
      by destruct (Py.is_empty w).
    + change (String (f c) "") with (Py.map_chars f (String c "")).
      by rewrite <-map_chars_app, IH.
Qed.

Lemma split_lower s : split (Py.lower s) = Py.lower <$> split s.
Proof. apply (split_acc_map_chars _ ""), is_space_lower_char. Qed.

(** The words of a split are non-empty and free of blanks. *)
Lemma split_acc_words w s :
  blank_free w = true →
  Forall (λ x, x ≠ "" ∧ blank_free x = true) (split_acc w s).
Proof.
  revert w. induction s as [|c s IH]; intros w Hw; cbn.
  - destruct (Py.is_empty w) eqn:He; [constructor|].
    constructor; [|constructor]. split; [|done]. by apply is_empty_false.
  - destruct (Py.is_space c) eqn:Hc.
    + destruct (Py.is_empty w) eqn:He; [by apply IH|].
      constructor; [|by apply IH]. split; [|done]. by apply is_empty_false.
    + apply IH. rewrite blank_free_app, Hw. cbn. by rewrite Hc.
Qed.

(** Reading a word that holds no blank extends the current run. *)
Lemma split_acc_word acc w rest :
  blank_free w = true →
  split_acc acc (w +:+ rest) = split_acc (acc +:+ w) rest.
Proof.
  revert acc. induction w as [|c w IH]; intros acc Hw.
  - by rewrite app_empty_r.
  - cbn in Hw. apply andb_true_iff in Hw as [Hc Hw].
    apply negb_true_iff in Hc. rewrite app_cons. cbn [split_acc].
    rewrite Hc, IH by done.
    by rewrite app_assoc_str, app_cons, app_nil.
Qed.

(** Splitting the words joined by single blanks gives the words back. *)
Lemma split_join ws :
  Forall (λ x, x ≠ "" ∧ blank_free x = true) ws →
  split (join " " ws) = ws.
Proof.
  unfold split. induction 1 as [|w ws [Hne Hw] Hws IH]; [done|].
  destruct ws as [|w' ws].
  - cbn [join]. rewrite <-(app_empty_r w) at 1.
    rewrite split_acc_word by done. cbn. rewrite !app_nil.
    by apply is_empty_false in Hne as ->.
  - change (join " " (w :: w' :: ws))
      with (w +:+ " " +:+ join " " (w' :: ws)).
    rewrite split_acc_word by done. rewrite app_cons, !app_nil.
    cbn [split_acc]. change (Py.is_space " ") with true. cbv iota.
    apply is_empty_false in Hne as ->. by rewrite IH.
Qed.

Lemma split_acc_lstrip s : split_acc "" (Py.lstrip s) = split_acc "" s.
Proof.
  induction s as [|c s IH]; [done|]. cbn.
  by destruct (Py.is_space c) eqn:Hc; [|cbn; rewrite Hc].
Qed.

Lemma split_acc_rstrip w s : split_acc w (Py.rstrip s) = split_acc w s.
Proof.
  revert w. induction s as [|c s IH]; intros w; [done|]. cbn.
  destruct (Py.is_space c) eqn:Hc; cbn.
  - destruct (Py.is_empty (Py.rstrip s)) eqn:He.
    + apply is_empty_true in He.
      pose proof (IH "") as Hnil. rewrite He in Hnil. cbn in Hnil.
      rewrite <-Hnil. cbn. by destruct (Py.is_empty w).
    + cbn. rewrite Hc, IH. done.
  - by rewrite Hc, IH.
Qed.

(** Blanks around a string do not change its words. *)
Lemma split_strip s : split (Py.strip s) = split s.
Proof.
  unfold split, Py.strip. by rewrite split_acc_rstrip, split_acc_lstrip.
Qed.

Lemma capitalize_word x :
  x ≠ "" ∧ blank_free x = true →
  Py.capitalize x ≠ "" ∧ blank_free (Py.capitalize x) = true.
Proof.
  intros [Hne Hx]. destruct x as [|c x]; [done|]. split; [done|].
  cbn in *. rewrite is_space_upper_char.
  apply andb_true_iff in Hx as [-> Hx]. cbn.
  clear Hne. induction x as [|d x IH]; [done|]. cbn in *.
  rewrite is_space_lower_char.
  apply andb_true_iff in Hx as [-> Hx]. cbn. by apply IH.
Qed.

(** The words of a string of ASCII characters *)
Lemma split_acc_ascii w s :
  Py.is_ascii w = true → Py.is_ascii s = true →
  Forall (λ x, Py.is_ascii x = true) (split_acc w s).
Proof.
  revert w. induction s as [|c s IH]; intros w Hw Hs.
  - cbn. destruct (Py.is_empty w); by repeat constructor.
  - cbn in Hs. apply andb_true_iff in Hs as [Hc Hs]. cbn.
    destruct (Py.is_space c).
    + destruct (Py.is_empty w); [by apply IH|].
      constructor; [done|by apply IH].
    + apply IH; [|done]. rewrite is_ascii_app, Hw. cbn. by rewrite Hc.
Qed.

Lemma join_ascii sep ws :
  Py.is_ascii sep = true → Forall (λ x, Py.is_ascii x = true) ws →
  Py.is_ascii (join sep ws) = true.
Proof.
  intros Hsep. induction 1 as [|w ws Hw Hws IH]; [done|].
  destruct ws as [|w' ws]; [done|].
  change (join sep (w :: w' :: ws))
    with (w +:+ sep +:+ join sep (w' :: ws)).
  by rewrite !is_ascii_app, Hw, Hsep, IH.
Qed.

End words.

Lemma normalize_tag_name_ascii (name : string) :
  Py.is_ascii name = true → Py.is_ascii (normalize_tag_name name) = true.
Proof.
  intros Hname. unfold normalize_tag_name. apply join_ascii; [done|].
  apply Forall_fmap.
  eapply Forall_impl;
    [apply (split_acc_ascii "" _ eq_refl);
     by apply is_ascii_lower, is_ascii_strip|].
  intros x Hx. by apply is_ascii_capitalize.
Qed.

(** X8.  On a name of ASCII characters, where the case mapping and the
    blanks of the embedding are Python's, [normalize_tag_name] answers a
    name of ASCII characters, keeps a name it has produced, and reads
    its argument up to letter case: two spellings of a tag that differ
    in case, or in the blanks around and between the words, are stored
    under one name. *)
Theorem normalize_tag_name_idempotent (name : string) :
  Py.is_ascii name = true →
  Py.is_ascii (normalize_tag_name name) = true
  ∧ normalize_tag_name (normalize_tag_name name) = normalize_tag_name name
  ∧ normalize_tag_name (Py.upper name) = normalize_tag_name name
  ∧ Str.split (normalize_tag_name name)
    = Py.capitalize <$> Str.split (Py.lower name)
  ∧ normalize_tag_name "  machine   LEARNING " = "Machine Learning".
Proof.
  intros Hname.
  assert (Forall (λ x, x ≠ "" ∧ Str.blank_free x = true)
                 (Py.capitalize <$> Str.split (Py.lower (Py.strip name))))
    as Hwords.
  { apply Forall_fmap. eapply Forall_impl; [by apply split_acc_words|].
    intros x Hx. by apply capitalize_word. }
  split_and!; [by apply normalize_tag_name_ascii| | | |by vm_compute].
  - unfold normalize_tag_name at 1.
    rewrite <-strip_lower, split_strip, split_lower.
    unfold normalize_tag_name at 1. rewrite split_join by done.
    rewrite <-!list_fmap_compose. unfold normalize_tag_name. f_equal.
    apply list_fmap_ext. intros _ x _. cbn.
    by rewrite capitalize_lower, capitalize_idem.
  - unfold normalize_tag_name. by rewrite strip_upper, lower_upper.
  - unfold normalize_tag_name. rewrite split_join by done.
    by rewrite <-strip_lower, split_strip.
Qed.

Lemma normalize_tag_name_idempotent_witness :
  normalize_tag_name (normalize_tag_name " data  SCIENCE")
  = normalize_tag_name " data  SCIENCE".
Proof.
  refine (proj1 (proj2 (normalize_tag_name_idempotent " data  SCIENCE" _))).
  reflexivity.
Defined.

(** ** Node ids: rendering and parsing *)

Lemma substring_full (s : string) : String.substring 0 (String.length s) s = s.
Proof. induction s as [|c s IH]; [done|]. cbn. by rewrite IH. Qed.

Lemma digit_no_blank c : Py.is_digit c = true → Py.is_space c = false.
Proof. by destruct c as [[] [] [] [] [] [] [] []]. Qed.

Lemma all_digits_blank_free ds :
  Py.all_digits ds = true → Str.blank_free ds = true.
Proof.
  induction ds as [|c ds IH]; [done|]. cbn.
  intros [Hc Hd]%andb_true_iff. by rewrite (digit_no_blank c), IH.
Qed.

Lemma rstrip_blank_free s : Str.blank_free s = true → Py.rstrip s = s.
Proof.
  induction s as [|c s IH]; [done|]. cbn.
  intros [Hc Hs]%andb_true_iff. apply negb_true_iff in Hc.
  by rewrite Hc, IH.
Qed.

(** A string without blanks is its own trimming. *)
Lemma strip_blank_free s : Str.blank_free s = true → Py.strip s = s.
Proof.
  intros Hs. unfold Py.strip.
  assert (Py.lstrip s = s) as ->; [|by apply rstrip_blank_free].
  destruct s as [|c s]; [done|]. cbn in *.
  apply andb_true_iff in Hs as [Hc _]. apply negb_true_iff in Hc.
  by rewrite Hc.
Qed.

Lemma blank_free_pretty (i : Z) : Str.blank_free (pretty i) = true.
Proof.
  destruct i as [|p|p]; [done|..];
    destruct (pretty_N_digits (N.pos p)) as (_ & Hd & _).
  - change (pretty (Z.pos p)) with (pretty (N.pos p)).
    by apply all_digits_blank_free.
  - change (pretty (Z.neg p)) with (String "-" (pretty (N.pos p))).
    cbn. by apply all_digits_blank_free.
Qed.

Lemma blank_free_nid k i : known_kind k → Str.blank_free (_nid k i) = true.
Proof.
  intros Hk. unfold _nid. rewrite !blank_free_app, blank_free_pretty.
  by known_cases Hk.
Qed.

(** An alternative whose letters differ from the head of the subject is
    passed over. *)
Lemma re_skip k alts s :
  Py.lower (Py.slice 0 (String.length k) s) ≠ k →
  re_alternatives (k :: alts) s = re_alternatives alts s.
Proof.
  intros Hne. cbn [re_alternatives]. cbv zeta.
  by rewrite (bool_decide_eq_false_2 _ Hne).
Qed.

(** The three slices of a subject made of a head, an underscore and a
    tail. *)
Lemma slices_of_id (k ds : string) :
  let s := k +:+ "_" +:+ ds in
  let n := String.length k in
  Py.slice 0 n s = k ∧ Py.slice n (S n) s = "_"
  ∧ Py.slice (S n) (String.length s) s = ds.
Proof.
  cbv zeta. unfold Py.slice. induction k as [|c k (IH1 & IH2 & IH3)].
  - rewrite !app_nil, app_cons, app_nil. cbn.
    replace (String.length ds - 0)%nat with (String.length ds) by lia.
    rewrite substring_full. by destruct ds.
  - rewrite app_cons. cbn [String.length Nat.sub String.substring].
    replace (String.length k - 0)%nat with (String.length k) in IH1 by lia.
    rewrite IH1.
    replace (S (String.length k) - String.length k)%nat with 1%nat in IH2 by lia.
    replace (S (String.length k) - String.length k)%nat with 1%nat by lia.
    by rewrite IH2, IH3.
Qed.

(** The alternative that spells the head of the subject decides on the
    tail. *)
Lemma re_hit k alts ds :
  Py.lower k = k →
  re_alternatives (k :: alts) (k +:+ "_" +:+ ds)
  = if negb (Py.is_empty ds) && Py.all_digits ds then Some (k, ds)
    else re_alternatives alts (k +:+ "_" +:+ ds).
Proof.
  intros Hk. cbn [re_alternatives]. cbv zeta.
  destruct (slices_of_id k ds) as (-> & -> & ->).
  by rewrite Hk, !bool_decide_eq_true_2.
Qed.

Local Ltac skip_alt :=
  rewrite re_skip
    by (rewrite ?app_cons, ?app_nil; unfold Py.slice; cbn; discriminate).

(** The pattern on a kind, an underscore and any tail: the match is the
    kind and the tail, when the tail is one or more digits. *)
Lemma node_re_canonical k ds :
  known_kind k →
  _NODE_RE_match (k +:+ "_" +:+ ds)
  = if negb (Py.is_empty ds) && Py.all_digits ds then Some (k, ds) else None.
Proof.
  intros Hk. unfold _NODE_RE_match, _NODE_RE_kinds.
  known_cases Hk; repeat skip_alt; rewrite re_hit by done;
    (destruct (negb (Py.is_empty ds) && Py.all_digits ds); [done|]);
    by repeat skip_alt.
Qed.

(** Parsing a rendered id *)
Lemma parse_node_id_of_nid (k : string) (i : Z) :
  known_kind k →
  _parse_node_id (_nid k i)
  = if decide (0 ≤ i) then inr (k, i) else inl ValueError.
Proof.
  intros Hk. unfold _parse_node_id.
  rewrite strip_blank_free by (by apply blank_free_nid).
  unfold _nid. rewrite node_re_canonical by done.
  destruct i as [|p|p].
  - by known_cases Hk.
  - change (pretty (Z.pos p)) with (pretty (N.pos p)).
    destruct (pretty_N_digits (N.pos p)) as (Hne & Hd & Hv).
    apply is_empty_false in Hne. rewrite Hne, Hd. cbn [negb andb].
    change (pretty (N.pos p)) with (pretty (Z.pos p)).
    rewrite int_pretty. by known_cases Hk.
  - change (pretty (Z.neg p)) with (String "-" (pretty (N.pos p))).
    done.
Qed.

(** X9.  Parsing the id that [_nid] renders for an entity of a known kind
    gives the kind and the number back, when the number is not negative.
    The id of a negative number, such as [task_-3], fails the id grammar:
    it raises [ValueError]. *)
Theorem parse_node_id_nid (k : string) (i : Z) :
  known_kind k →
  _parse_node_id (_nid k i)
  = if decide (0 ≤ i) then inr (k, i) else inl ValueError.
Proof. exact (parse_node_id_of_nid k i). Qed.

Lemma parse_node_id_nid_witness :
  _parse_node_id (_nid "group" 12) = inr ("group", 12).
Proof.
  apply (parse_node_id_nid "group" 12).
  apply known_kind_cases. auto.
Defined.

(** The number a token parses to is not negative. *)
Lemma parse_node_id_nonneg token kind i :
  _parse_node_id token = inr (kind, i) → 0 ≤ i.
Proof.
  unfold _parse_node_id, _NODE_RE_match.
  generalize (Py.strip token) as s. intros s.
  assert (∀ alts g1 g2, re_alternatives alts s = Some (g1, g2) →
                        g2 ≠ "" ∧ Py.all_digits g2 = true) as Hd.
  { induction alts as [|a alts IH]; [done|]. intros g1 g2. cbn.
    destruct (_ && _ && _ && _) eqn:Hm; [|apply IH].
    intros [= <- <-].
    apply andb_true_iff in Hm as [Hm Hall].
    apply andb_true_iff in Hm as [_ Hne].
    apply negb_true_iff, is_empty_false in Hne. done. }
  destruct (re_alternatives _NODE_RE_kinds s) as [[g1 g2]|] eqn:Hm; [|done].
  apply Hd in Hm as [Hne Hall]. rewrite int_digits by done.
  intros [= _ <-]. clear Hne.
  assert (∀ acc, 0 ≤ acc → 0 ≤ Py.digits_acc acc g2) as Hacc; [|by apply Hacc].
  induction g2 as [|c g2 IH]; [done|]. intros acc Hacc. cbn.
  cbn in Hall. apply andb_true_iff in Hall as [_ Hall].
  apply IH; [done|]. unfold Py.digit_val. lia.
Qed.

Lemma digit_ascii c : Py.is_digit c = true → (Py.code c <? 128)%N = true.
Proof. by destruct c as [[] [] [] [] [] [] [] []]. Qed.

Lemma all_digits_ascii ds : Py.all_digits ds = true → Py.is_ascii ds = true.
Proof.
  induction ds as [|c ds IH]; [done|]. cbn.
  intros [Hc Hd]%andb_true_iff. by rewrite (digit_ascii c), IH.
Qed.

Lemma is_ascii_pretty (i : Z) : Py.is_ascii (pretty i) = true.
Proof.
  destruct i as [|p|p]; [done|..];
    destruct (pretty_N_digits (N.pos p)) as (_ & Hd & _).
  - change (pretty (Z.pos p)) with (pretty (N.pos p)).
    by apply all_digits_ascii.
  - change (pretty (Z.neg p)) with (String "-" (pretty (N.pos p))).
    cbn. by apply all_digits_ascii.
Qed.

(** The id of an entity of a known kind is a string of ASCII characters. *)
Lemma is_ascii_nid k i : known_kind k → Py.is_ascii (_nid k i) = true.
Proof.
  intros Hk. unfold _nid. rewrite !is_ascii_app, is_ascii_pretty.
  by known_cases Hk.
Qed.

Lemma canonical_center_ascii token :
  Py.is_ascii token = true → Py.is_ascii (canonical_center token) = true.
Proof.
  intros Ht. unfold canonical_center.
  destruct (_parse_node_id token) as [e|[kind i]] eqn:Hp; [done|].
  apply is_ascii_nid. by eapply parse_node_id_known.
Qed.

(** X10.  On center tokens of ASCII characters, on which the id grammar
    of the embedding is the one of [_NODE_RE], a token is
    interchangeable with its canonical spelling, itself a string of
    ASCII characters: a token parses to the same kind and number when it
    is spelled the way [_nid] renders that pair, so that [People_007]
    and [person_7] name one center, and the traversal answers the same
    for a list of centers and for their canonical spellings. *)
Theorem canonical_center_same db centers degrees max_nodes max_edges include_collab token :
  Py.is_ascii token = true →
  Forall (λ c, Py.is_ascii c = true) centers →
  Py.is_ascii (canonical_center token) = true
  ∧ Forall (λ c, Py.is_ascii c = true) (canonical_center <$> centers)
  ∧ _parse_node_id (canonical_center token) = _parse_node_id token
  ∧ canonical_center (canonical_center token) = canonical_center token
  ∧ Subgraph.get_entity_subgraph db (canonical_center <$> centers) degrees
      max_nodes max_edges include_collab
    = Subgraph.get_entity_subgraph db centers degrees max_nodes max_edges
        include_collab
  ∧ canonical_center " People_007 " = "person_7".
Proof.
  intros Htoken Hcenters.
  assert (∀ token, _parse_node_id (canonical_center token)
                   = _parse_node_id token) as Hcanon.
  { intros t. unfold canonical_center.
    destruct (_parse_node_id t) as [e|[kind i]] eqn:Hp; [done|].
    rewrite parse_node_id_of_nid by (by eapply parse_node_id_known).
    by rewrite decide_True by (by eapply parse_node_id_nonneg). }
  split_and!; [by apply canonical_center_ascii| |done| | |by vm_compute].
  - apply Forall_fmap. eapply Forall_impl; [exact Hcenters|].
    intros c Hc. by apply canonical_center_ascii.
  - unfold canonical_center at 1. rewrite Hcanon. unfold canonical_center.
    by destruct (_parse_node_id token) as [e|[kind i]].
  - unfold Subgraph.get_entity_subgraph, Subgraph.traverse.
    assert (Subgraph.seed (canonical_center <$> centers)
            = Subgraph.seed centers) as ->; [|done].
    unfold Subgraph.seed. generalize Subgraph.empty_frontier as f.
    clear Hcenters.
    induction centers as [|t centers IH]; intros f; [done|].
    cbn [fmap list_fmap foldl]. by rewrite Hcanon, IH.
Qed.

Lemma canonical_center_same_witness :
  Subgraph.get_entity_subgraph Samples.team
    (canonical_center <$> [" Tasks_01 "; "bogus"]) 1 2000 4000 true
  = Subgraph.get_entity_subgraph Samples.team
      [" Tasks_01 "; "bogus"] 1 2000 4000 true.
Proof.
  refine (proj1 (proj2 (proj2 (proj2 (proj2
            (canonical_center_same Samples.team [" Tasks_01 "; "bogus"]
               1 2000 4000 true "task_1" _ _)))))).
  - reflexivity.
  - by repeat constructor.
Defined.

(** ** Entity references of the e-mail composer *)

(** The string branch of [_parse_entity] *)
Lemma parse_entity_str (s : string) :
  AiClient._parse_entity (AiClient.EStr s) = _parse_node_id s.
Proof.
  unfold AiClient._parse_entity, _parse_node_id, AiClient.ID_RE_match,
    _NODE_RE_match.
  change AiClient.ID_RE_kinds with _NODE_RE_kinds.
  pose proof (re_alternatives_kind _NODE_RE_kinds (Py.strip s)) as Hk.
  destruct (re_alternatives _NODE_RE_kinds (Py.strip s)) as [[g1 g2]|];
    [|done].
  specialize (Hk g1 g2 eq_refl). cbv zeta.
  assert (default (Py.rstrip_char "s" (Py.lower g1))
            (({[ "people" := "person" ]} : gmap string string)
               !! Py.rstrip_char "s" (Py.lower g1))
          = default (Py.rstrip_char "s" (Py.lower g1))
              (singular !! Py.lower g1)) as ->; [|done].
  revert Hk. generalize (Py.lower g1) as k. intros k.
  unfold _NODE_RE_kinds. rewrite !elem_of_cons, elem_of_nil.
  by intros [->|[->|[->|[->|[->|[->|[->|[->|[]]]]]]]]]; vm_compute.
Qed.

(** X11.  On a string of ASCII characters, on which the id grammar of
    the embedding is the one of [ID_RE] and [_NODE_RE], [_parse_entity]
    of the e-mail composer and [_parse_node_id] of the traversal agree:
    they accept the same references and answer the same kind and
    number. *)
Theorem parse_entity_agrees (s : string) :
  Py.is_ascii s = true →
  AiClient._parse_entity (AiClient.EStr s) = _parse_node_id s.
Proof. intros _. exact (parse_entity_str s). Qed.

Lemma parse_entity_agrees_witness :
  AiClient._parse_entity (AiClient.EStr " Tasks_012 ")
  = _parse_node_id " Tasks_012 ".
Proof. apply (parse_entity_agrees " Tasks_012 "). reflexivity. Defined.

Lemma parse_entity_known e k i :
  AiClient._parse_entity e = inr (k, i) → known_kind k.
Proof.
  destruct e as [s|ty j|]; [| |done].
  - rewrite parse_entity_str. apply parse_node_id_known.
  - unfold AiClient._parse_entity. cbv zeta.
    case_bool_decide as Hk; [|done]. intros [= <- _].
    revert Hk. generalize (if bool_decide
                                (Py.lower (Py.strip (str_or ty ""))
                                 ∈ ["projects"; "tasks"; "groups"; "people"])
                           then Py.rstrip_char "s" (Py.lower (Py.strip (str_or ty "")))
                           else Py.lower (Py.strip (str_or ty ""))) as k'.
    intros k'. rewrite known_kind_cases, !elem_of_cons, elem_of_nil. tauto.
Qed.

(** X12.  For an entity reference of ASCII characters that
    [_parse_entity] accepts, the kind is one of the four node kinds and
    the center [compose_email_from_graph] hands to the traversal, a
    string of ASCII characters, parses back to the same kind and number
    when the number is not negative; a string reference never gives a
    negative number, a dict reference may, and its center then fails the
    id grammar.  In a dict the plural [people] is rejected, though the
    string [people_7] is accepted. *)
Theorem parse_entity_center (e : AiClient.Entity) (k : string) (i : Z) :
  AiClient.entity_ascii e = true →
  AiClient._parse_entity e = inr (k, i) →
  known_kind k
  ∧ Forall (λ c, Py.is_ascii c = true) (AiClient.center_of k i)
  ∧ Forall (λ c, _parse_node_id c
                 = if decide (0 ≤ i) then inr (k, i) else inl ValueError)
           (AiClient.center_of k i)
  ∧ (∀ s, e = AiClient.EStr s → 0 ≤ i)
  ∧ AiClient._parse_entity (AiClient.EDict (Some "people") 7) = inl ValueError
  ∧ AiClient._parse_entity (AiClient.EStr "people_7") = inr ("person", 7)
  ∧ AiClient._parse_entity (AiClient.EDict (Some " Tasks ") 5) = inr ("task", 5)
  ∧ AiClient._parse_entity (AiClient.EDict (Some "task") (-5)) = inr ("task", -5).
Proof.
  intros _ Hp. pose proof (parse_entity_known _ _ _ Hp) as Hk.
  split_and!; [done| | | |by vm_compute..].
  - unfold AiClient.center_of. repeat constructor.
    by apply (is_ascii_nid k i).
  - unfold AiClient.center_of. repeat constructor.
    by apply (parse_node_id_of_nid k i).
  - intros s ->. rewrite parse_entity_str in Hp.
    by eapply parse_node_id_nonneg.
Qed.

Lemma parse_entity_center_witness :
  Forall (λ c, _parse_node_id c = inr ("project", 12))
         (AiClient.center_of "project" 12).
Proof.
  refine (proj1 (proj2 (proj2
            (parse_entity_center (AiClient.EStr " Projects_012") "project" 12
               _ _)))).
  - reflexivity.
  - by vm_compute.
Defined.

(** ** The full graph, exactly *)

(** The entries of an updated dictionary: an old entry, or the entry of
    the key, made from the old value or from the default. *)
Lemma dd_update_elem `{EqDecision K} {V} (dflt : V) (k : K) (f : V → V)
    (d : list (K * V)) k' v' :
  (k', v') ∈ dd_update dflt k f d →
  (k', v') ∈ d
  ∨ (k' = k ∧ ((∃ v, (k, v) ∈ d ∧ v' = f v) ∨ v' = f dflt)).
Proof.
  induction d as [|[k0 v0] d IH]; cbn.
  - intros [= -> ->]%list_elem_of_singleton. right. split; [done|by right].
  - case_bool_decide as Hk.
    + subst k0. intros [[= -> ->]|Hin]%elem_of_cons.
      * right. split; [done|]. left. exists v0. split; [by left|done].
      * left. by right.
    + intros [[= -> ->]|Hin]%elem_of_cons; [left; by left|].
      destruct (IH Hin) as [?|(-> & [(v & Hv & ->)| ->])].
      * left. by right.
      * right. split; [done|]. left. exists v. split; [by right|done].
      * right. split; [done|by right].
Qed.

Module NetworkSound.
Import Network NetworkFacts NetworkEmits NetworkGraph NetworkCollab.

Section sound.
Variable db : DB.

Lemma net_add_node_sound st kind row :
  edges_sound db st → edges_sound db (add_node st kind row).
Proof.
  intros Hst e He.
  destruct (net_add_node_edges st kind row) as [Heq _].
  rewrite Heq in He. by apply Hst.
Qed.

Lemma net_add_edge_sound st src dst etype :
  network_edge db src dst etype →
  edges_sound db st → edges_sound db (add_edge st src dst etype).
Proof.
  intros Hnew Hst e [He| ->]%net_add_edge_edges; [by apply Hst|done].
Qed.

Lemma emit_nodes_sound st :
  edges_sound db st → edges_sound db (emit_nodes db st).
Proof.
  intros Hst. unfold emit_nodes.
  repeat (apply (foldl_keeps (edges_sound db));
          [|intros; by apply net_add_node_sound]).
  done.
Qed.

Lemma emit_relations_sound st :
  edges_sound db st → edges_sound db (emit_relations db st).
Proof.
  intros Hst. unfold emit_relations.
  apply (foldl_keeps (edges_sound db)); [done|].
  intros st' r Hr Hst'.
  destruct (in_ (r_from_person_id r) _ && in_ (r_to_person_id r) _)
    eqn:Hg; [|done].
  apply andb_true_iff in Hg as [Hf Ht]. apply in_true in Hf, Ht.
  apply net_add_edge_sound; [|done].
  apply edge_of_row. by apply valid_relation.
Qed.

Lemma emit_leads_sound st :
  edges_sound db st → edges_sound db (emit_leads db st).
Proof.
  intros Hst. unfold emit_leads.
  apply (foldl_keeps (edges_sound db)); [done|].
  intros st' pl Hpl Hst'.
  destruct (in_ (pl_person_id pl) _ && in_ (pl_project_id pl) _)
    eqn:Hg; [|done].
  apply andb_true_iff in Hg as [Hf Ht]. apply in_true in Hf, Ht.
  apply net_add_edge_sound; [|done].
  apply edge_of_row. by apply valid_lead.
Qed.

Lemma emit_tasks_sound st :
  edges_sound db st → edges_sound db (emit_tasks db st).
Proof.
  intros Hst. unfold emit_tasks.
  apply (foldl_keeps (edges_sound db)); [done|].
  intros st' t Ht Hst'. unfold emit_assignees.
  apply (foldl_keeps (edges_sound db)).
  - unfold emit_part_of.
    destruct (truthy (t_project_id t)) as [p|] eqn:Hp; [|done].
    destruct (in_ p _) eqn:Hin; [|done]. apply in_true in Hin.
    apply net_add_edge_sound; [|done].
    apply edge_of_row. by eapply valid_part_of.
  - intros st'' ta Hta Hst''.
    destruct (in_ (ta_person_id ta) _) eqn:Hin; [|done].
    apply in_true in Hin.
    apply net_add_edge_sound; [|done].
    apply edge_of_row. by apply valid_assignee.
Qed.

Lemma emit_memberships_sound st :
  edges_sound db st → edges_sound db (emit_memberships db st).
Proof.
  intros Hst. unfold emit_memberships.
  apply (foldl_keeps (edges_sound db)); [done|].
  intros st' [pid gid] Hrow Hst'.
  destruct (in_ pid _ && in_ gid _) eqn:Hg; [|done].
  apply andb_true_iff in Hg as [Hf Ht]. apply in_true in Hf, Ht.
  apply net_add_edge_sound; [|done].
  apply edge_of_row. by apply valid_membership.
Qed.

Lemma emit_project_groups_sound st :
  edges_sound db st → edges_sound db (emit_project_groups db st).
Proof.
  intros Hst. unfold emit_project_groups.
  apply (foldl_keeps (edges_sound db)); [done|].
  intros st' [prid gid] Hrow Hst'.
  destruct (in_ prid _ && in_ gid _) eqn:Hg; [|done].
  apply andb_true_iff in Hg as [Hf Ht]. apply in_true in Hf, Ht.
  apply net_add_edge_sound; [|done].
  apply edge_of_row. by apply valid_project_group.
Qed.

(** The derived edges join distinct persons listed under one key. *)
Lemma net_collab_sound etype st (groups : list (Z * list Z)) :
  (∀ k l a b, (k, l) ∈ groups → a ∈ l → b ∈ l → a ≠ b →
              network_edge db (_nid "person" a) (_nid "person" b) etype) →
  edges_sound db st → edges_sound db (collab etype st groups).
Proof.
  intros Hjust Hst. unfold collab.
  apply (foldl_keeps (edges_sound db)); [done|].
  intros st' [k l] Hkl Hst'. unfold collab_pairs.
  apply (foldl_keeps (edges_sound db)); [done|].
  intros st'' [a b] Hab Hst''.
  apply pairs_distinct in Hab as (Hne & Ha & Hb);
    [|apply sorted_ints_NoDup].
  apply sorted_ints_elem, elem_of_list_to_set in Ha, Hb.
  apply net_add_edge_sound; [by eapply Hjust|].
  apply net_add_edge_sound; [by eapply Hjust|done].
Qed.

Lemma task_to_people_assigned : assigned_entries db (task_to_people db).
Proof.
  unfold task_to_people.
  apply (foldl_keeps (assigned_entries db)).
  { intros k l a Hin. by apply elem_of_nil in Hin. }
  intros d t Ht Hd.
  apply (foldl_keeps (assigned_entries db)); [done|].
  intros d' ta Hta Hd'.
  destruct (in_ (ta_person_id ta) _) eqn:Hin; [|done].
  apply in_true in Hin.
  intros k l a [Hold|(-> & Hnew)]%dd_update_elem Ha;
    [by eapply Hd'|].
  assert (a ∈ [ta_person_id ta]
          ∨ ∃ l0, (t_id t, l0) ∈ d' ∧ a ∈ l0) as [Hhere|(l0 & Hl0 & Ha0)].
  { destruct Hnew as [(l0 & Hl0 & ->)| ->].
    - apply elem_of_app in Ha as [?|?]; [right; by exists l0|by left].
    - by left. }
  - apply list_elem_of_singleton in Hhere as ->. by exists t, ta.
  - by eapply Hd'.
Qed.

Lemma proj_to_leads_leading : leading_entries db (proj_to_leads db).
Proof.
  unfold proj_to_leads.
  apply (foldl_keeps (leading_entries db)).
  { intros k l a Hin. by apply elem_of_nil in Hin. }
  intros d pl Hpl Hd.
  destruct (in_ (pl_person_id pl) _ && in_ (pl_project_id pl) _)
    eqn:Hg; [|done].
  apply andb_true_iff in Hg as [Hf Ht]. apply in_true in Hf, Ht.
  intros k l a [Hold|(-> & Hnew)]%dd_update_elem Ha;
    [by eapply Hd|].
  assert (a ∈ [pl_person_id pl]
          ∨ ∃ l0, (pl_project_id pl, l0) ∈ d ∧ a ∈ l0)
    as [Hhere|(l0 & Hl0 & Ha0)].
  { destruct Hnew as [(l0 & Hl0 & ->)| ->].
    - apply elem_of_app in Ha as [?|?]; [right; by exists l0|by left].
    - by left. }
  - apply list_elem_of_singleton in Hhere as ->. by exists pl.
  - by eapply Hd.
Qed.

(** Every edge of the full graph is one the store accounts for. *)
Lemma build_sound : edges_sound db (build db).
Proof.
  unfold build.
  apply net_collab_sound.
  { intros k l a b Hkl Ha Hb Hne.
    destruct (proj_to_leads_leading k l a Hkl Ha)
      as (pla & Hpla & Hka & <- & Hpa & Hprj).
    destruct (proj_to_leads_leading k l b Hkl Hb)
      as (plb & Hplb & Hkb & <- & Hpb & _).
    apply edge_of_co_leads; try done; congruence. }
  apply net_collab_sound.
  { intros k l a b Hkl Ha Hb Hne.
    destruct (task_to_people_assigned k l a Hkl Ha)
      as (t & ta & Ht & Hka & Hta & <- & Hpa).
    destruct (task_to_people_assigned k l b Hkl Hb)
      as (t' & tb & Ht' & Hkb & Htb & <- & Hpb).
    apply (edge_of_co_assignees db t); try done.
    unfold task_assignees in *. rewrite list_elem_of_filter in Htb |- *.
    destruct Htb as [Hid ?]. split; [congruence|done]. }
  apply emit_project_groups_sound, emit_memberships_sound,
    emit_tasks_sound, emit_leads_sound, emit_relations_sound,
    emit_nodes_sound.
  intros e He. by apply elem_of_nil in He.
Qed.
End sound.
End NetworkSound.

(** Edges and nodes of the full graph *)
Lemma network_graph_spec db src dst etype x :
  let g := graph (Network.get_graph_network db) in
  (has_edge g src dst etype ↔ network_edge db src dst etype)
  ∧ (has_node g x ↔ ∃ kind i, x = _nid kind i ∧ has_entity db kind i)
  ∧ Forall (λ n, ∃ i, n_id n = _nid (n_type n) i
                      ∧ has_entity db (n_type n) i) (graph_nodes g).
Proof.
  intros g. subst g. unfold Network.get_graph_network.
  pose proof (NetworkFacts.build_wf db) as Hwf.
  split_and!.
  - split.
    + unfold has_edge. cbn. intros (e & Hkey & He)%list_elem_of_fmap.
      injection Hkey as -> -> ->. by apply NetworkSound.build_sound.
    + intros Hedge. apply wf_has_edge; [done|].
      destruct Hedge as [src dst etype Hrow|t ta tb|pla plb].
      * by apply NetworkGraph.build_emits.
      * by apply (NetworkCollab.build_collab_task db t ta tb).
      * by apply (NetworkCollab.build_collab_project db pla plb).
  - rewrite wf_has_node by done. split.
    + intros Hx.
      destruct (wf_node_id_shape _ x Hwf Hx) as (kind & j & Hk & ->).
      exists kind, j. split; [done|].
      apply network_node_loaded; [done|]. by apply wf_has_node.
    + intros (kind & i & -> & Hent). by apply NetworkGraph.build_present.
  - apply Forall_forall. intros n Hn. cbn in Hn.
    destruct (wf_keys _ Hwf) as (keys & Hnd & Hknown & Hseen & Hren).
    assert ((n_type n, n_id n) ∈ rendered <$> keys) as Hin.
    { rewrite <-Hren. by apply (list_elem_of_fmap_2 (λ n, (n_type n, n_id n))). }
    apply list_elem_of_fmap in Hin as ([kind i] & [= Hty Hid] & Hkey).
    cbn in Hty, Hid. exists i. rewrite Hty. split; [done|].
    apply network_node_loaded.
    { rewrite Forall_forall in Hknown. by apply (Hknown (kind, i)). }
    apply wf_has_node; [done|]. rewrite <-Hid.
    rewrite (wf_node_ids _ Hwf). apply elem_of_list_to_set.
    by apply list_elem_of_fmap_2.
Qed.


(** ** The traversal stays inside the full graph *)

(** A row found under a key of [by_id] is a row of the list, with that
    key. *)
Lemma by_id_lookup {A} (key : A → Z) (rows : list A) k r :
  by_id key rows !! k = Some r → r ∈ rows ∧ key r = k.
Proof.
  unfold by_id. revert k r.
  apply (foldl_keeps (λ m : gmap Z A,
           ∀ k r, m !! k = Some r → r ∈ rows ∧ key r = k)).
  - intros k r. by rewrite lookup_empty.
  - intros m x Hx Hm k r. rewrite lookup_insert. case_decide as Hk.
    + intros [= <-]. by split.
    + apply Hm.
Qed.

Lemma person_entity db p : p ∈ db_people db → has_entity db "person" (p_id p).
Proof. intros Hp. left. split; [done|]. by apply list_elem_of_fmap_2. Qed.

Lemma project_entity db pr :
  pr ∈ db_projects db → has_entity db "project" (pr_id pr).
Proof. intros Hp. right. left. split; [done|]. by apply list_elem_of_fmap_2. Qed.

Lemma task_entity db t : t ∈ db_tasks db → has_entity db "task" (t_id t).
Proof.
  intros Hp. do 2 right. left. split; [done|]. by apply list_elem_of_fmap_2.
Qed.

Lemma group_entity db g : g ∈ db_groups db → has_entity db "group" (g_id g).
Proof. intros Hp. do 3 right. split; [done|]. by apply list_elem_of_fmap_2. Qed.

Lemma entity_person db i : has_entity db "person" i → i ∈ Network.have_person db.
Proof.
  intros [[_ ?]|[[[=] _]|[[[=] _]|[[=] _]]]]. by apply elem_of_list_to_set.
Qed.

Lemma entity_project db i :
  has_entity db "project" i → i ∈ Network.have_project db.
Proof.
  intros [[[=] _]|[[_ ?]|[[[=] _]|[[=] _]]]]. by apply elem_of_list_to_set.
Qed.

Lemma entity_task db i :
  has_entity db "task" i → ∃ t, t ∈ db_tasks db ∧ t_id t = i.
Proof.
  intros [[[=] _]|[[[=] _]|[[_ Hin]|[[=] _]]]].
  apply list_elem_of_fmap in Hin as (t & -> & Ht). by exists t.
Qed.

Lemma entity_group db i : has_entity db "group" i → i ∈ Network.have_group db.
Proof.
  intros [[[=] _]|[[[=] _]|[[[=] _]|[_ ?]]]]. by apply elem_of_list_to_set.
Qed.

(** A recorded id of a known kind belongs to a loaded entity. *)
Lemma nodes_sound_entity db st kind i :
  nodes_sound db st → known_kind kind → _nid kind i ∈ node_ids st →
  has_entity db kind i.
Proof.
  intros Hst Hk Hin. destruct (Hst _ Hin) as (kind' & j & Heq & Hent).
  apply nid_inj in Heq as [-> ->]; [done|done|].
  by eapply has_entity_known.
Qed.

Module SubgraphSound.
Import Subgraph SubgraphFacts SubgraphHelpers SubgraphZero.

Section sound.
Variables (max_nodes max_edges : Z) (db : DB).
(** the one precondition: no project is stored under the id 0 *)
Hypothesis no_project_0 : 0 ∉ pr_id <$> db_projects db.

Lemma sub_add_node_sound st kind i label status email :
  has_entity db kind i → graph_sound db st →
  graph_sound db (add_node max_nodes st kind i label status email).
Proof.
  intros Hent [Hn He]. split.
  - intros x. unfold Subgraph.add_node.
    repeat (case_bool_decide; [apply Hn|]). cbn.
    intros [->%elem_of_singleton|?]%elem_of_union; [|by apply Hn].
    by exists kind, i.
  - intros e.
    destruct (sub_add_node_edges max_nodes st kind i label status email)
      as [-> _].
    apply He.
Qed.

Lemma sub_add_edge_sound st src dst etype :
  (src ∈ node_ids st → dst ∈ node_ids st →
   network_edge db src dst etype) →
  graph_sound db st → graph_sound db (add_edge max_edges st src dst etype).
Proof.
  intros Hnew [Hn He].
  destruct (decide (src ∈ node_ids st ∧ dst ∈ node_ids st)) as [[Hs Hd]|Hno].
  - split.
    + intros x.
      destruct (sub_add_edge_nodes max_edges st src dst etype)
        as (_ & -> & _).
      apply Hn.
    + intros e [Hin| ->]%sub_add_edge_edges; [by apply He|].
      by apply Hnew.
  - rewrite sub_add_edge_dangling; [done|].
    apply not_and_l in Hno. done.
Qed.

Local Ltac known := apply known_kind_cases; auto.

Lemma lead_sound st pl :
  pl ∈ db_project_leads db → graph_sound db st →
  graph_sound db
    (add_edge max_edges st (_nid "person" (pl_person_id pl))
              (_nid "project" (pl_project_id pl)) (raci_etype (pl_role pl))).
Proof.
  intros Hpl Hst. apply sub_add_edge_sound; [|done].
  intros Hs Hd. destruct Hst as [Hn _].
  apply edge_of_row, valid_lead; [done|..].
  - apply entity_person. eapply nodes_sound_entity; [done|known|done].
  - apply entity_project. eapply nodes_sound_entity; [done|known|done].
Qed.

Lemma assignee_sound st a :
  a ∈ db_task_assignees db → graph_sound db st →
  graph_sound db
    (add_edge max_edges st (_nid "person" (ta_person_id a))
              (_nid "task" (ta_task_id a)) (assignee_etype (ta_role a))).
Proof.
  intros Ha Hst. apply sub_add_edge_sound; [|done].
  intros Hs Hd. destruct Hst as [Hn _].
  destruct (entity_task db (ta_task_id a)) as (t & Ht & Hid).
  { eapply nodes_sound_entity; [done|known|done]. }
  rewrite <-Hid. apply edge_of_row, valid_assignee; [done|..].
  - unfold task_assignees. apply list_elem_of_filter. by split.
  - apply entity_person. eapply nodes_sound_entity; [done|known|done].
Qed.

Lemma part_of_sound st t p :
  t ∈ db_tasks db → t_project_id t = Some p → graph_sound db st →
  graph_sound db
    (add_edge max_edges st (_nid "task" (t_id t)) (_nid "project" p) "PART_OF").
Proof.
  intros Ht Hp Hst. apply sub_add_edge_sound; [|done].
  intros Hs Hd. destruct Hst as [Hn _].
  assert (has_entity db "project" p) as Hent.
  { eapply nodes_sound_entity; [done|known|done]. }
  apply edge_of_row, (valid_part_of db t p); [done| |by apply entity_project].
  rewrite Hp. cbn. case_bool_decide as H0; [|done]. subst p.
  destruct no_project_0.
  by destruct Hent as [[[=] _]|[[_ ?]|[[[=] _]|[[=] _]]]].
Qed.

Lemma relation_sound st r :
  r ∈ db_person_relations db → graph_sound db st →
  graph_sound db
    (add_edge max_edges st (_nid "person" (r_from_person_id r))
              (_nid "person" (r_to_person_id r))
              (Py.upper (str_or (r_type r) "REL"))).
Proof.
  intros Hr Hst. apply sub_add_edge_sound; [|done].
  intros Hs Hd. destruct Hst as [Hn _].
  apply edge_of_row, valid_relation; [done|..].
  - apply entity_person. eapply nodes_sound_entity; [done|known|done].
  - apply entity_person. eapply nodes_sound_entity; [done|known|done].
Qed.

Lemma membership_sound st pid gid :
  (pid, gid) ∈ db_person_group db → graph_sound db st →
  graph_sound db
    (add_edge max_edges st (_nid "person" pid) (_nid "group" gid) "MEMBER_OF").
Proof.
  intros Hr Hst. apply sub_add_edge_sound; [|done].
  intros Hs Hd. destruct Hst as [Hn _].
  apply edge_of_row, valid_membership; [done|..].
  - apply entity_person. eapply nodes_sound_entity; [done|known|done].
  - apply entity_group. eapply nodes_sound_entity; [done|known|done].
Qed.

Lemma project_group_sound st prid gid :
  (prid, gid) ∈ db_project_group db → graph_sound db st →
  graph_sound db
    (add_edge max_edges st (_nid "project" prid) (_nid "group" gid) "IN_GROUP").
Proof.
  intros Hr Hst. apply sub_add_edge_sound; [|done].
  intros Hs Hd. destruct Hst as [Hn _].
  apply edge_of_row, valid_project_group; [done|..].
  - apply entity_project. eapply nodes_sound_entity; [done|known|done].
  - apply entity_group. eapply nodes_sound_entity; [done|known|done].
Qed.

(** The four maps of the traversal hold rows of the store. *)
Lemma people_map_lookup ids k p :
  people_map db ids !! k = Some p → p ∈ db_people db ∧ p_id p = k.
Proof.
  intros [Hin ?]%by_id_lookup. split; [|done].
  by apply list_elem_of_filter in Hin as [_ ?].
Qed.

Lemma projects_map_lookup ids k pr :
  projects_map db ids !! k = Some pr → pr ∈ db_projects db ∧ pr_id pr = k.
Proof.
  intros [Hin ?]%by_id_lookup. split; [|done].
  by apply list_elem_of_filter in Hin as [_ ?].
Qed.

Lemma tasks_map_lookup ids k t :
  tasks_map db ids !! k = Some t → t ∈ db_tasks db ∧ t_id t = k.
Proof.
  intros [Hin ?]%by_id_lookup. split; [|done].
  by apply list_elem_of_filter in Hin as [_ ?].
Qed.

Lemma groups_map_lookup ids k g :
  groups_map db ids !! k = Some g → g ∈ db_groups db ∧ g_id g = k.
Proof.
  intros [Hin ?]%by_id_lookup. split; [|done].
  by apply list_elem_of_filter in Hin as [_ ?].
Qed.

Local Ltac fold_sound :=
  apply (foldl_keeps (λ h, graph_sound db (builder h)));
  [|intros ? ? ? ?].

Lemma materialize_sound frontier st :
  graph_sound db st → graph_sound db (materialize max_nodes db frontier st).
Proof.
  intros Hst. unfold materialize.
  destruct (nonempty (f_group frontier));
    [apply (foldl_keeps (graph_sound db));
     [|intros ? g [_ ?]%list_elem_of_filter ?;
       by apply sub_add_node_sound; [apply group_entity|]]|];
  (destruct (nonempty (f_person frontier));
    [apply (foldl_keeps (graph_sound db));
     [|intros ? p [_ ?]%list_elem_of_filter ?;
       by apply sub_add_node_sound; [apply person_entity|]]|]);
  (destruct (nonempty (f_task frontier));
    [apply (foldl_keeps (graph_sound db));
     [|intros ? t [_ ?]%list_elem_of_filter ?;
       by apply sub_add_node_sound; [apply task_entity|]]|]);
  (destruct (nonempty (f_project frontier));
    [apply (foldl_keeps (graph_sound db));
     [|intros ? pr [_ ?]%list_elem_of_filter ?;
       by apply sub_add_node_sound; [apply project_entity|]]|]);
  done.
Qed.

Lemma lead_people_sound pls h :
  (∀ pl, pl ∈ pls → pl ∈ db_project_leads db) →
  graph_sound db (builder h) →
  graph_sound db (builder (lead_people max_nodes max_edges db pls h)).
Proof.
  intros Hpls Hh. unfold lead_people. fold_sound; [done|].
  destruct (people_map db _ !! _) as [p|] eqn:Hp; [|done].
  apply people_map_lookup in Hp as [Hp Hid]. cbn [builder].
  rewrite Hid. apply lead_sound; [by apply Hpls|].
  rewrite <-Hid. by apply sub_add_node_sound; [apply person_entity|].
Qed.

Lemma expand_projects_sound ids h :
  graph_sound db (builder h) →
  graph_sound db (builder (expand_projects max_nodes max_edges db ids h)).
Proof.
  intros Hh. unfold expand_projects. fold_sound.
  - apply lead_people_sound.
    { intros pl [_ ?]%list_elem_of_filter. done. }
    fold_sound; [done|].
    match goal with H : _ ∈ filter _ _ |- _ =>
      apply list_elem_of_filter in H as [_ Ht] end.
    cbn [builder].
    destruct (t_project_id _) as [p|] eqn:Hp.
    + apply part_of_sound; [done..|].
      by apply sub_add_node_sound; [apply task_entity|].
    + by apply sub_add_node_sound; [apply task_entity|].
  - match goal with x : (Z * Z)%type |- _ => destruct x as [prid gid] end.
    match goal with H : _ ∈ filter _ _ |- _ =>
      apply list_elem_of_filter in H as [_ Hrow] end.
    destruct (groups_map db _ !! _) as [g|] eqn:Hg; [|done].
    apply groups_map_lookup in Hg as [Hg Hid]. cbn [builder].
    rewrite Hid. apply project_group_sound; [done|].
    rewrite <-Hid. by apply sub_add_node_sound; [apply group_entity|].
Qed.

Lemma expand_tasks_sound ids h :
  graph_sound db (builder h) →
  graph_sound db (builder (expand_tasks max_nodes max_edges db ids h)).
Proof.
  intros Hh. unfold expand_tasks.
  set (t_rows := filter (λ t, t_id t ∈ ids) (db_tasks db)).
  set (proj_for_task := foldl _ [] t_rows).
  assert (∀ tid pid, (tid, pid) ∈ proj_for_task →
            ∃ t, t ∈ db_tasks db ∧ t_id t = tid
                 ∧ truthy (t_project_id t) = Some pid) as Hentries.
  { subst proj_for_task.
    apply (foldl_keeps (λ d : list (Z * Z), ∀ tid pid, (tid, pid) ∈ d →
             ∃ t, t ∈ db_tasks db ∧ t_id t = tid
                  ∧ truthy (t_project_id t) = Some pid)).
    { intros ?? Hin. by apply elem_of_nil in Hin. }
    intros d t [_ Ht]%list_elem_of_filter Hd.
    destruct (truthy (t_project_id t)) as [p|] eqn:Hp; [|done].
    intros tid pid [?|(-> & [(v & _ & ->)| ->])]%dd_update_elem;
      [by apply Hd|by exists t..]. }
  fold_sound.
  - destruct (nonempty _); [|done].
    apply lead_people_sound.
    { intros pl [_ ?]%list_elem_of_filter. done. }
    fold_sound; [done|].
    match goal with x : (Z * Z)%type |- _ => destruct x as [tid pid] end.
    match goal with H : (tid, pid) ∈ _ |- _ =>
      apply Hentries in H as (t & Ht & <- & Hp) end.
    destruct (projects_map db _ !! _) as [pr|] eqn:Hpr; [|done].
    apply projects_map_lookup in Hpr as [Hpr Hid]. cbn [builder].
    apply sub_add_edge_sound.
    + intros _ _. rewrite Hid.
      apply edge_of_row, (valid_part_of db t pid); [done..|].
      rewrite <-Hid. apply elem_of_list_to_set.
      by apply list_elem_of_fmap_2.
    + by apply sub_add_node_sound; [apply project_entity|].
  - match goal with H : _ ∈ filter _ _ |- _ =>
      apply list_elem_of_filter in H as [_ Ha] end.
    destruct (people_map db _ !! _) as [p|] eqn:Hp; [|done].
    apply people_map_lookup in Hp as [Hp Hid]. cbn [builder].
    apply assignee_sound; [done|].
    by apply sub_add_node_sound; [apply person_entity|].
Qed.

Lemma expand_people_sound ids h :
  graph_sound db (builder h) →
  graph_sound db (builder (expand_people max_nodes max_edges db ids h)).
Proof.
  intros Hh. unfold expand_people.
  repeat fold_sound; [done|..];
    repeat match goal with
           | x : (Z * Z)%type |- _ => destruct x as [pid gid]
           | H : _ ∈ filter _ _ |- _ =>
               apply list_elem_of_filter in H as [_ Hrow]
           end.
  - (* relations that leave the frontier *)
    destruct (people_map db _ !! _) as [q|] eqn:Hq; [|done].
    apply people_map_lookup in Hq as [Hq Hid]. cbn [builder].
    apply relation_sound; [done|].
    by apply sub_add_node_sound; [apply person_entity|].
  - (* relations that enter the frontier *)
    destruct (people_map db _ !! _) as [q|] eqn:Hq; [|done].
    apply people_map_lookup in Hq as [Hq Hid]. cbn [builder].
    apply relation_sound; [done|].
    by apply sub_add_node_sound; [apply person_entity|].
  - (* memberships *)
    destruct (groups_map db _ !! _) as [g|] eqn:Hg; [|done].
    apply groups_map_lookup in Hg as [Hg Hid]. cbn [builder].
    rewrite Hid. apply membership_sound; [done|].
    rewrite <-Hid. by apply sub_add_node_sound; [apply group_entity|].
  - (* projects of these people *)
    destruct (projects_map db _ !! _) as [pr|] eqn:Hpr; [|done].
    apply projects_map_lookup in Hpr as [Hpr Hid]. cbn [builder].
    rewrite Hid. apply lead_sound; [done|].
    rewrite <-Hid. by apply sub_add_node_sound; [apply project_entity|].
  - (* tasks of these people *)
    destruct (tasks_map db _ !! _) as [t|] eqn:Ht; [|done].
    apply tasks_map_lookup in Ht as [Ht Hid]. cbn [builder].
    rewrite Hid. apply assignee_sound; [done|].
    rewrite <-Hid. by apply sub_add_node_sound; [apply task_entity|].
Qed.

Lemma expand_groups_sound ids h :
  graph_sound db (builder h) →
  graph_sound db (builder (expand_groups max_nodes max_edges db ids h)).
Proof.
  intros Hh. unfold expand_groups.
  repeat fold_sound; [done|..];
    repeat match goal with
           | x : (Z * Z)%type |- _ => destruct x as [pid gid]
           | H : _ ∈ filter _ _ |- _ =>
               apply list_elem_of_filter in H as [_ Hrow]
           end.
  - destruct (people_map db _ !! _) as [p|] eqn:Hp; [|done].
    apply people_map_lookup in Hp as [Hp Hid]. cbn [builder].
    rewrite Hid. apply membership_sound; [done|].
    rewrite <-Hid. by apply sub_add_node_sound; [apply person_entity|].
  - destruct (projects_map db _ !! _) as [pr|] eqn:Hpr; [|done].
    apply projects_map_lookup in Hpr as [Hpr Hid]. cbn [builder].
    rewrite Hid. apply project_group_sound; [done|].
    rewrite <-Hid. by apply sub_add_node_sound; [apply project_entity|].
Qed.

Lemma hop_sound frontier st :
  graph_sound db st →
  graph_sound db (builder (hop max_nodes max_edges db frontier st)).
Proof.
  intros Hst. unfold hop.
  destruct (nonempty (f_group frontier)); [apply expand_groups_sound|];
  (destruct (nonempty (f_person frontier)); [apply expand_people_sound|]);
  (destruct (nonempty (f_task frontier)); [apply expand_tasks_sound|]);
  (destruct (nonempty (f_project frontier)); [apply expand_projects_sound|]);
  done.
Qed.

Lemma hops_sound n frontier st :
  graph_sound db st →
  graph_sound db (hops max_nodes max_edges db n frontier st).
Proof.
  revert frontier st. induction n as [|n IH]; intros frontier st Hst; [done|].
  cbn [hops]. destruct (negb _); [done|]. destruct (_ || _); [done|].
  by apply IH, hop_sound.
Qed.

(** The derived edges join distinct ids grouped under one key. *)
Lemma sub_collab_sound etype st (groups : list (string * gset string)) :
  (∀ k s x y, (k, s) ∈ groups → x ∈ s → y ∈ s → x ≠ y →
              network_edge db x y etype) →
  graph_sound db st → graph_sound db (collab max_edges etype st groups).
Proof.
  intros Hjust Hst. unfold collab.
  apply (foldl_keeps (graph_sound db)); [done|].
  intros st' [k s] Hks Hst'. unfold collab_pairs.
  apply (foldl_keeps (graph_sound db)); [done|].
  intros st'' [x y] Hxy Hst''.
  apply pairs_distinct in Hxy as (Hne & Hx & Hy);
    [|apply sorted_strs_NoDup].
  apply sorted_strs_elem in Hx, Hy.
  apply sub_add_edge_sound; [intros _ _; by eapply Hjust|].
  apply sub_add_edge_sound; [intros _ _; by eapply Hjust|done].
Qed.

Lemma task_people_entries (present : gset string) k s x :
  (k, s) ∈ task_people db present → x ∈ s →
  ∃ ta, ta ∈ db_task_assignees db
        ∧ k = _nid "task" (ta_task_id ta)
        ∧ x = _nid "person" (ta_person_id ta)
        ∧ k ∈ present ∧ x ∈ present.
Proof.
  unfold task_people. revert k s x.
  apply (foldl_keeps (λ d : list (string * gset string), ∀ k s x,
           (k, s) ∈ d → x ∈ s →
           ∃ ta, ta ∈ db_task_assignees db
                 ∧ k = _nid "task" (ta_task_id ta)
                 ∧ x = _nid "person" (ta_person_id ta)
                 ∧ k ∈ present ∧ x ∈ present)).
  { intros ??? Hin. by apply elem_of_nil in Hin. }
  intros d a [_ Ha]%list_elem_of_filter Hd.
  destruct (bool_decide _ && bool_decide _) eqn:Hg; [|done].
  apply andb_true_iff in Hg as [Hp Ht].
  apply bool_decide_eq_true in Hp, Ht.
  intros k s x [Hold|(-> & Hnew)]%dd_update_elem Hx; [by eapply Hd|].
  assert (x = _nid "person" (ta_person_id a)
          ∨ ∃ s0, (_nid "task" (ta_task_id a), s0) ∈ d ∧ x ∈ s0)
    as [->|(s0 & Hs0 & Hx0)].
  { destruct Hnew as [(s0 & Hs0 & ->)| ->].
    - apply elem_of_union in Hx as [->%elem_of_singleton|?];
        [by left|right; by exists s0].
    - apply elem_of_union in Hx as [->%elem_of_singleton|Hx];
        [by left|by apply elem_of_empty in Hx]. }
  - by exists a.
  - by eapply Hd.
Qed.

Lemma proj_leads_entries (present : gset string) k s x :
  (k, s) ∈ proj_leads db present → x ∈ s →
  ∃ pl, pl ∈ db_project_leads db
        ∧ k = _nid "project" (pl_project_id pl)
        ∧ x = _nid "person" (pl_person_id pl)
        ∧ k ∈ present ∧ x ∈ present.
Proof.
  unfold proj_leads. revert k s x.
  apply (foldl_keeps (λ d : list (string * gset string), ∀ k s x,
           (k, s) ∈ d → x ∈ s →
           ∃ pl, pl ∈ db_project_leads db
                 ∧ k = _nid "project" (pl_project_id pl)
                 ∧ x = _nid "person" (pl_person_id pl)
                 ∧ k ∈ present ∧ x ∈ present)).
  { intros ??? Hin. by apply elem_of_nil in Hin. }
  intros d pl [_ Hpl]%list_elem_of_filter Hd.
  destruct (bool_decide _ && bool_decide _) eqn:Hg; [|done].
  apply andb_true_iff in Hg as [Hp Ht].
  apply bool_decide_eq_true in Hp, Ht.
  intros k s x [Hold|(-> & Hnew)]%dd_update_elem Hx; [by eapply Hd|].
  assert (x = _nid "person" (pl_person_id pl)
          ∨ ∃ s0, (_nid "project" (pl_project_id pl), s0) ∈ d ∧ x ∈ s0)
    as [->|(s0 & Hs0 & Hx0)].
  { destruct Hnew as [(s0 & Hs0 & ->)| ->].
    - apply elem_of_union in Hx as [->%elem_of_singleton|?];
        [by left|right; by exists s0].
    - apply elem_of_union in Hx as [->%elem_of_singleton|Hx];
        [by left|by apply elem_of_empty in Hx]. }
  - by exists pl.
  - by eapply Hd.
Qed.

Lemma post_pass_sound st :
  graph_sound db st → graph_sound db (post_pass max_edges db st).
Proof.
  intros Hst. pose proof Hst as [Hn _]. unfold post_pass.
  apply sub_collab_sound.
  { intros k s x y Hks Hx Hy Hne.
    destruct (proj_leads_entries _ _ _ _ Hks Hx)
      as (pla & Hpla & -> & -> & Hk & Hxp).
    destruct (proj_leads_entries _ _ _ _ Hks Hy)
      as (plb & Hplb & Hkb & -> & _ & Hyp).
    apply nid_inj in Hkb as [_ Hkb]; [|known..].
    apply edge_of_co_leads; try done.
    - apply entity_project. eapply nodes_sound_entity; [done|known|done].
    - apply entity_person. eapply nodes_sound_entity; [done|known|done].
    - apply entity_person. eapply nodes_sound_entity; [done|known|done].
    - congruence. }
  apply sub_collab_sound; [|done].
  intros k s x y Hks Hx Hy Hne.
  destruct (task_people_entries _ _ _ _ Hks Hx)
    as (ta & Hta & -> & -> & Hk & Hxp).
  destruct (task_people_entries _ _ _ _ Hks Hy)
    as (tb & Htb & Hkb & -> & _ & Hyp).
  apply nid_inj in Hkb as [_ Hkb]; [|known..].
  destruct (entity_task db (ta_task_id ta)) as (t & Ht & Hid).
  { eapply nodes_sound_entity; [done|known|done]. }
  apply (edge_of_co_assignees db t).
  - done.
  - unfold task_assignees. apply list_elem_of_filter. by split.
  - unfold task_assignees. apply list_elem_of_filter.
    split; [congruence|done].
  - apply entity_person. eapply nodes_sound_entity; [done|known|done].
  - apply entity_person. eapply nodes_sound_entity; [done|known|done].
  - congruence.
Qed.

Lemma traverse_sound centers degrees include_collab :
  graph_sound db
    (traverse max_nodes max_edges db centers degrees include_collab).
Proof.
  assert (graph_sound db init) as Hinit.
  { split; [intros x Hx|intros e He].
    - by apply elem_of_empty in Hx.
    - by apply elem_of_nil in He. }
  unfold traverse. destruct (negb _); [done|].
  destruct (_ && _).
  - by apply post_pass_sound, hops_sound, materialize_sound.
  - by apply hops_sound, materialize_sound.
Qed.
End sound.
End SubgraphSound.

(** X14.  The traversal stays inside the full graph: when no project is
    stored under the id 0, every node of the answer of
    [get_entity_subgraph] is a node of [get_graph_network] on the same
    store, and every edge of the answer, the collaboration edges
    included, is an edge of [get_graph_network]. *)
Theorem subgraph_within_network db centers degrees max_nodes max_edges include_collab :
  0 ∉ pr_id <$> db_projects db →
  let gs := graph (Subgraph.get_entity_subgraph db centers degrees
                     max_nodes max_edges include_collab) in
  let gn := graph (Network.get_graph_network db) in
  Forall (λ n, has_node gn (n_id n)) (graph_nodes gs)
  ∧ Forall (λ e, has_edge gn (e_source e) (e_target e) (e_type e))
           (graph_edges gs).
Proof.
  intros H0 gs gn. subst gs gn.
  unfold Subgraph.get_entity_subgraph. cbn [graph safe_result graph_nodes graph_edges].
  pose proof (SubgraphWf.traverse_wf max_nodes max_edges db centers degrees
                include_collab) as Hwf.
  destruct (SubgraphSound.traverse_sound max_nodes max_edges db H0 centers
              degrees include_collab) as [Hn He].
  split; apply Forall_forall.
  - intros n Hin.
    apply (network_graph_spec db "" "" "" (n_id n)).
    apply Hn. rewrite (wf_node_ids _ Hwf). apply elem_of_list_to_set.
    by apply list_elem_of_fmap_2.
  - intros e Hin.
    apply (network_graph_spec db (e_source e) (e_target e) (e_type e) "").
    by apply He.
Qed.

Lemma subgraph_within_network_witness :
  let gs := graph (Subgraph.get_entity_subgraph Samples.team ["task_1"] 2
                     2000 4000 true) in
  let gn := graph (Network.get_graph_network Samples.team) in
  Forall (λ n, has_node gn (n_id n)) (graph_nodes gs)
  ∧ Forall (λ e, has_edge gn (e_source e) (e_target e) (e_type e))
           (graph_edges gs).
Proof.
  apply (subgraph_within_network Samples.team ["task_1"] 2 2000 4000 true).
  cbn. rewrite list_elem_of_singleton. discriminate.
Defined.

(** An edge into the node of a project, of the type [PART_OF], comes
    from a task row whose project id is not 0. *)
Lemma part_of_edge_source db src p :
  network_edge db src (_nid "project" p) "PART_OF" → p ≠ 0.
Proof.
  assert (∀ k i, k ∈ ["person"; "task"; "group"] →
                 _nid k i ≠ _nid "project" p) as Hkind.
  { intros k i Hk Heq. apply nid_inj in Heq as [-> _].
    - rewrite !elem_of_cons, elem_of_nil in Hk.
      by destruct Hk as [?|[?|[?|[]]]].
    - apply known_kind_cases. rewrite !elem_of_cons, elem_of_nil in Hk. tauto.
    - apply known_kind_cases. auto. }
  assert (∀ src dst ty, network_edge db src dst ty →
            dst = _nid "project" p → ty = "PART_OF" → p ≠ 0) as Hgen;
    [|intros Hedge; by eapply Hgen].
  clear src. intros src dst ty [src' dst' ty' Hrow|t ta tb|pla plb] Hdst Hty.
  - destruct Hrow as [r|pl|t q Ht Hq|t ta|pid gid|prid gid].
    + destruct (Hkind "person" (r_to_person_id r)); [|done].
      apply list_elem_of_here.
    + unfold raci_etype in Hty. by rewrite app_cons in Hty.
    + apply nid_inj in Hdst as [_ <-]; [|apply known_kind_cases; auto..].
      intros ->. destruct (t_project_id t) as [z|]; [|done]. cbn in Hq.
      case_bool_decide; congruence.
    + destruct (Hkind "task" (t_id t)); [|done].
      apply list_elem_of_further, list_elem_of_here.
    + destruct (Hkind "group" gid); [|done].
      do 2 apply list_elem_of_further. apply list_elem_of_here.
    + destruct (Hkind "group" gid); [|done].
      do 2 apply list_elem_of_further. apply list_elem_of_here.
  - destruct (Hkind "person" (ta_person_id tb)); [|done].
    apply list_elem_of_here.
  - destruct (Hkind "person" (pl_person_id plb)); [|done].
    apply list_elem_of_here.
Qed.

(** X15.  The two graph functions read a task's project id differently.
    [get_graph_network] takes the id 0 for no project and never emits a
    [PART_OF] edge into the node [project_0]; [get_entity_subgraph]
    expands the project 0 through its tasks and does emit that edge, so
    that with a project stored under the id 0 its answer is not inside
    the full graph. *)
Theorem part_of_project_zero db src :
  ¬ has_edge (graph (Network.get_graph_network db)) src (_nid "project" 0)
      "PART_OF"
  ∧ has_node (graph (Network.get_graph_network MoreSamples.project_zero))
      "project_0"
  ∧ has_node (graph (Network.get_graph_network MoreSamples.project_zero))
      "task_1"
  ∧ edge_key <$> graph_edges
      (graph (Subgraph.get_entity_subgraph MoreSamples.project_zero
                ["project_0"] 1 2000 4000 true))
    = [("task_1", "project_0", "PART_OF")]
  ∧ graph_edges (graph (Network.get_graph_network MoreSamples.project_zero))
    = [].
Proof.
  split_and!.
  - intros Hedge.
    apply (network_graph_spec db src (_nid "project" 0) "PART_OF" "") in Hedge.
    by apply part_of_edge_source in Hedge.
  - unfold has_node. apply (bool_decide_unpack _). by vm_compute.
  - unfold has_node. apply (bool_decide_unpack _). by vm_compute.
  - by vm_compute.
  - by vm_compute.
Qed.

(** ** Writes and the graph *)

Lemma head_filter_Some {A} (P : A → Prop) `{∀ x, Decision (P x)} (l : list A) x :
  head (filter P l) = Some x → x ∈ l ∧ P x.
Proof.
  intros Hx. assert (x ∈ filter P l) as Hin.
  { destruct (filter P l) as [|y l']; [done|]. injection Hx as ->. by left. }
  apply list_elem_of_filter in Hin as [? ?]. done.
Qed.

Lemma head_filter_is_Some {A} (P : A → Prop) `{∀ x, Decision (P x)} (l : list A) :
  is_Some (head (filter P l)) ↔ ∃ x, x ∈ l ∧ P x.
Proof.
  split.
  - intros [x Hx]. exists x. exact (head_filter_Some P l x Hx).
  - intros (x & Hx & HP).
    assert (x ∈ filter P l) as Hin by (by apply list_elem_of_filter).
    destruct (filter P l); [by apply elem_of_nil in Hin|by eexists].
Qed.

Lemma get_person_is_Some db i :
  is_Some (get_person db i) ↔ i ∈ p_id <$> db_people db.
Proof.
  unfold get_person. rewrite head_filter_is_Some, list_elem_of_fmap.
  split; intros (p & ? & ?); by exists p.
Qed.

Lemma get_group_is_Some db i :
  is_Some (get_group db i) ↔ i ∈ g_id <$> db_groups db.
Proof.
  unfold get_group. rewrite head_filter_is_Some, list_elem_of_fmap.
  split; intros (g & ? & ?); by exists g.
Qed.

Lemma have_person_elem db i :
  i ∈ Network.have_person db ↔ i ∈ p_id <$> db_people db.
Proof. apply elem_of_list_to_set. Qed.

Lemma have_project_elem db i :
  i ∈ Network.have_project db ↔ i ∈ pr_id <$> db_projects db.
Proof. apply elem_of_list_to_set. Qed.

Lemma have_group_elem db i :
  i ∈ Network.have_group db ↔ i ∈ g_id <$> db_groups db.
Proof. apply elem_of_list_to_set. Qed.

Lemma task_assignees_elem db t ta :
  ta ∈ task_assignees db t
  ↔ ta_task_id ta = t_id t ∧ ta ∈ db_task_assignees db.
Proof. unfold task_assignees. by rewrite list_elem_of_filter. Qed.

Lemma fmap_within {A B} (f : A → B) (l l' : list A) x :
  l ⊆ l' → x ∈ f <$> l → x ∈ f <$> l'.
Proof.
  intros Hsub (y & -> & Hy)%list_elem_of_fmap.
  apply list_elem_of_fmap_2. by apply Hsub.
Qed.

(** A store with more rows accounts for more edges. *)
Lemma valid_row_within db db' src dst etype :
  store_within db db' → valid_row db src dst etype → valid_row db' src dst etype.
Proof.
  intros (Hp & Hpr & Ht & Hg & Hr & Hl & Ha & Hpg & Hprg) Hrow.
  assert (∀ i, i ∈ Network.have_person db → i ∈ Network.have_person db') as Hhp.
  { intros i. rewrite !have_person_elem. by apply fmap_within. }
  assert (∀ i, i ∈ Network.have_project db → i ∈ Network.have_project db')
    as Hhpr.
  { intros i. rewrite !have_project_elem. by apply fmap_within. }
  assert (∀ i, i ∈ Network.have_group db → i ∈ Network.have_group db') as Hhg.
  { intros i. rewrite !have_group_elem. by apply fmap_within. }
  destruct Hrow as [r|pl|t p ? ?|t ta ? Hta|pid gid|prid gid].
  - apply valid_relation; auto.
  - apply valid_lead; auto.
  - eapply valid_part_of; eauto.
  - apply valid_assignee; auto.
    apply task_assignees_elem in Hta as [? ?].
    apply task_assignees_elem. auto.
  - apply valid_membership; auto.
  - apply valid_project_group; auto.
Qed.

Lemma network_edge_within db db' src dst etype :
  store_within db db' →
  network_edge db src dst etype → network_edge db' src dst etype.
Proof.
  intros Hsub Hedge. pose proof Hsub as (Hp & Hpr & Ht & Hg & Hr & Hl & Ha & _).
  assert (∀ i, i ∈ Network.have_person db → i ∈ Network.have_person db') as Hhp.
  { intros i. rewrite !have_person_elem. by apply fmap_within. }
  assert (∀ i, i ∈ Network.have_project db → i ∈ Network.have_project db')
    as Hhpr.
  { intros i. rewrite !have_project_elem. by apply fmap_within. }
  destruct Hedge as [src dst etype Hrow|t ta tb ? Hta Htb|pla plb].
  - apply edge_of_row. by eapply valid_row_within.
  - apply task_assignees_elem in Hta as [? ?], Htb as [? ?].
    apply (edge_of_co_assignees db' t); auto;
      apply task_assignees_elem; auto.
  - apply edge_of_co_leads; auto.
Qed.

Lemma store_within_refl db : store_within db db.
Proof. by repeat split. Qed.

(** The edge of a relation row between two loaded persons *)
Lemma relation_edge db r :
  r ∈ db_person_relations db →
  r_from_person_id r ∈ p_id <$> db_people db →
  r_to_person_id r ∈ p_id <$> db_people db →
  has_edge (graph (Network.get_graph_network db))
           (_nid "person" (r_from_person_id r))
           (_nid "person" (r_to_person_id r))
           (Py.upper (str_or (r_type r) "REL")).
Proof.
  intros Hr Hf Ht.
  apply (network_graph_spec db _ _ _ ""), edge_of_row, valid_relation;
    [done|by apply have_person_elem..].
Qed.

Lemma allowed_rel_cases (t : string) :
  t ∈ ALLOWED_REL_TYPES
  ↔ t = "manages" ∨ t = "mentor" ∨ t = "peer" ∨ t = "co_located".
Proof.
  unfold ALLOWED_REL_TYPES. rewrite !elem_of_union, !elem_of_singleton. tauto.
Qed.

(** The three outcomes of [create_person_relation] *)
Lemma create_person_relation_outcome db from_person_id payload :
  let rtype := Py.lower (Py.strip (prc_type payload)) in
  let to_person_id := prc_to_person_id payload in
  (create_person_relation db from_person_id payload
     = inl (mkHTTPException 400)
   ↔ rtype ∉ ALLOWED_REL_TYPES ∨ from_person_id = to_person_id)
  ∧ (create_person_relation db from_person_id payload
       = inl (mkHTTPException 404)
     ↔ rtype ∈ ALLOWED_REL_TYPES ∧ from_person_id ≠ to_person_id
       ∧ (from_person_id ∉ p_id <$> db_people db
          ∨ to_person_id ∉ p_id <$> db_people db))
  ∧ ((∃ ok, create_person_relation db from_person_id payload = inr ok)
     ↔ rtype ∈ ALLOWED_REL_TYPES ∧ from_person_id ≠ to_person_id
       ∧ from_person_id ∈ p_id <$> db_people db
       ∧ to_person_id ∈ p_id <$> db_people db).
Proof.
  intros rtype to_person_id. unfold create_person_relation.
  rewrite str_or_blank. fold rtype to_person_id.
  rewrite <-!get_person_is_Some.
  set (stored := head _).
  assert (∃ ok, match stored with
                | Some existing => inr (db, existing)
                | None => inr (with_person_relations db
                                 (db_person_relations db
                                  ++ [mkPersonRelation from_person_id
                                        to_person_id (Some rtype)]),
                               mkPersonRelation from_person_id to_person_id
                                 (Some rtype))
                end = (inr ok : HTTPException + (DB * PersonRelation)))
    as [ok ->].
  { destruct stored; by eexists. }
  repeat (case_bool_decide; cbn [negb]);
    split_and!;
    (split;
     [ intros Heq;
       try (lazymatch type of Heq with
            | ex _ => destruct Heq as [? Heq]
            end; discriminate Heq);
       try discriminate Heq; tauto
     | intros Hyp; try tauto; try reflexivity; try (by eexists) ]).
Qed.

(** X16.  [create_person_relation] answers 400 exactly when the trimmed
    lower-case type is none of the four allowed ones or the two persons
    are the same, 404 exactly when the request passes those tests and one
    of the two persons is not stored, and it succeeds in every other
    case: the type is tested before the self-relation, and both before
    the store is read. *)
Theorem create_person_relation_errors db from_person_id payload :
  let rtype := Py.lower (Py.strip (prc_type payload)) in
  let to_person_id := prc_to_person_id payload in
  (create_person_relation db from_person_id payload
     = inl (mkHTTPException 400)
   ↔ rtype ∉ ALLOWED_REL_TYPES ∨ from_person_id = to_person_id)
  ∧ (create_person_relation db from_person_id payload
       = inl (mkHTTPException 404)
     ↔ rtype ∈ ALLOWED_REL_TYPES ∧ from_person_id ≠ to_person_id
       ∧ (from_person_id ∉ p_id <$> db_people db
          ∨ to_person_id ∉ p_id <$> db_people db))
  ∧ ((∃ ok, create_person_relation db from_person_id payload = inr ok)
     ↔ rtype ∈ ALLOWED_REL_TYPES ∧ from_person_id ≠ to_person_id
       ∧ from_person_id ∈ p_id <$> db_people db
       ∧ to_person_id ∈ p_id <$> db_people db).
Proof. exact (create_person_relation_outcome db from_person_id payload). Qed.

(** X17.  A relation that [create_person_relation] hands back is stored,
    joins two distinct stored persons, and carries one of the four
    allowed types; the full graph of the new store shows it as an edge
    between the two persons whose type, the upper-case relation type, is
    one of the person-to-person types of the schema.  Creating the same
    relation again changes nothing and hands the same row back. *)
Theorem create_person_relation_stored db from_person_id payload db' rel :
  create_person_relation db from_person_id payload = inr (db', rel) →
  let rtype := Py.lower (Py.strip (prc_type payload)) in
  rel ∈ db_person_relations db'
  ∧ r_from_person_id rel = from_person_id
  ∧ r_to_person_id rel = prc_to_person_id payload
  ∧ r_type rel = Some rtype ∧ rtype ∈ ALLOWED_REL_TYPES
  ∧ from_person_id ≠ prc_to_person_id payload
  ∧ store_within db db'
  ∧ has_edge (graph (Network.get_graph_network db'))
             (_nid "person" from_person_id)
             (_nid "person" (prc_to_person_id payload)) (Py.upper rtype)
  ∧ mkEdgeDef (Py.upper rtype) "person" "person" ∈ schema_edges GRAPH_SCHEMA
  ∧ create_person_relation db' from_person_id payload = inr (db', rel).
Proof.
  intros Hok rtype.
  destruct (create_person_relation_outcome db from_person_id payload)
    as (_ & _ & Hsucc).
  destruct (proj1 Hsucc) as (Ht & Hne & Hfrom & Hto); [by eexists|].
  fold rtype in Ht.
  assert (rel ∈ db_person_relations db'
          ∧ r_from_person_id rel = from_person_id
          ∧ r_to_person_id rel = prc_to_person_id payload
          ∧ r_type rel = Some rtype
          ∧ store_within db db' ∧ db_people db' = db_people db
          ∧ head (filter (λ r, r_from_person_id r = from_person_id
                               ∧ r_to_person_id r = prc_to_person_id payload
                               ∧ r_type r = Some rtype)
                         (db_person_relations db')) = Some rel)
    as (Hin & Hf & Hto' & Hty & Hsub & Hpeople & Hhead).
  { revert Hok. unfold create_person_relation.
    rewrite str_or_blank. fold rtype.
    rewrite (bool_decide_eq_true_2 _ Ht), (bool_decide_eq_false_2 _ Hne).
    rewrite !bool_decide_eq_true_2 by (by apply get_person_is_Some).
    cbn [negb].
    destruct (head _) as [existing|] eqn:Hhead.
    - intros [= <- <-].
      pose proof (head_filter_Some _ _ _ Hhead) as (? & ? & ? & ?).
      split_and!; try done; apply store_within_refl.
    - intros [= <- <-]. cbn.
      split_and!; try done.
      + apply elem_of_app. right. by left.
      + repeat split; try done. intros x Hx. apply elem_of_app. by left.
      + rewrite filter_app.
        destruct (filter _ (db_person_relations db)); [|done].
        by rewrite filter_cons_True. }
  assert (Py.upper (str_or (Some rtype) "REL") = Py.upper rtype) as Hup.
  { rewrite str_or_some; [done|]. intros Heq. rewrite Heq in Ht.
    apply allowed_rel_cases in Ht. by destruct Ht as [?|[?|[?|?]]]. }
  split_and!; try done.
  - rewrite <-Hup, <-Hty, <-Hf at 1. rewrite <-Hto'.
    apply relation_edge; [done|..]; rewrite Hpeople; congruence.
  - apply allowed_rel_cases in Ht.
    destruct Ht as [->|[->|[->| ->]]].
    + apply list_elem_of_here.
    + apply list_elem_of_further, list_elem_of_here.
    + do 2 apply list_elem_of_further. apply list_elem_of_here.
    + do 3 apply list_elem_of_further. apply list_elem_of_here.
  - unfold create_person_relation.
    rewrite str_or_blank. fold rtype.
    rewrite (bool_decide_eq_true_2 _ Ht), (bool_decide_eq_false_2 _ Hne).
    rewrite !bool_decide_eq_true_2
      by (apply get_person_is_Some; by rewrite Hpeople).
    cbn [negb]. by rewrite Hhead.
Qed.

Lemma create_person_relation_stored_witness :
  has_edge
    (graph (Network.get_graph_network
              (with_person_relations Samples.team
                 (db_person_relations Samples.team
                  ++ [mkPersonRelation 2 1 (Some "mentor")]))))
    "person_2" "person_1" "MENTOR".
Proof.
  apply (create_person_relation_stored Samples.team 2
           (mkPersonRelationCreate 1 " Mentor ") _
           (mkPersonRelation 2 1 (Some "mentor"))).
  by vm_compute.
Defined.

(** ** Group membership *)

Lemma nid_kind_neq k1 k2 i j :
  known_kind k1 → known_kind k2 → k1 ≠ k2 → _nid k1 i ≠ _nid k2 j.
Proof. intros H1 H2 Hne Heq. by apply nid_inj in Heq as [? _]. Qed.

Lemma known_person : known_kind "person".
Proof. apply known_kind_cases. auto. Qed.
Lemma known_project : known_kind "project".
Proof. apply known_kind_cases. auto. Qed.
Lemma known_task : known_kind "task".
Proof. apply known_kind_cases. auto. Qed.
Lemma known_group : known_kind "group".
Proof. apply known_kind_cases. auto 6. Qed.

Lemma filter_all {A} (P : A → Prop) `{∀ x, Decision (P x)} (l : list A) :
  Forall P l → filter P l = l.
Proof.
  induction 1 as [|x l Hx Hl IH]; [done|].
  by rewrite filter_cons_True, IH.
Qed.

(** A [MEMBER_OF] edge from a person to a group comes from a membership
    row. *)
Lemma member_of_edge_row db p g :
  network_edge db (_nid "person" p) (_nid "group" g) "MEMBER_OF" →
  (p, g) ∈ db_person_group db.
Proof.
  assert (∀ src dst ty, network_edge db src dst ty →
            src = _nid "person" p → dst = _nid "group" g →
            (p, g) ∈ db_person_group db) as Hgen;
    [|intros Hedge; by eapply Hgen].
  intros src dst ty [src' dst' ty' Hrow|t ta tb|pla plb] Hsrc Hdst.
  - destruct Hrow as [r|pl|t q Ht Hq|t ta|pid gid|prid gid].
    + by destruct (nid_kind_neq "person" "group" (r_to_person_id r) g
                     known_person known_group).
    + by destruct (nid_kind_neq "project" "group" (pl_project_id pl) g
                     known_project known_group).
    + by destruct (nid_kind_neq "project" "group" q g
                     known_project known_group).
    + by destruct (nid_kind_neq "task" "group" (t_id t) g
                     known_task known_group).
    + apply nid_inj in Hsrc as [_ ->], Hdst as [_ ->];
        auto using known_person, known_group.
    + by destruct (nid_kind_neq "project" "person" prid p
                     known_project known_person).
  - by destruct (nid_kind_neq "person" "group" (ta_person_id tb) g
                   known_person known_group).
  - by destruct (nid_kind_neq "person" "group" (pl_person_id plb) g
                   known_person known_group).
Qed.

Lemma with_person_group_same db : with_person_group db (db_person_group db) = db.
Proof. by destruct db. Qed.

(** X18.  [add_person_to_group] on a stored group and a stored person
    makes the person a member: the membership row is in the store, the
    full graph of the new store has the [MEMBER_OF] edge from the person
    to the group, no row of the old store is lost, and the group is
    handed back.  Adding the same person again changes nothing. *)
Theorem add_person_to_group_member db group_id person_id :
  group_id ∈ g_id <$> db_groups db → person_id ∈ p_id <$> db_people db →
  let db1 := (add_person_to_group db group_id person_id).1 in
  (person_id, group_id) ∈ db_person_group db1
  ∧ has_edge (graph (Network.get_graph_network db1))
             (_nid "person" person_id) (_nid "group" group_id) "MEMBER_OF"
  ∧ store_within db db1
  ∧ (add_person_to_group db1 group_id person_id).1 = db1
  ∧ (add_person_to_group db group_id person_id).2 = get_group db group_id
  ∧ is_Some (get_group db group_id).
Proof.
  intros Hg Hp db1.
  pose proof (proj2 (get_group_is_Some db group_id) Hg) as HgS.
  pose proof (proj2 (get_person_is_Some db person_id) Hp) as HpS.
  assert ((person_id, group_id) ∈ db_person_group db1
          ∧ store_within db db1 ∧ db_people db1 = db_people db
          ∧ db_groups db1 = db_groups db) as (Hin & Hsub & Hpeople & Hgroups).
  { subst db1. unfold add_person_to_group.
    rewrite !bool_decide_eq_true_2 by done. cbn [andb].
    case_bool_decide as Hmem; cbn [negb fst].
    - split_and!; try done; apply store_within_refl.
    - cbn. split_and!; try done.
      + apply elem_of_app. right. by left.
      + repeat split; try done. intros x Hx. apply elem_of_app. by left. }
  split_and!; try done.
  - apply (network_graph_spec db1 _ _ _ ""), edge_of_row, valid_membership;
      [done|..].
    + apply have_person_elem. by rewrite Hpeople.
    + apply have_group_elem. by rewrite Hgroups.
  - unfold add_person_to_group at 1.
    rewrite (bool_decide_eq_true_2 _ Hin). cbn [negb].
    by rewrite andb_false_r.
  - unfold add_person_to_group. by destruct (_ && _ && _).
Qed.

Lemma add_person_to_group_member_witness :
  has_edge
    (graph (Network.get_graph_network
              (add_person_to_group Samples.team 1 2).1))
    "person_2" "group_1" "MEMBER_OF".
Proof.
  apply (add_person_to_group_member Samples.team 1 2).
  - apply list_elem_of_here.
  - apply list_elem_of_further, list_elem_of_here.
Defined.

(** X19.  [remove_person_from_group] on a stored group and a stored
    person ends the membership: no membership row for the pair is left,
    the full graph of the new store has no [MEMBER_OF] edge from the
    person to the group, and no row is added.  Removing after adding
    gives the store back as it was, when the person was no member
    before. *)
Theorem remove_person_from_group_inverse db group_id person_id :
  group_id ∈ g_id <$> db_groups db → person_id ∈ p_id <$> db_people db →
  let db2 := (remove_person_from_group db group_id person_id).1 in
  ((person_id, group_id) ∉ db_person_group db2)
  ∧ (¬ has_edge (graph (Network.get_graph_network db2))
               (_nid "person" person_id) (_nid "group" group_id) "MEMBER_OF")
  ∧ store_within db2 db
  ∧ ((person_id, group_id) ∉ db_person_group db →
     (remove_person_from_group
        (add_person_to_group db group_id person_id).1 group_id person_id).1
     = db).
Proof.
  intros Hg Hp db2.
  pose proof (proj2 (get_group_is_Some db group_id) Hg) as HgS.
  pose proof (proj2 (get_person_is_Some db person_id) Hp) as HpS.
  assert (((person_id, group_id) ∉ db_person_group db2) ∧ store_within db2 db)
    as [Hout Hsub].
  { subst db2. unfold remove_person_from_group.
    rewrite !bool_decide_eq_true_2 by done. cbn [andb].
    case_bool_decide as Hmem; cbn [fst].
    - cbn. split.
      + intros [Hne _]%list_elem_of_filter. done.
      + repeat split; try done.
        intros x [_ Hx]%list_elem_of_filter. done.
    - split; [done|apply store_within_refl]. }
  split_and!; try done.
  - intros Hedge.
    apply (network_graph_spec db2 _ _ _ "") in Hedge.
    by apply member_of_edge_row in Hedge.
  - intros Hno. unfold add_person_to_group.
    rewrite !bool_decide_eq_true_2 by done.
    rewrite (bool_decide_eq_false_2 _ Hno). cbn [andb negb fst].
    unfold remove_person_from_group.
    assert (get_group (with_person_group db
                         (db_person_group db ++ [(person_id, group_id)]))
                      group_id = get_group db group_id) as -> by done.
    assert (get_person (with_person_group db
                          (db_person_group db ++ [(person_id, group_id)]))
                       person_id = get_person db person_id) as -> by done.
    rewrite !bool_decide_eq_true_2; [|cbn; apply elem_of_app; right; by left|done..].
    cbn [andb fst]. cbn [db_person_group with_person_group].
    rewrite filter_app, filter_all.
    + rewrite filter_cons_False by (by intros Hne; apply Hne).
      rewrite filter_nil, app_nil_r. by destruct db.
    + apply Forall_forall. by intros x Hx ->.
Qed.

Lemma remove_person_from_group_inverse_witness :
  (remove_person_from_group
     (add_person_to_group Samples.team 1 2).1 1 2).1 = Samples.team.
Proof.
  apply (remove_person_from_group_inverse Samples.team 1 2).
  - apply list_elem_of_here.
  - apply list_elem_of_further, list_elem_of_here.
  - cbn. rewrite list_elem_of_singleton. discriminate.
Defined.

(** X20.  [add_person_to_group] never stores a dangling or a duplicate
    membership: a membership row of the new store is a row of the old
    one, or it is the new pair, whose person and group are both stored;
    when no pair was stored twice before, none is afterwards; and each
    of the eight other tables is left as it was. *)
Theorem add_person_to_group_safe db group_id person_id :
  NoDup (db_person_group db) →
  let db1 := (add_person_to_group db group_id person_id).1 in
  NoDup (db_person_group db1)
  ∧ Forall (λ row, row ∈ db_person_group db
                   ∨ (row = (person_id, group_id)
                      ∧ person_id ∈ p_id <$> db_people db
                      ∧ group_id ∈ g_id <$> db_groups db))
           (db_person_group db1)
  ∧ db_people db1 = db_people db ∧ db_groups db1 = db_groups db
  ∧ db_project_leads db1 = db_project_leads db
  ∧ db_task_assignees db1 = db_task_assignees db
  ∧ db_projects db1 = db_projects db ∧ db_tasks db1 = db_tasks db
  ∧ db_person_relations db1 = db_person_relations db
  ∧ db_project_group db1 = db_project_group db.
Proof.
  intros Hnd db1. subst db1. unfold add_person_to_group.
  destruct (bool_decide (is_Some (get_group db group_id))
            && bool_decide (is_Some (get_person db person_id))
            && negb (bool_decide ((person_id, group_id) ∈ db_person_group db)))
    eqn:Hc; cbn [fst].
  - apply andb_true_iff in Hc as [Hc Hmem].
    apply andb_true_iff in Hc as [Hg Hp].
    apply bool_decide_eq_true, get_group_is_Some in Hg.
    apply bool_decide_eq_true, get_person_is_Some in Hp.
    apply negb_true_iff, bool_decide_eq_false in Hmem.
    cbn. split_and!; try done.
    + apply NoDup_app. split_and!; [done| |apply NoDup_singleton].
      intros x Hx Hx2. apply list_elem_of_singleton in Hx2. by subst x.
    + apply Forall_app. split.
      * apply Forall_forall. intros x Hx. by left.
      * apply Forall_cons. split; [by right|apply Forall_nil_2].
  - split_and!; try done. apply Forall_forall. intros x Hx. by left.
Qed.

Lemma add_person_to_group_safe_witness :
  NoDup (db_person_group (add_person_to_group Samples.team 1 2).1).
Proof.
  apply (add_person_to_group_safe Samples.team 1 2).
  cbn. apply NoDup_singleton.
Defined.

(** ** Deletions and the graph *)

Lemma nid_neq k i j : _nid k i ≠ _nid k j → i ≠ j.
Proof. intros Hne ->. done. Qed.

Lemma delete_person_within db pid : store_within (delete_person db pid) db.
Proof.
  repeat split; try done; cbn; intros x [_ Hx]%list_elem_of_filter; done.
Qed.

Lemma delete_person_have_person db pid i :
  i ∈ Network.have_person (delete_person db pid)
  ↔ i ∈ Network.have_person db ∧ i ≠ pid.
Proof.
  rewrite !have_person_elem. cbn. rewrite !list_elem_of_fmap. split.
  - intros (p & -> & [Hne Hp]%list_elem_of_filter). split; [by exists p|done].
  - intros [(p & -> & Hp) Hne]. exists p. split; [done|].
    by apply list_elem_of_filter.
Qed.

Lemma delete_person_entity db pid kind i :
  has_entity (delete_person db pid) kind i
  ↔ has_entity db kind i ∧ ¬ (kind = "person" ∧ i = pid).
Proof.
  unfold has_entity. cbn [delete_person db_people db_projects db_tasks db_groups].
  pose proof (delete_person_have_person db pid i) as Hp.
  rewrite !have_person_elem in Hp. cbn in Hp.
  split.
  - intros [[-> Hi]|[[-> Hi]|[[-> Hi]|[-> Hi]]]].
    + apply Hp in Hi as [Hi Hne]. split; [by left|]. by intros [_ ->].
    + split; [right; by left|]. by intros [? _].
    + split; [right; right; by left|]. by intros [? _].
    + split; [right; right; by right|]. by intros [? _].
  - intros [[[-> Hi]|[[-> Hi]|[[-> Hi]|[-> Hi]]]] Hne].
    + left. split; [done|]. apply Hp. split; [done|]. intros ->. by apply Hne.
    + right. by left.
    + right. right. by left.
    + right. right. by right.
Qed.

(** An edge of the old store that does not touch the person is an edge of
    the new store. *)
Lemma delete_person_keeps db pid src dst etype :
  network_edge db src dst etype →
  src ≠ _nid "person" pid → dst ≠ _nid "person" pid →
  network_edge (delete_person db pid) src dst etype.
Proof.
  set (db' := delete_person db pid).
  assert (∀ i, i ∈ Network.have_person db → i ≠ pid
               → i ∈ Network.have_person db') as Hhp.
  { intros i Hi Hne. by apply delete_person_have_person. }
  intros [src' dst' etype' Hrow|t ta tb Ht Hta Htb Ha Hb Hab|pla plb Hla Hlb Heq Hpr Ha Hb Hab]
    Hsrc Hdst.
  - apply edge_of_row.
    destruct Hrow as [r Hr Hf Hto|pl Hpl Hp Hpr|t p Ht Hp Hpr|t ta Ht Hta Hp
                     |p g Hrow Hp Hg|prid gid Hrow Hpr Hg].
    + apply nid_neq in Hsrc, Hdst. apply valid_relation; auto.
      cbn. apply list_elem_of_filter. split; [|done]. by intros [?|?].
    + apply nid_neq in Hsrc. apply valid_lead; auto.
      cbn. by apply list_elem_of_filter.
    + by eapply valid_part_of.
    + apply nid_neq in Hsrc. apply valid_assignee; auto.
      apply task_assignees_elem in Hta as [? ?].
      apply task_assignees_elem. split; [done|].
      cbn. by apply list_elem_of_filter.
    + apply nid_neq in Hsrc. apply valid_membership; auto.
      cbn. by apply list_elem_of_filter.
    + by apply valid_project_group.
  - apply nid_neq in Hsrc, Hdst.
    apply task_assignees_elem in Hta as [? ?], Htb as [? ?].
    apply (edge_of_co_assignees db' t); auto;
      apply task_assignees_elem; (split; [done|]);
      cbn; by apply list_elem_of_filter.
  - apply nid_neq in Hsrc, Hdst.
    apply edge_of_co_leads; auto; cbn; by apply list_elem_of_filter.
Qed.

(** The two ends of an accounted edge are loaded entities. *)
Lemma network_edge_ends db src dst etype :
  network_edge db src dst etype →
  (∃ kind i, src = _nid kind i ∧ has_entity db kind i)
  ∧ (∃ kind i, dst = _nid kind i ∧ has_entity db kind i).
Proof.
  assert (∀ i, i ∈ Network.have_person db → has_entity db "person" i) as Hp.
  { intros i Hi. left. split; [done|]. by apply have_person_elem. }
  assert (∀ i, i ∈ Network.have_project db → has_entity db "project" i) as Hpr.
  { intros i Hi. right. left. split; [done|]. by apply have_project_elem. }
  assert (∀ i, i ∈ Network.have_group db → has_entity db "group" i) as Hg.
  { intros i Hi. right. right. right. split; [done|]. by apply have_group_elem. }
  assert (∀ t, t ∈ db_tasks db → has_entity db "task" (t_id t)) as Ht.
  { intros t Hin. right. right. left. split; [done|].
    by apply list_elem_of_fmap_2. }
  intros [src' dst' etype' Hrow|t ta tb|pla plb].
  - destruct Hrow; split; eauto 6.
  - split; eauto 6.
  - split; eauto 6.
Qed.

(** X21.  [delete_person] takes the person out of the graph and nothing
    else: the full graph of the new store has the nodes of the old graph
    but the person's, and the edges of the old graph but those that start
    or end at the person. *)
Theorem delete_person_graph db person_id src dst etype x :
  let g := graph (Network.get_graph_network db) in
  let g' := graph (Network.get_graph_network (delete_person db person_id)) in
  (has_node g' x ↔ has_node g x ∧ x ≠ _nid "person" person_id)
  ∧ (has_edge g' src dst etype
     ↔ has_edge g src dst etype
       ∧ src ≠ _nid "person" person_id ∧ dst ≠ _nid "person" person_id).
Proof.
  cbv zeta.
  pose proof (network_graph_spec db src dst etype x) as (He & Hn & _).
  pose proof (network_graph_spec (delete_person db person_id) src dst etype x)
    as (He' & Hn' & _).
  cbv zeta in He, Hn, He', Hn'.
  rewrite Hn', Hn, He', He. clear He He' Hn Hn'.
  assert (∀ y, (∃ kind i, y = _nid kind i
                  ∧ has_entity (delete_person db person_id) kind i)
               → y ≠ _nid "person" person_id) as Hgone.
  { intros y (kind & i & -> & Hent) Heq.
    pose proof Hent as Hent'.
    apply delete_person_entity in Hent as [Hent Hne].
    apply nid_inj in Heq as [-> ->];
      [by apply Hne|by eapply has_entity_known|apply known_person]. }
  split.
  - split.
    + intros Hx. split; [|by apply Hgone].
      destruct Hx as (kind & i & -> & [Hent _]%delete_person_entity). eauto.
    + intros [(kind & i & -> & Hent) Hne]. exists kind, i. split; [done|].
      apply delete_person_entity. split; [done|]. by intros [-> ->].
  - split.
    + intros Hedge. pose proof (network_edge_ends _ _ _ _ Hedge) as [Hs Hd].
      split_and!; [|by apply Hgone..].
      eapply network_edge_within; [apply delete_person_within|done].
    + intros (Hedge & Hs & Hd). by apply delete_person_keeps.
Qed.

Lemma delete_task_within db tid : store_within (delete_task db tid).1 db.
Proof.
  repeat split; try done; cbn; intros x [_ Hx]%list_elem_of_filter; done.
Qed.

Lemma delete_task_entity db tid kind i :
  has_entity (delete_task db tid).1 kind i
  ↔ has_entity db kind i ∧ ¬ (kind = "task" ∧ i = tid).
Proof.
  unfold has_entity. cbn.
  assert (i ∈ t_id <$> filter (λ t, t_id t ≠ tid) (db_tasks db)
          ↔ i ∈ t_id <$> db_tasks db ∧ i ≠ tid) as Ht.
  { rewrite !list_elem_of_fmap. split.
    - intros (t & -> & [Hne Hin]%list_elem_of_filter).
      split; [by exists t|done].
    - intros [(t & -> & Hin) Hne]. exists t. split; [done|].
      by apply list_elem_of_filter. }
  split.
  - intros [[-> Hi]|[[-> Hi]|[[-> Hi]|[-> Hi]]]].
    + split; [by left|]. by intros [? _].
    + split; [right; by left|]. by intros [? _].
    + apply Ht in Hi as [Hi Hne]. split; [right; right; by left|].
      by intros [_ ->].
    + split; [right; right; by right|]. by intros [? _].
  - intros [[[-> Hi]|[[-> Hi]|[[-> Hi]|[-> Hi]]]] Hne].
    + by left.
    + right. by left.
    + right. right. left. split; [done|]. apply Ht. split; [done|].
      intros ->. by apply Hne.
    + right. right. by right.
Qed.

(** An edge of the old store that does not touch the task, and is no
    collaboration of co-assignees, is an edge of the new store. *)
Lemma delete_task_keeps db tid src dst etype :
  network_edge db src dst etype → etype ≠ "COLLAB:TASK" →
  src ≠ _nid "task" tid → dst ≠ _nid "task" tid →
  network_edge (delete_task db tid).1 src dst etype.
Proof.
  set (db' := (delete_task db tid).1).
  intros [src' dst' etype' Hrow|t ta tb Ht Hta Htb Ha Hb Hab|pla plb Hla Hlb Heq Hpr Ha Hb Hab]
    Hty Hsrc Hdst.
  - apply edge_of_row.
    destruct Hrow as [r Hr Hf Hto|pl Hpl Hp Hpr|t p Ht Hp Hpr|t ta Ht Hta Hp
                     |p g Hrow Hp Hg|prid gid Hrow Hpr Hg].
    + by apply valid_relation.
    + by apply valid_lead.
    + apply nid_neq in Hsrc. eapply valid_part_of; [|done..].
      cbn. by apply list_elem_of_filter.
    + apply nid_neq in Hdst. apply valid_assignee; [| |done].
      * cbn. by apply list_elem_of_filter.
      * apply task_assignees_elem in Hta as [Hid ?].
        apply task_assignees_elem. split; [done|].
        cbn. apply list_elem_of_filter. split; [|done]. by rewrite Hid.
    + by apply valid_membership.
    + by apply valid_project_group.
  - done.
  - by apply edge_of_co_leads.
Qed.

Lemma length_filter_pos {A} (P : A → Prop) `{∀ x, Decision (P x)} (l : list A) :
  (0 < length (filter P l))%nat ↔ ∃ x, x ∈ l ∧ P x.
Proof.
  split.
  - destruct (filter P l) as [|x l'] eqn:Hf; cbn; [lia|]. intros _.
    assert (x ∈ filter P l) as [? ?]%list_elem_of_filter
      by (rewrite Hf; by left).
    eauto.
  - intros (x & Hx & HP).
    assert (x ∈ filter P l) as Hin by (by apply list_elem_of_filter).
    destruct (filter P l); [by apply elem_of_nil in Hin|cbn; lia].
Qed.

(** X22.  [delete_task] answers whether the task was stored, and takes
    its node out of the graph with every edge that starts or ends at it.
    An edge of another type than [COLLAB:TASK] stays exactly when it does
    not touch the task; no edge is added. *)
Theorem delete_task_graph db task_id src dst etype x :
  let g := graph (Network.get_graph_network db) in
  let g' := graph (Network.get_graph_network (delete_task db task_id).1) in
  ((delete_task db task_id).2 = true ↔ task_id ∈ t_id <$> db_tasks db)
  ∧ (has_node g' x ↔ has_node g x ∧ x ≠ _nid "task" task_id)
  ∧ (has_edge g' src dst etype →
     has_edge g src dst etype
     ∧ src ≠ _nid "task" task_id ∧ dst ≠ _nid "task" task_id)
  ∧ (etype ≠ "COLLAB:TASK" →
     has_edge g src dst etype →
     src ≠ _nid "task" task_id → dst ≠ _nid "task" task_id →
     has_edge g' src dst etype).
Proof.
  cbv zeta.
  pose proof (network_graph_spec db src dst etype x) as (He & Hn & _).
  pose proof (network_graph_spec (delete_task db task_id).1 src dst etype x)
    as (He' & Hn' & _).
  cbv zeta in He, Hn, He', Hn'.
  rewrite Hn', Hn, He', He. clear He He' Hn Hn'.
  assert (∀ y, (∃ kind i, y = _nid kind i
                  ∧ has_entity (delete_task db task_id).1 kind i)
               → y ≠ _nid "task" task_id) as Hgone.
  { intros y (kind & i & -> & Hent) Heq.
    pose proof Hent as Hent'.
    apply delete_task_entity in Hent as [Hent Hne].
    apply nid_inj in Heq as [-> ->];
      [by apply Hne|by eapply has_entity_known|apply known_task]. }
  split_and!.
  - unfold delete_task. cbn [snd]. rewrite bool_decide_eq_true.
    rewrite length_filter_pos, list_elem_of_fmap.
    split; intros (t & ? & ?); by exists t.
  - split.
    + intros Hx. split; [|by apply Hgone].
      destruct Hx as (kind & i & -> & [Hent _]%delete_task_entity). eauto.
    + intros [(kind & i & -> & Hent) Hne]. exists kind, i. split; [done|].
      apply delete_task_entity. split; [done|]. by intros [-> ->].
  - intros Hedge. pose proof (network_edge_ends _ _ _ _ Hedge) as [Hs Hd].
    split_and!; [|by apply Hgone..].
    eapply network_edge_within; [apply delete_task_within|done].
  - intros Hty Hedge Hs Hd. by apply delete_task_keeps.
Qed.

(** ** Bulk role assignment *)

Lemma filter_fmap_stable {A} (P : A → Prop) `{∀ x, Decision (P x)}
    (f : A → A) (l : list A) :
  (∀ x, P (f x) ↔ P x) → filter P (f <$> l) = f <$> filter P l.
Proof.
  intros Hf. induction l as [|x l IH]; [done|]. cbn [fmap list_fmap].
  destruct (decide (P x)) as [HP|HP].
  - rewrite (filter_cons_True P (f x)) by (by apply Hf).
    rewrite (filter_cons_True P x) by done. cbn. by rewrite IH.
  - rewrite (filter_cons_False P (f x)) by (by rewrite Hf).
    by rewrite (filter_cons_False P x) by done.
Qed.

Lemma last_fmap_list {A B} (f : A → B) (l : list A) :
  last (f <$> l) = f <$> last l.
Proof.
  induction l as [|x [|y l] IH]; [done..|]. exact IH.
Qed.

Lemma last_elem {A} (l : list A) x : last l = Some x → x ∈ l.
Proof.
  induction l as [|y [|z l] IH]; [done| |].
  - intros [= ->]. by left.
  - intros Hx. right. by apply IH.
Qed.

Lemma last_None_nil {A} (l : list A) : last l = None → l = [].
Proof. induction l as [|y [|z l] IH]; [done..|]. intros Hx. by apply IH in Hx. Qed.

Lemma filter_none {A} (P : A → Prop) `{∀ x, Decision (P x)} (l : list A) :
  (∀ x, x ∈ l → ¬ P x) → filter P l = [].
Proof.
  intros Hno. destruct (filter P l) as [|x l'] eqn:Hf; [done|].
  assert (x ∈ filter P l) as [HP Hx]%list_elem_of_filter
    by (rewrite Hf; by left).
  by destruct (Hno x Hx).
Qed.

Section role_rows_facts.
Context `{RoleRow Row}.
Variables (owner_id : Z) (person_ids : list Z) (role_name : string).
Hypothesis role_name_trimmed : Py.strip role_name = role_name.

Lemma by_person_Some rows0 pid row :
  role_by_person owner_id person_ids rows0 pid = Some row →
  row ∈ rows0 ∧ row_owner row = owner_id ∧ row_person row = pid
  ∧ pid ∈ person_ids.
Proof.
  unfold role_by_person, role_existing.
  intros Hl%last_elem.
  apply list_elem_of_filter in Hl as [Hp Hl].
  apply list_elem_of_filter in Hl as [[Ho Hin] Hl].
  subst pid. done.
Qed.

Lemma by_person_None rows0 pid r :
  role_by_person owner_id person_ids rows0 pid = None → pid ∈ person_ids →
  r ∈ rows0 → row_owner r = owner_id → row_person r ≠ pid.
Proof.
  unfold role_by_person, role_existing.
  intros Hl%last_None_nil Hpid Hr Ho Hp.
  assert (r ∈ filter (λ r, row_person r = pid)
              (filter (λ r, row_owner r = owner_id ∧ row_person r ∈ person_ids)
                      rows0)) as Hin.
  { apply list_elem_of_filter. split; [done|].
    apply list_elem_of_filter. split; [|done]. split; [done|]. by rewrite Hp. }
  rewrite Hl in Hin. by apply elem_of_nil in Hin.
Qed.

Lemma settle_owner rows0 ids r :
  row_owner (role_settle owner_id person_ids role_name rows0 ids r)
  = row_owner r.
Proof.
  unfold role_settle. case_decide as Hc; [|done].
  rewrite row_make_owner. by destruct Hc as [-> _].
Qed.

Lemma settle_person rows0 ids r :
  row_person (role_settle owner_id person_ids role_name rows0 ids r)
  = row_person r.
Proof.
  unfold role_settle. case_decide as Hc; [|done]. by rewrite row_make_person.
Qed.

Lemma loop_snoc rows0 ids pid :
  role_loop owner_id person_ids role_name rows0 (ids ++ [pid]) = role_step owner_id person_ids role_name rows0 (role_loop owner_id person_ids role_name rows0 ids) pid.
Proof. unfold role_loop. by rewrite foldl_app. Qed.

(** The table after the loop: every row settled, then the inserted
    rows. *)
Lemma loop_rows rows0 ids :
  (role_loop owner_id person_ids role_name rows0 ids).1
  = (role_settle owner_id person_ids role_name rows0 ids <$> rows0) ++ role_fresh owner_id person_ids role_name rows0 ids.
Proof.
  induction ids as [|pid ids IH] using rev_ind.
  - cbn. rewrite app_nil_r. symmetry. etrans; [|apply list_fmap_id].
    apply list_fmap_ext. intros i r _. unfold role_settle.
    case_decide as Hc; [|done]. destruct Hc as (_ & Hin & _).
    by apply elem_of_nil in Hin.
  - rewrite loop_snoc. unfold role_step.
    destruct (role_by_person owner_id person_ids rows0 pid) as [row|] eqn:Hrow.
    + pose proof (by_person_Some _ _ _ Hrow) as (Hin & Ho & Hp & Hpid).
      assert (role_fresh owner_id person_ids role_name rows0 (ids ++ [pid]) = role_fresh owner_id person_ids role_name rows0 ids) as ->.
      { unfold role_fresh. rewrite filter_app.
        rewrite (filter_cons_False _ pid); [by rewrite filter_nil, app_nil_r|]. by rewrite Hrow. }
      case_bool_decide as Hst; cbn [fst].
      * rewrite IH. unfold role_update. rewrite fmap_app. f_equal.
        -- rewrite <-list_fmap_compose. apply list_fmap_ext.
           intros i r _. cbn. rewrite row_make_owner, row_make_person.
           rewrite settle_owner, settle_person, Ho, Hp.
           unfold role_settle.
           case_decide as Hc.
           ++ destruct Hc as [Hor Hpr].
              rewrite decide_True; [by rewrite Hpr|].
              split_and!; [done|rewrite Hpr; apply elem_of_app; right; by left|].
              rewrite Hpr. unfold role_stale. rewrite Hrow.
              by apply bool_decide_eq_true.
           ++ case_decide as Hc1; case_decide as Hc2; try done.
              ** destruct Hc2. destruct Hc1 as (? & ? & ?).
                 split_and!; [done|apply elem_of_app; by left|done].
              ** destruct Hc2 as (Hor & [Hpr|Hpr]%elem_of_app & Hs).
                 --- by destruct Hc1.
                 --- apply list_elem_of_singleton in Hpr. by destruct Hc.
        -- unfold role_fresh. rewrite <-list_fmap_compose.
           apply list_fmap_ext. intros i q _. cbn.
           rewrite row_make_owner, row_make_person, Ho, Hp.
           case_decide as Hc; [|done]. destruct Hc as [_ Hq].
           rewrite row_make_person in Hq. by subst q.
      * rewrite IH. f_equal. apply list_fmap_ext. intros i r _.
        unfold role_settle.
        case_decide as Hc1; case_decide as Hc2; try done.
        -- destruct Hc2. destruct Hc1 as (? & ? & ?).
           split_and!; [done|apply elem_of_app; by left|done].
        -- destruct Hc2 as (Hor & [Hpr|Hpr]%elem_of_app & Hs).
           ++ by destruct Hc1.
           ++ apply list_elem_of_singleton in Hpr.
              rewrite Hpr in Hs. unfold role_stale in Hs. rewrite Hrow in Hs.
              apply bool_decide_eq_true in Hs. done.
    + cbn [fst]. rewrite IH, <-app_assoc. f_equal.
      * apply list_fmap_ext. intros i r _.
        unfold role_settle.
        case_decide as Hc1; case_decide as Hc2; try done.
        -- destruct Hc2. destruct Hc1 as (? & ? & ?).
           split_and!; [done|apply elem_of_app; by left|done].
        -- destruct Hc2 as (Hor & [Hpr|Hpr]%elem_of_app & Hs).
           ++ by destruct Hc1.
           ++ apply list_elem_of_singleton in Hpr.
              rewrite Hpr in Hs. unfold role_stale in Hs. by rewrite Hrow in Hs.
      * unfold role_fresh. rewrite filter_app, fmap_app. f_equal.
        rewrite (filter_cons_True _ pid);
          [done|by rewrite Hrow].
Qed.

(** One answer row per visited person *)
Lemma loop_out_length rows0 ids : length (role_loop owner_id person_ids role_name rows0 ids).2 = length ids.
Proof.
  induction ids as [|pid ids IH] using rev_ind; [done|].
  rewrite loop_snoc, length_app. cbn. rewrite <-IH.
  unfold role_step.
  destruct (role_by_person _ _ _ _) as [row|];
    [case_bool_decide|]; cbn; by rewrite length_app.
Qed.

(** Every visited person has a row with the role. *)
Lemma loop_covers rows0 ids pid :
  pid ∈ ids → pid ∈ person_ids →
  ∃ r, r ∈ (role_loop owner_id person_ids role_name rows0 ids).1 ∧ row_owner r = owner_id ∧ row_person r = pid
       ∧ Py.strip (default "" (row_role r)) = role_name
       ∧ (role_by_person owner_id person_ids rows0 pid = None → r = row_make owner_id pid (Some role_name)).
Proof.
  intros Hin Hpid. rewrite loop_rows.
  destruct (role_by_person owner_id person_ids rows0 pid) as [row|] eqn:Hrow.
  - pose proof (by_person_Some _ _ _ Hrow) as (Hr & Ho & Hp & _).
    exists (role_settle owner_id person_ids role_name rows0 ids row). split_and!.
    + apply elem_of_app. left. by apply list_elem_of_fmap_2.
    + by rewrite settle_owner.
    + by rewrite settle_person.
    + unfold role_settle. case_decide as Hc.
      * by rewrite row_make_role.
      * destruct (decide (Py.strip (default "" (row_role row)) = role_name))
          as [|Hne]; [done|].
        destruct Hc. split_and!; [done|by rewrite Hp|].
        rewrite Hp. unfold role_stale.
        rewrite Hrow. by apply bool_decide_eq_true.
    + done.
  - exists (row_make owner_id pid (Some role_name)). split_and!.
    + apply elem_of_app. right. unfold role_fresh.
      apply (list_elem_of_fmap_2 (λ pid, row_make owner_id pid (Some role_name))).
      apply list_elem_of_filter. split; [|done]. done.
    + apply row_make_owner.
    + apply row_make_person.
    + by rewrite row_make_role.
    + done.
Qed.

(** A row of the new table is a row of the old one, or a row with the
    role for a visited person. *)
Lemma loop_rows_origin rows0 ids r :
  r ∈ (role_loop owner_id person_ids role_name rows0 ids).1 →
  r ∈ rows0
  ∨ (r = row_make owner_id (row_person r) (Some role_name) ∧ row_person r ∈ ids).
Proof.
  rewrite loop_rows.
  intros [(r0 & -> & Hr0)%list_elem_of_fmap|Hr]%elem_of_app.
  - unfold role_settle. case_decide as Hc; [|by left].
    right. rewrite row_make_person. by destruct Hc as (_ & ? & _).
  - unfold role_fresh in Hr.
    apply list_elem_of_fmap in Hr as (q & -> & [_ Hq]%list_elem_of_filter).
    right. by rewrite row_make_person.
Qed.

(** Rows of other owners and of persons not visited stay. *)
Lemma loop_rows_frame rows0 ids r :
  r ∈ rows0 → row_owner r ≠ owner_id ∨ row_person r ∉ ids →
  r ∈ (role_loop owner_id person_ids role_name rows0 ids).1.
Proof.
  intros Hr Hother. rewrite loop_rows. apply elem_of_app. left.
  assert (role_settle owner_id person_ids role_name rows0 ids r = r) as <-.
  { unfold role_settle. case_decide as Hc; [|done].
    destruct Hc as (? & ? & _). by destruct Hother. }
  by apply list_elem_of_fmap_2.
Qed.

Lemma loop_fixed rows ids acc :
  (∀ pid, pid ∈ ids →
     ∃ r, role_by_person owner_id person_ids rows pid = Some r
          ∧ Py.strip (default "" (row_role r)) = role_name) →
  (foldl (role_step owner_id person_ids role_name rows) acc ids).1 = acc.1.
Proof.
  revert acc. induction ids as [|pid ids IH]; intros acc Hall; [done|].
  cbn [foldl]. rewrite IH.
  - destruct (Hall pid) as (r & Hr & Hs); [by left|].
    unfold role_step. rewrite Hr.
    by rewrite bool_decide_eq_false_2 by (by intros ?).
  - intros q Hq. apply Hall. by right.
Qed.

(** After the loop, the last row of a visited person carries the
    role. *)
Lemma loop_settled rows0 ids pid :
  pid ∈ ids → pid ∈ person_ids →
  ∃ r, role_by_person owner_id person_ids (role_loop owner_id person_ids role_name rows0 ids).1 pid = Some r
       ∧ Py.strip (default "" (row_role r)) = role_name.
Proof.
  intros Hin Hpid. rewrite loop_rows.
  unfold role_by_person at 1. unfold role_existing.
  rewrite !filter_app.
  set (P := λ r : Row, row_owner r = owner_id ∧ row_person r ∈ person_ids).
  set (Q := λ r : Row, row_person r = pid).
  rewrite (filter_fmap_stable P);
    [|intros r; unfold P; by rewrite settle_owner, settle_person].
  rewrite (filter_fmap_stable Q);
    [|intros r; unfold Q; by rewrite settle_person].
  destruct (role_by_person owner_id person_ids rows0 pid) as [row|] eqn:Hrow.
  - assert (filter Q (filter P (role_fresh owner_id person_ids role_name rows0 ids)) = []) as ->.
    { apply (filter_none Q). intros r [_ Hr]%list_elem_of_filter HQ.
      unfold role_fresh in Hr.
      apply list_elem_of_fmap in Hr as (q & -> & [Hnone _]%list_elem_of_filter).
      unfold Q in HQ. rewrite row_make_person in HQ. subst q.
      by rewrite Hrow in Hnone. }
    rewrite app_nil_r, last_fmap_list.
    unfold role_by_person, role_existing in Hrow.
    fold P Q in Hrow. rewrite Hrow. cbn.
    eexists. split; [done|].
    pose proof (by_person_Some _ _ _ Hrow) as (Hr & Ho & Hp & _).
    unfold role_settle. case_decide as Hc.
    + by rewrite row_make_role.
    + destruct (decide (Py.strip (default "" (row_role row)) = role_name))
        as [|Hne]; [done|].
      destruct Hc. split_and!; [done|by rewrite Hp|].
      rewrite Hp. unfold role_stale.
      change (role_by_person owner_id person_ids rows0 pid)
        with (last (filter Q (filter P rows0))).
      rewrite Hrow. by apply bool_decide_eq_true.
  - assert (row_make owner_id pid (Some role_name)
              ∈ filter Q (filter P (role_fresh owner_id person_ids role_name rows0 ids))) as Hnew.
    { apply list_elem_of_filter. split; [apply row_make_person|].
      apply list_elem_of_filter. split.
      - split; [apply row_make_owner|by rewrite row_make_person].
      - unfold role_fresh.
        apply (list_elem_of_fmap_2 (λ pid, row_make owner_id pid (Some role_name))).
        apply list_elem_of_filter. split; [|done]. done. }
    destruct (last ((role_settle owner_id person_ids role_name rows0 ids <$> filter Q (filter P rows0))
                      ++ filter Q (filter P (role_fresh owner_id person_ids role_name rows0 ids)))) as [r|] eqn:Hl.
    + exists r. split; [done|].
      apply last_elem in Hl.
      apply elem_of_app in Hl as [Hl|Hl].
      * apply list_elem_of_fmap in Hl as (r0 & -> & Hr0).
        apply list_elem_of_filter in Hr0 as [HQ Hr0].
        apply list_elem_of_filter in Hr0 as [[Ho _] Hr0].
        by destruct (by_person_None _ _ _ Hrow Hpid Hr0 Ho).
      * apply list_elem_of_filter in Hl as [_ Hl].
        apply list_elem_of_filter in Hl as [_ Hl].
        unfold role_fresh in Hl.
        apply list_elem_of_fmap in Hl as (q & -> & _).
        by rewrite row_make_role.
    + apply last_None_nil in Hl. apply app_eq_nil in Hl as [_ Hl].
      rewrite Hl in Hnew. by apply elem_of_nil in Hnew.
Qed.

(** Running the loop a second time changes no row. *)
Lemma loop_idempotent rows0 ids :
  (∀ pid, pid ∈ ids → pid ∈ person_ids) →
  (role_loop owner_id person_ids role_name (role_loop owner_id person_ids role_name rows0 ids).1 ids).1 = (role_loop owner_id person_ids role_name rows0 ids).1.
Proof.
  intros Hids. unfold role_loop at 1.
  apply (loop_fixed (role_loop owner_id person_ids role_name rows0 ids).1 ids ((role_loop owner_id person_ids role_name rows0 ids).1, [])).
  intros pid Hpid. apply loop_settled; auto.
Qed.
End role_rows_facts.

Lemma normalize_raci_trimmed role :
  Py.strip (_normalize_raci role) = _normalize_raci role.
Proof.
  destruct (normalize_raci_cases role) as [Hn|(x & _ & _ & -> & _)].
  - rewrite !elem_of_cons, elem_of_nil in Hn.
    by destruct Hn as [->|[->|[->|[->|[]]]]].
  - apply strip_capitalize_strip.
Qed.

(** The members of [kept_ids], in any order of iteration *)
Lemma kept_ids_elem (set_iter : gset Z → list Z) db
    (person_ids : list Z) (pid : Z) :
  (∀ X, set_iter X ≡ₚ elements X) →
  pid ∈ set_iter (list_to_set
                    (p_id <$> filter (λ p, p_id p ∈ person_ids) (db_people db)))
  ↔ pid ∈ person_ids ∧ pid ∈ p_id <$> db_people db.
Proof.
  intros Hiter. rewrite Hiter, elem_of_elements, elem_of_list_to_set.
  rewrite !list_elem_of_fmap. split.
  - intros (p & -> & [Hin Hp]%list_elem_of_filter). split; [done|by exists p].
  - intros [Hin (p & -> & Hp)]. exists p. split; [done|].
    by apply list_elem_of_filter.
Qed.

Lemma kept_ids_size (set_iter : gset Z → list Z) db (person_ids : list Z) :
  (∀ X, set_iter X ≡ₚ elements X) →
  length (set_iter (list_to_set
            (p_id <$> filter (λ p, p_id p ∈ person_ids) (db_people db))))
  = size (list_to_set person_ids ∩ list_to_set (p_id <$> db_people db)
            : gset Z).
Proof.
  intros Hiter. rewrite Hiter. unfold size, set_size. cbn. do 2 f_equal.
  apply set_eq. intros pid.
  rewrite elem_of_intersection, !elem_of_list_to_set, !list_elem_of_fmap.
  split.
  - intros (p & -> & [Hin Hp]%list_elem_of_filter). split; [done|by exists p].
  - intros [Hin (p & -> & Hp)]. exists p. split; [done|].
    by apply list_elem_of_filter.
Qed.

Lemma with_project_leads_same db :
  with_project_leads db (db_project_leads db) = db.
Proof. by destruct db. Qed.

Lemma with_task_assignees_same db :
  with_task_assignees db (db_task_assignees db) = db.
Proof. by destruct db. Qed.

(** No row of the owner and the person, no entry in [by_person] *)
Lemma role_by_person_None `{RoleRow Row} owner_id person_ids
    (rows0 : list Row) pid :
  (∀ r, r ∈ rows0 → ¬ (row_owner r = owner_id ∧ row_person r = pid)) →
  role_by_person owner_id person_ids rows0 pid = None.
Proof.
  intros Hno. unfold role_by_person, role_existing.
  rewrite filter_none; [done|].
  intros r [[Ho _] Hr]%list_elem_of_filter Hp. by apply (Hno r).
Qed.

Lemma add_people_to_project_loop set_iter db project_id person_ids role :
  person_ids ≠ [] →
  add_people_to_project_with_role set_iter db project_id person_ids role
  = let result :=
      role_loop project_id person_ids (_normalize_raci role)
        (db_project_leads db)
        (set_iter (list_to_set
           (p_id <$> filter (λ p, p_id p ∈ person_ids) (db_people db)))) in
    (with_project_leads db result.1, result.2).
Proof.
  intros Hne. unfold add_people_to_project_with_role.
  by rewrite bool_decide_eq_false_2 by done.
Qed.

Lemma add_people_to_task_loop set_iter db task_id person_ids role :
  person_ids ≠ [] →
  add_people_to_task_with_role set_iter db task_id person_ids role
  = let result :=
      role_loop task_id person_ids (_normalize_raci role)
        (db_task_assignees db)
        (set_iter (list_to_set
           (p_id <$> filter (λ p, p_id p ∈ person_ids) (db_people db)))) in
    (with_task_assignees db result.1, result.2).
Proof.
  intros Hne. unfold add_people_to_task_with_role.
  by rewrite bool_decide_eq_false_2 by done.
Qed.

(** X23.  [add_people_to_project_with_role] makes every stored person of
    [person_ids] a lead of the project with the normalized role, whatever
    the order in which the set of kept ids is visited.  Afterwards each
    such person has a lead row of the project whose trimmed role is the
    normalized one; a lead row that was not stored before has that role
    and belongs to such a person, so none is made for a missing person;
    rows of other projects and of other persons stay; no other table
    changes; the answer has one row per distinct stored person; and the
    same call made again changes nothing. *)
Theorem add_people_to_project_rows (set_iter : gset Z → list Z)
    db project_id person_ids role :
  (∀ X, set_iter X ≡ₚ elements X) →
  let role_name := _normalize_raci role in
  let result :=
    add_people_to_project_with_role set_iter db project_id person_ids role in
  let kept pid := pid ∈ person_ids ∧ pid ∈ p_id <$> db_people db in
  (∀ pid, kept pid →
     ∃ pl, pl ∈ db_project_leads result.1
           ∧ pl_project_id pl = project_id ∧ pl_person_id pl = pid
           ∧ Py.strip (default "" (pl_role pl)) = role_name)
  ∧ (∀ pl, pl ∈ db_project_leads result.1 →
       pl ∈ db_project_leads db
       ∨ (pl = mkProjectLead project_id (pl_person_id pl) (Some role_name)
          ∧ kept (pl_person_id pl)))
  ∧ (∀ pl, pl ∈ db_project_leads db →
       pl_project_id pl ≠ project_id ∨ ¬ kept (pl_person_id pl) →
       pl ∈ db_project_leads result.1)
  ∧ with_project_leads result.1 (db_project_leads db) = db
  ∧ length result.2
    = size (list_to_set person_ids ∩ list_to_set (p_id <$> db_people db)
              : gset Z)
  ∧ (add_people_to_project_with_role
       set_iter result.1 project_id person_ids role).1 = result.1.
Proof.
  intros Hiter role_name result kept.
  destruct (decide (person_ids = [])) as [->|Hne].
  { subst result. cbn. split_and!; try done.
    - intros pid [Hin _]. by apply elem_of_nil in Hin.
    - intros pl Hpl. by left.
    - apply with_project_leads_same.
    - symmetry. apply size_empty_iff, elem_of_equiv_empty.
      intros x [Hx _]%elem_of_intersection.
      by apply elem_of_empty in Hx. }
  subst result. rewrite add_people_to_project_loop by done. cbv zeta.
  set (ids := set_iter _).
  assert (∀ pid, pid ∈ ids ↔ kept pid) as Hids
    by (intros pid; by apply kept_ids_elem).
  cbn [fst snd db_project_leads with_project_leads].
  split_and!.
  - intros pid Hk. pose proof Hk as [Hin _].
    destruct (loop_covers project_id person_ids role_name
                (normalize_raci_trimmed role) (db_project_leads db) ids pid)
      as (pl & Hpl & Ho & Hp & Hr & _); [by apply Hids|done|].
    by exists pl.
  - intros pl Hpl.
    destruct (loop_rows_origin project_id person_ids role_name
                (db_project_leads db) ids pl Hpl) as [?|[Heq Hin]];
      [by left|right]. split; [done|]. by apply Hids.
  - intros pl Hpl Hother.
    apply (loop_rows_frame project_id person_ids role_name); [done|].
    destruct Hother as [?|Hk]; [by left|right]. by rewrite Hids.
  - by destruct db.
  - rewrite loop_out_length. by apply kept_ids_size.
  - rewrite add_people_to_project_loop by done. cbv zeta.
    cbn [fst db_project_leads with_project_leads db_people].
    fold ids. f_equal.
    apply (loop_idempotent project_id person_ids role_name
             (normalize_raci_trimmed role)).
    intros pid Hpid. by apply Hids in Hpid as [? _].
Qed.

Lemma add_people_to_project_rows_witness :
  (add_people_to_project_with_role elements
     (add_people_to_project_with_role elements Samples.team 1 [2; 9]
        (Some " consulted ")).1 1 [2; 9] (Some " consulted ")).1
  = (add_people_to_project_with_role elements Samples.team 1 [2; 9]
       (Some " consulted ")).1.
Proof.
  apply (add_people_to_project_rows elements Samples.team 1 [2; 9]
           (Some " consulted ")).
  reflexivity.
Defined.

(** X24.  [add_people_to_task_with_role] does the same for the assignees
    of a task: afterwards every stored person of [person_ids] has an
    assignee row of the task whose trimmed role is the normalized one, a
    row that was not stored before has that role and belongs to such a
    person, rows of other tasks and persons stay, no other table changes,
    the answer has one row per distinct stored person, and the same call
    made again changes nothing. *)
Theorem add_people_to_task_rows (set_iter : gset Z → list Z)
    db task_id person_ids role :
  (∀ X, set_iter X ≡ₚ elements X) →
  let role_name := _normalize_raci role in
  let result :=
    add_people_to_task_with_role set_iter db task_id person_ids role in
  let kept pid := pid ∈ person_ids ∧ pid ∈ p_id <$> db_people db in
  (∀ pid, kept pid →
     ∃ ta, ta ∈ db_task_assignees result.1
           ∧ ta_task_id ta = task_id ∧ ta_person_id ta = pid
           ∧ Py.strip (default "" (ta_role ta)) = role_name)
  ∧ (∀ ta, ta ∈ db_task_assignees result.1 →
       ta ∈ db_task_assignees db
       ∨ (ta = mkTaskAssignee task_id (ta_person_id ta) (Some role_name)
          ∧ kept (ta_person_id ta)))
  ∧ (∀ ta, ta ∈ db_task_assignees db →
       ta_task_id ta ≠ task_id ∨ ¬ kept (ta_person_id ta) →
       ta ∈ db_task_assignees result.1)
  ∧ with_task_assignees result.1 (db_task_assignees db) = db
  ∧ length result.2
    = size (list_to_set person_ids ∩ list_to_set (p_id <$> db_people db)
              : gset Z)
  ∧ (add_people_to_task_with_role
       set_iter result.1 task_id person_ids role).1 = result.1.
Proof.
  intros Hiter role_name result kept.
  destruct (decide (person_ids = [])) as [->|Hne].
  { subst result. cbn. split_and!; try done.
    - intros pid [Hin _]. by apply elem_of_nil in Hin.
    - intros pl Hpl. by left.
    - apply with_task_assignees_same.
    - symmetry. apply size_empty_iff, elem_of_equiv_empty.
      intros x [Hx _]%elem_of_intersection.
      by apply elem_of_empty in Hx. }
  subst result. rewrite add_people_to_task_loop by done. cbv zeta.
  set (ids := set_iter _).
  assert (∀ pid, pid ∈ ids ↔ kept pid) as Hids
    by (intros pid; by apply kept_ids_elem).
  cbn [fst snd db_task_assignees with_task_assignees].
  split_and!.
  - intros pid Hk. pose proof Hk as [Hin _].
    destruct (loop_covers task_id person_ids role_name
                (normalize_raci_trimmed role) (db_task_assignees db) ids pid)
      as (ta & Hta & Ho & Hp & Hr & _); [by apply Hids|done|].
    by exists ta.
  - intros ta Hta.
    destruct (loop_rows_origin task_id person_ids role_name
                (db_task_assignees db) ids ta Hta) as [?|[Heq Hin]];
      [by left|right]. split; [done|]. by apply Hids.
  - intros ta Hta Hother.
    apply (loop_rows_frame task_id person_ids role_name); [done|].
    destruct Hother as [?|Hk]; [by left|right]. by rewrite Hids.
  - by destruct db.
  - rewrite loop_out_length. by apply kept_ids_size.
  - rewrite add_people_to_task_loop by done. cbv zeta.
    cbn [fst db_task_assignees with_task_assignees db_people].
    fold ids. f_equal.
    apply (loop_idempotent task_id person_ids role_name
             (normalize_raci_trimmed role)).
    intros pid Hpid. by apply Hids in Hpid as [? _].
Qed.

Lemma add_people_to_task_rows_witness :
  length (add_people_to_task_with_role elements Samples.team 2 [2; 9; 2; 1]
            (Some "a")).2
  = size (list_to_set [2; 9; 2; 1]
          ∩ list_to_set (p_id <$> db_people Samples.team) : gset Z).
Proof.
  apply (add_people_to_task_rows elements Samples.team 2 [2; 9; 2; 1]
           (Some "a")).
  reflexivity.
Defined.

Lemma get_project_is_Some db i :
  is_Some (get_project db i) ↔ i ∈ pr_id <$> db_projects db.
Proof.
  unfold get_project. rewrite head_filter_is_Some, list_elem_of_fmap.
  split; intros (p & ? & ?); by exists p.
Qed.

Lemma get_task_is_Some db i :
  is_Some (get_task db i) ↔ i ∈ t_id <$> db_tasks db.
Proof.
  unfold get_task. rewrite head_filter_is_Some, list_elem_of_fmap.
  split; intros (t & ? & ?); by exists t.
Qed.

Lemma add_people_to_project_tables set_iter db project_id person_ids role :
  let db' := (add_people_to_project_with_role
                set_iter db project_id person_ids role).1 in
  db_people db' = db_people db ∧ db_projects db' = db_projects db.
Proof.
  unfold add_people_to_project_with_role. by case_bool_decide.
Qed.

Lemma add_people_to_task_tables set_iter db task_id person_ids role :
  let db' := (add_people_to_task_with_role
                set_iter db task_id person_ids role).1 in
  db_people db' = db_people db ∧ db_tasks db' = db_tasks db.
Proof.
  unfold add_people_to_task_with_role. by case_bool_decide.
Qed.

(** Every kept person has a lead row with the role; the row is the
    inserted one when the person had none. *)
Lemma add_people_to_project_covers (set_iter : gset Z → list Z)
    db project_id (person_ids : list Z) role pid :
  (∀ X, set_iter X ≡ₚ elements X) →
  pid ∈ person_ids → pid ∈ p_id <$> db_people db →
  ∃ pl, pl ∈ db_project_leads
               (add_people_to_project_with_role
                  set_iter db project_id person_ids role).1
        ∧ pl_project_id pl = project_id ∧ pl_person_id pl = pid
        ∧ Py.strip (default "" (pl_role pl)) = _normalize_raci role
        ∧ ((∀ r, r ∈ db_project_leads db →
              ¬ (pl_project_id r = project_id ∧ pl_person_id r = pid)) →
           pl_role pl = stored_role role).
Proof.
  intros Hiter Hin Hp.
  assert (person_ids ≠ []) as Hne by (intros ->; by apply elem_of_nil in Hin).
  rewrite add_people_to_project_loop by done. cbv zeta.
  cbn [fst db_project_leads with_project_leads].
  destruct (loop_covers project_id person_ids (_normalize_raci role)
              (normalize_raci_trimmed role) (db_project_leads db)
              (set_iter (list_to_set
                 (p_id <$> filter (λ p, p_id p ∈ person_ids) (db_people db))))
              pid)
    as (pl & Hpl & Ho & Hpid & Hr & Hfresh); [by apply kept_ids_elem|done|].
  exists pl. split_and!; try done.
  intros Hno. rewrite Hfresh; [done|]. by apply role_by_person_None.
Qed.

Lemma add_people_to_task_covers (set_iter : gset Z → list Z)
    db task_id (person_ids : list Z) role pid :
  (∀ X, set_iter X ≡ₚ elements X) →
  pid ∈ person_ids → pid ∈ p_id <$> db_people db →
  ∃ ta, ta ∈ db_task_assignees
               (add_people_to_task_with_role
                  set_iter db task_id person_ids role).1
        ∧ ta_task_id ta = task_id ∧ ta_person_id ta = pid
        ∧ Py.strip (default "" (ta_role ta)) = _normalize_raci role
        ∧ ((∀ r, r ∈ db_task_assignees db →
              ¬ (ta_task_id r = task_id ∧ ta_person_id r = pid)) →
           ta_role ta = stored_role role).
Proof.
  intros Hiter Hin Hp.
  assert (person_ids ≠ []) as Hne by (intros ->; by apply elem_of_nil in Hin).
  rewrite add_people_to_task_loop by done. cbv zeta.
  cbn [fst db_task_assignees with_task_assignees].
  destruct (loop_covers task_id person_ids (_normalize_raci role)
              (normalize_raci_trimmed role) (db_task_assignees db)
              (set_iter (list_to_set
                 (p_id <$> filter (λ p, p_id p ∈ person_ids) (db_people db))))
              pid)
    as (ta & Hta & Ho & Hpid & Hr & Hfresh); [by apply kept_ids_elem|done|].
  exists ta. split_and!; try done.
  intros Hno. rewrite Hfresh; [done|]. by apply role_by_person_None.
Qed.

(** X25.  [POST /api/projects/{project_id}/assign] answers 404 exactly
    when the project is not stored.  Otherwise it assigns, answers the
    number of rows, and the full graph of the new store shows the
    assignment: every stored person of [person_ids] has a [RACI:] edge to
    the project, of the type of the normalized role when the person led
    the project under no role before, and any two of them are joined by
    a [COLLAB:PROJECT] edge. *)
Theorem assign_people_to_project_graph (set_iter : gset Z → list Z)
    db project_id person_ids role :
  (∀ X, set_iter X ≡ₚ elements X) →
  let result :=
    add_people_to_project_with_role set_iter db project_id person_ids role in
  let g' := graph (Network.get_graph_network result.1) in
  let kept pid := pid ∈ person_ids ∧ pid ∈ p_id <$> db_people db in
  (assign_people_to_project set_iter db project_id person_ids role
     = inl (mkHTTPException 404)
   ↔ project_id ∉ pr_id <$> db_projects db)
  ∧ (project_id ∈ pr_id <$> db_projects db →
     assign_people_to_project set_iter db project_id person_ids role
       = inr (result.1, length result.2)
     ∧ ∀ pid, kept pid →
         (∃ pl, pl ∈ db_project_leads result.1
                ∧ pl_project_id pl = project_id ∧ pl_person_id pl = pid
                ∧ has_edge g' (_nid "person" pid) (_nid "project" project_id)
                           (raci_etype (pl_role pl)))
         ∧ ((∀ r, r ∈ db_project_leads db →
               ¬ (pl_project_id r = project_id ∧ pl_person_id r = pid)) →
            has_edge g' (_nid "person" pid) (_nid "project" project_id)
                     (raci_etype (stored_role role)))
         ∧ (∀ qid, kept qid → pid ≠ qid →
              has_edge g' (_nid "person" pid) (_nid "person" qid)
                       "COLLAB:PROJECT")).
Proof.
  intros Hiter result g' kept.
  pose proof (get_project_is_Some db project_id) as Hget.
  split.
  - unfold assign_people_to_project.
    destruct (get_project db project_id) as [proj|].
    + split; [done|]. intros Hno. destruct Hno. apply Hget. by eexists.
    + split; [|done]. intros _ Hin. apply Hget in Hin. by destruct Hin.
  - intros Hproj. split.
    + unfold assign_people_to_project.
      apply Hget in Hproj as [proj ->]. done.
    + pose proof (add_people_to_project_tables
                    set_iter db project_id person_ids role) as [Hpe Hpr].
      cbv zeta in Hpe, Hpr. fold result in Hpe, Hpr.
      assert (∀ i, i ∈ p_id <$> db_people db
                   → i ∈ Network.have_person result.1) as Hhp.
      { intros i Hi. apply have_person_elem. by rewrite Hpe. }
      assert (project_id ∈ Network.have_project result.1) as Hhpr.
      { apply have_project_elem. by rewrite Hpr. }
      assert (∀ pid, kept pid →
                ∃ pl, pl ∈ db_project_leads result.1
                      ∧ pl_project_id pl = project_id ∧ pl_person_id pl = pid
                      ∧ ((∀ r, r ∈ db_project_leads db →
                            ¬ (pl_project_id r = project_id
                               ∧ pl_person_id r = pid)) →
                         pl_role pl = stored_role role)) as Hrow.
      { intros pid [Hin Hp].
        destruct (add_people_to_project_covers set_iter db project_id
                    person_ids role pid Hiter Hin Hp)
          as (pl & ? & ? & ? & _ & ?).
        by exists pl. }
      assert (∀ pid pl, kept pid → pl ∈ db_project_leads result.1 →
                pl_project_id pl = project_id → pl_person_id pl = pid →
                has_edge g' (_nid "person" pid) (_nid "project" project_id)
                         (raci_etype (pl_role pl))) as Hedge.
      { intros pid pl [_ Hp] Hpl Ho Hpid.
        apply (network_graph_spec result.1 _ _ _ "").
        rewrite <-Ho, <-Hpid. apply edge_of_row, valid_lead; [done|..].
        - rewrite Hpid. by apply Hhp.
        - by rewrite Ho. }
      intros pid Hk. destruct (Hrow pid Hk) as (pl & Hpl & Ho & Hpid & Hfresh).
      split_and!.
      * exists pl. split_and!; try done. by apply Hedge.
      * intros Hno. rewrite <-(Hfresh Hno). by apply Hedge.
      * intros qid Hq Hne.
        destruct (Hrow qid Hq) as (pl2 & Hpl2 & Ho2 & Hqid & _).
        apply (network_graph_spec result.1 _ _ _ "").
        rewrite <-Hpid, <-Hqid. apply edge_of_co_leads; try done.
        -- by rewrite Ho, Ho2.
        -- by rewrite Ho.
        -- rewrite Hpid. apply Hhp, Hk.
        -- rewrite Hqid. apply Hhp, Hq.
        -- by rewrite Hpid, Hqid.
Qed.

Lemma assign_people_to_project_graph_witness :
  assign_people_to_project elements Samples.team 7 [1; 2] (Some "r")
  = inl (mkHTTPException 404).
Proof.
  refine (proj2 (proj1 (assign_people_to_project_graph elements Samples.team
                          7 [1; 2] (Some "r") _)) _).
  - reflexivity.
  - cbn. rewrite list_elem_of_singleton. discriminate.
Defined.

(** X26.  [POST /api/tasks/{task_id}/assign] answers 404 exactly when the
    task is not stored.  Otherwise it assigns, answers the number of
    rows, and the full graph of the new store shows the assignment: every
    stored person of [person_ids] has an [ASSIGNEE:] edge to the task, of
    the type of the normalized role when the person was not assigned to
    the task before, and any two of them are joined by a [COLLAB:TASK]
    edge. *)
Theorem assign_people_to_task_graph (set_iter : gset Z → list Z)
    db task_id person_ids role :
  (∀ X, set_iter X ≡ₚ elements X) →
  let result :=
    add_people_to_task_with_role set_iter db task_id person_ids role in
  let g' := graph (Network.get_graph_network result.1) in
  let kept pid := pid ∈ person_ids ∧ pid ∈ p_id <$> db_people db in
  (assign_people_to_task set_iter db task_id person_ids role
     = inl (mkHTTPException 404)
   ↔ task_id ∉ t_id <$> db_tasks db)
  ∧ (task_id ∈ t_id <$> db_tasks db →
     assign_people_to_task set_iter db task_id person_ids role
       = inr (result.1, length result.2)
     ∧ ∀ pid, kept pid →
         (∃ ta, ta ∈ db_task_assignees result.1
                ∧ ta_task_id ta = task_id ∧ ta_person_id ta = pid
                ∧ has_edge g' (_nid "person" pid) (_nid "task" task_id)
                           (assignee_etype (ta_role ta)))
         ∧ ((∀ r, r ∈ db_task_assignees db →
               ¬ (ta_task_id r = task_id ∧ ta_person_id r = pid)) →
            has_edge g' (_nid "person" pid) (_nid "task" task_id)
                     (assignee_etype (stored_role role)))
         ∧ (∀ qid, kept qid → pid ≠ qid →
              has_edge g' (_nid "person" pid) (_nid "person" qid)
                       "COLLAB:TASK")).
Proof.
  intros Hiter result g' kept.
  pose proof (get_task_is_Some db task_id) as Hget.
  split.
  - unfold assign_people_to_task.
    destruct (get_task db task_id) as [task|].
    + split; [done|]. intros Hno. destruct Hno. apply Hget. by eexists.
    + split; [|done]. intros _ Hin. apply Hget in Hin. by destruct Hin.
  - intros Htask. split.
    + unfold assign_people_to_task.
      apply Hget in Htask as [task ->]. done.
    + pose proof (add_people_to_task_tables
                    set_iter db task_id person_ids role) as [Hpe Hts].
      cbv zeta in Hpe, Hts. fold result in Hpe, Hts.
      assert (∀ i, i ∈ p_id <$> db_people db
                   → i ∈ Network.have_person result.1) as Hhp.
      { intros i Hi. apply have_person_elem. by rewrite Hpe. }
      apply list_elem_of_fmap in Htask as (t & Htid & Ht).
      rewrite <-Hts in Ht.
      assert (∀ pid, kept pid →
                ∃ ta, ta ∈ db_task_assignees result.1
                      ∧ ta_task_id ta = task_id ∧ ta_person_id ta = pid
                      ∧ ((∀ r, r ∈ db_task_assignees db →
                            ¬ (ta_task_id r = task_id
                               ∧ ta_person_id r = pid)) →
                         ta_role ta = stored_role role)) as Hrow.
      { intros pid [Hin Hp].
        destruct (add_people_to_task_covers set_iter db task_id
                    person_ids role pid Hiter Hin Hp)
          as (ta & ? & ? & ? & _ & ?).
        by exists ta. }
      assert (∀ pid ta, kept pid → ta ∈ db_task_assignees result.1 →
                ta_task_id ta = task_id → ta_person_id ta = pid →
                has_edge g' (_nid "person" pid) (_nid "task" task_id)
                         (assignee_etype (ta_role ta))) as Hedge.
      { intros pid ta [_ Hp] Hta Ho Hpid.
        apply (network_graph_spec result.1 _ _ _ "").
        rewrite Htid, <-Hpid. apply edge_of_row, valid_assignee; [done|..].
        - apply task_assignees_elem. split; [congruence|done].
        - rewrite Hpid. by apply Hhp. }
      intros pid Hk. destruct (Hrow pid Hk) as (ta & Hta & Ho & Hpid & Hfresh).
      split_and!.
      * exists ta. split_and!; try done. by apply Hedge.
      * intros Hno. rewrite <-(Hfresh Hno). by apply Hedge.
      * intros qid Hq Hne.
        destruct (Hrow qid Hq) as (tb & Htb & Ho2 & Hqid & _).
        apply (network_graph_spec result.1 _ _ _ "").
        rewrite <-Hpid, <-Hqid. apply (edge_of_co_assignees _ t); try done.
        -- apply task_assignees_elem. split; [congruence|done].
        -- apply task_assignees_elem. split; [congruence|done].
        -- rewrite Hpid. apply Hhp, Hk.
        -- rewrite Hqid. apply Hhp, Hq.
        -- by rewrite Hpid, Hqid.
Qed.

Lemma assign_people_to_task_graph_witness :
  has_edge
    (graph (Network.get_graph_network
              (add_people_to_task_with_role elements Samples.team 2 [1; 2]
                 (Some "informed")).1))
    "person_1" "person_2" "COLLAB:TASK".
Proof.
  refine (proj2 (proj2 (proj2 (proj2
            (assign_people_to_task_graph elements Samples.team 2 [1; 2]
               (Some "informed") _) _) 1 _)) 2 _ _).
  - reflexivity.
  - apply list_elem_of_further, list_elem_of_here.
  - split; apply list_elem_of_here.
  - split; apply list_elem_of_further, list_elem_of_here.
  - discriminate.
Defined.

(** ** Replacing assignees and leads *)

(** [d[k] = r] on a dict without repeated keys *)
Lemma dd_update_set `{EqDecision K} {V} (dflt : V) (k : K) (r : V)
    (d : list (K * V)) :
  NoDup d.*1 →
  NoDup (dd_update dflt k (λ _, r) d).*1
  ∧ ∀ k' v', (k', v') ∈ dd_update dflt k (λ _, r) d
             ↔ (k' = k ∧ v' = r) ∨ (k' ≠ k ∧ (k', v') ∈ d).
Proof.
  induction d as [|[k0 v0] d IH]; cbn [dd_update fmap list_fmap fst].
  - intros _. split; [apply NoDup_singleton|].
    intros k' v'. rewrite list_elem_of_singleton. split.
    + intros [= -> ->]. by left.
    + intros [[-> ->]|[_ Hin]]; [done|by apply elem_of_nil in Hin].
  - intros [Hk0 Hnd]%NoDup_cons. destruct (IH Hnd) as [IHnd IHel].
    case_bool_decide as Hk.
    + subst k0. split; [by apply NoDup_cons|].
      intros k' v'. rewrite !elem_of_cons. split.
      * intros [[= -> ->]|Hin]; [by left|]. right. split; [|by right].
        intros ->. apply Hk0. by apply (list_elem_of_fmap_2 fst _ (k, v')).
      * intros [[-> ->]|[Hne [[= -> ->]|Hin]]]; [by left|done|by right].
    + split.
      * cbn. apply NoDup_cons. split; [|done].
        intros (e & He & Hin)%list_elem_of_fmap. destruct e as [k1 v1].
        cbn in He. subst k1. apply IHel in Hin as [[-> _]|[_ Hin]]; [done|].
        apply Hk0. by apply (list_elem_of_fmap_2 fst _ (k0, v1)).
      * intros k' v'. rewrite !elem_of_cons, IHel. split.
        -- intros [[= -> ->]|[?|[? ?]]]; [right; split; [done|by left]|by left|].
           right. split; [done|by right].
        -- intros [?|[Hne [[= -> ->]|Hin]]]; [right; by left|by left|].
           right. right. done.
Qed.

Lemma last_filter_snoc {A} (P : A → Prop) `{∀ x, Decision (P x)}
    (l : list A) (x : A) :
  last (filter P (l ++ [x]))
  = if decide (P x) then Some x else last (filter P l).
Proof.
  rewrite filter_app. case_decide as HP.
  - rewrite (filter_cons_True P x) by done. by rewrite filter_nil, last_snoc.
  - rewrite (filter_cons_False P x) by done. by rewrite filter_nil, app_nil_r.
Qed.

(** [desired] has one entry per person of the payload, with the role of
    the last entry of that person. *)
Lemma desired_roles_spec (assignees : list RoleIn) :
  NoDup (desired_roles assignees).*1
  ∧ ∀ pid role,
      (pid, role) ∈ desired_roles assignees
      ↔ ∃ ap, last (filter (λ ap, ri_person_id ap = Some pid) assignees)
              = Some ap
              ∧ role = str_or (ri_role ap) "Responsible".
Proof.
  induction assignees as [|ap l IH] using rev_ind.
  - split; [apply NoDup_nil_2|]. intros pid role. cbn. split.
    + intros Hin. by apply elem_of_nil in Hin.
    + by intros (ap & ? & _).
  - destruct IH as [IHnd IHel]. unfold desired_roles. rewrite foldl_app.
    cbn [foldl]. fold (desired_roles l).
    destruct (ri_person_id ap) as [p|] eqn:Hp.
    + destruct (dd_update_set "" p (str_or (ri_role ap) "Responsible")
                  (desired_roles l) IHnd) as [Hnd Hel].
      split; [done|]. intros pid role.
      rewrite Hel, last_filter_snoc, Hp. case_decide as Hd.
      * injection Hd as ->. split.
        -- intros [[_ ->]|[Hne _]]; [by exists ap|done].
        -- intros (ap' & [= <-] & ->). by left.
      * rewrite IHel. split.
        -- intros [[-> _]|[_ Hin]]; [done|done].
        -- intros Hin. right. split; [by intros ->|done].
    + split; [done|]. intros pid role.
      rewrite IHel, last_filter_snoc, Hp. by rewrite decide_False.
Qed.

Lemma get_task_row db task_id t :
  head (filter (λ t, t_id t = task_id) (db_tasks db)) = Some t →
  t ∈ db_tasks db ∧ t_id t = task_id.
Proof. intros Ht. by apply head_filter_Some in Ht. Qed.

(** X27.  [update_task] answers nothing, and changes nothing, exactly
    when the task is not stored.  It never writes the task's own columns:
    the name, status and project of the payload are ignored and the
    stored row is handed back.  Without assignees in the payload the
    store stays as it is; with assignees, the task's assignee rows are
    replaced by one row per person of the payload, under the role of the
    person's last entry ([Responsible] when that role is absent or
    empty), and the rows of other tasks stay.  A stored person of the
    payload then has the [ASSIGNEE:] edge of that role in the full
    graph. *)
Theorem update_task_assignees db task_id task :
  let result := update_task db task_id task in
  let g' := graph (Network.get_graph_network result.1) in
  (result.2 = None ↔ task_id ∉ t_id <$> db_tasks db)
  ∧ (result.2 = None → result.1 = db)
  ∧ db_tasks result.1 = db_tasks db
  ∧ (∀ t, result.2 = Some t → t ∈ db_tasks db ∧ t_id t = task_id)
  ∧ (tc_task_assignees task = None → result.1 = db)
  ∧ (∀ assignees, tc_task_assignees task = Some assignees →
       task_id ∈ t_id <$> db_tasks db →
       let entry pid :=
         last (filter (λ ap, ri_person_id ap = Some pid) assignees) in
       (∀ ta, ta ∈ db_task_assignees result.1
              ↔ (ta ∈ db_task_assignees db ∧ ta_task_id ta ≠ task_id)
                ∨ ∃ ap, entry (ta_person_id ta) = Some ap
                        ∧ ta = mkTaskAssignee task_id (ta_person_id ta)
                                 (Some (str_or (ri_role ap) "Responsible")))
       ∧ NoDup (ta_person_id
                  <$> filter (λ ta, ta_task_id ta = task_id)
                             (db_task_assignees result.1))
       ∧ (∀ pid ap, entry pid = Some ap → pid ∈ p_id <$> db_people db →
            has_edge g' (_nid "person" pid) (_nid "task" task_id)
              (assignee_etype (Some (str_or (ri_role ap) "Responsible"))))).
Proof.
  intros result g'. subst g' result. unfold update_task.
  pose proof (head_filter_is_Some (λ t, t_id t = task_id) (db_tasks db))
    as Hsome.
  destruct (head (filter (λ t, t_id t = task_id) (db_tasks db)))
    as [db_task|] eqn:Hhead.
  - pose proof (get_task_row _ _ _ Hhead) as [Hin Hid].
    assert (task_id ∈ t_id <$> db_tasks db) as Helem.
    { rewrite <-Hid. by apply list_elem_of_fmap_2. }
    set (db1 := match tc_task_assignees task with
                | Some _ => _ | None => db end).
    assert (db_tasks db1 = db_tasks db ∧ db_people db1 = db_people db)
      as [Htasks Hpeople].
    { subst db1. by destruct (tc_task_assignees task). }
    cbn [fst snd]. rewrite Htasks, Hid, Hhead.
    split_and!.
    + split; [done|]. intros Hno. by destruct Hno.
    + done.
    + done.
    + intros t [= <-]. done.
    + subst db1. by intros ->.
    + intros assignees Hsomeas _. cbv zeta. subst db1. rewrite Hsomeas.
      cbn [db_task_assignees with_task_assignees db_tasks db_people].
      rewrite Hid.
      destruct (desired_roles_spec assignees) as [Hnd Hel].
      assert (∀ ta,
                ta ∈ (λ e, mkTaskAssignee task_id e.1 (Some e.2))
                       <$> desired_roles assignees
                ↔ ∃ ap, last (filter (λ ap, ri_person_id ap
                                            = Some (ta_person_id ta))
                                     assignees) = Some ap
                        ∧ ta = mkTaskAssignee task_id (ta_person_id ta)
                                 (Some (str_or (ri_role ap) "Responsible")))
        as Hnew.
      { intros ta. rewrite list_elem_of_fmap. split.
        - intros ([pid role] & -> & Hin'). cbn.
          apply Hel in Hin' as (ap & Hap & ->). by exists ap.
        - intros (ap & Hap & Hta).
          exists (ta_person_id ta, str_or (ri_role ap) "Responsible").
          split; [done|]. apply Hel. by exists ap. }
      split_and!.
      * intros ta. rewrite elem_of_app, list_elem_of_filter, Hnew. tauto.
      * rewrite filter_app, fmap_app.
        rewrite (filter_none (λ ta, ta_task_id ta = task_id)
                   (filter _ (db_task_assignees db)));
          [|by intros ta [Hne _]%list_elem_of_filter].
        rewrite filter_all.
        -- rewrite <-list_fmap_compose.
           by replace (ta_person_id ∘ _) with (@fst Z string).
        -- apply Forall_forall. by intros ta (e & -> & _)%list_elem_of_fmap.
      * intros pid ap Hap Hp.
        apply (network_graph_spec _ _ _ _ "").
        replace (_nid "task" task_id) with (_nid "task" (t_id db_task))
          by (by rewrite Hid).
        apply edge_of_row.
        apply (valid_assignee _ db_task
                 (mkTaskAssignee task_id pid
                    (Some (str_or (ri_role ap) "Responsible")))).
        -- done.
        -- apply task_assignees_elem. split; [done|]. cbn.
           apply elem_of_app. right. apply Hnew. by exists ap.
        -- by apply have_person_elem.
  - cbn [fst snd]. split_and!; [|done..|].
    + split; [|done]. intros _ Hin.
      apply list_elem_of_fmap in Hin as (t & -> & Ht).
      destruct (proj2 Hsome) as [? ?]; [by exists t|done].
    + intros assignees _ Hin.
      apply list_elem_of_fmap in Hin as (t & -> & Ht).
      destruct (proj2 Hsome) as [? ?]; [by exists t|done].
Qed.

Lemma update_task_assignees_witness :
  has_edge
    (graph (Network.get_graph_network
              (update_task Samples.team 1
                 (mkTaskCreate "Design" None None 1
                    (Some [mkRoleIn (Some 2) (Some "informed");
                           mkRoleIn None (Some "a");
                           mkRoleIn (Some 2) None]))).1))
    "person_2" "task_1" "ASSIGNEE:R".
Proof.
  refine (proj2 (proj2 (proj2 (proj2 (proj2 (proj2 (proj2
            (update_task_assignees Samples.team 1
               (mkTaskCreate "Design" None None 1
                  (Some [mkRoleIn (Some 2) (Some "informed");
                         mkRoleIn None (Some "a");
                         mkRoleIn (Some 2) None]))))))) _ eq_refl _))
            2 (mkRoleIn (Some 2) None) eq_refl _).
  - apply list_elem_of_here.
  - apply list_elem_of_further, list_elem_of_here.
Defined.

Lemma head_fmap_list {A B} (f : A → B) (l : list A) :
  head (f <$> l) = f <$> head l.
Proof. by destruct l. Qed.

Lemma truthy_Some x v : truthy x = Some v ↔ x = Some v ∧ v ≠ 0.
Proof.
  unfold truthy. destruct x as [w|]; [|by split; [|intros [? _]]].
  case_bool_decide as Hw.
  - split; [done|]. intros [[= ->] Hne]. done.
  - split; [by intros [= ->]|]. by intros [[= ->] _].
Qed.

(** The rows [update_project] adds *)
Lemma lead_rows_elem project_id leads pl :
  pl ∈ lead_rows project_id leads
  ↔ ∃ lead pid, lead ∈ leads ∧ ri_person_id lead = Some pid ∧ pid ≠ 0
                ∧ pl = mkProjectLead project_id pid
                         (Some (str_or (ri_role lead) "Responsible")).
Proof.
  unfold lead_rows. rewrite list_elem_of_omap. split.
  - intros (lead & Hin & Hpl).
    destruct (truthy (ri_person_id lead)) as [pid|] eqn:Ht; [|done].
    injection Hpl as <-. apply truthy_Some in Ht as [Hp Hne].
    by exists lead, pid.
  - intros (lead & pid & Hin & Hp & Hne & ->). exists lead. split; [done|].
    by rewrite (proj2 (truthy_Some _ pid)).
Qed.

(** X28.  [update_project] answers nothing, and changes nothing, exactly
    when the project is not stored.  On a stored project it fails with
    an integrity error exactly when two of the payload's entries with a
    person id other than 0 name one person; otherwise it writes the name, description and status of the
    payload ([Planned] for an absent or empty status), keeps the ids of
    all projects, and replaces the project's lead rows by one row per
    entry whose person id is neither absent nor 0, in the order of the
    payload, under the role as it is spelled in the payload
    ([Responsible] when absent or empty); lead rows of other projects
    stay.  A lead whose person is stored has the [RACI:] edge of its
    role in the full graph; persons are not checked, so a row may name a
    person that is not stored. *)
Theorem update_project_leads db project_id project :
  let added :=
    lead_rows project_id (default [] (pc_project_leads project)) in
  (update_project db project_id project = inr (db, None)
   ↔ project_id ∉ pr_id <$> db_projects db)
  ∧ (project_id ∈ pr_id <$> db_projects db →
     (update_project db project_id project = inl IntegrityError
      ↔ ¬ NoDup (pl_person_id <$> added)))
  ∧ (∀ db' p, update_project db project_id project = inr (db', Some p) →
       let g' := graph (Network.get_graph_network db') in
       p = mkProject project_id (pc_name project)
             (Some (str_or (pc_status project) "Planned"))
             (pc_description project)
       ∧ p ∈ db_projects db'
       ∧ pr_id <$> db_projects db' = pr_id <$> db_projects db
       ∧ (∀ q, q ∈ db_projects db → pr_id q ≠ project_id →
               q ∈ db_projects db')
       ∧ filter (λ pl, pl_project_id pl = project_id) (db_project_leads db')
         = added
       ∧ filter (λ pl, pl_project_id pl ≠ project_id) (db_project_leads db')
         = filter (λ pl, pl_project_id pl ≠ project_id) (db_project_leads db)
       ∧ db_people db' = db_people db
       ∧ (∀ pl, pl ∈ added
                ↔ ∃ lead pid,
                    lead ∈ default [] (pc_project_leads project)
                    ∧ ri_person_id lead = Some pid ∧ pid ≠ 0
                    ∧ pl = mkProjectLead project_id pid
                             (Some (str_or (ri_role lead) "Responsible")))
       ∧ (∀ pl, pl ∈ added → pl_person_id pl ∈ p_id <$> db_people db →
            has_edge g' (_nid "person" (pl_person_id pl))
                     (_nid "project" project_id) (raci_etype (pl_role pl)))).
Proof.
  intros added. unfold update_project. fold added.
  pose proof (head_filter_is_Some (λ p, pr_id p = project_id) (db_projects db))
    as Hsome.
  assert (Forall (λ pl, pl_project_id pl = project_id) added) as Hadded.
  { apply Forall_forall. intros pl Hpl. subst added.
    apply lead_rows_elem in Hpl as (lead & pid & _ & _ & _ & ->). done. }
  destruct (head (filter (λ p, pr_id p = project_id) (db_projects db)))
    as [db_project|] eqn:Hhead.
  - pose proof (head_filter_Some _ _ _ Hhead) as [Hin Hid].
    assert (project_id ∈ pr_id <$> db_projects db) as Helem.
    { rewrite <-Hid. by apply list_elem_of_fmap_2. }
    rewrite Hid.
    set (upd := λ p : Project,
           if decide (pr_id p = project_id)
           then _project_scalars_from_schema project p else p).
    assert (∀ p, pr_id (upd p) = pr_id p) as Hupd_id.
    { intros p. unfold upd. by case_decide. }
    cbn [db_projects with_project_leads with_projects].
    rewrite (filter_fmap_stable (λ p, pr_id p = project_id) upd)
      by (intros q; by rewrite Hupd_id).
    rewrite head_fmap_list, Hhead. cbn [fmap option_fmap option_map].
    split_and!.
    + split; [|done]. by case_bool_decide.
    + intros _. case_bool_decide as Hnd; [by split|by split].
    + intros db' p. case_bool_decide as Hnd; [|done].
      intros [= <- <-].
      cbn [db_projects db_project_leads db_people with_project_leads
           with_projects].
      assert (upd db_project
              = mkProject project_id (pc_name project)
                  (Some (str_or (pc_status project) "Planned"))
                  (pc_description project)) as Hp.
      { unfold upd. rewrite decide_True by done.
        unfold _project_scalars_from_schema. by rewrite Hid. }
      assert (pr_id <$> (upd <$> db_projects db) = pr_id <$> db_projects db)
        as Hids.
      { rewrite <-list_fmap_compose. apply list_fmap_ext.
        intros i q _. apply Hupd_id. }
      split_and!.
      * done.
      * by apply list_elem_of_fmap_2.
      * done.
      * intros q Hq Hne. apply list_elem_of_fmap. exists q. split; [|done].
        unfold upd. by rewrite decide_False.
      * rewrite filter_app, filter_none, filter_all; [done|done|].
        by intros pl [Hne _]%list_elem_of_filter.
      * rewrite filter_app, filter_all.
        -- rewrite (filter_none _ added); [by rewrite app_nil_r|].
           intros pl Hpl Hne. apply Hne.
           by apply (proj1 (Forall_forall _ _) Hadded).
        -- apply Forall_forall. by intros pl [Hne _]%list_elem_of_filter.
      * done.
      * intros pl. apply lead_rows_elem.
      * intros pl Hpl Hperson.
        apply (network_graph_spec _ _ _ _ "").
        rewrite <-(proj1 (Forall_forall _ _) Hadded pl Hpl).
        apply edge_of_row, valid_lead.
        -- cbn. apply elem_of_app. by right.
        -- by apply have_person_elem.
        -- apply have_project_elem. cbn. rewrite Hids.
           by rewrite (proj1 (Forall_forall _ _) Hadded pl Hpl).
  - assert (project_id ∉ pr_id <$> db_projects db) as Hno.
    { intros (q & -> & Hq)%list_elem_of_fmap.
      destruct (proj2 Hsome) as [? ?]; [by exists q|done]. }
    split_and!; [done|done|]. intros db' p [= _ ?].
Qed.

Lemma update_project_leads_witness :
  update_project Samples.team 1
    (mkProjectCreate "Apollo" None None
       (Some [mkRoleIn (Some 2) None; mkRoleIn (Some 2) (Some "r")]))
  = inl IntegrityError.
Proof.
  refine (proj2 (proj1 (proj2 (update_project_leads Samples.team 1
            (mkProjectCreate "Apollo" None None
               (Some [mkRoleIn (Some 2) None; mkRoleIn (Some 2) (Some "r")]))))
            _) _).
  - apply list_elem_of_here.
  - intros [Hn _]%NoDup_cons. apply Hn, list_elem_of_here.
Defined.

(** ** The ego graph (backend/services/ai_client.py) *)

Lemma ego_neighbors_elem g center_id x :
  x ∈ AiClient.ego_neighbors (graph_edges g) center_id
  ↔ AiClient.ego_adjacent g center_id x.
Proof.
  unfold AiClient.ego_adjacent, AiClient.ego_neighbors.
  generalize (graph_edges g) as es. clear g.
  induction es as [|e es IH] using rev_ind.
  - cbn. split; [by intros ?%elem_of_empty|].
    intros (_ & e & He & _). by apply elem_of_nil in He.
  - rewrite foldl_app. cbn [foldl]. cbv zeta.
    set (acc := foldl _ ∅ es) in *.
    assert ((∃ e0, e0 ∈ es ++ [e] ∧ e_source e0 ≠ "" ∧ e_target e0 ≠ ""
                   ∧ ((e_source e0 = center_id ∧ e_target e0 = x)
                      ∨ (e_target e0 = center_id ∧ e_source e0 = x)))
            ↔ (∃ e0, e0 ∈ es ∧ e_source e0 ≠ "" ∧ e_target e0 ≠ ""
                     ∧ ((e_source e0 = center_id ∧ e_target e0 = x)
                        ∨ (e_target e0 = center_id ∧ e_source e0 = x)))
              ∨ (e_source e ≠ "" ∧ e_target e ≠ ""
                 ∧ ((e_source e = center_id ∧ e_target e = x)
                    ∨ (e_target e = center_id ∧ e_source e = x)))) as ->.
    { split.
      - intros (e0 & [He0|He0]%elem_of_app & Hrest).
        + left. by exists e0.
        + apply list_elem_of_singleton in He0 as ->. by right.
      - intros [(e0 & He0 & Hrest)|Hrest].
        + exists e0. split; [apply elem_of_app; by left|done].
        + exists e. split; [apply elem_of_app; right; by left|done]. }
    destruct (Py.is_empty (e_source e)) eqn:Hs.
    { apply is_empty_true in Hs. cbn [orb]. rewrite IH. intuition congruence. }
    destruct (Py.is_empty (e_target e)) eqn:Ht.
    { apply is_empty_true in Ht. cbn [orb]. rewrite IH. intuition congruence. }
    apply is_empty_false in Hs, Ht. cbn [orb].
    repeat case_bool_decide;
      rewrite ?elem_of_union, ?elem_of_singleton, IH; intuition congruence.
Qed.

Lemma slice_to_sublist {A} (n : Z) (l : list A) :
  AiClient.slice_to n l `sublist_of` l.
Proof. unfold AiClient.slice_to. case_decide; apply sublist_take. Qed.

Lemma slice_to_length {A} (n : Z) (l : list A) :
  0 ≤ n → (length (AiClient.slice_to n l) ≤ Z.to_nat n)%nat.
Proof.
  intros Hn. unfold AiClient.slice_to. rewrite decide_True by done.
  rewrite length_take. lia.
Qed.

Lemma slice_to_all {A} (n : Z) (l : list A) :
  Z.of_nat (length l) ≤ n → AiClient.slice_to n l = l.
Proof.
  intros Hn. unfold AiClient.slice_to. rewrite decide_True by lia.
  apply take_ge. lia.
Qed.

Lemma nid_to_node_Some nodes nid n :
  AiClient.nid_to_node nodes nid = Some n →
  n_id n = nid ∧ nid ≠ ""
  ∧ ∃ n0, n0 ∈ nodes ∧ n_id n0 = nid ∧ n_type n0 = n_type n.
Proof.
  unfold AiClient.nid_to_node.
  destruct (last _) as [n0|] eqn:Hl; [|done]. intros [= <-].
  apply last_elem, list_elem_of_filter in Hl as [[Hid Hne] Hin].
  cbn. split_and!; [done..|]. by exists n0.
Qed.

Lemma nid_to_node_is_Some nodes nid :
  nid ∈ n_id <$> nodes → nid ≠ "" →
  is_Some (AiClient.nid_to_node nodes nid).
Proof.
  intros (n0 & -> & Hin)%list_elem_of_fmap Hne.
  unfold AiClient.nid_to_node.
  destruct (last _) as [n|] eqn:Hl; [by eexists|].
  apply last_None_nil in Hl.
  assert (n0 ∈ filter (λ n, n_id n = n_id n0 ∧ n_id n0 ≠ "") nodes) as Hf
    by (by apply list_elem_of_filter).
  rewrite Hl in Hf. by apply elem_of_nil in Hf.
Qed.

Lemma omap_length_le {A B} (f : A → option B) (l : list A) :
  (length (omap f l) ≤ length l)%nat.
Proof.
  induction l as [|x l IH]; [done|]. cbn. destruct (f x); cbn; lia.
Qed.

Lemma omap_ids_NoDup (f : string → option Node) (l : list string) :
  (∀ x n, f x = Some n → n_id n = x) → NoDup l →
  NoDup (n_id <$> omap f l).
Proof.
  intros Hf. induction 1 as [|x l Hx Hnd IH]; [apply NoDup_nil_2|].
  cbn. destruct (f x) as [n|] eqn:Hn; [|done].
  cbn. apply NoDup_cons. split; [|done].
  rewrite (Hf _ _ Hn).
  intros (n' & Hid & (y & Hy & Hfy)%list_elem_of_omap)%list_elem_of_fmap.
  rewrite (Hf _ _ Hfy) in Hid. by subst y.
Qed.

Section ego.
Variable set_iter : gset string → list string.
Hypothesis set_iter_perm : ∀ X, set_iter X ≡ₚ elements X.
Variables (g : Graph) (center_id : string) (max_neighbors : Z).

Lemma ego_listed x :
  x ∈ AiClient.slice_to max_neighbors
        (set_iter (AiClient.ego_neighbors (graph_edges g) center_id)) →
  AiClient.ego_adjacent g center_id x.
Proof.
  intros Hx. apply ego_neighbors_elem, elem_of_elements.
  rewrite <-set_iter_perm.
  eapply elem_of_sublist; [done|apply slice_to_sublist].
Qed.

Lemma ego_listed_NoDup :
  NoDup (AiClient.slice_to max_neighbors
           (set_iter (AiClient.ego_neighbors (graph_edges g) center_id))).
Proof.
  eapply sublist_NoDup; [|apply slice_to_sublist].
  rewrite set_iter_perm. apply NoDup_elements.
Qed.

Lemma ego_allowed x :
  x ∈ ({[center_id]}
       ∪ list_to_set
           (AiClient.slice_to max_neighbors
              (set_iter (AiClient.ego_neighbors (graph_edges g) center_id)))
       : gset string) →
  x = center_id ∨ AiClient.ego_adjacent g center_id x.
Proof.
  rewrite elem_of_union, elem_of_singleton, elem_of_list_to_set.
  intros [?|?]; [by left|right]. by apply ego_listed.
Qed.

Lemma ego_edge e :
  e ∈ graph_edges (AiClient.build_ego_graph set_iter g center_id
                     max_neighbors) →
  e ∈ graph_edges g
  ∧ (e_source e = center_id
     ∨ AiClient.ego_adjacent g center_id (e_source e))
  ∧ (e_target e = center_id
     ∨ AiClient.ego_adjacent g center_id (e_target e)).
Proof.
  unfold AiClient.build_ego_graph. cbn.
  intros [[Hs Ht] He]%list_elem_of_filter.
  split_and!; [done|by apply ego_allowed..].
Qed.

Lemma ego_node n :
  n ∈ graph_nodes (AiClient.build_ego_graph set_iter g center_id
                     max_neighbors) →
  (n_id n = center_id ∨ AiClient.ego_adjacent g center_id (n_id n))
  ∧ n_id n ≠ ""
  ∧ ∃ n0, n0 ∈ graph_nodes g ∧ n_id n0 = n_id n ∧ n_type n0 = n_type n.
Proof.
  unfold AiClient.build_ego_graph. cbn.
  intros [Hn|Hn]%elem_of_app.
  - destruct (AiClient.nid_to_node (graph_nodes g) center_id) as [n'|]
      eqn:Hc; cbn in Hn; [|by apply elem_of_nil in Hn].
    apply list_elem_of_singleton in Hn as ->.
    apply nid_to_node_Some in Hc as (Hid & Hne & n0 & ? & ? & ?).
    split_and!; [by left|by rewrite Hid|].
    exists n0. by rewrite Hid.
  - apply list_elem_of_omap in Hn as (x & Hx & Hfx).
    apply nid_to_node_Some in Hfx as (Hid & Hne & n0 & ? & ? & ?).
    split_and!; [right; rewrite Hid; by apply ego_listed|by rewrite Hid|].
    exists n0. by rewrite Hid.
Qed.

Lemma ego_nodes_NoDup :
  NoDup (n_id <$> graph_nodes (AiClient.build_ego_graph set_iter g
                                 center_id max_neighbors)).
Proof.
  unfold AiClient.build_ego_graph. cbn. rewrite fmap_app.
  apply NoDup_app. split_and!.
  - destruct (AiClient.nid_to_node _ center_id); cbn;
      [apply NoDup_singleton|apply NoDup_nil_2].
  - intros x Hx.
    destruct (AiClient.nid_to_node _ center_id) as [n|] eqn:Hc; cbn in Hx;
      [|by apply elem_of_nil in Hx].
    apply list_elem_of_singleton in Hx as ->.
    apply nid_to_node_Some in Hc as (Hid & _).
    intros (n' & Hid' & (y & Hy & Hfy)%list_elem_of_omap)%list_elem_of_fmap.
    apply nid_to_node_Some in Hfy as (Hy' & _).
    apply ego_listed in Hy as [Hne _]. congruence.
  - apply omap_ids_NoDup; [|apply ego_listed_NoDup].
    intros x n Hn. by apply nid_to_node_Some in Hn as (? & _).
Qed.

Lemma ego_nodes_length :
  0 ≤ max_neighbors →
  (length (graph_nodes (AiClient.build_ego_graph set_iter g center_id
                          max_neighbors))
   ≤ 1 + Z.to_nat max_neighbors)%nat.
Proof.
  intros Hn. unfold AiClient.build_ego_graph. cbn. rewrite length_app.
  pose proof (omap_length_le (AiClient.nid_to_node (graph_nodes g))
                (AiClient.slice_to max_neighbors
                   (set_iter (AiClient.ego_neighbors (graph_edges g)
                                center_id)))) as Hle.
  pose proof (slice_to_length max_neighbors
                (set_iter (AiClient.ego_neighbors (graph_edges g)
                             center_id)) Hn) as Hle2.
  destruct (AiClient.nid_to_node _ center_id); cbn; lia.
Qed.

Lemma ego_star e :
  Z.of_nat (size (AiClient.ego_neighbors (graph_edges g) center_id))
    ≤ max_neighbors →
  e ∈ graph_edges g → e_source e ≠ "" → e_target e ≠ "" →
  e_source e = center_id ∨ e_target e = center_id →
  e ∈ graph_edges (AiClient.build_ego_graph set_iter g center_id
                     max_neighbors).
Proof.
  intros Hsize He Hs Ht Hc. unfold AiClient.build_ego_graph. cbn.
  rewrite slice_to_all
    by (rewrite set_iter_perm; by unfold size, set_size in Hsize).
  assert (∀ x, x = center_id ∨ AiClient.ego_adjacent g center_id x →
            x ∈ ({[center_id]}
                 ∪ list_to_set (set_iter (AiClient.ego_neighbors
                                            (graph_edges g) center_id))
                 : gset string)) as Hin.
  { intros x. rewrite elem_of_union, elem_of_singleton, elem_of_list_to_set.
    intros [?|Hadj]; [by left|right].
    rewrite set_iter_perm. by apply elem_of_elements, ego_neighbors_elem. }
  apply list_elem_of_filter. split; [|done].
  destruct (decide (e_source e = center_id)) as [Hsc|Hsc],
           (decide (e_target e = center_id)) as [Htc|Htc].
  - split; apply Hin; by left.
  - split; apply Hin; [by left|right]. split; [done|].
    exists e. split_and!; try done. by left.
  - split; apply Hin; [right|by left]. split; [done|].
    exists e. split_and!; try done. by right.
  - by destruct Hc.
Qed.
End ego.

(** X29.  [build_ego_graph] answers a star around the center, whatever
    the order in which the set of neighbours is listed.  Every edge of
    the answer is an edge of the graph whose two ends are the center or
    nodes joined to it; every node of the answer is the center or a node
    joined to it, and has the type of a node of the graph with the same
    id; no id is listed twice; with a cap that is not negative there are
    at most one node more than the cap; and when the cap is not below
    the number of neighbours, every edge of the graph at the center is in
    the answer. *)
Theorem build_ego_graph_star (set_iter : gset string → list string)
    g center_id max_neighbors :
  (∀ X, set_iter X ≡ₚ elements X) →
  let ego := AiClient.build_ego_graph set_iter g center_id max_neighbors in
  let near x := x = center_id ∨ AiClient.ego_adjacent g center_id x in
  (∀ e, e ∈ graph_edges ego →
        e ∈ graph_edges g ∧ near (e_source e) ∧ near (e_target e))
  ∧ (∀ n, n ∈ graph_nodes ego →
          near (n_id n)
          ∧ ∃ n0, n0 ∈ graph_nodes g ∧ n_id n0 = n_id n
                  ∧ n_type n0 = n_type n)
  ∧ NoDup (n_id <$> graph_nodes ego)
  ∧ (0 ≤ max_neighbors →
     (length (graph_nodes ego) ≤ 1 + Z.to_nat max_neighbors)%nat)
  ∧ (Z.of_nat (size (AiClient.ego_neighbors (graph_edges g) center_id))
       ≤ max_neighbors →
     ∀ e, e ∈ graph_edges g → e_source e ≠ "" → e_target e ≠ "" →
          e_source e = center_id ∨ e_target e = center_id →
          e ∈ graph_edges ego).
Proof.
  intros Hiter ego near. subst ego near. split_and!.
  - intros e He.
    exact (ego_edge set_iter Hiter g center_id max_neighbors e He).
  - intros n Hn.
    destruct (ego_node set_iter Hiter g center_id max_neighbors n Hn)
      as (? & _ & ?).
    done.
  - exact (ego_nodes_NoDup set_iter Hiter g center_id max_neighbors).
  - exact (ego_nodes_length set_iter g center_id max_neighbors).
  - intros Hsize e.
    exact (ego_star set_iter Hiter g center_id max_neighbors e Hsize).
Qed.

Lemma build_ego_graph_star_witness :
  (length (graph_nodes
             (AiClient.build_ego_graph elements
                (graph (Network.get_graph_network Samples.team))
                "project_1" 1))
   ≤ 1 + Z.to_nat 1)%nat.
Proof.
  refine (proj1 (proj2 (proj2 (proj2
            (build_ego_graph_star elements
               (graph (Network.get_graph_network Samples.team))
               "project_1" 1 _)))) _).
  - reflexivity.
  - lia.
Defined.

Lemma nid_not_empty db kind i : has_entity db kind i → _nid kind i ≠ "".
Proof.
  unfold _nid.
  by intros [[-> _]|[[-> _]|[[-> _]|[-> _]]]]; rewrite app_cons.
Qed.

Lemma network_node_ids db x :
  has_node (graph (Network.get_graph_network db)) x → x ≠ "".
Proof.
  intros (kind & i & -> & Hent)%(network_graph_spec db "" "" "").
  by eapply nid_not_empty.
Qed.

Lemma network_edge_nodes db e :
  e ∈ graph_edges (graph (Network.get_graph_network db)) →
  network_edge db (e_source e) (e_target e) (e_type e)
  ∧ has_node (graph (Network.get_graph_network db)) (e_source e)
  ∧ has_node (graph (Network.get_graph_network db)) (e_target e).
Proof.
  intros He.
  assert (has_edge (graph (Network.get_graph_network db))
            (e_source e) (e_target e) (e_type e)) as Hedge.
  { unfold has_edge. by apply (list_elem_of_fmap_2 edge_key). }
  apply (network_graph_spec db _ _ _ "") in Hedge.
  split; [done|].
  destruct (network_edge_ends _ _ _ _ Hedge) as [Hs Hd].
  split.
  - by apply (network_graph_spec db "" "" "" (e_source e)).
  - by apply (network_graph_spec db "" "" "" (e_target e)).
Qed.

Lemma nid_to_node_None nodes nid :
  nid ∉ n_id <$> nodes → AiClient.nid_to_node nodes nid = None.
Proof.
  intros Hno. unfold AiClient.nid_to_node. rewrite filter_none; [done|].
  intros n Hn [Hid _]. apply Hno. rewrite <-Hid.
  by apply list_elem_of_fmap_2.
Qed.

(** X30.  [build_ego_graph] applied to the graph of
    [get_graph_network], the value [generate_node_summary] computes
    first and then hands to [expand_seed_graph], which adds to it: this
    ego graph is a part of the full graph that stands on its own.  Each
    of its edges is an edge the store accounts for and joins two of its
    own nodes, each of its nodes is the node of a stored entity of the
    node's type, and the center is a node of it when it is a node of the
    full graph.  For a center that is no node of the full graph it is
    empty.  Nothing is said of the graph after [expand_seed_graph]. *)
Theorem ego_of_network (set_iter : gset string → list string)
    db center_id max_neighbors :
  (∀ X, set_iter X ≡ₚ elements X) →
  let g := graph (Network.get_graph_network db) in
  let ego := AiClient.build_ego_graph set_iter g center_id max_neighbors in
  referentially_closed ego
  ∧ (∀ e, e ∈ graph_edges ego →
          network_edge db (e_source e) (e_target e) (e_type e))
  ∧ (∀ n, n ∈ graph_nodes ego →
          ∃ i, n_id n = _nid (n_type n) i ∧ has_entity db (n_type n) i)
  ∧ (has_node g center_id → has_node ego center_id)
  ∧ (¬ has_node g center_id → ego = mkGraph [] []).
Proof.
  intros Hiter g ego.
  assert (∀ x, x ∈ ({[center_id]}
                    ∪ list_to_set
                        (AiClient.slice_to max_neighbors
                           (set_iter (AiClient.ego_neighbors (graph_edges g)
                                        center_id))) : gset string) →
               has_node g x → has_node ego x) as Hlisted.
  { intros x Hx Hnode. pose proof (network_node_ids db x Hnode) as Hne.
    destruct (nid_to_node_is_Some (graph_nodes g) x Hnode Hne) as [n Hn].
    pose proof (nid_to_node_Some _ _ _ Hn) as (Hid & _).
    unfold has_node. rewrite <-Hid. apply list_elem_of_fmap_2.
    subst ego. unfold AiClient.build_ego_graph. cbn [graph_nodes].
    apply elem_of_app.
    apply elem_of_union in Hx as [->%elem_of_singleton|Hx%elem_of_list_to_set].
    - left. rewrite Hn. cbn. by left.
    - right. apply list_elem_of_omap. by exists x. }
  split_and!.
  - intros e He.
    subst ego. unfold AiClient.build_ego_graph in He.
    cbn [graph_edges] in He.
    apply list_elem_of_filter in He as [[Hs Ht] Heg].
    destruct (network_edge_nodes db e Heg) as (_ & Hns & Hnt).
    split; by apply Hlisted.
  - intros e He.
    apply (ego_edge set_iter Hiter) in He as [Heg _].
    by apply network_edge_nodes.
  - intros n Hn.
    apply (ego_node set_iter Hiter) in Hn as (_ & _ & n0 & Hn0 & Hid & Hty).
    destruct (network_graph_spec db "" "" "" "") as (_ & _ & Hall).
    cbv zeta in Hall. rewrite Forall_forall in Hall.
    destruct (Hall n0 Hn0) as (i & Hid0 & Hent).
    exists i. by rewrite <-Hid, <-Hty.
  - intros Hnode. apply Hlisted; [|done].
    apply elem_of_union. left. by apply elem_of_singleton.
  - intros Hno.
    assert (AiClient.ego_neighbors (graph_edges g) center_id = ∅) as Hempty.
    { apply set_eq. intros x. rewrite ego_neighbors_elem. split.
      - intros (_ & e & He & _ & _ & [[Hc _]|[Hc _]]);
          destruct (network_edge_nodes db e He) as (_ & Hns & Hnt);
          destruct Hno; by rewrite <-Hc.
      - by intros ?%elem_of_empty. }
    subst ego. unfold AiClient.build_ego_graph. fold g. rewrite Hempty.
    assert (set_iter ∅ = []) as ->.
    { apply Permutation_nil_r. by rewrite Hiter, elements_empty. }
    assert (AiClient.slice_to max_neighbors (@nil string) = []) as ->.
    { unfold AiClient.slice_to. case_decide; apply take_nil. }
    rewrite nid_to_node_None by done. cbn. f_equal.
    apply filter_none. intros e He [Hs _].
    destruct (network_edge_nodes db e He) as (_ & Hns & _).
    apply elem_of_union in Hs as [Hs%elem_of_singleton|Hs].
    + destruct Hno. by rewrite <-Hs.
    + by apply elem_of_empty in Hs.
Qed.

Lemma ego_of_network_witness :
  has_node
    (AiClient.build_ego_graph elements
       (graph (Network.get_graph_network Samples.team)) "task_1" 50)
    "task_1".
Proof.
  refine (proj1 (proj2 (proj2 (proj2
            (ego_of_network elements Samples.team "task_1" 50 _)))) _).
  - reflexivity.
  - unfold has_node. apply (bool_decide_unpack _). by vm_compute.
Defined.
